(* ===== verification/_CoqProject ===== *)
-Q . S2P
Prelude.v
Machine.v
Protocol.v
PageService.v
TableService.v
Connection.v
Paging.v
PagingInv.v
PagingOps.v
PagingAccess.v
PagingSpec.v
PagingTheorems.v
Node.v
Gossip.v
GossipTheorems.v
Cluster.v
ClusterInv.v
ClusterTheorems.v
ClusterSteps.v
ClusterClaims.v
ClusterRouting.v
Server.v
ServerSpec.v
ServerTheorems.v
ServerLoop.v
ServerHeap.v
ServerWorld.v
ServerClaims.v
System.v
Config.v
ConfigTheorems.v
ServerMain.v
ServerMainTheorems.v
Options.v
OptionsTheorems.v
Client.v
Signal.v
ClientTheorems.v
ClientClaims.v
ClientMainTheorems.v
