(* ===== verification/Prelude.v ===== *)
(** * A verification library for the page-based distributed shared memory

    ** The program

    A client process maps a large space of 4096-byte pages onto a few local
    frames; the pages live in a server, which is reached over TCP.  Servers
    may form a cluster in which each owns a range of the pages, learns about
    the others by gossip over UDP, and forwards requests to the owner.

    - the pager ([dsm_paging.c], [dsm_paging.h]): page table, frame table,
      free list, clock eviction with writeback, sequential prefetch;
    - the wire protocol and RPC client ([dsm_common.c], [dsm_protocol.h]):
      the 8-byte header, the loops that send and receive whole buffers, and
      the calls get, batch get and put, which the pager makes;
    - the gossip codec ([dsm_gossip.c], [dsm_gossip.h]);
    - the cluster node ([dsm_cluster.c], [dsm_cluster.h]): the membership
      table, failure detection, ownership and forwarding; it uses the codec,
      and the RPC client towards its peers;
    - the server ([dsm_server.c]): a thread per client that answers the RPCs
      from the page store or through the cluster, the accept loop, [main];
    - configuration ([dsm_config.c], [dsm_config.h]) from defaults,
      environment and command line;
    - the client program ([dsm_client.c]): connecting, benchmark, end-to-end
      verification, [main].

    ** Which file models what

    [Prelude] has the machine integers, byte encodings, C-style indexing of
    lists ([zget], [zupd], [slice], [splice]) and their lemmas and rewrite
    base.  [Machine] has the execution model: a C function is a computation
    over an explicit state that returns, meets undefined behaviour, does not
    return, or is killed by a signal; [wp] is total correctness and [safe] its
    partial version, for loops that need not end.  Every definition below keeps the name of the C
    function, and a loop or branch of a long function that became a
    definition of its own is named after what it does.

    - Wire protocol: [Protocol].  [SocketOps] and [SockoptOps] are the calls
      of the kernel, [Sockets] is what the transfer loops rely on: what was
      sent, what is still pending to be received, interruptions that are
      finite in number, [SIGPIPE] ignored; [Links] says which descriptors fail
      no call.  [Connection] is a socket layer with partial transfers,
      interruptions and breaks that meets them.
    - Pager: [Paging] (the record [dsm_context] and all operations),
      [PagingInv] (the invariant and how elementary moves change it),
      [PagingOps] and [PagingAccess] (specification of each operation),
      [PagingSpec] (the abstract memory) and [PagingTheorems].  The pager
      meets the protocol through the classes [RpcOps] and [PageService] of
      [PageService]; [TableService] is the small instance its examples use.
    - Gossip and cluster: [Node] (the shared records), [Gossip] and
      [GossipTheorems] (codec), [Cluster] (the record [cluster_ctx] and all
      functions), [ClusterInv] and [ClusterTheorems] (invariant and
      specifications), [ClusterSteps] (the threads as a transition system),
      [ClusterClaims], and [ClusterRouting] (ownership, where connections
      lead and where requests are forwarded; the class [Dialling]).
    - Server: [Server] (the record [server] of its globals, the client
      thread, the accept loop), [ServerSpec] (the server as a function on
      byte streams), [ServerTheorems] (the thread implements it),
      [ServerLoop] (ownership of descriptors and threads), [ServerHeap] (the
      balance of blocks and mappings; the class [Heap]), [ServerWorld] (a
      world that meets the assumptions), [ServerClaims], [ServerMain] and
      [ServerMainTheorems] ([main]).
    - Client and server together: [System].
    - Configuration: [Config], [ConfigTheorems]; command lines: [Options],
      [OptionsTheorems].
    - Client program: [Client], [Signal] (the client in a process that
      [SIGPIPE] ends), [ClientTheorems], [ClientClaims], and
      [ClientMainTheorems] ([main], over a page service that also carries
      the client's resources).

    ** What the theorems show

    - A remote memory.  Over any service that meets [PageService] the pager
      gives the results of a flat memory, failed calls having no effect; the
      real RPCs over a [Connection] to the server's stream function are such
      a service; the client thread implements the stream function.  Together:
      the program implements a memory that survives eviction, writeback,
      refetch and prefetch, and the server's store agrees with it on all
      pages not cached dirty.
    - Inside the pager.  Every access is free of undefined behaviour and
      keeps every frame either free or mapped by exactly one page; eviction
      is the clock algorithm and loses nothing; hits are local; the inline
      fast path equals the function; creation and destruction are balanced.
    - Transfers.  The loops end and move whole buffers once and in order,
      and fail only if a call fails; the header has the documented layout.
    - Gossip.  The parser is total, accepts exactly the well-formed messages
      and inverts the senders; no datagram can break a node.
    - Membership.  Invariant over every interleaving of the critical
      sections; [merge_node] refines a merge by incarnation, and what the
      table says of the nodes does not depend on the order of the records; the heartbeat follows the
      timeouts, and a silent peer is dead after two heartbeats.
    - Routing.  Ownership lookup is exact; a forwarded call is the RPC on a
      connection to the owner's client port, made if there is none; a write
      is acknowledged only when it is stored somewhere.
    - Resources.  The accept loop, connecting, and [main] of both programs
      give back each descriptor and thread exactly once, and their memory,
      whatever call fails.
    - A broken pipe.  A put on a connection is killed by [SIGPIPE] exactly
      when it finds the connection broken.  The client does what it does
      where the signal is ignored, or is killed; it is not killed where
      connections do not break.
    - Numbers.  Numerals are parsed exactly, and environment and command
      line leave every numeric field within its documented bounds.
    - Defects, as theorems about the code as it is: the benchmark's division
      by zero, the wrap-around of a stale heartbeat clock, the refresh by
      hearsay, the prefetch that has no effect on a new context.

    ** Bounds and fuel

    - [evict_page] runs at most [2 * num_pages + 1] iterations of the clock;
      that this is enough is part of its specification.
    - The transfer loops take fuel.  A call of the pager gets [io_fuel] of
      the world for each of its transfers, which are of one header, one page
      or both: every iteration moves a byte or uses up one interruption, so
      it is never exhausted, and the specifications prove the calls return.
    - The client thread takes a bound on the number of requests; any bound
      above the number of bytes pending is enough.
    - The accept loop and the cluster threads run until they are told to
      stop: their theorems are about each iteration, or [safe] for any
      number of iterations.

    ** What is assumed

    What is not in the repository is a class with named laws, and has a
    concrete instance: the kernel's sockets ([Sockets], [Links],
    [ClusterEnv], [ServerEnv]), where a connection leads ([Dialling]),
    descriptors and threads ([Resources]), memory ([Heap]), name resolution
    ([Resolver]), a connection that leads to a server ([ClientWorld]).
    Allocation grants or refuses each request; random bytes, the clock and
    the running flag are answers of the world.

    [Sockets] assumes a process that ignores [SIGPIPE], as the host of a
    library may.  The programs of the repository do not: the theorems on the
    transfer loops, the RPCs and the pager hold in them as long as no
    [writev] meets a broken connection, and [Signal] says what happens when
    one does.  The theorems on forwarding assume that a connection kept for a
    node leads to the address the table has for it.

    ** What is not modelled

    - Printing: usage texts, [*_config_print], the log macros, and the
      timings and rates that only feed them.  They change no state.
    - [getopt_long]: its result is a list of options with arguments.
    - Signal handlers: they clear the running flag, which here the world may
      clear at any reading.
    - What [sscanf] makes of a number that does not fit: undefined, as in the
      C standard.
    - Several client threads at once on the same page of the store.  The
      program takes no lock there, and the model runs one client at a time.
      The same holds for [peer_fds] of the cluster.
    - The Python binding, tests and build files.

    ** Plan

    Next: [main] of the server with a cluster, two clients interleaved at the
    granularity of requests, and convergence of the membership of several
    nodes. *)

From Stdlib Require Export ZArith Lia.
From stdpp Require Export base list list_numbers.
From coqutil Require Export Byte.
From coqutil Require Word.LittleEndianList.
From Stdlib Require Strings.Byte.

#[export] Set Default Goal Selector "!".

Declare Scope dsm_scope.
Delimit Scope dsm_scope with dsm.
Global Open Scope Z_scope.
Global Open Scope dsm_scope.

(** ** Machine-width integers

    The C code computes with [uint8_t], [uint16_t], [uint32_t] and
    [uint64_t]; a value of these types is a [Z] and every arithmetic result
    that is stored in such a type goes through the wrap-around below. *)

Definition u8 (z : Z) : Z := z mod 2 ^ 8.
Definition u16 (z : Z) : Z := z mod 2 ^ 16.
Definition u32 (z : Z) : Z := z mod 2 ^ 32.
Definition u64 (z : Z) : Z := z mod 2 ^ 64.

Definition UINT32_MAX : Z := 4294967295.



Lemma u8_range z : 0 <= u8 z < 2 ^ 8.
Proof. apply Z.mod_pos_bound; lia. Qed.

Lemma u16_range z : 0 <= u16 z < 2 ^ 16.
Proof. apply Z.mod_pos_bound; lia. Qed.

Lemma u32_range z : 0 <= u32 z < 2 ^ 32.
Proof. apply Z.mod_pos_bound; lia. Qed.

Lemma u64_range z : 0 <= u64 z < 2 ^ 64.
Proof. apply Z.mod_pos_bound; lia. Qed.

Lemma u8_small z : 0 <= z < 2 ^ 8 → u8 z = z.
Proof. apply Z.mod_small. Qed.

Lemma u16_small z : 0 <= z < 2 ^ 16 → u16 z = z.
Proof. apply Z.mod_small. Qed.

Lemma u32_small z : 0 <= z < 2 ^ 32 → u32 z = z.
Proof. apply Z.mod_small. Qed.

Lemma u64_small z : 0 <= z < 2 ^ 64 → u64 z = z.
Proof. apply Z.mod_small. Qed.

(** [word_small] discharges the wrap-arounds whose argument is in range. *)
Ltac word_small :=
  repeat (rewrite ?u8_small, ?u16_small, ?u32_small, ?u64_small by lia).

(** ** Arrays

    A C array is a list; [zget] and [zupd] index it with a C integer.  The
    definitions are total: the bounds check, and the undefined behaviour of
    an access that fails it, belong to the machine (file Machine). *)

Definition zget {A} (l : list A) (i : Z) : option A :=
  if 0 <=? i then l !! Z.to_nat i else None.

Definition zupd {A} (l : list A) (i : Z) (x : A) : list A :=
  <[Z.to_nat i := x]> l.

Definition zlen {A} (l : list A) : Z := Z.of_nat (length l).

Section arrays.
Context {A : Type}.
Implicit Types (l : list A) (i j : Z) (x : A).

Lemma zget_Some_range l i x : zget l i = Some x → 0 <= i < zlen l.
Proof.
  unfold zget, zlen. intros H. destruct (Z.leb_spec 0 i); [|done].
  apply lookup_lt_Some in H. lia.
Qed.

Lemma zget_in_range l i : 0 <= i < zlen l → ∃ x, zget l i = Some x.
Proof.
  unfold zget, zlen. intros H. rewrite (proj2 (Z.leb_le 0 i)) by lia.
  apply lookup_lt_is_Some. lia.
Qed.

Lemma zget_None l i : zget l i = None ↔ i < 0 ∨ zlen l <= i.
Proof.
  split.
  - intros H. destruct (decide (0 <= i < zlen l)) as [Hr|]; [|lia].
    destruct (zget_in_range l i Hr); congruence.
  - intros H. destruct (zget l i) as [x|] eqn:E; [|done].
    apply zget_Some_range in E. lia.
Qed.

Lemma zget_lookup l i : 0 <= i → zget l i = l !! Z.to_nat i.
Proof. intros. unfold zget. by rewrite (proj2 (Z.leb_le 0 i)). Qed.

Lemma zget_nat l (n : nat) : zget l (Z.of_nat n) = l !! n.
Proof. rewrite zget_lookup by lia. by rewrite Nat2Z.id. Qed.

Lemma zget_elem l i x : zget l i = Some x → x ∈ l.
Proof.
  intros H. pose proof (zget_Some_range _ _ _ H).
  rewrite zget_lookup in H by lia. by eapply list_elem_of_lookup_2.
Qed.

Lemma zlen_zupd l i x : zlen (zupd l i x) = zlen l.
Proof. unfold zlen, zupd. by rewrite length_insert. Qed.

Lemma zupd_zupd l i x y : zupd (zupd l i x) i y = zupd l i y.
Proof. unfold zupd. apply list_insert_insert_eq. Qed.

Lemma zget_zupd_eq l i x : 0 <= i < zlen l → zget (zupd l i x) i = Some x.
Proof.
  unfold zlen. intros. rewrite zget_lookup by lia. unfold zupd.
  apply list_lookup_insert_eq. lia.
Qed.

Lemma zget_zupd_ne l i j x : 0 <= i → i ≠ j → zget (zupd l i x) j = zget l j.
Proof.
  intros. unfold zget, zupd. destruct (Z.leb_spec 0 j); [|done].
  apply list_lookup_insert_ne. lia.
Qed.

Lemma zget_zupd l i j x : 0 <= i < zlen l →
  zget (zupd l i x) j = if decide (i = j) then Some x else zget l j.
Proof.
  intros. case_decide; [subst; by apply zget_zupd_eq|].
  apply zget_zupd_ne; [lia|done].
Qed.

Lemma zlen_nonneg l : 0 <= zlen l.
Proof. unfold zlen. lia. Qed.

Lemma zlen_app l1 l2 : zlen (l1 ++ l2) = zlen l1 + zlen l2.
Proof. unfold zlen. rewrite length_app. lia. Qed.

Lemma zlen_cons x l : zlen (x :: l) = 1 + zlen l.
Proof. unfold zlen. simpl. lia. Qed.

Lemma zlen_replicate (n : nat) x : zlen (replicate n x) = Z.of_nat n.
Proof. unfold zlen. by rewrite length_replicate. Qed.
End arrays.

(** ** Regions of a byte buffer

    [slice] reads [n] elements at an offset, [splice] overwrites a region:
    the effect of [memcpy] on the destination buffer. *)

Definition slice {A} (l : list A) (off n : nat) : list A := take n (drop off l).

Definition splice {A} (l : list A) (off : nat) (bs : list A) : list A :=
  take off l ++ bs ++ drop (off + length bs) l.

Section regions.
Context {A : Type}.
Implicit Types (l bs : list A).

Lemma length_slice l off n :
  (off + n ≤ length l)%nat → length (slice l off n) = n.
Proof. intros. unfold slice. rewrite length_take, length_drop. lia. Qed.

Lemma length_splice l off bs :
  (off + length bs ≤ length l)%nat → length (splice l off bs) = length l.
Proof.
  intros. unfold splice. rewrite !length_app, length_take, length_drop. lia.
Qed.

Lemma lookup_slice l off n i :
  (i < n)%nat → slice l off n !! i = l !! (off + i)%nat.
Proof. intros. unfold slice. by rewrite lookup_take_lt, lookup_drop by lia. Qed.

Lemma lookup_slice_ge l off n i : (n ≤ i)%nat → slice l off n !! i = None.
Proof. intros. apply lookup_take_ge. lia. Qed.

Lemma lookup_splice_in l off bs i :
  (off + length bs ≤ length l)%nat → (off ≤ i < off + length bs)%nat →
  splice l off bs !! i = bs !! (i - off)%nat.
Proof.
  intros. unfold splice. rewrite lookup_app_r by (rewrite length_take; lia).
  rewrite length_take, lookup_app_l by lia. f_equal. lia.
Qed.

Lemma lookup_splice_out l off bs i :
  (off + length bs ≤ length l)%nat → (i < off ∨ off + length bs ≤ i)%nat →
  splice l off bs !! i = l !! i.
Proof.
  intros ? [?|?]; unfold splice.
  - rewrite lookup_app_l by (rewrite length_take; lia). apply lookup_take_lt. lia.
  - rewrite lookup_app_r by (rewrite length_take; lia).
    rewrite lookup_app_r by (rewrite length_take; lia).
    rewrite lookup_drop, length_take. f_equal. lia.
Qed.

Lemma slice_splice_same l off bs :
  (off + length bs ≤ length l)%nat →
  slice (splice l off bs) off (length bs) = bs.
Proof.
  intros. apply list_eq. intros i. destruct (decide (i < length bs)%nat).
  - rewrite lookup_slice, lookup_splice_in by lia. f_equal. lia.
  - rewrite lookup_slice_ge by lia. symmetry. apply lookup_ge_None. lia.
Qed.

Lemma slice_splice_disjoint l off bs off' n :
  (off + length bs ≤ length l)%nat →
  (off' + n ≤ off ∨ off + length bs ≤ off')%nat →
  slice (splice l off bs) off' n = slice l off' n.
Proof.
  intros. apply list_eq. intros i. destruct (decide (i < n)%nat).
  - rewrite !lookup_slice by lia. apply lookup_splice_out; lia.
  - by rewrite !lookup_slice_ge by lia.
Qed.

(** A write inside a region changes the region the same way. *)
Lemma slice_splice_inside l o n off bs :
  (o + n ≤ length l)%nat → (off + length bs ≤ n)%nat →
  slice (splice l (o + off) bs) o n = splice (slice l o n) off bs.
Proof.
  intros Hl Hb.
  assert (length (slice l o n) = n) as Hn by (by apply length_slice).
  apply list_eq. intros i. destruct (decide (i < n)%nat) as [Hi|Hi].
  - rewrite lookup_slice by done. destruct (decide (off ≤ i < off + length bs)%nat).
    + rewrite !lookup_splice_in by lia. f_equal. lia.
    + rewrite !lookup_splice_out by lia. by rewrite lookup_slice by done.
  - rewrite lookup_slice_ge by lia. symmetry. apply lookup_ge_None.
    rewrite length_splice by lia. lia.
Qed.

Lemma splice_all l bs : length bs = length l → splice l 0 bs = bs.
Proof.
  intros H. unfold splice. rewrite take_0, Nat.add_0_l, H, drop_all.
  by rewrite app_nil_r.
Qed.

Lemma slice_app l1 l2 n : n = length l1 → slice (l1 ++ l2) 0 n = l1.
Proof. intros ->. unfold slice. rewrite drop_0. apply take_app_length. Qed.

(** Skipping the first field of a packed struct. *)
Lemma slice_app_skip l1 l2 off n :
  (length l1 ≤ off)%nat → slice (l1 ++ l2) off n = slice l2 (off - length l1) n.
Proof. intros H. unfold slice. by rewrite drop_app_ge. Qed.

Lemma slice_slice l o n o' m :
  (o' + m ≤ n)%nat → slice (slice l o n) o' m = slice l (o + o') m.
Proof.
  intros H. unfold slice. rewrite take_drop_commute, take_take, Nat.min_l by lia.
  by rewrite <- take_drop_commute, drop_drop.
Qed.

Lemma slice_all l n : length l = n → slice l 0 n = l.
Proof. intros <-. unfold slice. by rewrite drop_0, firstn_all. Qed.
End regions.

(** Element [i] of a concatenation of blocks of equal length. *)
Lemma slice_concat {A} (ls : list (list A)) (r : list A) (k i : nat) (x : list A) :
  Forall (λ l, length l = k) ls → ls !! i = Some x →
  slice (concat ls ++ r) (i * k) k = x.
Proof.
  revert i. induction ls as [|l ls IH]; intros i Hls Hi; [done|].
  apply Forall_cons in Hls as [Hl Hls]. destruct i as [|i]; simpl in *.
  - simplify_eq. rewrite <- app_assoc. by apply slice_app.
  - rewrite <- (IH i Hls Hi). unfold slice. f_equal. rewrite <- app_assoc.
    rewrite <- Hl at 1. by rewrite drop_app_add.
Qed.

Lemma length_concat_eq {A} (ls : list (list A)) (k : nat) :
  Forall (λ l, length l = k) ls → length (concat ls) = (length ls * k)%nat.
Proof.
  induction 1 as [|l ls Hl _ IH]; simpl; [done|]. rewrite length_app. lia.
Qed.

(** ** Counting *)

(** A [NoDup] list of indices below [n] has at most [n] elements. *)
Lemma NoDup_bounded_length (l : list Z) (n : Z) :
  NoDup l → (∀ x, x ∈ l → 0 <= x < n) → zlen l <= Z.max 0 n.
Proof.
  intros Hnd Hb. unfold zlen.
  assert (l ⊆+ seqZ 0 n) as Hs%submseteq_length.
  { apply NoDup_submseteq; [done|]. intros x Hx. apply elem_of_seqZ.
    specialize (Hb x Hx). lia. }
  rewrite length_seqZ in Hs. lia.
Qed.

Lemma length_filter_mono {A} (P Q : A → Prop) `{∀ x, Decision (P x), ∀ x, Decision (Q x)}
    (l : list A) :
  (∀ x, x ∈ l → Q x → P x) → (length (filter Q l) ≤ length (filter P l))%nat.
Proof.
  induction l as [|x l IH]; intros HQP; [done|].
  assert (length (filter Q l) ≤ length (filter P l))%nat.
  { apply IH. intros y ?. apply HQP. by right. }
  rewrite !filter_cons. specialize (HQP x (list_elem_of_here _ _)).
  repeat case_decide; simpl; first [lia | exfalso; auto].
Qed.

Lemma length_filter_strict {A} (P Q : A → Prop) `{∀ x, Decision (P x), ∀ x, Decision (Q x)}
    (l : list A) y :
  (∀ x, x ∈ l → Q x → P x) → y ∈ l → P y → ¬ Q y →
  (length (filter Q l) < length (filter P l))%nat.
Proof.
  intros HQP Hy HP HQ. induction l as [|x l IH]; [by apply not_elem_of_nil in Hy|].
  assert (∀ x, x ∈ l → Q x → P x) as Hl by (intros z ?; apply HQP; by right).
  pose proof (length_filter_mono P Q l Hl).
  pose proof (HQP x (list_elem_of_here _ _)).
  rewrite !filter_cons. apply elem_of_cons in Hy as [->|Hy].
  - repeat case_decide; simpl; first [lia | done].
  - specialize (IH Hl Hy). repeat case_decide; simpl; first [lia | exfalso; auto].
Qed.

(** Appending to the used prefix of a fixed array. *)
Lemma take_zupd_snoc {A} (l : list A) (i : Z) (x : A) :
  0 <= i < zlen l →
  take (Z.to_nat (i + 1)) (zupd l i x) = take (Z.to_nat i) l ++ [x].
Proof.
  unfold zlen, zupd. intros. replace (Z.to_nat (i + 1)) with (S (Z.to_nat i)) by lia.
  rewrite (take_S_r _ _ x) by (apply list_lookup_insert_eq; lia).
  by rewrite take_insert_ge by lia.
Qed.

Lemma take_snoc_zget {A} (l : list A) (i : Z) (x : A) :
  zget l i = Some x → take (Z.to_nat (i + 1)) l = take (Z.to_nat i) l ++ [x].
Proof.
  intros H. pose proof (zget_Some_range _ _ _ H). rewrite zget_lookup in H by lia.
  replace (Z.to_nat (i + 1)) with (S (Z.to_nat i)) by lia. by apply take_S_r.
Qed.

Lemma zget_take {A} (l : list A) (n : nat) (i : Z) :
  i < Z.of_nat n → zget (take n l) i = zget l i.
Proof.
  intros. unfold zget. destruct (Z.leb_spec 0 i); [|done]. apply lookup_take_lt. lia.
Qed.

Lemma find_app {A} (f : A → bool) (l1 l2 : list A) :
  find f (l1 ++ l2) = match find f l1 with Some x => Some x | None => find f l2 end.
Proof. induction l1 as [|x l1 IH]; simpl; [done|]. by destruct (f x). Qed.

(** [find] is a search for the first element with a property. *)
Definition first_at {A} (f : A → bool) (l : list A) (i : Z) (x : A) : Prop :=
  zget l i = Some x ∧ f x = true ∧ ∀ j y, 0 <= j < i → zget l j = Some y → f y = false.

Lemma first_at_cons {A} (f : A → bool) y l i x :
  f y = false → first_at f l i x → first_at f (y :: l) (i + 1) x.
Proof.
  intros Hy (Hx & Hf & Hbefore). pose proof (zget_Some_range _ _ _ Hx).
  rewrite zget_lookup in Hx by lia. split_and!; [|done|].
  - rewrite zget_lookup by lia. by replace (Z.to_nat (i + 1)) with (S (Z.to_nat i)) by lia.
  - intros j z Hj Hz. rewrite zget_lookup in Hz by lia.
    destruct (decide (j = 0)) as [->|]; [by injection Hz as <-|].
    apply (Hbefore (j - 1)); [lia|]. rewrite zget_lookup by lia.
    by replace (Z.to_nat j) with (S (Z.to_nat (j - 1))) in Hz by lia.
Qed.

Lemma find_first {A} (f : A → bool) l x : find f l = Some x → ∃ i, first_at f l i x.
Proof.
  induction l as [|y l IH]; simpl; [done|]. destruct (f y) eqn:Ey.
  - intros [= ->]. exists 0. split_and!; [done|done|]. intros j z Hj. lia.
  - intros [i Hi]%IH. exists (i + 1). by apply first_at_cons.
Qed.

Lemma first_at_find {A} (f : A → bool) l i x : first_at f l i x → find f l = Some x.
Proof.
  intros (Hx & Hf & Hbefore). pose proof (zget_Some_range _ _ _ Hx). rewrite zget_lookup in Hx by lia.
  rewrite <- (take_drop_middle _ _ _ Hx), find_app.
  destruct (find f (take (Z.to_nat i) l)) as [y|] eqn:E; [|simpl; by rewrite Hf].
  apply find_some in E as [Hin Hy]. apply list_elem_of_In, list_elem_of_lookup in Hin as [j Hj].
  apply lookup_take_Some in Hj as [Hj Hlt].
  assert (f y = false); [|congruence]. apply (Hbefore (Z.of_nat j)); [lia|].
  rewrite zget_lookup, Nat2Z.id by lia. done.
Qed.

(** ** Little-endian encoding

    The packed structs go over the wire as they lie in memory; the build
    targets (x86-64 and arm64 Linux) are little-endian. *)

Definition le_bytes (n : nat) (z : Z) : list byte := LittleEndianList.le_split n z.
Definition le_val (bs : list byte) : Z := LittleEndianList.le_combine bs.

#[export] Instance byte_eq_dec : EqDecision byte := Stdlib.Strings.Byte.byte_eq_dec.

Create Rewrite HintDb bytes.

Lemma length_le_bytes n z : length (le_bytes n z) = n.
Proof. apply LittleEndianList.length_le_split. Qed.

Lemma le_val_bytes n z : le_val (le_bytes n z) = z mod 2 ^ (Z.of_nat n * 8).
Proof. apply LittleEndianList.le_combine_split. Qed.

Lemma le_bytes_val bs n : n = length bs → le_bytes n (le_val bs) = bs.
Proof. intros ->. apply LittleEndianList.split_le_combine. Qed.

Lemma le_val_range bs : 0 <= le_val bs < 2 ^ (8 * Z.of_nat (length bs)).
Proof. apply LittleEndianList.le_combine_bound. Qed.

#[export] Hint Rewrite length_le_bytes : bytes.

(** One and four bytes, written out. *)
Lemma le_bytes_1 z : le_bytes 1 z = [byte.of_Z z].
Proof. done. Qed.

Lemma byte_of_Z_mod z : byte.of_Z (z mod 256) = byte.of_Z z.
Proof. apply byte.unsigned_inj. rewrite !byte.unsigned_of_Z. unfold byte.wrap. apply (Z.mod_mod z 256). done. Qed.

Lemma le_bytes_4 z : 0 <= z < 2 ^ 32 →
  le_bytes 4 z = byte.of_Z <$> [z mod 256; z / 2 ^ 8 mod 256; z / 2 ^ 16 mod 256; z / 2 ^ 24].
Proof.
  intros Hz. change (le_bytes 4 z) with (byte.of_Z <$> [z; z ≫ 8; (z ≫ 8) ≫ 8; ((z ≫ 8) ≫ 8) ≫ 8]).
  cbn [fmap list_fmap].
  rewrite !byte_of_Z_mod, !Z.shiftr_div_pow2, !Z.div_div by lia. done.
Qed.

Lemma le_val_1 b : le_val [b] = byte.unsigned b.
Proof. apply LittleEndianList.le_combine_1. Qed.

Lemma le_val_cons b bs : le_val (b :: bs) = byte.unsigned b + 2 ^ 8 * le_val bs.
Proof.
  change (le_val (b :: bs)) with (Z.lor (byte.unsigned b) (Z.shiftl (le_val bs) 8)).
  pose proof (byte.unsigned_range b) as Hb.
  rewrite <- Z.add_nocarry_lor; [rewrite Z.shiftl_mul_pow2 by lia; lia|].
  apply Z.bits_inj'. intros n Hn. rewrite Z.land_spec, Z.bits_0, Z.shiftl_spec by done.
  destruct (Z.ltb_spec n 8); [rewrite (Z.testbit_neg_r _ (n - 8)) by lia; apply andb_false_r|].
  rewrite <- (Z.mod_small (byte.unsigned b) (2 ^ 8)) by lia. by rewrite Z.mod_pow2_bits_high by lia.
Qed.

Lemma le_val_4 a b c d :
  le_val [a; b; c; d] = byte.unsigned a + 2 ^ 8 * byte.unsigned b + 2 ^ 16 * byte.unsigned c +
                        2 ^ 24 * byte.unsigned d.
Proof. rewrite !le_val_cons. change (le_val []) with 0. lia. Qed.

#[global] Opaque le_bytes le_val.
