(* ===== verification/Machine.v ===== *)
(** * The execution model shared by the components

    A C function becomes a computation of type [M S A]: it reads and writes
    the state [S] and ends in one of four ways.  It returns a value
    ([Ret]); it performs an operation the C standard leaves undefined, such
    as an array access out of bounds or a division by zero ([Undef]); it does
    not return ([Diverge]: a loop that exhausts its fuel, or a blocking call
    nobody answers); or a signal ends the process ([Killed]).  [wp m Q s] is
    total correctness: started in [s], [m] returns, without undefined
    behaviour and without being killed, in a result that satisfies [Q]. *)

From S2P Require Import Prelude.

Inductive outcome (A : Type) : Type :=
| Ret (a : A)
| Undef
| Diverge
| Killed.

Arguments Ret {A} a.
Arguments Undef {A}.
Arguments Diverge {A}.
Arguments Killed {A}.

Definition M (S A : Type) : Type := S → outcome (A * S).

#[global] Instance M_ret {S} : MRet (M S) := λ A a s, Ret (a, s).

#[global] Instance M_bind {S} : MBind (M S) := λ A B k m s,
  match m s with
  | Ret (a, s') => k a s'
  | Undef => Undef
  | Diverge => Diverge
  | Killed => Killed
  end.

(** ** Primitive computations *)

Definition gets {S A} (f : S → A) : M S A := λ s, Ret (f s, s).
Definition modify {S} (f : S → S) : M S unit := λ s, Ret (tt, f s).
Definition undefined {S A} : M S A := λ _, Undef.
Definition diverge {S A} : M S A := λ _, Diverge.
Definition killed {S A} : M S A := λ _, Killed.

(** Array accesses, with the bounds check C does not make. *)
Definition load {S A} (l : list A) (i : Z) : M S A :=
  match zget l i with Some x => mret x | None => undefined end.

Definition store {S A} (l : list A) (i : Z) (x : A) : M S (list A) :=
  if (0 <=? i) && (i <? zlen l) then mret (zupd l i x) else undefined.

(** Reading and overwriting [n] bytes at an offset of a buffer. *)
Definition load_region {S A} (l : list A) (off : Z) (n : nat) : M S (list A) :=
  if (0 <=? off) && (off + Z.of_nat n <=? zlen l)
  then mret (slice l (Z.to_nat off) n) else undefined.

Definition store_region {S A} (l : list A) (off : Z) (bs : list A) : M S (list A) :=
  if (0 <=? off) && (off + zlen bs <=? zlen l)
  then mret (splice l (Z.to_nat off) bs) else undefined.

(** Running a computation on the second component of the state. *)
Definition on_snd {C W A} (m : M W A) : M (C * W) A := λ s,
  match m s.2 with
  | Ret (a, w') => Ret (a, (s.1, w'))
  | Undef => Undef
  | Diverge => Diverge
  | Killed => Killed
  end.

(** [for (x : xs) body]. *)
Fixpoint for_each {S X} (xs : list X) (body : X → M S unit) : M S unit :=
  match xs with
  | [] => mret tt
  | x :: xs => body x ;; for_each xs body
  end.

(** [for (x : xs) body], where the body returns [Some r] to leave the
    function with the result [r]. *)
Fixpoint for_ret {S X R} (xs : list X) (body : X → M S (option R)) : M S (option R) :=
  match xs with
  | [] => mret None
  | x :: xs =>
      r ← body x;
      match r with
      | Some r => mret (Some r)
      | None => for_ret xs body
      end
  end.

(** [for (;;) body], where the body returns [Some r] to leave the loop with
    the result [r].  The fuel bounds the number of iterations. *)
Fixpoint loop {S A} (fuel : nat) (body : M S (option A)) : M S A :=
  match fuel with
  | O => diverge
  | S fuel =>
      r ← body;
      match r with
      | Some a => mret a
      | None => loop fuel body
      end
  end.

(** ** Total correctness *)

Definition wp {S A} (m : M S A) (Q : A → S → Prop) (s : S) : Prop :=
  match m s with
  | Ret (a, s') => Q a s'
  | Undef | Diverge | Killed => False
  end.

Section wp.
Context {S : Type}.
Implicit Types (s : S).

Lemma wp_ret {A} (a : A) (Q : A → S → Prop) s : Q a s → wp (mret a) Q s.
Proof. done. Qed.

Lemma wp_bind {A B} (m : M S A) (k : A → M S B) (Q : B → S → Prop) s :
  wp m (λ a, wp (k a) Q) s → wp (m ≫= k) Q s.
Proof. unfold wp, mbind, M_bind. destruct (m s) as [[a s']| | |]; done. Qed.

Lemma wp_mono {A} (m : M S A) (Q Q' : A → S → Prop) s :
  wp m Q s → (∀ a s', Q a s' → Q' a s') → wp m Q' s.
Proof. unfold wp. destruct (m s) as [[a s']| | |]; eauto. Qed.

Lemma wp_conj {A} (m : M S A) (Q Q' : A → S → Prop) s :
  wp m Q s → wp m Q' s → wp m (λ a s', Q a s' ∧ Q' a s') s.
Proof. unfold wp. destruct (m s) as [[a s']| | |]; done. Qed.

Lemma wp_gets {A} (f : S → A) (Q : A → S → Prop) s : Q (f s) s → wp (gets f) Q s.
Proof. done. Qed.

Lemma wp_modify (f : S → S) (Q : unit → S → Prop) s :
  Q tt (f s) → wp (modify f) Q s.
Proof. done. Qed.

Lemma wp_load {A} (l : list A) i x (Q : A → S → Prop) s :
  zget l i = Some x → Q x s → wp (load l i) Q s.
Proof. intros H HQ. unfold load. by rewrite H. Qed.

Lemma wp_store {A} (l : list A) i x (Q : list A → S → Prop) s :
  0 <= i < zlen l → Q (zupd l i x) s → wp (store l i x) Q s.
Proof.
  intros H HQ. unfold store.
  by rewrite (proj2 (Z.leb_le 0 i)), (proj2 (Z.ltb_lt i (zlen l))) by lia.
Qed.

Lemma wp_load_region {A} (l : list A) off n (Q : list A → S → Prop) s :
  0 <= off → off + Z.of_nat n <= zlen l →
  Q (slice l (Z.to_nat off) n) s → wp (load_region l off n) Q s.
Proof.
  intros ?? HQ. unfold load_region.
  by rewrite (proj2 (Z.leb_le 0 off)), (proj2 (Z.leb_le _ (zlen l))) by lia.
Qed.

Lemma wp_store_region {A} (l : list A) off bs (Q : list A → S → Prop) s :
  0 <= off → off + zlen bs <= zlen l →
  Q (splice l (Z.to_nat off) bs) s → wp (store_region l off bs) Q s.
Proof.
  intros ?? HQ. unfold store_region.
  by rewrite (proj2 (Z.leb_le 0 off)), (proj2 (Z.leb_le _ (zlen l))) by lia.
Qed.

Lemma wp_returns {A} (m : M S A) (Q : A → S → Prop) s :
  wp m Q s ↔ ∃ a s', m s = Ret (a, s') ∧ Q a s'.
Proof.
  unfold wp. split.
  - destruct (m s) as [[a s']| | |] eqn:E; [eauto|done..].
  - by intros (a & s' & -> & HQ).
Qed.

(** A fact about every result strengthens total correctness. *)
Lemma wp_strengthen {A} (m : M S A) (Q P : A → S → Prop) s :
  wp m Q s → (∀ a s', m s = Ret (a, s') → P a s') → wp m (λ a s', Q a s' ∧ P a s') s.
Proof. unfold wp. destruct (m s) as [[a s']| | |]; [|done..]. intros HQ HP. split; [done|]. by apply HP. Qed.

(** A result, with the run that gave it. *)
Lemma wp_traced {A} (m : M S A) (Q : A → S → Prop) s :
  wp m Q s → wp m (λ a s', Q a s' ∧ m s = Ret (a, s')) s.
Proof. intros H. apply (wp_strengthen _ _ (λ a s', m s = Ret (a, s'))); [done|auto]. Qed.

(** The [for] rule: an invariant indexed by the elements still to visit. *)
Lemma wp_for_each {X} (body : X → M S unit) (I : list X → S → Prop) xs s :
  I xs s →
  (∀ x xs' s, I (x :: xs') s → wp (body x) (λ _, I xs') s) →
  wp (for_each xs body) (λ _, I []) s.
Proof.
  intros HI Hbody. revert s HI. induction xs as [|x xs IH]; intros s HI.
  - by apply wp_ret.
  - simpl. apply wp_bind. eapply wp_mono; [by apply Hbody|]. eauto.
Qed.

(** The counting loop [for (i = 0; i < n; i++) body]. *)
Lemma wp_for_range (body : Z → M S unit) (P : Z → S → Prop) n s :
  0 <= n → P 0 s →
  (∀ i s, 0 <= i < n → P i s → wp (body i) (λ _, P (i + 1)) s) →
  wp (for_each (seqZ 0 n) body) (λ _, P n) s.
Proof.
  intros Hn HP Hbody.
  apply wp_mono with (Q := λ _ s, ∃ i, 0 <= i <= n ∧ [] = seqZ i (n - i) ∧ P i s).
  - apply (wp_for_each _ (λ xs s, ∃ i, 0 <= i <= n ∧ xs = seqZ i (n - i) ∧ P i s)).
    + exists 0. rewrite Z.sub_0_r. done.
    + intros x xs s' (i & Hi & E & HPi).
      destruct (decide (i = n)) as [->|]; [by rewrite Z.sub_diag in E|].
      rewrite seqZ_cons in E by lia. injection E as -> ->.
      eapply wp_mono; [apply Hbody; [lia|done]|].
      intros [] s'' HP'. exists (i + 1). split_and!; [lia|lia| |done]. f_equal; lia.
  - intros [] s' (i & Hi & E & HPi).
    destruct (decide (i = n)) as [->|]; [done|]. by rewrite seqZ_cons in E by lia.
Qed.

Lemma wp_for_ret {X R} (body : X → M S (option R)) (I : list X → S → Prop)
    (Q : R → S → Prop) xs s :
  I xs s →
  (∀ x xs' s, I (x :: xs') s → wp (body x) (λ r s',
     match r with Some r => Q r s' | None => I xs' s' end) s) →
  wp (for_ret xs body) (λ r s',
     match r with Some r => Q r s' | None => I [] s' end) s.
Proof.
  intros HI Hbody. revert s HI. induction xs as [|x xs IH]; intros s HI.
  - by apply wp_ret.
  - simpl. apply wp_bind. eapply wp_mono; [by apply Hbody|].
    intros [r|] s' HQ; [by apply wp_ret|by apply IH].
Qed.

(** The counting loop with an early return. *)
Lemma wp_for_ret_range {R} (body : Z → M S (option R)) (P : Z → S → Prop)
    (Q : R → S → Prop) n s :
  0 <= n → P 0 s →
  (∀ i s, 0 <= i < n → P i s → wp (body i) (λ r s',
     match r with Some r => Q r s' | None => P (i + 1) s' end) s) →
  wp (for_ret (seqZ 0 n) body) (λ r s',
     match r with Some r => Q r s' | None => P n s' end) s.
Proof.
  intros Hn HP Hbody. eapply wp_mono.
  - apply (wp_for_ret _ (λ xs s, ∃ i, 0 <= i <= n ∧ xs = seqZ i (n - i) ∧ P i s) Q).
    + exists 0. rewrite Z.sub_0_r. done.
    + intros x xs s' (i & Hi & E & HPi).
      destruct (decide (i = n)) as [->|]; [by rewrite Z.sub_diag in E|].
      rewrite seqZ_cons in E by lia. injection E as -> ->.
      eapply wp_mono; [apply Hbody; [lia|done]|].
      intros [r|] s'' HP'; [done|]. exists (i + 1). split_and!; [lia|lia| |done]. f_equal; lia.
  - intros [r|] s'; [done|]. intros (i & Hi & E & HPi).
    destruct (decide (i = n)) as [->|]; [done|]. by rewrite seqZ_cons in E by lia.
Qed.

(** The loop rule: an invariant and a measure that decreases with each
    iteration that goes round again; the fuel has only to exceed it. *)
Lemma wp_loop {A} (body : M S (option A)) (I : S → Prop) (f : S → nat)
    (Q : A → S → Prop) fuel s :
  (∀ s, I s → wp body (λ r s',
     match r with
     | Some a => Q a s'
     | None => I s' ∧ (f s' < f s)%nat
     end) s) →
  I s → (f s < fuel)%nat → wp (loop fuel body) Q s.
Proof.
  intros Hbody. revert s. induction fuel as [|fuel IH]; intros s HI Hf; [lia|].
  simpl. apply wp_bind. eapply wp_mono; [by apply Hbody|].
  intros [a|] s'; [by intros; apply wp_ret|].
  intros [HI' Hlt]. apply IH; [done|lia].
Qed.

(** A result obtained with some fuel is the result with any larger fuel. *)
Lemma loop_fuel_mono {A} (body : M S (option A)) n m s r :
  loop n body s = Ret r → (n ≤ m)%nat → loop m body s = Ret r.
Proof.
  revert m s. induction n as [|n IH]; intros m s; [done|].
  destruct m as [|m]; [lia|]. simpl. unfold mbind, M_bind.
  destruct (body s) as [[[a|] s']| | |]; [done| |done..].
  intros. apply IH; [done|lia].
Qed.

End wp.

(** ** Safety

    [safe m Q s]: what [m] has done when it returns satisfies [Q], and it has
    no undefined behaviour and is not killed; it may also run for ever, as a
    server does. *)

Definition safe {S A} (m : M S A) (Q : A → S → Prop) (s : S) : Prop :=
  match m s with
  | Ret (a, s') => Q a s'
  | Undef | Killed => False
  | Diverge => True
  end.

Section safe.
Context {S : Type}.
Implicit Types (s : S).

Lemma safe_wp {A} (m : M S A) (Q : A → S → Prop) s : wp m Q s → safe m Q s.
Proof. unfold wp, safe. by destruct (m s) as [[a s']| | |]. Qed.

Lemma safe_bind {A B} (m : M S A) (k : A → M S B) (Q : B → S → Prop) s :
  safe m (λ a, safe (k a) Q) s → safe (m ≫= k) Q s.
Proof. unfold safe, mbind, M_bind. by destruct (m s) as [[a s']| | |]. Qed.

Lemma safe_mono {A} (m : M S A) (Q Q' : A → S → Prop) s :
  safe m Q s → (∀ a s', Q a s' → Q' a s') → safe m Q' s.
Proof. unfold safe. destruct (m s) as [[a s']| | |]; eauto. Qed.

Lemma safe_strengthen {A} (m : M S A) (Q P : A → S → Prop) s :
  safe m Q s → (∀ a s', m s = Ret (a, s') → P a s') → safe m (λ a s', Q a s' ∧ P a s') s.
Proof. unfold safe. destruct (m s) as [[a s']| | |]; try done. intros HQ HP. split; [done|]. by apply HP. Qed.

(** A loop without a bound on its iterations. *)
Lemma safe_loop {A} (body : M S (option A)) (I : S → Prop) (Q : A → S → Prop) fuel s :
  (∀ s, I s → safe body (λ r s', match r with Some a => Q a s' | None => I s' end) s) →
  I s → safe (loop fuel body) Q s.
Proof.
  intros Hbody. revert s. induction fuel as [|fuel IH]; intros s HI; [done|].
  simpl. apply safe_bind. eapply safe_mono; [by apply Hbody|].
  intros [a|] s' H; [done|by apply IH].
Qed.

End safe.

Lemma wp_on_snd {C W A} (m : M W A) (Q : A → C * W → Prop) c w :
  wp m (λ a w', Q a (c, w')) w → wp (on_snd m) Q (c, w).
Proof. unfold wp, on_snd. simpl. destruct (m w) as [[a w']| | |]; done. Qed.

Lemma on_snd_run {C W A} (m : M W A) (c : C) w a w' :
  m w = Ret (a, w') → on_snd m (c, w) = Ret (a, (c, w')).
Proof. unfold on_snd. simpl. by intros ->. Qed.

(** One step of symbolic execution. *)
Ltac wp_step :=
  lazymatch goal with
  | |- wp (mbind _ _) _ _ => apply wp_bind
  | |- wp (mret _) _ _ => apply wp_ret
  | |- wp (gets _) _ _ => apply wp_gets
  | |- wp (modify _) _ _ => apply wp_modify
  end.

Ltac wp_steps := repeat (wp_step; cbn beta).

#[global] Opaque wp safe.
