(* ===== verification/Protocol.v ===== *)
(** * The wire protocol: [include/dsm_protocol.h] and [src/dsm_common.c]

    The fixed 8-byte header, the loops that send and receive whole buffers
    over a socket, and the three client RPCs.  The kernel's socket calls are
    not part of the program: they are the operations of the class
    [SocketOps], and what the code relies on is the class [Sockets]. *)

From S2P Require Import Prelude Machine.

Definition PAGE_SIZE : Z := 4096.
Definition DEFAULT_PORT : Z := 9999.
Definition MAX_RETRY_ATTEMPTS : Z := 10.
Definition INITIAL_RETRY_DELAY_MS : Z := 100.

Definition OP_GET_PAGE : Z := 1.
Definition OP_PUT_PAGE : Z := 2.
Definition OP_ACK : Z := 3.

(** The number of bytes of a page, as the length of a list. *)
Definition page_bytes : nat := Z.to_nat PAGE_SIZE.

Lemma page_bytes_Z : Z.of_nat page_bytes = PAGE_SIZE.
Proof. reflexivity. Qed.

Lemma page_bytes_pos : (0 < page_bytes)%nat.
Proof. apply Nat.ltb_lt. vm_compute. reflexivity. Qed.

#[global] Opaque page_bytes.

Definition zero_page : list byte := replicate page_bytes Byte.x00.

Lemma length_zero_page : length zero_page = page_bytes.
Proof. apply length_replicate. Qed.

#[global] Opaque zero_page.

(** ** The header *)

Record dsm_rpc_header := mk_header {
  hdr_op : Z;
  hdr_pad : list byte;
  hdr_page_id : Z;
}.

(** [memset] to zero, then the two fields: the assignments convert to
    [uint8_t] and [uint32_t]. *)
Definition dsm_rpc_make_header (o p : Z) : dsm_rpc_header :=
  {| hdr_op := u8 o; hdr_pad := replicate 3 Byte.x00; hdr_page_id := u32 p |}.

(** The packed struct as it lies in memory, and back. *)
Definition header_bytes (h : dsm_rpc_header) : list byte :=
  le_bytes 1 (hdr_op h) ++ hdr_pad h ++ le_bytes 4 (hdr_page_id h).

Definition header_of_bytes (bs : list byte) : dsm_rpc_header :=
  {| hdr_op := le_val (slice bs 0 1);
     hdr_pad := slice bs 1 3;
     hdr_page_id := le_val (slice bs 4 4) |}.

Definition header_size : nat := 8.

Definition header_wf (h : dsm_rpc_header) : Prop :=
  0 <= hdr_op h < 2 ^ 8 ∧ length (hdr_pad h) = 3%nat ∧ 0 <= hdr_page_id h < 2 ^ 32.

(** ** Time *)

(** [clock_gettime] fills a [struct timespec]: seconds and nanoseconds. *)
Definition dsm_now_ms (tv_sec tv_nsec : Z) : Z :=
  u64 (u64 (u64 tv_sec * 1000) + u64 tv_nsec / 1000000).

(** ** Sockets *)

Definition EINTR : Z := 4.
Definition MSG_WAITALL : Z := 0x100.
Definition MSG_NOSIGNAL : Z := 0x4000.
Definition MSG_MORE : Z := 0x8000.
Definition EPIPE : Z := 32.

(** The result of a system call: its value, or [-1] with [errno]. *)
Inductive sysres (A : Type) : Type :=
| SysOk (a : A)
| SysErr (errno : Z).

Arguments SysOk {A} a.
Arguments SysErr {A} errno.

Class SocketOps (W : Type) := {
  sys_send : Z → list byte → Z → M W (sysres Z);
  sys_recv : Z → nat → Z → M W (sysres (list byte));
  sys_writev : Z → list (list byte) → M W (sysres Z);
  sigpipe : M W unit;
}.

(** ** Socket options *)

Definition BUSY_POLL_US : Z := 50.

Inductive sockopt :=
| TCP_NODELAY | TCP_QUICKACK | TCP_DEFER_ACCEPT
| SO_SNDBUF | SO_RCVBUF | SO_KEEPALIVE | SO_BUSY_POLL | SO_INCOMING_CPU
| SO_REUSEADDR | SO_RCVTIMEO.

Class SockoptOps (W : Type) := {
  sys_setsockopt : Z → sockopt → Z → M W (sysres unit);
}.

(** Only a failure to disable Nagle's algorithm is reported; Linux has
    [SO_BUSY_POLL] and [SO_INCOMING_CPU]. *)
Definition dsm_setup_socket_optimal {W} {OO : SockoptOps W} (fd : Z) : M W Z :=
  let flag := 1 in
  let bufsize := 1024 * 1024 in
  r ← sys_setsockopt fd TCP_NODELAY flag;
  match r with
  | SysErr _ => mret (-1)
  | SysOk _ =>
      sys_setsockopt fd SO_SNDBUF bufsize;;
      sys_setsockopt fd SO_RCVBUF bufsize;;
      sys_setsockopt fd SO_KEEPALIVE flag;;
      sys_setsockopt fd TCP_QUICKACK flag;;
      sys_setsockopt fd SO_BUSY_POLL BUSY_POLL_US;;
      sys_setsockopt fd SO_INCOMING_CPU flag;;
      mret 0
  end.

Section transfer.
Context {W : Type} {SO : SocketOps W}.

(** [ptr] and [remaining] are the part of the buffer still to send. *)
Fixpoint dsm_send_full (fuel : nat) (fd : Z) (buf : list byte) (flags : Z) : M W Z :=
  if zlen buf =? 0 then mret 0 else
  match fuel with
  | O => diverge
  | S fuel =>
      r ← sys_send fd buf (Z.lor MSG_NOSIGNAL flags);
      match r with
      | SysErr errno =>
          if errno =? EINTR then dsm_send_full fuel fd buf flags else mret (-1)
      | SysOk sent =>
          if sent =? 0 then mret (-1)
          else dsm_send_full fuel fd (drop (Z.to_nat sent) buf) flags
      end
  end.

(** [buf] is the destination and [off] is [ptr - buf]. *)
Fixpoint dsm_recv_loop (fuel : nat) (fd : Z) (buf : list byte) (off : nat) :
    M W (Z * list byte) :=
  let remaining := (length buf - off)%nat in
  if (remaining =? 0)%nat then mret (0, buf) else
  match fuel with
  | O => diverge
  | S fuel =>
      r ← sys_recv fd remaining MSG_WAITALL;
      match r with
      | SysErr errno =>
          if errno =? EINTR then dsm_recv_loop fuel fd buf off else mret (-1, buf)
      | SysOk received =>
          if (length received =? 0)%nat then mret (-1, buf)
          else dsm_recv_loop fuel fd (splice buf off received)
                 (off + length received)%nat
      end
  end.

(** The result is the return value and the new contents of the buffer, whose
    length is the [len] of the call. *)
Definition dsm_recv_full (fuel : nat) (fd : Z) (buf : list byte) : M W (Z * list byte) :=
  dsm_recv_loop fuel fd buf 0.

(** [writev] as the process meets it: it cannot pass [MSG_NOSIGNAL], so the
    error [EPIPE] comes with the signal [SIGPIPE].  [sigpipe] is what the
    signal does: it returns in a process that ignores it, and ends any other
    process, the two programs of this repository among them. *)
Definition writev (fd : Z) (iov : list (list byte)) : M W (sysres Z) :=
  r ← sys_writev fd iov;
  match r with
  | SysErr errno => if errno =? EPIPE then sigpipe;; mret r else mret r
  | SysOk _ => mret r
  end.

(** The inner loop of [dsm_sendv]: drop [written] bytes from the vector. *)
Fixpoint iov_advance (written : Z) (iov : list (list byte)) : list (list byte) :=
  match iov with
  | [] => []
  | v :: rest =>
      if 0 <? written then
        if zlen v <=? written then iov_advance (written - zlen v) rest
        else drop (Z.to_nat written) v :: rest
      else iov
  end.

Fixpoint dsm_sendv (fuel : nat) (fd : Z) (iov : list (list byte)) : M W Z :=
  if zlen iov =? 0 then mret 0 else
  match fuel with
  | O => diverge
  | S fuel =>
      r ← writev fd iov;
      match r with
      | SysErr errno =>
          if errno =? EINTR then dsm_sendv fuel fd iov else mret (-1)
      | SysOk written =>
          if written =? 0 then mret (-1)
          else dsm_sendv fuel fd (iov_advance written iov)
      end
  end.

(** ** The RPCs *)

Definition dsm_rpc_get (fuel : nat) (fd page_id : Z) (buf : list byte) :
    M W (Z * list byte) :=
  let req := dsm_rpc_make_header OP_GET_PAGE page_id in
  s ← dsm_send_full fuel fd (header_bytes req) 0;
  if s <? 0 then mret (-1, buf) else
  '(r, buf') ← dsm_recv_full fuel fd buf;
  if r <? 0 then mret (-1, buf') else mret (0, buf').

(** The two loops of [dsm_rpc_get_batch]; [bufs] is [n] contiguous pages. *)
Definition batch_send (fuel : nat) (fd : Z) (ids : list Z) (n : Z) : M W (option Z) :=
  for_ret (seqZ 0 n) (λ i,
    id ← load ids i;
    let req := dsm_rpc_make_header OP_GET_PAGE id in
    let flags := if i <? n - 1 then MSG_MORE else 0 in
    s ← dsm_send_full fuel fd (header_bytes req) flags;
    mret (if s <? 0 then Some (-1) else None)).

Fixpoint batch_recv (fuel : nat) (fd : Z) (idx : list Z) (bufs : list byte) :
    M W (Z * list byte) :=
  match idx with
  | [] => mret (0, bufs)
  | i :: idx =>
      region ← load_region bufs (i * PAGE_SIZE) page_bytes;
      '(r, region') ← dsm_recv_full fuel fd region;
      bufs' ← store_region bufs (i * PAGE_SIZE) region';
      if r <? 0 then mret (-1, bufs') else batch_recv fuel fd idx bufs'
  end.

Definition dsm_rpc_get_batch (fuel : nat) (fd : Z) (ids : list Z) (n : Z)
    (bufs : list byte) : M W (Z * list byte) :=
  if n <=? 0 then mret (0, bufs) else
  s ← batch_send fuel fd ids n;
  match s with
  | Some r => mret (r, bufs)
  | None => batch_recv fuel fd (seqZ 0 n) bufs
  end.

(** The acknowledgement is received into a local that the code does not
    initialise; it reads the local only after [dsm_recv_full] has filled it,
    so its first contents are immaterial and zeros stand for them. *)
Definition dsm_rpc_put (fuel : nat) (fd page_id : Z) (buf : list byte) : M W Z :=
  let req := dsm_rpc_make_header OP_PUT_PAGE page_id in
  s ← dsm_sendv fuel fd [header_bytes req; buf];
  if s <? 0 then mret (-1) else
  '(r, ack) ← dsm_recv_full fuel fd (replicate header_size Byte.x00);
  if r <? 0 then mret (-1) else
  if negb (hdr_op (header_of_bytes ack) =? OP_ACK) then mret (-1) else mret 0.

End transfer.

(** ** What the code relies on of the kernel

    For a descriptor, [sent] are the bytes the kernel has accepted,
    [pending] the bytes that will still arrive given what the peer has been
    sent, and [hangup] says that the stream ends after them; [interrupts]
    bounds the signals that can still interrupt a call.  A call may transfer
    any part of what it is asked to, fail, or be interrupted; [recv] returns
    when there is something to return, or the stream has ended.  The process
    ignores [SIGPIPE], as the host of a library does (a Python interpreter,
    for one); [Signal] says what holds of a process that does not. *)

Class Sockets (W : Type) `{SocketOps W} := {
  sent : W → Z → list byte;
  pending : W → Z → list byte;
  hangup : W → Z → bool;
  interrupts : W → nat;
  sigpipe_ignored w : sigpipe w = Ret (tt, w);
  sys_send_ok fd buf flags w : buf ≠ [] →
    wp (sys_send fd buf flags) (λ r w',
      match r with
      | SysOk n => 0 <= n <= zlen buf ∧
          sent w' fd = sent w fd ++ take (Z.to_nat n) buf ∧
          pending w fd `prefix_of` pending w' fd ∧
          (hangup w fd = true → hangup w' fd = true ∧ pending w' fd = pending w fd) ∧
          (interrupts w' ≤ interrupts w)%nat
      | SysErr e => sent w' fd = sent w fd ∧
          (e = EINTR → pending w fd `prefix_of` pending w' fd ∧
             (hangup w fd = true → hangup w' fd = true ∧ pending w' fd = pending w fd) ∧
                       (interrupts w' < interrupts w)%nat)
      end) w;
  sys_writev_ok fd iov w : concat iov ≠ [] →
    wp (sys_writev fd iov) (λ r w',
      match r with
      | SysOk n => 0 <= n <= zlen (concat iov) ∧
          sent w' fd = sent w fd ++ take (Z.to_nat n) (concat iov) ∧
          pending w fd `prefix_of` pending w' fd ∧
          (hangup w fd = true → hangup w' fd = true ∧ pending w' fd = pending w fd) ∧
          (interrupts w' ≤ interrupts w)%nat
      | SysErr e => sent w' fd = sent w fd ∧
          (e = EINTR → pending w fd `prefix_of` pending w' fd ∧
             (hangup w fd = true → hangup w' fd = true ∧ pending w' fd = pending w fd) ∧
                       (interrupts w' < interrupts w)%nat)
      end) w;
  sys_recv_ok fd n flags w : (0 < n)%nat → pending w fd ≠ [] ∨ hangup w fd = true →
    wp (sys_recv fd n flags) (λ r w',
      match r with
      | SysOk bs => (length bs ≤ n)%nat ∧
          pending w fd = bs ++ pending w' fd ∧
          sent w' fd = sent w fd ∧ hangup w' fd = hangup w fd ∧
          (interrupts w' ≤ interrupts w)%nat
      | SysErr e => sent w' fd = sent w fd ∧ (e = EINTR →
          pending w' fd = pending w fd ∧
          hangup w' fd = hangup w fd ∧ (interrupts w' < interrupts w)%nat)
      end) w;
}.

(** ** The header *)

Lemma length_header_bytes h : header_wf h → length (header_bytes h) = header_size.
Proof.
  intros (_ & Hp & _). unfold header_bytes.
  rewrite !length_app, !length_le_bytes, Hp. done.
Qed.

Lemma make_header_wf o p : header_wf (dsm_rpc_make_header o p).
Proof.
  split_and!; simpl; try apply u8_range; try apply u32_range. done.
Qed.

Lemma header_roundtrip h : header_wf h → header_of_bytes (header_bytes h) = h.
Proof.
  destruct h as [o pd p]. intros (Ho & Hp & Hi). simpl in *.
  unfold header_of_bytes, header_bytes. simpl.
  assert (length (le_bytes 1 o) = 1%nat) as L1 by apply length_le_bytes.
  assert (length (le_bytes 4 p) = 4%nat) as L4 by apply length_le_bytes.
  f_equal.
  - rewrite slice_app by done. rewrite le_val_bytes. apply Z.mod_small. lia.
  - unfold slice. rewrite drop_app_length' by done. by apply take_app_length'.
  - unfold slice. rewrite app_assoc, drop_app_length' by (rewrite length_app; lia).
    rewrite take_ge by lia. rewrite le_val_bytes. apply Z.mod_small. lia.
Qed.

Lemma header_of_bytes_wf bs : length bs = header_size → header_wf (header_of_bytes bs).
Proof.
  unfold header_size. intros Hl. split_and!; simpl.
  1-2: pose proof (le_val_range (slice bs 0 1)) as Hr;
    rewrite length_slice in Hr by lia; lia.
  - apply length_slice. lia.
  - pose proof (le_val_range (slice bs 4 4)) as Hr.
    rewrite length_slice in Hr by lia. lia.
  - pose proof (le_val_range (slice bs 4 4)) as Hr.
    rewrite length_slice in Hr by lia. lia.
Qed.

Lemma header_of_bytes_inv bs :
  length bs = header_size → header_bytes (header_of_bytes bs) = bs.
Proof.
  unfold header_size. intros Hl. unfold header_bytes, header_of_bytes. simpl.
  rewrite !le_bytes_val by (rewrite length_slice; lia).
  do 8 (destruct bs as [|? bs]; [done|]). by destruct bs.
Qed.

(** ** Whole-buffer transfers *)

Section transfer_lemmas.
Context {W : Type} {SO : SocketOps W} {SK : Sockets W}.
Implicit Types (w : W).

(** Sending does not disturb the receiving side: what was to arrive still is,
    and a stream that has ended stays as it is. *)
Definition keeps_stream (w w' : W) (fd : Z) : Prop :=
  pending w fd `prefix_of` pending w' fd ∧
  (hangup w fd = true → hangup w' fd = true ∧ pending w' fd = pending w fd).

Lemma keeps_stream_refl w fd : keeps_stream w w fd.
Proof. by split. Qed.

Lemma keeps_stream_trans w1 w2 w3 fd :
  keeps_stream w1 w2 fd → keeps_stream w2 w3 fd → keeps_stream w1 w3 fd.
Proof.
  intros [H1 H2] [H3 H4]. split; [by etrans|]. intros H. destruct (H2 H) as [Hh E].
  destruct (H4 Hh) as [? ?]. split; [done|congruence].
Qed.

(** What a sending loop guarantees on return: it returns 0 exactly when the
    whole buffer has been accepted, and in any case a prefix of it has. *)
Definition sent_post (w : W) (fd : Z) (buf : list byte) (r : Z) (w' : W) : Prop :=
  (r = 0 ∨ r = -1) ∧
  (∃ k, sent w' fd = sent w fd ++ take k buf) ∧
  (r = 0 → sent w' fd = sent w fd ++ buf ∧
           keeps_stream w w' fd ∧
           (interrupts w' ≤ interrupts w)%nat).

Lemma sent_post_step w fd buf n w1 r w' :
  sent w1 fd = sent w fd ++ take n buf →
  keeps_stream w w1 fd →
  (interrupts w1 ≤ interrupts w)%nat →
  sent_post w1 fd (drop n buf) r w' → sent_post w fd buf r w'.
Proof.
  intros Hs Hp Hi (Hr & [k Hk] & H0). split_and!; [done| |].
  - exists (n + k)%nat. by rewrite Hk, Hs, <- app_assoc, take_take_drop.
  - intros Hz. destruct (H0 Hz) as (Hs' & Hp' & Hi'). split_and!.
    + by rewrite Hs', Hs, <- app_assoc, take_drop.
    + by eapply keeps_stream_trans.
    + lia.
Qed.

Lemma sent_post_fail w fd buf w' :
  sent w' fd = sent w fd → sent_post w fd buf (-1) w'.
Proof.
  intros Hs. split_and!; [by right| |lia]. exists 0%nat. by rewrite Hs, take_0, app_nil_r.
Qed.

Lemma sent_post_done w fd : sent_post w fd [] 0 w.
Proof.
  split_and!; [by left|by exists 0%nat; rewrite app_nil_r|].
  rewrite app_nil_r. auto using keeps_stream_refl.
Qed.

Lemma zlen_zero {A} (l : list A) : (zlen l =? 0) = true ↔ l = [].
Proof.
  rewrite Z.eqb_eq. unfold zlen. destruct l; simpl; split; try done; lia.
Qed.

Lemma dsm_send_full_ok fuel fd buf flags w :
  (length buf + interrupts w ≤ fuel)%nat →
  wp (dsm_send_full fuel fd buf flags) (sent_post w fd buf) w.
Proof.
  revert buf w. induction fuel as [|fuel IH]; intros buf w Hf; simpl;
    destruct (zlen buf =? 0) eqn:E; rewrite ?zlen_zero in E; subst;
    try (apply wp_ret, sent_post_done).
  { apply not_true_iff_false in E. rewrite zlen_zero in E. destruct buf; [done|simpl in *; lia]. }
  apply not_true_iff_false in E. rewrite zlen_zero in E.
  apply wp_bind. eapply wp_mono; [by apply sys_send_ok|]. intros [n|e] w1; simpl.
  - intros ([Hn0 Hn] & Hs & Hp & Hh & Hi).
    destruct (Z.eqb_spec n 0) as [->|].
    { apply wp_ret, sent_post_fail. by rewrite Hs, app_nil_r. }
    eapply wp_mono; [apply IH|].
    + rewrite length_drop. unfold zlen in *. destruct buf; [done|simpl in *; lia].
    + intros r w'. apply sent_post_step; [done|by split|done].
  - intros [Hs Hint]. destruct (Z.eqb_spec e EINTR) as [->|].
    + destruct (Hint eq_refl) as (Hp & Hh & Hi). eapply wp_mono; [apply IH; lia|].
      intros r w'. apply (sent_post_step _ _ _ 0); [by rewrite Hs, app_nil_r|by split|lia].
    + by apply wp_ret, sent_post_fail.
Qed.

Lemma concat_iov_advance n iov :
  0 <= n <= zlen (concat iov) →
  concat (iov_advance n iov) = drop (Z.to_nat n) (concat iov).
Proof.
  revert n. induction iov as [|v iov IH]; intros n Hn; simpl.
  { by rewrite drop_nil. }
  simpl in Hn. rewrite zlen_app in Hn.
  destruct (Z.ltb_spec 0 n); simpl.
  - destruct (Z.leb_spec (zlen v) n); simpl; unfold zlen in *.
    + rewrite IH by lia. rewrite drop_app. rewrite (drop_ge v) by lia. simpl. f_equal. lia.
    + rewrite drop_app. f_equal. by replace (Z.to_nat n - length v)%nat with 0%nat by lia.
  - by replace (Z.to_nat n) with 0%nat by lia.
Qed.

Lemma iov_advance_nonempty n iov :
  Forall (λ v, v ≠ []) iov → Forall (λ v, v ≠ []) (iov_advance n iov).
Proof.
  revert n. induction iov as [|v iov IH]; intros n Hne; simpl; [done|].
  inversion_clear Hne.
  destruct (Z.ltb_spec 0 n); [|by constructor].
  destruct (Z.leb_spec (zlen v) n); [by apply IH|].
  constructor; [|done]. unfold zlen in *. intros E%(f_equal length).
  rewrite length_drop in E. simpl in E. lia.
Qed.

Lemma concat_nonempty (iov : list (list byte)) :
  Forall (λ v, v ≠ []) iov → concat iov = [] → iov = [].
Proof.
  intros Hne E. destruct iov as [|v iov]; [done|]. inversion_clear Hne.
  simpl in E. apply app_nil in E as [-> _]. done.
Qed.

Lemma writev_run fd iov w : writev fd iov w = sys_writev fd iov w.
Proof.
  unfold writev, mbind, M_bind. destruct (sys_writev fd iov w) as [[[n|e] w']| | |]; [done| |done..].
  destruct (e =? EPIPE); [|done]. by rewrite sigpipe_ignored.
Qed.

Lemma dsm_sendv_ok fuel fd iov w :
  Forall (λ v, v ≠ []) iov →
  (length (concat iov) + interrupts w ≤ fuel)%nat →
  wp (dsm_sendv fuel fd iov) (sent_post w fd (concat iov)) w.
Proof.
  revert iov w. induction fuel as [|fuel IH]; intros iov w Hne Hf; simpl;
    destruct (zlen iov =? 0) eqn:E; rewrite ?zlen_zero in E; subst;
    try (apply wp_ret, sent_post_done);
    apply not_true_iff_false in E; rewrite zlen_zero in E;
    assert (concat iov ≠ []) as Hc by (intros ?; by apply E, concat_nonempty).
  { destruct (concat iov); [done|simpl in *; lia]. }
  apply wp_bind. eapply wp_mono.
  { apply wp_returns. rewrite writev_run. by apply wp_returns, sys_writev_ok. }
  intros [n|e] w1; simpl.
  - intros ([Hn0 Hn] & Hs & Hp & Hh & Hi).
    destruct (Z.eqb_spec n 0) as [->|].
    { apply wp_ret, sent_post_fail. by rewrite Hs, app_nil_r. }
    eapply wp_mono; [apply IH|].
    + by apply iov_advance_nonempty.
    + rewrite concat_iov_advance, length_drop by done. unfold zlen in *.
      destruct (concat iov); [done|simpl in *; lia].
    + intros r w'. rewrite concat_iov_advance by done. apply sent_post_step; [done|by split|done].
  - intros [Hs Hint]. destruct (Z.eqb_spec e EINTR) as [->|].
    + destruct (Hint eq_refl) as (Hp & Hh & Hi). eapply wp_mono; [apply IH; [done|lia]|].
      intros r w'. apply (sent_post_step _ _ _ 0); [by rewrite Hs, app_nil_r|by split|lia].
    + by apply wp_ret, sent_post_fail.
Qed.

(** ** What every call of a loop keeps, the loop keeps

    [P] holds while the calls succeed or are interrupted, [F] after the call
    that makes the loop fail. *)

Definition call_keeps {A} (P F : W → Prop) (progress : A → Prop) (m : M W (sysres A)) : Prop :=
  ∀ w r w', P w → m w = Ret (r, w') →
    match r with
    | SysOk a => progress a → P w'
    | SysErr e => e = EINTR → P w'
    end ∧
    match r with SysOk a => ¬ progress a → F w' | SysErr e => e ≠ EINTR → F w' end.

Lemma dsm_send_full_keeps (P F : W → Prop) fuel fd buf flags w r w' :
  (∀ buf flags, buf ≠ [] → call_keeps P F (λ n, n ≠ 0) (sys_send fd buf flags)) →
  P w → dsm_send_full fuel fd buf flags w = Ret (r, w') →
  (r = 0 ∧ P w') ∨ (r = -1 ∧ F w').
Proof.
  intros Hcall. revert buf w. induction fuel as [|fuel IH]; intros buf w HP; simpl;
    destruct (zlen buf =? 0) eqn:E; try (intros [= <- <-]; by left).
  apply not_true_iff_false in E. rewrite zlen_zero in E.
  unfold mbind, M_bind. destruct (sys_send _ _ _ w) as [[[n|e] w1]| | |] eqn:Es; [| |done..];
    destruct (Hcall _ _ E _ _ _ HP Es) as (Hp & Hf).
  - destruct (Z.eqb_spec n 0); [intros [= <- <-]; right; auto|]. apply IH; auto.
  - destruct (Z.eqb_spec e EINTR); [apply IH; auto|intros [= <- <-]; right; auto].
Qed.

Lemma dsm_sendv_keeps (P F : W → Prop) fuel fd iov w r w' :
  (∀ iov, concat iov ≠ [] → call_keeps P F (λ n, n ≠ 0) (sys_writev fd iov)) →
  Forall (λ v, v ≠ []) iov → P w → dsm_sendv fuel fd iov w = Ret (r, w') →
  (r = 0 ∧ P w') ∨ (r = -1 ∧ F w').
Proof.
  intros Hcall. revert iov w. induction fuel as [|fuel IH]; intros iov w Hne HP; simpl;
    destruct (zlen iov =? 0) eqn:E; try (intros [= <- <-]; by left).
  apply not_true_iff_false in E. rewrite zlen_zero in E.
  assert (concat iov ≠ []) as Hc by (intros ?; by apply E, concat_nonempty).
  unfold mbind, M_bind. destruct (writev _ _ w) as [[[n|e] w1]| | |] eqn:Es; [| |done..];
    rewrite writev_run in Es;
    destruct (Hcall _ Hc _ _ _ HP Es) as (Hp & Hf).
  - destruct (Z.eqb_spec n 0); [intros [= <- <-]; right; auto|].
    apply IH; auto using iov_advance_nonempty.
  - destruct (Z.eqb_spec e EINTR); [apply IH; auto|intros [= <- <-]; right; auto].
Qed.

Lemma dsm_recv_loop_keeps (P F : W → Prop) fuel fd buf off w r buf' w' :
  (∀ n flags, (0 < n)%nat → call_keeps P F (λ bs, length bs ≠ 0%nat) (sys_recv fd n flags)) →
  P w → dsm_recv_loop fuel fd buf off w = Ret ((r, buf'), w') →
  (r = 0 ∧ P w') ∨ (r = -1 ∧ F w').
Proof.
  intros Hcall. revert buf off w. induction fuel as [|fuel IH]; intros buf off w HP; simpl;
    destruct (Nat.eqb_spec (length buf - off) 0); try (intros [= <- <- <-]; by left).
  unfold mbind, M_bind. destruct (sys_recv _ _ _ w) as [[[bs|e] w1]| | |] eqn:Es; [| |done..];
    destruct (Hcall (length buf - off)%nat MSG_WAITALL ltac:(lia) _ _ _ HP Es) as (Hp & Hf).
  - destruct (Nat.eqb_spec (length bs) 0); [intros [= <- <- <-]; right; auto|]. apply IH; auto.
  - destruct (Z.eqb_spec e EINTR); [apply IH; auto|intros [= <- <- <-]; right; auto].
Qed.

(** What a receive guarantees on return: the buffer keeps its length, and on
    0 it is filled with the next bytes of the stream, all of them from [off]
    on. *)
Definition received_post (w : W) (fd : Z) (buf : list byte) (off : nat)
    (res : Z * list byte) (w' : W) : Prop :=
  let '(r, buf') := res in
  length buf' = length buf ∧ take off buf' = take off buf ∧ (r = 0 ∨ r = -1) ∧
  sent w' fd = sent w fd ∧
  (r = 0 → pending w fd = drop off buf' ++ pending w' fd ∧
           hangup w' fd = hangup w fd ∧ (interrupts w' ≤ interrupts w)%nat).

Lemma received_post_fail w fd buf off w' :
  sent w' fd = sent w fd → received_post w fd buf off (-1, buf) w'.
Proof. intros. split_and!; [done|done|by right|done|lia]. Qed.

Lemma received_post_step w fd buf off bs w1 res w' :
  (off + length bs ≤ length buf)%nat →
  pending w fd = bs ++ pending w1 fd → sent w1 fd = sent w fd →
  hangup w1 fd = hangup w fd → (interrupts w1 ≤ interrupts w)%nat →
  received_post w1 fd (splice buf off bs) (off + length bs) res w' →
  received_post w fd buf off res w'.
Proof.
  intros Hl Hp Hs Hh Hi. destruct res as [r buf']. unfold received_post.
  rewrite length_splice by done. intros (Hlen & Htake & Hr & Hs' & Hz).
  assert (take off buf' = take off (splice buf off bs)) as Hpre.
  { apply (f_equal (take off)) in Htake. by rewrite !take_take, !Nat.min_l in Htake by lia. }
  split_and!; [done| |done|congruence|].
  - rewrite Hpre. unfold splice. apply take_app_length'. rewrite length_take. lia.
  - intros Hr0. destruct (Hz Hr0) as (Hp' & Hh' & Hi').
    split_and!; [|congruence|lia].
    rewrite Hp, Hp', app_assoc. f_equal.
    rewrite <- (take_drop (length bs) (drop off buf')), drop_drop. f_equal.
    rewrite take_drop_commute, Htake, <- take_drop_commute.
    symmetry. by apply slice_splice_same.
Qed.

Lemma dsm_recv_loop_ok fuel fd buf off w :
  (off ≤ length buf)%nat → (length buf - off + interrupts w ≤ fuel)%nat →
  (length buf - off ≤ length (pending w fd))%nat ∨ hangup w fd = true →
  wp (dsm_recv_loop fuel fd buf off) (received_post w fd buf off) w.
Proof.
  revert buf off w. induction fuel as [|fuel IH]; intros buf off w Ho Hf Hav; simpl;
    destruct (Nat.eqb_spec (length buf - off) 0);
    try (apply wp_ret; split_and!; [done|done|by left|done|];
         rewrite drop_ge by lia; intros; split_and!; done || lia); [lia|].
  apply wp_bind. eapply wp_mono; [apply sys_recv_ok; [lia|]|].
  { destruct Hav; [left|by right]. intros E. rewrite E in *. simpl in *. lia. }
  intros [bs|e] w1; simpl.
  - intros (Hl & Hp & Hs & Hh & Hi).
    destruct (Nat.eqb_spec (length bs) 0).
    { by apply wp_ret, received_post_fail. }
    eapply wp_mono.
    + apply IH; rewrite ?length_splice by lia; [lia|lia|].
      rewrite Hh. destruct Hav as [Hav|]; [left|by right].
      rewrite Hp, length_app in Hav. lia.
    + intros res w'. apply received_post_step; done || lia.
  - intros [Hs Hint]. destruct (Z.eqb_spec e EINTR) as [->|].
    + destruct (Hint eq_refl) as (Hp & Hh & Hi).
      eapply wp_mono; [apply IH; [lia|lia|]|].
      * by rewrite Hp, Hh.
      * intros [r buf'] w' (? & ? & ? & ? & Hz). split_and!; [done|done|done|congruence|].
        intros Hr. destruct (Hz Hr) as (? & ? & ?). rewrite <- Hp.
        split_and!; [done|congruence|lia].
    + by apply wp_ret, received_post_fail.
Qed.

Lemma dsm_recv_full_ok fuel fd buf w :
  (length buf + interrupts w ≤ fuel)%nat →
  (length buf ≤ length (pending w fd))%nat ∨ hangup w fd = true →
  wp (dsm_recv_full fuel fd buf) (received_post w fd buf 0) w.
Proof. intros. apply dsm_recv_loop_ok; rewrite ?Nat.sub_0_r; done || lia. Qed.

End transfer_lemmas.

(** ** Links without faults

    [faultless w fd]: no call on [fd] fails from here on, though each may
    transfer a part or be interrupted. *)

Class Links (W : Type) `{Sockets W} := {
  faultless : W → Z → Prop;
  faultless_send fd buf flags : buf ≠ [] →
    call_keeps (λ w, faultless w fd) (λ _, False) (λ n, n ≠ 0) (sys_send fd buf flags);
  faultless_writev fd iov : concat iov ≠ [] →
    call_keeps (λ w, faultless w fd) (λ _, False) (λ n, n ≠ 0) (sys_writev fd iov);
  faultless_recv fd n flags w r w' : (0 < n)%nat → faultless w fd →
    sys_recv fd n flags w = Ret (r, w') →
    faultless w' fd ∧
    match r with SysOk bs => bs = [] → pending w fd = [] | SysErr e => e = EINTR end;
}.

Section faultless_transfers.
Context {W : Type} {SO : SocketOps W} {SK : Sockets W} {LK : Links W}.
Implicit Types (w : W).

Lemma send_full_faultless fuel fd buf flags w r w' :
  dsm_send_full fuel fd buf flags w = Ret (r, w') →
  faultless w fd → r = 0 ∧ faultless w' fd.
Proof.
  intros E Hf. apply (dsm_send_full_keeps (λ w, faultless w fd) (λ _, False)) in E;
    [|by intros; apply faultless_send|done].
  by destruct E as [|[_ []]].
Qed.

Lemma sendv_faultless fuel fd iov w r w' :
  Forall (λ v, v ≠ []) iov → dsm_sendv fuel fd iov w = Ret (r, w') →
  faultless w fd → r = 0 ∧ faultless w' fd.
Proof.
  intros Hne E Hf. apply (dsm_sendv_keeps (λ w, faultless w fd) (λ _, False)) in E;
    [|by intros; apply faultless_writev|done|done].
  by destruct E as [|[_ []]].
Qed.

(** A receive without faults fails only at the end of the stream. *)
Lemma recv_faultless fuel fd buf off w r buf' w' :
  dsm_recv_loop fuel fd buf off w = Ret ((r, buf'), w') →
  (length buf - off ≤ length (pending w fd))%nat ∨ hangup w fd = true → faultless w fd →
  (r = 0 ∧ faultless w' fd) ∨ (r = -1 ∧ (length (pending w fd) < length buf - off)%nat).
Proof.
  revert buf off w. induction fuel as [|fuel IH]; intros buf off w E Hh Hf; simpl in E;
    destruct (Nat.eqb_spec (length buf - off) 0); try (injection E as <- <- <-; by left); [done|].
  unfold mbind, M_bind in E.
  assert (pending w fd ≠ [] ∨ hangup w fd = true) as Hav.
  { destruct Hh; [left|by right]. intros Ep. rewrite Ep in *. simpl in *. lia. }
  pose proof (sys_recv_ok fd (length buf - off) MSG_WAITALL w ltac:(lia) Hav) as Hw.
  apply wp_returns in Hw as (r1 & w1 & Es & Hr). rewrite Es in E.
  destruct (faultless_recv fd (length buf - off) _ _ _ _ ltac:(lia) Hf Es) as [Hf1 Hr1].
  destruct r1 as [bs|e].
  - destruct Hr as (Hl & Hp & _ & Hh1 & _). destruct (Nat.eqb_spec (length bs) 0) as [Hz|Hz].
    { injection E as <- _ _. right. apply length_zero_iff_nil in Hz. rewrite (Hr1 Hz). simpl. lia. }
    apply IH in E; [|rewrite length_splice by lia; rewrite Hp, length_app in Hh;
                     destruct Hh; [left; lia|right; congruence]|done].
    destruct E as [|[-> E]]; [by left|right].
    rewrite Hp, length_app. rewrite length_splice in E by lia. lia.
  - subst e. destruct Hr as [_ Hr]. destruct (Hr eq_refl) as (Hp & Hh1 & _). simpl in E.
    apply IH in E; [|rewrite Hp, Hh1; done|done]. by rewrite <- Hp.
Qed.

End faultless_transfers.
