(* ===== verification/PageService.v ===== *)
(** * The interface between the pager and the protocol

    The pager reaches its server through three calls.  [RpcOps] names them
    and [PageService] states what the pager may rely on: a service holds one
    page of bytes per page id, a [get] that succeeds delivers it, a [put]
    that succeeds replaces it, and a call that fails reports it and at worst
    has replaced the page it was asked to replace.  A page the service
    [serves] is one on which no call fails.  [in_step w fd n] is the state
    between calls: the service exports the pages below [n], no request is
    half sent and no reply half received. *)

From S2P Require Import Prelude Machine Protocol.

Class RpcOps (W : Type) := {
  rpc_get : Z → Z → list byte → M W (Z * list byte);
  rpc_get_batch : Z → list Z → Z → list byte → M W (Z * list byte);
  rpc_put : Z → Z → list byte → M W Z;
}.

Class PageService (W : Type) `{RpcOps W} := {
  page_of : W → Z → Z → list byte;
  serves : W → Z → Z → Prop;
  in_step : W → Z → Z → Prop;
  length_page_of w fd p : length (page_of w fd p) = page_bytes;
  rpc_get_ok fd n id buf w : in_step w fd n → 0 <= id < n → length buf = page_bytes →
    wp (rpc_get fd id buf) (λ res w',
      in_step w' fd n ∧ length res.2 = page_bytes ∧
      (∀ p, page_of w' fd p = page_of w fd p) ∧
      (0 <= res.1 → res.2 = page_of w fd id) ∧
      (serves w fd id → 0 <= res.1 ∧ ∀ p, serves w fd p → serves w' fd p)) w;
  rpc_get_batch_ok fd m ids n bufs w : in_step w fd m →
    Forall (λ id, 0 <= id < m) (take (Z.to_nat n) ids) → 0 < n <= zlen ids →
    n * PAGE_SIZE <= zlen bufs →
    wp (rpc_get_batch fd ids n bufs) (λ res w',
      in_step w' fd m ∧ length res.2 = length bufs ∧
      (∀ p, page_of w' fd p = page_of w fd p) ∧
      (0 <= res.1 → ∀ i id, i < n → zget ids i = Some id →
         slice res.2 (Z.to_nat (i * PAGE_SIZE)) page_bytes = page_of w fd id) ∧
      (Forall (serves w fd) (take (Z.to_nat n) ids) →
         0 <= res.1 ∧ ∀ p, serves w fd p → serves w' fd p)) w;
  rpc_put_ok fd n id buf w : in_step w fd n → 0 <= id < n → length buf = page_bytes →
    wp (rpc_put fd id buf) (λ r w',
      in_step w' fd n ∧
      (∀ p, p ≠ id → page_of w' fd p = page_of w fd p) ∧
      (0 <= r → page_of w' fd id = buf) ∧
      (serves w fd id → 0 <= r ∧ ∀ p, serves w fd p → serves w' fd p)) w;
}.

(** Every iteration of a transfer loop moves at least one byte or is
    interrupted, so this much fuel is enough for each of them. *)
Definition io_fuel {W} {SO : SocketOps W} {SK : Sockets W} (w : W) : nat :=
  (header_size + page_bytes + interrupts w)%nat.

(** The three calls of [dsm_common.c] over a socket layer implement the
    operations. *)
Definition socket_rpc {W} {SO : SocketOps W} {SK : Sockets W} : RpcOps W := {|
  rpc_get fd id buf := λ w, dsm_rpc_get (io_fuel w) fd id buf w;
  rpc_get_batch fd ids n bufs := λ w, dsm_rpc_get_batch (io_fuel w) fd ids n bufs w;
  rpc_put fd id buf := λ w, dsm_rpc_put (io_fuel w) fd id buf w;
|}.
