(* ===== verification/TableService.v ===== *)
(** * A page service that is a table

    The smallest implementation of the interface of [PageService]: a finite
    map from page ids to pages, and a script of faults that makes chosen
    calls fail.  It shows that the laws can be met, and the examples run on
    it. *)

From stdpp Require Import gmap.
From S2P Require Import Prelude Machine Protocol PageService.

Record table := mk_table {
  table_pages : gmap Z (list byte);
  table_faults : list bool;
}.

Definition table_page (t : table) (p : Z) : list byte :=
  match table_pages t !! p with
  | Some b => if decide (length b = page_bytes) then b else zero_page
  | None => zero_page
  end.

(** The next call: does it fail, and the remaining script. *)
Definition next_fault (t : table) : bool * table :=
  match table_faults t with
  | [] => (false, t)
  | b :: fs => (b, mk_table (table_pages t) fs)
  end.

#[export] Instance table_rpc : RpcOps table := {
  rpc_get fd id buf := λ t,
    let '(fault, t') := next_fault t in
    if fault then Ret ((-1, buf), t') else Ret ((0, table_page t id), t');
  rpc_get_batch fd ids n bufs := λ t,
    let '(fault, t') := next_fault t in
    if fault then Ret ((-1, bufs), t')
    else Ret ((0, concat (table_page t <$> take (Z.to_nat n) ids) ++
                  drop (Z.to_nat n * page_bytes) bufs), t');
  rpc_put fd id buf := λ t,
    let '(fault, t') := next_fault t in
    if fault then Ret (-1, t')
    else Ret (0, mk_table (<[id := buf]> (table_pages t')) (table_faults t'));
}.

Lemma length_table_page t p : length (table_page t p) = page_bytes.
Proof.
  unfold table_page. destruct (_ !! p); [case_decide|]; auto using length_zero_page.
Qed.

Lemma next_fault_page t p : table_page (next_fault t).2 p = table_page t p.
Proof. unfold next_fault. by destruct (table_faults t). Qed.

Lemma next_fault_none t : table_faults t = [] → next_fault t = (false, t).
Proof. unfold next_fault. by intros ->. Qed.

#[export] Program Instance table_service : PageService table := {|
  page_of t _ p := table_page t p;
  serves t _ _ := table_faults t = [];
  in_step _ _ _ := True;
  length_page_of t _ p := length_table_page t p;
|}.
Next Obligation.
  intros fd n id buf t _ Hid Hl. apply wp_returns. simpl.
  pose proof (next_fault_page t) as Hp. pose proof (next_fault_none t) as Hn.
  destruct (next_fault t) as [[] t'].
  all: do 2 eexists; split; [done|]; simpl in *; split_and!; auto.
  all: try (intros Ht; specialize (Hn Ht); simplify_eq; done).
  all: try lia. apply length_table_page.
Qed.
Next Obligation.
  intros fd m ids n bufs t _ Hids Hn Hb. apply wp_returns. simpl.
  pose proof (next_fault_page t) as Hp. pose proof (next_fault_none t) as Hnf.
  assert (Forall (λ l, length l = page_bytes) (table_page t <$> take (Z.to_nat n) ids)) as Hall.
  { apply Forall_fmap, Forall_true. intros x. apply length_table_page. }
  pose proof page_bytes_Z as Hpb. unfold zlen in *.
  destruct (next_fault t) as [[] t'].
  all: do 2 eexists; split; [done|]; simpl in *; split_and!; auto.
  all: try (intros Ht; destruct (table_faults t) eqn:E; [by specialize (Hnf eq_refl); simplify_eq|];
            destruct ids; [simpl in *; lia|]; destruct (Z.to_nat n) eqn:En; [lia|];
            by inversion Ht).
  - lia.
  - rewrite length_app, (length_concat_eq _ _ Hall), length_drop, length_fmap, length_take.
    unfold PAGE_SIZE in *. rewrite Nat.min_l by lia. nia.
  - intros _ i id Hi Hget. pose proof (zget_Some_range _ _ _ Hget).
    rewrite zget_lookup in Hget by lia.
    replace (Z.to_nat (i * PAGE_SIZE)) with (Z.to_nat i * page_bytes)%nat
      by (unfold PAGE_SIZE in *; nia).
    apply slice_concat; [done|]. rewrite list_lookup_fmap, lookup_take_lt by lia.
    by rewrite Hget.
Qed.
Next Obligation.
  intros fd n id buf t _ Hid Hl. apply wp_returns. simpl.
  pose proof (next_fault_page t) as Hp. pose proof (next_fault_none t) as Hn.
  destruct (next_fault t) as [[] t'].
  all: do 2 eexists; split; [done|]; simpl in *; split_and!; auto.
  all: try (intros Ht; specialize (Hn Ht); simplify_eq; done).
  - lia.
  - intros q Hq. rewrite <- Hp. unfold table_page. simpl. by rewrite lookup_insert_ne.
  - intros _. unfold table_page. simpl. by rewrite lookup_insert_eq, decide_True.
Qed.
