(* ===== verification/Connection.v ===== *)
(** * A TCP connection to a peer

    A socket layer with one connection.  The peer is a function from the
    bytes it has been sent to the bytes it answers; a script of events makes
    calls transfer only a part, be interrupted by a signal, or break the
    connection for good.  It implements the class [Sockets], so the transfer
    loops run on it, and it is the world in which the client meets the
    server. *)

From stdpp Require Import sets.
From S2P Require Import Prelude Machine Protocol PageService.

Definition EBADF : Z := 9.
Definition ECONNRESET : Z := 104.

(** What happens to the next call: it moves at most [n + 1] bytes, a signal
    interrupts it, or the connection breaks. *)
Inductive io_event :=
| IoPart (n : nat)
| IoIntr
| IoBreak.

#[export] Instance io_event_eq_dec : EqDecision io_event.
Proof. solve_decision. Defined.

Record conn (peer : list byte → list byte) := mk_conn {
  conn_fd : Z;
  conn_sent : list byte;
  conn_got : nat;
  conn_broken : bool;
  conn_events : list io_event;
}.

Arguments mk_conn {peer} _ _ _ _ _.
Arguments conn_fd {peer} _.
Arguments conn_sent {peer} _.
Arguments conn_got {peer} _.
Arguments conn_broken {peer} _.
Arguments conn_events {peer} _.

(** The answers of a stream peer are never revoked. *)
Class StreamPeer (peer : list byte → list byte) : Prop :=
  peer_mono a b : peer a `prefix_of` peer (a ++ b).

Section connection.
Context (peer : list byte → list byte).
Implicit Types (w : conn peer).

Definition conn_next w (es : list io_event) : conn peer :=
  mk_conn (conn_fd w) (conn_sent w) (conn_got w) (conn_broken w) es.

Definition conn_break w (es : list io_event) : conn peer :=
  mk_conn (conn_fd w) (conn_sent w) (conn_got w) true es.

Definition conn_push w (bs : list byte) : conn peer :=
  mk_conn (conn_fd w) (conn_sent w ++ bs) (conn_got w) (conn_broken w) (conn_events w).

Definition conn_avail w : list byte := drop (conn_got w) (peer (conn_sent w)).

Definition conn_take w (k : nat) : conn peer :=
  mk_conn (conn_fd w) (conn_sent w) (conn_got w + length (take k (conn_avail w)))
    (conn_broken w) (conn_events w).

Definition conn_send (fd : Z) (buf : list byte) : M (conn peer) (sysres Z) := λ w,
  if negb (fd =? conn_fd w) then Ret (SysErr EBADF, w) else
  if conn_broken w then Ret (SysErr EPIPE, w) else
  match conn_events w with
  | [] => Ret (SysOk (zlen buf), conn_push w buf)
  | IoPart n :: es =>
      let part := take (S n) buf in
      Ret (SysOk (zlen part), conn_push (conn_next w es) part)
  | IoIntr :: es => Ret (SysErr EINTR, conn_next w es)
  | IoBreak :: es => Ret (SysErr ECONNRESET, conn_break w es)
  end.

(** A receive blocks as long as the peer has nothing to say; after a break it
    reports the end of the stream. *)
Definition conn_recv (fd : Z) (n : nat) : M (conn peer) (sysres (list byte)) := λ w,
  if negb (fd =? conn_fd w) then Ret (SysErr EBADF, w) else
  if conn_broken w then Ret (SysOk [], w) else
  let deliver k w :=
    match conn_avail w with
    | [] => Diverge
    | _ => Ret (SysOk (take k (conn_avail w)), conn_take w k)
    end in
  match conn_events w with
  | [] => deliver n w
  | IoPart m :: es => deliver (S m `min` n)%nat (conn_next w es)
  | IoIntr :: es => Ret (SysErr EINTR, conn_next w es)
  | IoBreak :: es => Ret (SysErr ECONNRESET, conn_break w es)
  end.

#[export] Instance conn_ops : SocketOps (conn peer) := {
  sys_send fd buf _ := conn_send fd buf;
  sys_recv fd n _ := conn_recv fd n;
  sys_writev fd iov := conn_send fd (concat iov);
  sigpipe := mret tt;
}.

Definition conn_pending w (fd : Z) : list byte :=
  if (fd =? conn_fd w) && negb (conn_broken w) then conn_avail w else [].

Context {SP : StreamPeer peer}.

Lemma conn_avail_push w bs : conn_avail w `prefix_of` conn_avail (conn_push w bs).
Proof.
  unfold conn_avail. simpl. destruct (peer_mono (conn_sent w) bs) as [k ->].
  rewrite drop_app. by eexists.
Qed.

Lemma conn_send_law fd buf w : buf ≠ [] →
  wp (conn_send fd buf) (λ r w',
    match r with
    | SysOk n => 0 <= n <= zlen buf ∧
        (if fd =? conn_fd w' then conn_sent w' else []) =
        (if fd =? conn_fd w then conn_sent w else []) ++ take (Z.to_nat n) buf ∧
        conn_pending w fd `prefix_of` conn_pending w' fd ∧
        ((if fd =? conn_fd w then conn_broken w else true) = true →
         (if fd =? conn_fd w' then conn_broken w' else true) = true ∧
         conn_pending w' fd = conn_pending w fd) ∧
        (length (conn_events w') ≤ length (conn_events w))%nat
    | SysErr e =>
        (if fd =? conn_fd w' then conn_sent w' else []) =
        (if fd =? conn_fd w then conn_sent w else []) ∧
        (e = EINTR → conn_pending w fd `prefix_of` conn_pending w' fd ∧
           ((if fd =? conn_fd w then conn_broken w else true) = true →
            (if fd =? conn_fd w' then conn_broken w' else true) = true ∧
            conn_pending w' fd = conn_pending w fd) ∧
           (length (conn_events w') < length (conn_events w))%nat)
    end) w.
Proof.
  intros Hne. apply wp_returns. unfold conn_send, conn_pending.
  destruct (Z.eqb_spec fd (conn_fd w)) as [->|Hfd]; simpl.
  2: { do 2 eexists. split; [done|]. rewrite (proj2 (Z.eqb_neq _ _) Hfd). by split. }
  destruct (conn_broken w) eqn:Eb.
  { do 2 eexists. split; [done|]. rewrite Z.eqb_refl. by split. }
  destruct (conn_events w) as [|[n| |] es] eqn:Ee;
    do 2 eexists; (split; [done|]); simpl; rewrite ?Z.eqb_refl, ?Eb; simpl.
  - rewrite Ee. unfold zlen. rewrite Nat2Z.id, (take_ge buf) by done.
    split_and!; [lia|lia|done|apply conn_avail_push|done|done].
  - unfold zlen. rewrite Nat2Z.id.
    split_and!; [lia|rewrite length_take; lia| |apply (conn_avail_push (conn_next w es))|done|lia].
    f_equal. rewrite length_take. destruct (decide (S n ≤ length buf)%nat).
    + by rewrite Nat.min_l by lia.
    + by rewrite !take_ge by lia.
  - split; [done|]. intros _. split_and!; [done|done|lia].
  - by split.
Qed.

Lemma conn_recv_law fd n w : (0 < n)%nat →
  conn_pending w fd ≠ [] ∨ (if fd =? conn_fd w then conn_broken w else true) = true →
  wp (conn_recv fd n) (λ r w',
    match r with
    | SysOk bs => (length bs ≤ n)%nat ∧
        conn_pending w fd = bs ++ conn_pending w' fd ∧
        (if fd =? conn_fd w' then conn_sent w' else []) =
        (if fd =? conn_fd w then conn_sent w else []) ∧
        (if fd =? conn_fd w' then conn_broken w' else true) =
        (if fd =? conn_fd w then conn_broken w else true) ∧
        (length (conn_events w') ≤ length (conn_events w))%nat
    | SysErr e =>
        (if fd =? conn_fd w' then conn_sent w' else []) =
        (if fd =? conn_fd w then conn_sent w else []) ∧ (e = EINTR →
        conn_pending w' fd = conn_pending w fd ∧
        (if fd =? conn_fd w' then conn_broken w' else true) =
        (if fd =? conn_fd w then conn_broken w else true) ∧
        (length (conn_events w') < length (conn_events w))%nat)
    end) w.
Proof.
  intros Hn Hav. apply wp_returns. unfold conn_recv, conn_pending in *.
  destruct (Z.eqb_spec fd (conn_fd w)) as [->|Hfd]; simpl in *.
  2: { do 2 eexists. split; [done|]. by rewrite (proj2 (Z.eqb_neq _ _) Hfd). }
  destruct (conn_broken w) eqn:Eb; simpl in *.
  { do 2 eexists. split; [done|]. rewrite Z.eqb_refl, Eb. simpl. split_and!; done || lia. }
  destruct Hav as [Hav|]; [|done].
  assert (∀ k w0, conn_fd w0 = conn_fd w → conn_sent w0 = conn_sent w →
    conn_got w0 = conn_got w → conn_avail w = take k (conn_avail w0) ++ conn_avail (conn_take w0 k)) as Hs.
  { intros k w0 E1 E2 E3. unfold conn_avail at 3. simpl. rewrite <- drop_drop.
    unfold conn_avail at 1. rewrite <- E2, <- E3.
    change (drop (conn_got w0) (peer (conn_sent w0))) with (conn_avail w0).
    rewrite length_take. destruct (decide (k ≤ length (conn_avail w0))%nat).
    - rewrite Nat.min_l by lia. by rewrite take_drop.
    - rewrite Nat.min_r, (take_ge _ k), drop_all by lia. by rewrite app_nil_r. }
  destruct (conn_events w) as [|[m| |] es] eqn:Ee.
  - destruct (conn_avail w) eqn:E; [done|]. rewrite <- E. do 2 eexists. split; [done|].
    simpl. rewrite Z.eqb_refl, Eb, Ee. simpl. split_and!; try done.
    + rewrite length_take. lia.
    + rewrite E at 1. by apply Hs.
  - change (conn_avail (conn_next w es)) with (conn_avail w).
    destruct (conn_avail w) eqn:E; [done|]. rewrite <- E. do 2 eexists. split; [done|].
    simpl. rewrite Z.eqb_refl, Eb. simpl. split_and!; try done.
    + rewrite length_take. destruct n; [done|lia].
    + rewrite E at 1. by apply (Hs _ (conn_next w es)).
    + lia.
  - do 2 eexists. split; [done|]. simpl. rewrite Z.eqb_refl, Eb. simpl.
    split; [done|]. intros _. split_and!; [done..|lia].
  - do 2 eexists. split; [done|]. simpl. by rewrite Z.eqb_refl.
Qed.

#[export] Program Instance conn_sockets : Sockets (conn peer) := {|
  sent w fd := if fd =? conn_fd w then conn_sent w else [];
  pending w fd := conn_pending w fd;
  hangup w fd := if fd =? conn_fd w then conn_broken w else true;
  interrupts w := length (conn_events w);
|}.
Next Obligation. done. Qed.
Next Obligation. intros. by apply conn_send_law. Qed.
Next Obligation. intros. by apply conn_send_law. Qed.
Next Obligation. intros. by apply conn_recv_law. Qed.

(** ** The transfer loops on a connection *)

Definition calm w : Prop := IoBreak ∉ conn_events w.

(** The connection is up; [got] bytes have been received; under the flag
    [safe] no break is to come. *)
Definition conn_up (fd : Z) (safe : bool) w : Prop :=
  conn_fd w = fd ∧ conn_broken w = false ∧ (safe = true → calm w).

(** The connection is gone, which a safe one never is. *)
Definition conn_lost (fd : Z) (safe : bool) w : Prop :=
  conn_fd w = fd ∧ conn_broken w = true ∧ safe = false.

Lemma conn_up_next fd safe w e es w' :
  conn_up fd safe w → conn_events w = e :: es → conn_fd w' = conn_fd w →
  conn_broken w' = conn_broken w → conn_events w' = es → conn_up fd safe w'.
Proof.
  intros (Hfd & Hb & Hc) Ee E1 E2 E3. split_and!; [congruence|congruence|].
  intros Hs. specialize (Hc Hs). unfold calm in *. rewrite E3. rewrite Ee in Hc. set_solver.
Qed.

Lemma conn_up_break fd safe w es :
  conn_up fd safe w → conn_events w = IoBreak :: es → conn_lost fd safe (conn_break w es).
Proof.
  intros (Hfd & Hb & Hc) Ee. split_and!; [done|done|]. destruct safe; [|done].
  specialize (Hc eq_refl). unfold calm in Hc. rewrite Ee in Hc. set_solver.
Qed.

Lemma conn_send_keeps fd safe g buf : buf ≠ [] →
  call_keeps (λ w, conn_up fd safe w ∧ conn_got w = g) (conn_lost fd safe) (λ n, n ≠ 0)
    (conn_send fd buf).
Proof.
  intros Hne w r w' [Hup Hg]. pose proof Hup as (Hfd & Hb & _). unfold conn_send.
  rewrite Hfd, Z.eqb_refl, Hb. simpl.
  destruct (conn_events w) as [|[n| |] es] eqn:Ee; intros [= <- <-].
  - split; [by intros|]. intros Hz%dec_stable. destruct buf; [done|]. by unfold zlen in Hz.
  - split; [intros _; split; [by eapply conn_up_next|done]|].
    intros Hz%dec_stable. destruct buf; [done|]. unfold zlen in Hz. simpl in Hz. lia.
  - split; [intros _; split; [by eapply conn_up_next|done]|done].
  - split; [done|]. intros _. by apply conn_up_break.
Qed.

(** No more has been received than the peer has said. *)
Definition conn_sound w : Prop := (conn_got w ≤ length (peer (conn_sent w)))%nat.

Lemma conn_take_sound w k : conn_sound w → conn_sound (conn_take w k).
Proof.
  unfold conn_sound, conn_take, conn_avail. simpl. rewrite length_take, length_drop. lia.
Qed.

Lemma conn_recv_keeps fd safe s n : (0 < n)%nat →
  call_keeps (λ w, conn_up fd safe w ∧ conn_sent w = s ∧ conn_sound w)
    (λ w, conn_lost fd safe w ∧ conn_sent w = s)
    (λ bs, length bs ≠ 0%nat) (conn_recv fd n).
Proof.
  intros Hn w r w' (Hup & Hs & Hg). pose proof Hup as (Hfd & Hb & _). unfold conn_recv.
  rewrite Hfd, Z.eqb_refl, Hb. simpl.
  destruct n as [|n]; [lia|]. destruct (conn_events w) as [|[m| |] es] eqn:Ee.
  - destruct (conn_avail w) eqn:Ea; [done|]. intros [= <- <-].
    split; [|by intros Hz%dec_stable]. intros _. split_and!; [done|done|].
    by apply conn_take_sound.
  - change (conn_avail (conn_next w es)) with (conn_avail w).
    destruct (conn_avail w) eqn:Ea; [done|]. intros [= <- <-].
    split; [|by intros Hz%dec_stable]. intros _. split_and!; [by eapply conn_up_next|done|].
    by apply conn_take_sound.
  - intros [= <- <-]. split; [|done]. intros _. split_and!; [by eapply conn_up_next|done|done].
  - intros [= <- <-]. split; [done|]. intros _. split; [by apply conn_up_break|done].
Qed.

(** A connection on which no break is to come has no faults. *)
Lemma conn_send_faultless fd buf : buf ≠ [] →
  call_keeps (λ w, conn_up fd true w) (λ _, False) (λ n, n ≠ 0) (conn_send fd buf).
Proof.
  intros Hne w r w' Hup E.
  destruct (conn_send_keeps fd true (conn_got w) buf Hne w r w' (conj Hup eq_refl) E) as [H1 H2].
  destruct r; split; try (intros Hp; by apply H1); intros Hp; by destruct (H2 Hp) as (_ & _ & ?).
Qed.

#[export] Program Instance conn_links : Links (conn peer) := {|
  faultless w fd := conn_up fd true w;
|}.
Next Obligation. intros. by apply conn_send_faultless. Qed.
Next Obligation. intros. by apply conn_send_faultless. Qed.
Next Obligation.
  intros fd n flags w r w' Hn Hup. pose proof Hup as (Hfd & Hb & Hc). simpl. unfold conn_recv, conn_pending.
  rewrite Hfd, Z.eqb_refl, Hb. simpl. destruct n as [|n]; [lia|].
  destruct (conn_events w) as [|[m| |] es] eqn:Ee.
  - destruct (conn_avail w) eqn:Ea; [done|]. by intros [= <- <-].
  - change (conn_avail (conn_next w es)) with (conn_avail w).
    destruct (conn_avail w) eqn:Ea; [done|]. intros [= <- <-]. split; [by eapply conn_up_next|done].
  - intros [= <- <-]. split; [by eapply conn_up_next|done].
  - specialize (Hc eq_refl). unfold calm in Hc. rewrite Ee in Hc. set_solver.
Qed.

(** What a send leaves behind. *)
Definition conn_sent_post fd safe w (buf : list byte) (r : Z) w' : Prop :=
  (r = 0 ∧ conn_up fd safe w' ∧ conn_got w' = conn_got w ∧ conn_sent w' = conn_sent w ++ buf ∧
   (length (conn_events w') ≤ length (conn_events w))%nat) ∨
  (r = -1 ∧ conn_lost fd safe w' ∧ ∃ k, conn_sent w' = conn_sent w ++ take k buf).

Lemma conn_sent_post_intro fd safe w buf r w' :
  conn_fd w = fd → sent_post w fd buf r w' →
  (r = 0 ∧ conn_up fd safe w' ∧ conn_got w' = conn_got w) ∨ (r = -1 ∧ conn_lost fd safe w') →
  conn_sent_post fd safe w buf r w'.
Proof.
  intros Hfd (_ & [k Hk] & H0) [(-> & Hup & Hg)|(-> & Hl)]; [left|right].
  - destruct (H0 eq_refl) as (Hs & _ & Hi). simpl in *. pose proof Hup as (Hfd' & _).
    rewrite Hfd, Hfd', Z.eqb_refl in Hs. done.
  - simpl in *. pose proof Hl as (Hfd' & _). rewrite Hfd, Hfd', Z.eqb_refl in Hk.
    split_and!; [done|done|by exists k].
Qed.

Lemma conn_send_full_ok fuel fd safe buf flags w :
  conn_up fd safe w → (length buf + length (conn_events w) ≤ fuel)%nat →
  wp (dsm_send_full fuel fd buf flags) (conn_sent_post fd safe w buf) w.
Proof.
  intros Hup Hf. eapply wp_mono; [eapply wp_strengthen|].
  - by apply dsm_send_full_ok.
  - intros r w'. apply (dsm_send_full_keeps (λ v, conn_up fd safe v ∧ conn_got v = conn_got w)
      (conn_lost fd safe)); [|done]. intros. by apply conn_send_keeps.
  - intros r w' [Hs Hk]. apply conn_sent_post_intro; [apply Hup|done|done].
Qed.

Lemma conn_sendv_ok fuel fd safe iov w :
  Forall (λ v, v ≠ []) iov → conn_up fd safe w →
  (length (concat iov) + length (conn_events w) ≤ fuel)%nat →
  wp (dsm_sendv fuel fd iov) (conn_sent_post fd safe w (concat iov)) w.
Proof.
  intros Hne Hup Hf. eapply wp_mono; [eapply wp_strengthen|].
  - by apply dsm_sendv_ok.
  - intros r w'. apply (dsm_sendv_keeps (λ v, conn_up fd safe v ∧ conn_got v = conn_got w)
      (conn_lost fd safe)); [|done|done]. intros. by apply conn_send_keeps.
  - intros r w' [Hs Hk]. apply conn_sent_post_intro; [apply Hup|done|done].
Qed.

Lemma conn_recv_full_ok fuel fd safe buf w :
  conn_up fd safe w → conn_sound w → (length buf ≤ length (conn_avail w))%nat →
  (length buf + length (conn_events w) ≤ fuel)%nat →
  wp (dsm_recv_full fuel fd buf) (λ res w',
    length res.2 = length buf ∧ conn_sent w' = conn_sent w ∧
    ((res.1 = 0 ∧ conn_up fd safe w' ∧ conn_sound w' ∧
      conn_avail w = res.2 ++ conn_avail w' ∧
      (length (conn_events w') ≤ length (conn_events w))%nat) ∨
     (res.1 = -1 ∧ conn_lost fd safe w'))) w.
Proof.
  intros Hup Hs Hav Hf.
  assert (∀ w', conn_up fd safe w' → conn_pending w' fd = conn_avail w') as Hp.
  { intros w' (Hfd & Hb & _). unfold conn_pending. by rewrite Hfd, Z.eqb_refl, Hb. }
  eapply wp_mono; [apply (wp_strengthen _ (received_post w fd buf 0) (λ res v,
    (res.1 = 0 ∧ conn_up fd safe v ∧ conn_sent v = conn_sent w ∧ conn_sound v) ∨
    (res.1 = -1 ∧ conn_lost fd safe v ∧ conn_sent v = conn_sent w)))|].
  - apply dsm_recv_full_ok; [done|]. left. simpl. by rewrite Hp.
  - intros [r buf'] w'.
    apply (dsm_recv_loop_keeps (λ v, conn_up fd safe v ∧ conn_sent v = conn_sent w ∧ conn_sound v)
      (λ v, conn_lost fd safe v ∧ conn_sent v = conn_sent w)); [|done].
    intros. by apply conn_recv_keeps.
  - intros [r buf'] w' ((Hl & _ & _ & _ & H0) & Hk). split; [done|]. simpl in *.
    destruct Hk as [(-> & Hup' & Hs' & Hg')|(-> & Hl' & Hs')]; split; [done| |done|by right].
    left. destruct (H0 eq_refl) as (Hpend & _ & Hi). rewrite !Hp in Hpend by done. done.
Qed.

(** ** The RPCs on a connection *)

(** Between two calls: up, and every answer received. *)
Definition idle (fd : Z) (safe : bool) w : Prop :=
  conn_up fd safe w ∧ conn_got w = length (peer (conn_sent w)).

Definition answers w (msg reply : list byte) : Prop :=
  peer (conn_sent w ++ msg) = peer (conn_sent w) ++ reply.

(** What a call leaves behind: an idle connection that has carried the whole
    message, or a lost one that has carried a part. *)
Definition call_post fd safe w (msg : list byte) (r : Z) w' : Prop :=
  (r = 0 ∧ idle fd safe w' ∧ conn_sent w' = conn_sent w ++ msg) ∨
  (r = -1 ∧ conn_lost fd safe w' ∧ ∃ k, conn_sent w' = conn_sent w ++ take k msg).

(** Once the message has been sent, the answer is there to be received. *)
Lemma answers_avail fd safe w msg reply w' :
  idle fd safe w → answers w msg reply →
  conn_got w' = conn_got w → conn_sent w' = conn_sent w ++ msg →
  conn_avail w' = reply ∧ conn_sound w'.
Proof.
  intros [_ Hg] Ha Eg Es. unfold conn_avail, conn_sound.
  rewrite Eg, Es, Ha, Hg. split; [by rewrite drop_app_length|]. rewrite length_app. lia.
Qed.

Lemma sound_idle fd safe w :
  conn_up fd safe w → conn_sound w → conn_avail w = [] → idle fd safe w.
Proof.
  intros Hup Hs E. split; [done|]. unfold conn_sound, conn_avail in *.
  apply (f_equal length) in E. rewrite length_drop in E. simpl in E. lia.
Qed.

Lemma call_post_lost fd safe w msg w1 w' :
  conn_sent w1 = conn_sent w ++ msg → conn_sent w' = conn_sent w1 → conn_lost fd safe w' →
  call_post fd safe w msg (-1) w'.
Proof.
  intros E1 E2 Hl. right. split_and!; [done|done|]. exists (length msg). by rewrite E2, E1, firstn_all.
Qed.

Lemma app_same_length {A} (a b c : list A) : a = b ++ c → length a = length b → a = b ∧ c = [].
Proof.
  intros -> Hl. rewrite length_app in Hl. assert (c = []) as -> by (apply length_zero_iff_nil; lia).
  by rewrite app_nil_r.
Qed.

Lemma header_bytes_nonempty h : header_wf h → header_bytes h ≠ [].
Proof. intros Hh%length_header_bytes E. by rewrite E in Hh. Qed.

Lemma conn_rpc_get_ok fuel fd safe id buf reply w :
  idle fd safe w → length buf = page_bytes → length reply = page_bytes →
  answers w (header_bytes (dsm_rpc_make_header OP_GET_PAGE id)) reply →
  (header_size + page_bytes + length (conn_events w) ≤ fuel)%nat →
  wp (dsm_rpc_get fuel fd id buf) (λ res w', length res.2 = page_bytes ∧
    call_post fd safe w (header_bytes (dsm_rpc_make_header OP_GET_PAGE id)) res.1 w' ∧
    (res.1 = 0 → res.2 = reply)) w.
Proof.
  intros Hi Hb Hr Ha Hf. set (req := header_bytes _) in *.
  assert (length req = header_size) as Hreq by (apply length_header_bytes, make_header_wf).
  unfold dsm_rpc_get. fold req. apply wp_bind. eapply wp_mono.
  { apply conn_send_full_ok; [apply Hi|lia]. }
  intros r w1 [(-> & Hup & Hg & Hs & He)|(-> & Hl & [k Hk])]; simpl.
  2: { apply wp_ret. split_and!; [done| |done]. right. eauto. }
  destruct (answers_avail _ _ _ _ _ _ Hi Ha Hg Hs) as [Hav Hsound].
  apply wp_bind. eapply wp_mono; [apply conn_recv_full_ok; [done|done|rewrite Hav; lia|lia]|].
  intros [r buf'] w2 (Hlen & Hs2 & Hcase). cbn [fst snd] in *.
  destruct Hcase as [(-> & Hup2 & Hsound2 & Hd & _)|(-> & Hl)]; simpl.
  - apply wp_ret. rewrite Hav in Hd. apply app_same_length in Hd as [-> Hnil]; [|lia].
    split_and!; [done| |done]. left. split_and!; [done|by apply sound_idle|congruence].
  - apply wp_ret. simpl. split_and!; [lia| |done]. by eapply call_post_lost.
Qed.

Lemma conn_rpc_put_ok fuel fd safe id buf reply w :
  idle fd safe w → length buf = page_bytes → length reply = header_size →
  hdr_op (header_of_bytes reply) = OP_ACK →
  answers w (header_bytes (dsm_rpc_make_header OP_PUT_PAGE id) ++ buf) reply →
  (header_size + page_bytes + length (conn_events w) ≤ fuel)%nat →
  wp (dsm_rpc_put fuel fd id buf)
    (call_post fd safe w (header_bytes (dsm_rpc_make_header OP_PUT_PAGE id) ++ buf)) w.
Proof.
  intros Hi Hb Hr Hop Ha Hf. set (req := header_bytes _) in *.
  assert (length req = header_size) as Hreq by (apply length_header_bytes, make_header_wf).
  pose proof page_bytes_pos.
  assert (concat [req; buf] = req ++ buf) as Ec by (simpl; by rewrite app_nil_r).
  unfold dsm_rpc_put. fold req. apply wp_bind. eapply wp_mono.
  { apply (conn_sendv_ok _ _ safe).
    - repeat constructor; [apply header_bytes_nonempty, make_header_wf|].
      intros ->. simpl in Hb. lia.
    - apply Hi.
    - rewrite Ec, length_app. lia. }
  rewrite Ec.
  intros r w1 [(-> & Hup & Hg & Hs & He)|(-> & Hl & [k Hk])]; simpl.
  2: { apply wp_ret. right. eauto. }
  destruct (answers_avail _ _ _ _ _ _ Hi Ha Hg Hs) as [Hav Hsound].
  apply wp_bind. eapply wp_mono.
  { apply conn_recv_full_ok; [done|done|by rewrite Hav, Hr|].
    change (header_size + length (conn_events w1) ≤ fuel)%nat. lia. }
  intros [r ack] w2 (Hlen & Hs2 & Hcase). cbn [fst snd] in *.
  destruct Hcase as [(-> & Hup2 & Hsound2 & Hd & _)|(-> & Hl)];
    [change (0 <? 0) with false|change (-1 <? 0) with true]; cbv iota.
  - rewrite Hav in Hd. apply app_same_length in Hd as [<- Hnil];
      [|rewrite Hlen, Hr; done].
    simpl in Hop. rewrite Hop. simpl. apply wp_ret. left. split_and!; [done|by apply sound_idle|congruence].
  - apply wp_ret. by eapply call_post_lost.
Qed.

(** The requests of a batch, as they go down the wire. *)
Definition get_request (id : Z) : list byte :=
  header_bytes (dsm_rpc_make_header OP_GET_PAGE id).

Lemma length_get_request id : length (get_request id) = header_size.
Proof. apply length_header_bytes, make_header_wf. Qed.

Lemma conn_batch_send_ok fuel fd safe ids n w :
  conn_up fd safe w → 0 <= n <= zlen ids →
  (header_size + length (conn_events w) ≤ fuel)%nat →
  wp (batch_send fuel fd ids n) (λ r w',
    let msg := concat (get_request <$> take (Z.to_nat n) ids) in
    match r with
    | Some r => r = -1 ∧ conn_sent_post fd safe w msg r w'
    | None => conn_sent_post fd safe w msg 0 w'
    end) w.
Proof.
  intros Hup Hn Hf. set (msg := concat _). cbv zeta.
  eapply wp_mono.
  { apply (wp_for_ret_range _ (λ i w', conn_sent_post fd safe w
      (concat (get_request <$> take (Z.to_nat i) ids)) 0 w')
      (λ r w', r = -1 ∧ conn_sent_post fd safe w msg r w')); [lia| |].
    - left. rewrite app_nil_r. by split_and!.
    - intros i w1 Hi [(_ & Hup1 & Hg & Hs & He)|(? & _)]; [|done].
      destruct (zget_in_range ids i ltac:(lia)) as [id Hid].
      apply wp_bind. eapply wp_load; [done|]. apply wp_bind. eapply wp_mono.
      { apply conn_send_full_ok; [done|]. fold (get_request id). rewrite length_get_request. lia. }
      fold (get_request id). rewrite zget_lookup in Hid by lia.
      assert (concat (get_request <$> take (Z.to_nat i) ids) ++ get_request id =
              concat (get_request <$> take (Z.to_nat (i + 1)) ids)) as Ec.
      { replace (Z.to_nat (i + 1)) with (S (Z.to_nat i)) by lia.
        rewrite (take_S_r _ _ _ Hid), fmap_app, concat_app. simpl. by rewrite app_nil_r. }
      intros r w2 [(-> & Hup2 & Hg2 & Hs2 & He2)|(-> & Hl & [k Hk])]; apply wp_ret; simpl.
      + left. split_and!; [done|done|congruence| |lia]. by rewrite Hs2, Hs, <- app_assoc, Ec.
      + split; [done|]. right. split_and!; [done|done|]. rewrite Hk, Hs.
        assert (∃ rest, msg = concat (get_request <$> take (Z.to_nat i) ids) ++ get_request id ++ rest)
          as [rest ->].
        { exists (concat (get_request <$> drop (Z.to_nat (i + 1)) (take (Z.to_nat n) ids))).
          rewrite app_assoc, Ec, <- concat_app, <- fmap_app. unfold msg. do 2 f_equal.
          rewrite <- (take_drop (Z.to_nat (i + 1)) (take (Z.to_nat n) ids)) at 1.
          rewrite take_take. do 2 f_equal. lia. }
        exists (length (concat (get_request <$> take (Z.to_nat i) ids)) +
                (k `min` length (get_request id)))%nat.
        rewrite <- app_assoc. f_equal. rewrite take_app_add. f_equal.
        rewrite take_app_le by lia. destruct (decide (k ≤ length (get_request id))%nat).
        * by rewrite Nat.min_l by lia.
        * by rewrite Nat.min_r, !take_ge by lia. }
  by intros [r|] w'.
Qed.

Lemma conn_batch_recv_ok fuel fd safe replies i bufs w :
  conn_up fd safe w → conn_sound w → conn_avail w = concat replies → 0 <= i →
  Forall (λ l, length l = page_bytes) replies →
  (i + zlen replies) * PAGE_SIZE <= zlen bufs →
  (page_bytes + length (conn_events w) ≤ fuel)%nat →
  wp (batch_recv fuel fd (seqZ i (zlen replies)) bufs) (λ res w',
    length res.2 = length bufs ∧ conn_sent w' = conn_sent w ∧
    ((res.1 = 0 ∧ idle fd safe w' ∧
      take (Z.to_nat (i * PAGE_SIZE)) res.2 = take (Z.to_nat (i * PAGE_SIZE)) bufs ∧
      ∀ j reply, replies !! j = Some reply →
        slice res.2 (Z.to_nat ((i + Z.of_nat j) * PAGE_SIZE)) page_bytes = reply) ∨
     (res.1 = -1 ∧ conn_lost fd safe w'))) w.
Proof.
  pose proof page_bytes_Z as Hpb. pose proof page_bytes_pos.
  revert i bufs w. induction replies as [|reply replies IH];
    intros i bufs w Hup Hs Hav Hi Hall Hlen Hf.
  { rewrite seqZ_nil by done. apply wp_ret. split_and!; [done|done|]. left.
    split_and!; [done|by apply sound_idle|done|done]. }
  inversion Hall as [|?? Hr Hall']; subst. rewrite zlen_cons in *.
  pose proof (zlen_nonneg replies). unfold PAGE_SIZE in *.
  rewrite seqZ_cons by lia. simpl. apply wp_bind, wp_load_region; [unfold PAGE_SIZE; lia..|].
  simpl in Hav.
  assert (length (slice bufs (Z.to_nat (i * PAGE_SIZE)) page_bytes) = page_bytes) as Hsl.
  { apply length_slice. unfold zlen, PAGE_SIZE in *. lia. }
  apply wp_bind. eapply wp_mono.
  { apply conn_recv_full_ok; [done|done|rewrite Hsl, Hav, length_app; lia|lia]. }
  intros [r region] w1 (Hlr & Hs1 & Hcase). cbn [fst snd] in *.
  assert (length region = page_bytes) as Hlr' by lia.
  apply wp_bind, wp_store_region; [unfold PAGE_SIZE; lia|unfold zlen, PAGE_SIZE in *; lia|].
  set (bufs' := splice _ _ _).
  assert (length bufs' = length bufs) as Hb'
    by (apply length_splice; unfold zlen, PAGE_SIZE in *; lia).
  destruct Hcase as [(-> & Hup1 & Hsound1 & Hd & He)|(-> & Hl)]; simpl.
  2: { apply wp_ret. split_and!; [done|done|by right]. }
  rewrite Hav in Hd. apply app_inj_1 in Hd as [<- Hav1]; [|lia].
  replace (Z.succ i) with (i + 1) by lia.
  replace (Z.pred (1 + zlen replies)) with (zlen replies) by lia.
  eapply wp_mono; [apply (IH (i + 1)); [done|done|done|lia|done| |lia]|].
  { unfold zlen in *. rewrite Hb'. lia. }
  intros [r2 bufs2] w2 (Hlen2 & Hs2 & Hcase). cbn [fst snd] in *.
  split_and!; [lia|congruence|].
  destruct Hcase as [(-> & Hidle & Htake & Hpages)|]; [left|by right].
  assert (∀ n, (n ≤ Z.to_nat ((i + 1) * PAGE_SIZE))%nat → take n bufs2 = take n bufs') as Hpre.
  { intros n Hn. unfold PAGE_SIZE in Hn. apply (f_equal (take n)) in Htake. by rewrite !take_take, !Nat.min_l in Htake by lia. }
  split_and!; [done|done| |].
  - rewrite Hpre by (unfold PAGE_SIZE; lia). unfold bufs', splice. apply take_app_length'.
    rewrite length_take. unfold zlen, PAGE_SIZE in *. lia.
  - intros [|j] reply' Hj; simpl in Hj.
    + simplify_eq. replace (i + Z.of_nat 0) with i by lia.
      transitivity (slice bufs' (Z.to_nat (i * PAGE_SIZE)) page_bytes).
      * unfold slice. rewrite !take_drop_commute. f_equal. apply Hpre. unfold PAGE_SIZE. lia.
      * unfold bufs'. rewrite <- Hlr'. apply slice_splice_same. unfold zlen, PAGE_SIZE in *. lia.
    + replace (i + Z.of_nat (S j)) with (i + 1 + Z.of_nat j) by lia. by apply Hpages.
Qed.

Lemma conn_rpc_get_batch_ok fuel fd safe ids n bufs replies w :
  idle fd safe w → 0 < n <= zlen ids → zlen replies = n →
  Forall (λ l, length l = page_bytes) replies → n * PAGE_SIZE <= zlen bufs →
  answers w (concat (get_request <$> take (Z.to_nat n) ids)) (concat replies) →
  (header_size + page_bytes + length (conn_events w) ≤ fuel)%nat →
  wp (dsm_rpc_get_batch fuel fd ids n bufs) (λ res w', length res.2 = length bufs ∧
    call_post fd safe w (concat (get_request <$> take (Z.to_nat n) ids)) res.1 w' ∧
    (res.1 = 0 → ∀ j reply, replies !! j = Some reply →
       slice res.2 (Z.to_nat (Z.of_nat j * PAGE_SIZE)) page_bytes = reply)) w.
Proof.
  intros Hi Hn Hrep Hall Hb Ha Hf. subst n. unfold dsm_rpc_get_batch.
  destruct (Z.leb_spec (zlen replies) 0); [lia|]. apply wp_bind.
  eapply wp_mono; [apply (conn_batch_send_ok _ _ safe); [apply Hi|lia|lia]|].
  intros r w1 Hp. destruct r as [r|]; simpl in Hp.
  { destruct Hp as [-> [(? & _)|(_ & Hl & Hk)]]; [done|].
    apply wp_ret. split_and!; [done|by right|done]. }
  destruct Hp as [(_ & Hup & Hg & Hs & He)|(? & _)]; [|done].
  destruct (answers_avail _ _ _ _ _ _ Hi Ha Hg Hs) as [Hav Hsound].
  eapply wp_mono.
  { apply conn_batch_recv_ok; [done|done|done|done|done|by rewrite Z.add_0_l|lia]. }
  intros [r bufs'] w2 (Hlen & Hs2 & Hcase). cbn [fst snd] in *. split; [done|].
  destruct Hcase as [(-> & Hidle & _ & Hpages)|(-> & Hl)].
  - split; [|done]. left. split_and!; [done|done|congruence].
  - split; [by eapply call_post_lost|done].
Qed.

(** ** Calls on a connection that is gone, or on another descriptor *)

Definition conn_down (fd : Z) w : Prop := conn_fd w ≠ fd ∨ conn_broken w = true.

Lemma conn_send_down fd w buf :
  conn_down fd w → ∃ e, conn_send fd buf w = Ret (SysErr e, w) ∧ e ≠ EINTR.
Proof.
  intros Hd. unfold conn_send. destruct (Z.eqb_spec fd (conn_fd w)) as [->|]; simpl.
  - destruct Hd as [|Hb]; [done|]. rewrite Hb. by exists EPIPE.
  - by exists EBADF.
Qed.

Lemma send_full_down fuel fd buf flags w :
  conn_down fd w → buf ≠ [] → dsm_send_full (S fuel) fd buf flags w = Ret (-1, w).
Proof.
  intros (e & E & He)%(conn_send_down _ _ buf) Hne. simpl.
  destruct (zlen buf =? 0) eqn:Ez; [by apply zlen_zero in Ez|].
  unfold mbind, M_bind. simpl. rewrite E. by destruct (Z.eqb_spec e EINTR).
Qed.

Lemma rpc_get_down fuel fd id buf w :
  conn_down fd w → dsm_rpc_get (S fuel) fd id buf w = Ret ((-1, buf), w).
Proof.
  intros Hd. unfold dsm_rpc_get. unfold mbind at 1, M_bind at 1.
  by rewrite send_full_down by (done || apply header_bytes_nonempty, make_header_wf).
Qed.

Lemma rpc_get_batch_down fuel fd ids n bufs w :
  conn_down fd w → 0 < n <= zlen ids →
  dsm_rpc_get_batch (S fuel) fd ids n bufs w = Ret ((-1, bufs), w).
Proof.
  intros Hd Hn. unfold dsm_rpc_get_batch. destruct (Z.leb_spec n 0); [lia|].
  destruct (zget_in_range ids 0 ltac:(lia)) as [id Hid].
  unfold batch_send. rewrite (seqZ_cons 0 n) by lia.
  cbn [for_ret]. unfold mbind, M_bind, load. rewrite Hid. unfold mret, M_ret.
  cbv beta iota.
  by rewrite send_full_down by (done || apply header_bytes_nonempty, make_header_wf).
Qed.

Lemma rpc_put_down fuel fd id buf w :
  conn_down fd w → dsm_rpc_put (S fuel) fd id buf w = Ret (-1, w).
Proof.
  intros Hd. unfold dsm_rpc_put. set (iov := [_; _]).
  destruct (conn_send_down _ _ (concat iov) Hd) as (e & E & He).
  unfold mbind at 1, M_bind at 1.
  assert (dsm_sendv (S fuel) fd iov w = Ret (-1, w)) as ->; [|done].
  cbn [dsm_sendv]. change (zlen iov =? 0) with false. cbv iota. unfold mbind, M_bind.
  rewrite writev_run. change (sys_writev fd iov w) with (conn_send fd (concat iov) w).
  rewrite E. by destruct (Z.eqb_spec e EINTR).
Qed.

End connection.
