(* ===== verification/Paging.v ===== *)
(** * The pager: [include/dsm_paging.h] and [src/dsm_paging.c]

    The client's page cache: page table, frame table, free list and clock
    hand, and the operations on them, over a page service [W].  A pointer
    into [local_memory] is its offset from the start of the mapping, a
    pointer to a table entry is its index, and [NULL] is [None]. *)

From S2P Require Import Prelude Machine Protocol PageService.

Definition DSM_NO_FRAME : Z := UINT32_MAX.
Definition DSM_NO_PAGE : Z := UINT32_MAX.
Definition DSM_PREFETCH_MAX : Z := 8.

(** [page_location_t] *)
Definition LOC_LOCAL : Z := 0.
Definition LOC_REMOTE : Z := 1.

Record page_table_entry := mk_pte {
  frame_number : Z;
  valid : Z;
  reference_bit : Z;
  dirty : Z;
  location : Z;
}.

Record frame_entry := mk_frame {
  page_number : Z;
  occupied : Z;
}.

Record dsm_context := mk_context {
  sock_fd : Z;
  local_memory : list byte;
  page_table : list page_table_entry;
  frame_table : list frame_entry;
  free_list : list Z;
  free_list_top : Z;
  clock_hand : Z;
  num_pages : Z;
  num_virtual_pages : Z;
  next_alloc_page : Z;
  last_page_id : Z;
  prefetch_count : Z;
  local_hits : Z;
  remote_fetches : Z;
  evictions : Z;
}.

(** ** Assignments to a field *)

Definition set_valid v e := mk_pte (frame_number e) v (reference_bit e) (dirty e) (location e).
Definition set_reference_bit v e := mk_pte (frame_number e) (valid e) v (dirty e) (location e).
Definition set_dirty v e := mk_pte (frame_number e) (valid e) (reference_bit e) v (location e).
Definition set_location v e := mk_pte (frame_number e) (valid e) (reference_bit e) (dirty e) v.

Definition set_occupied v f := mk_frame (page_number f) v.

Definition set_sock_fd v c := mk_context v (local_memory c) (page_table c)
  (frame_table c) (free_list c) (free_list_top c) (clock_hand c) (num_pages c)
  (num_virtual_pages c) (next_alloc_page c) (last_page_id c) (prefetch_count c)
  (local_hits c) (remote_fetches c) (evictions c).
Definition set_local_memory v c := mk_context (sock_fd c) v (page_table c)
  (frame_table c) (free_list c) (free_list_top c) (clock_hand c) (num_pages c)
  (num_virtual_pages c) (next_alloc_page c) (last_page_id c) (prefetch_count c)
  (local_hits c) (remote_fetches c) (evictions c).
Definition set_page_table v c := mk_context (sock_fd c) (local_memory c) v
  (frame_table c) (free_list c) (free_list_top c) (clock_hand c) (num_pages c)
  (num_virtual_pages c) (next_alloc_page c) (last_page_id c) (prefetch_count c)
  (local_hits c) (remote_fetches c) (evictions c).
Definition set_frame_table v c := mk_context (sock_fd c) (local_memory c) (page_table c)
  v (free_list c) (free_list_top c) (clock_hand c) (num_pages c)
  (num_virtual_pages c) (next_alloc_page c) (last_page_id c) (prefetch_count c)
  (local_hits c) (remote_fetches c) (evictions c).
Definition set_free_list v c := mk_context (sock_fd c) (local_memory c) (page_table c)
  (frame_table c) v (free_list_top c) (clock_hand c) (num_pages c)
  (num_virtual_pages c) (next_alloc_page c) (last_page_id c) (prefetch_count c)
  (local_hits c) (remote_fetches c) (evictions c).
Definition set_free_list_top v c := mk_context (sock_fd c) (local_memory c) (page_table c)
  (frame_table c) (free_list c) v (clock_hand c) (num_pages c)
  (num_virtual_pages c) (next_alloc_page c) (last_page_id c) (prefetch_count c)
  (local_hits c) (remote_fetches c) (evictions c).
Definition set_clock_hand v c := mk_context (sock_fd c) (local_memory c) (page_table c)
  (frame_table c) (free_list c) (free_list_top c) v (num_pages c)
  (num_virtual_pages c) (next_alloc_page c) (last_page_id c) (prefetch_count c)
  (local_hits c) (remote_fetches c) (evictions c).
Definition set_last_page_id v c := mk_context (sock_fd c) (local_memory c) (page_table c)
  (frame_table c) (free_list c) (free_list_top c) (clock_hand c) (num_pages c)
  (num_virtual_pages c) (next_alloc_page c) v (prefetch_count c)
  (local_hits c) (remote_fetches c) (evictions c).
Definition set_local_hits v c := mk_context (sock_fd c) (local_memory c) (page_table c)
  (frame_table c) (free_list c) (free_list_top c) (clock_hand c) (num_pages c)
  (num_virtual_pages c) (next_alloc_page c) (last_page_id c) (prefetch_count c)
  v (remote_fetches c) (evictions c).
Definition set_remote_fetches v c := mk_context (sock_fd c) (local_memory c) (page_table c)
  (frame_table c) (free_list c) (free_list_top c) (clock_hand c) (num_pages c)
  (num_virtual_pages c) (next_alloc_page c) (last_page_id c) (prefetch_count c)
  (local_hits c) v (evictions c).
Definition set_evictions v c := mk_context (sock_fd c) (local_memory c) (page_table c)
  (frame_table c) (free_list c) (free_list_top c) (clock_hand c) (num_pages c)
  (num_virtual_pages c) (next_alloc_page c) (last_page_id c) (prefetch_count c)
  (local_hits c) (remote_fetches c) v.

(** A C truth value. *)
Definition truthy (z : Z) : bool := negb (z =? 0).

(** [ctx->local_memory + (size_t)frame * PAGE_SIZE], as an offset. *)
Definition frame_to_ptr (frame : Z) : Z := frame * PAGE_SIZE.

Section pager.
Context {W : Type} {RO : RpcOps W}.

(** The state of a pager call: the context and the world of the service. *)
Definition PS : Type := dsm_context * W.

Definition cget {A} (f : dsm_context → A) : M PS A := gets (λ s, f s.1).
Definition cmod (f : dsm_context → dsm_context) : M PS unit := modify (λ s, (f s.1, s.2)).

(** [ctx->page_table[p]] and [ctx->frame_table[f]], read and assigned. *)
Definition get_pte (p : Z) : M PS page_table_entry :=
  pt ← cget page_table; load pt p.

Definition upd_pte (p : Z) (f : page_table_entry → page_table_entry) : M PS unit :=
  pt ← cget page_table;
  e ← load pt p;
  pt' ← store pt p (f e);
  cmod (set_page_table pt').

Definition get_frame (i : Z) : M PS frame_entry :=
  ft ← cget frame_table; load ft i.

Definition upd_frame (i : Z) (f : frame_entry → frame_entry) : M PS unit :=
  ft ← cget frame_table;
  e ← load ft i;
  ft' ← store ft i (f e);
  cmod (set_frame_table ft').

(** The bytes behind a pointer into [local_memory]. *)
Definition read_mem (ptr : Z) (n : nat) : M PS (list byte) :=
  m ← cget local_memory; load_region m ptr n.

Definition write_mem (ptr : Z) (bs : list byte) : M PS unit :=
  m ← cget local_memory;
  m' ← store_region m ptr bs;
  cmod (set_local_memory m').

Definition get_free_frame : M PS Z :=
  top ← cget free_list_top;
  if 0 <? top then
    cmod (set_free_list_top (u32 (top - 1)));;
    top' ← cget free_list_top;
    fl ← cget free_list;
    load fl top'
  else mret DSM_NO_FRAME.

Definition push_free_frame (frame : Z) : M PS unit :=
  top ← cget free_list_top;
  cmod (set_free_list_top (u32 (top + 1)));;
  fl ← cget free_list;
  fl' ← store fl top frame;
  cmod (set_free_list fl').

(** [ctx->clock_hand = (ctx->clock_hand + 1) % ctx->num_pages] *)
Definition advance_clock_hand : M PS unit :=
  hand ← cget clock_hand;
  n ← cget num_pages;
  if n =? 0 then undefined else cmod (set_clock_hand (u32 (hand + 1) mod n)).

(** The writeback of a victim; [false] when the RPC fails. *)
Definition write_back (victim page_num : Z) (page : page_table_entry) : M PS bool :=
  if truthy (dirty page) && (location page =? LOC_REMOTE) then
    data ← read_mem (frame_to_ptr victim) page_bytes;
    fd ← cget sock_fd;
    r ← on_snd (rpc_put fd page_num data);
    mret (negb (r <? 0))
  else mret true.

(** One iteration of the clock; [Some f] is a return from [evict_page]. *)
Definition evict_step : M PS (option Z) :=
  hand ← cget clock_hand;
  frame ← get_frame hand;
  if truthy (occupied frame) then
    let p := page_number frame in
    page ← get_pte p;
    if truthy (reference_bit page) then
      upd_pte p (set_reference_bit 0);;
      advance_clock_hand;;
      mret None
    else
      let victim := hand in
      ok ← write_back victim p page;
      if negb ok then mret (Some DSM_NO_FRAME)
      else
        upd_pte p (λ e, set_dirty 0 (set_valid 0 e));;
        upd_frame victim (set_occupied 0);;
        advance_clock_hand;;
        n ← cget evictions;
        cmod (set_evictions (u64 (n + 1)));;
        push_free_frame victim;;
        f ← get_free_frame;
        mret (Some f)
  else
    advance_clock_hand;;
    mret None.

(** The clock needs at most two sweeps: the first clears the reference bits,
    the second meets a frame without one. *)
Definition evict_page : M PS Z :=
  n ← cget num_pages;
  loop (Z.to_nat (2 * n + 1)) evict_step.

Definition dsm_context_set_socket (fd : Z) : M PS unit := cmod (set_sock_fd fd).

(** The three out-parameters, in order. *)
Definition dsm_context_get_stats : M PS (Z * Z * Z) :=
  cget (λ c, (local_hits c, remote_fetches c, evictions c)).

(** The first loop of [dsm_prefetch_pages]: choose pages and take frames for
    them.  The locals [page_ids] and [frames] are arrays of
    [DSM_PREFETCH_MAX] elements. *)
Fixpoint prefetch_gather (idx : list Z) (start_page : Z)
    (page_ids frames : list Z) (batch_count : Z) : M PS (list Z * list Z * Z) :=
  match idx with
  | [] => mret (page_ids, frames, batch_count)
  | i :: idx =>
      if batch_count <? DSM_PREFETCH_MAX then
        let page_id := u32 (start_page + i) in
        nvp ← cget num_virtual_pages;
        if nvp <=? page_id then mret (page_ids, frames, batch_count) else
        entry ← get_pte page_id;
        if truthy (valid entry) || negb (location entry =? LOC_REMOTE) then
          prefetch_gather idx start_page page_ids frames batch_count
        else
          frame ← get_free_frame;
          if frame =? DSM_NO_FRAME then mret (page_ids, frames, batch_count) else
          page_ids' ← store page_ids batch_count page_id;
          frames' ← store frames batch_count frame;
          prefetch_gather idx start_page page_ids' frames' (batch_count + 1)
      else mret (page_ids, frames, batch_count)
  end.

(** The body of its last loop: move one fetched page into its frame. *)
Definition prefetch_install (page_ids frames : list Z) (bufs : list byte) (i : Z) : M PS unit :=
  page_id ← load page_ids i;
  frame ← load frames i;
  data ← load_region bufs (i * PAGE_SIZE) page_bytes;
  write_mem (frame_to_ptr frame) data;;
  upd_pte page_id (λ e, mk_pte frame 1 0 0 (location e));;
  upd_frame frame (λ _, mk_frame page_id 1);;
  n ← cget remote_fetches;
  cmod (set_remote_fetches (u64 (n + 1))).

Definition dsm_prefetch_pages (start_page count : Z) : M PS unit :=
  '(page_ids, frames, batch_count) ←
    prefetch_gather (seqZ 0 count) start_page
      (replicate (Z.to_nat DSM_PREFETCH_MAX) 0)
      (replicate (Z.to_nat DSM_PREFETCH_MAX) 0) 0;
  if batch_count =? 0 then mret tt else
  fd ← cget sock_fd;
  '(r, bufs) ← on_snd (rpc_get_batch fd page_ids batch_count
    (replicate (Z.to_nat (DSM_PREFETCH_MAX * PAGE_SIZE)) Byte.x00));
  if r <? 0 then
    for_each (seqZ 0 batch_count) (λ i, f ← load frames i; push_free_frame f)
  else
    for_each (seqZ 0 batch_count) (prefetch_install page_ids frames bufs).

(** The fetch of a miss, which the in-memory mode skips; [false] when the RPC
    fails.  The reply is received straight into the frame. *)
Definition fetch_into (frame page_id : Z) (should_fetch : bool) : M PS bool :=
  if should_fetch then
    fd ← cget sock_fd;
    buf ← read_mem (frame_to_ptr frame) page_bytes;
    '(r, buf') ← on_snd (rpc_get fd page_id buf);
    write_mem (frame_to_ptr frame) buf';;
    if r <? 0 then
      push_free_frame frame;;
      mret false
    else
      n ← cget remote_fetches;
      cmod (set_remote_fetches (u64 (n + 1)));;
      mret true
  else mret true.

(** The prefetch of a sequential miss. *)
Definition prefetch_if_sequential (page_id : Z) : M PS unit :=
  last ← cget last_page_id;
  (if page_id =? u32 (last + 1) then
     count ← cget prefetch_count;
     dsm_prefetch_pages (u32 (page_id + 1)) count
   else mret tt);;
  cmod (set_last_page_id page_id).

(** [entry] points to the page's table entry: it is [page_id] itself. *)
Definition dsm_access_page_slow (page_id write entry : Z) : M PS (option Z) :=
  frame0 ← get_free_frame;
  frame ← (if frame0 =? DSM_NO_FRAME then evict_page else mret frame0);
  if frame =? DSM_NO_FRAME then mret None else
  let frame_ptr := frame_to_ptr frame in
  fd ← cget sock_fd;
  let should_fetch := 0 <=? fd in
  fetched ← fetch_into frame page_id should_fetch;
  if negb fetched then mret None else
  upd_pte entry (λ _,
    mk_pte frame 1 1 (u8 write) (if should_fetch then LOC_REMOTE else LOC_LOCAL));;
  upd_frame frame (λ _, mk_frame page_id 1);;
  prefetch_if_sequential page_id;;
  mret (Some frame_ptr).

(** The hit path of [dsm_access_page]; [__builtin_prefetch] is only a hint. *)
Definition dsm_access_page (page_id write : Z) : M PS (option Z) :=
  entry ← get_pte page_id;
  if truthy (valid entry) then
    n ← cget local_hits;
    cmod (set_local_hits (u64 (n + 1)));;
    upd_pte page_id (λ e, set_dirty (Z.lor (dirty e) (u8 write)) (set_reference_bit 1 e));;
    e ← get_pte page_id;
    mret (Some (frame_to_ptr (frame_number e)))
  else dsm_access_page_slow page_id write page_id.

(** The inline copy of the hit path in the header, for hot loops. *)
Definition dsm_access_page_fast (page_id write : Z) : M PS (option Z) :=
  entry ← get_pte page_id;
  if truthy (valid entry) then
    n ← cget local_hits;
    cmod (set_local_hits (u64 (n + 1)));;
    upd_pte page_id (set_reference_bit 1);;
    upd_pte page_id (λ e, set_dirty (Z.lor (dirty e) (u8 write)) e);;
    e ← get_pte page_id;
    mret (Some (frame_number e * PAGE_SIZE))
  else dsm_access_page_slow page_id write page_id.

End pager.

(** ** Creation and destruction *)

(** The blocks a context owns; the state of the allocator is the list of the
    live ones. *)
Inductive block := BlkContext | BlkMemory | BlkPageTable | BlkFrameTable | BlkFreeList.

#[global] Instance block_eq_dec : EqDecision block.
Proof. solve_decision. Defined.

(** Which of the five requests the allocator grants. *)
Record alloc_grants := {
  grant_context : bool;
  grant_memory : bool;
  grant_page_table : bool;
  grant_frame_table : bool;
  grant_free_list : bool;
}.

Definition grant (ok : bool) (b : block) (live : list block) : list block :=
  if ok then b :: live else live.

(** [free] and [munmap]; releasing [NULL] does nothing. *)
Definition release (b : block) (live : list block) : list block :=
  filter (λ b', b' ≠ b) live.

(** [mmap] refuses a length of 0. *)
Definition mmap_grants (g : alloc_grants) (len : Z) : bool :=
  grant_memory g && (0 <? len).

Definition dsm_create_context (g : alloc_grants) (np nvp : Z) (live : list block) :
    option dsm_context * list block :=
  let live := grant (grant_context g) BlkContext live in
  if negb (grant_context g) then (None, live) else
  let len := np * PAGE_SIZE in
  let live := grant (mmap_grants g len) BlkMemory live in
  if negb (mmap_grants g len) then (None, release BlkContext live) else
  let live := grant (grant_page_table g) BlkPageTable live in
  let live := grant (grant_frame_table g) BlkFrameTable live in
  let live := grant (grant_free_list g) BlkFreeList live in
  if negb (grant_page_table g && grant_frame_table g && grant_free_list g) then
    (None, release BlkContext (release BlkFreeList (release BlkFrameTable
      (release BlkPageTable (release BlkMemory live)))))
  else
  (Some {|
    sock_fd := -1;
    local_memory := replicate (Z.to_nat len) Byte.x00;
    page_table := replicate (Z.to_nat nvp) (mk_pte 0 0 0 0 LOC_LOCAL);
    frame_table := replicate (Z.to_nat np) (mk_frame 0 0);
    free_list := (λ i, u32 (np - 1 - i)) <$> seqZ 0 np;
    free_list_top := np;
    clock_hand := 0;
    num_pages := np;
    num_virtual_pages := nvp;
    next_alloc_page := 0;
    last_page_id := DSM_NO_PAGE;
    prefetch_count := 4;
    local_hits := 0;
    remote_fetches := 0;
    evictions := 0;
  |}, live).

(** [None] is the [NULL] context. *)
Definition dsm_destroy_context (ctx : option dsm_context) (live : list block) : list block :=
  match ctx with
  | None => live
  | Some _ => release BlkContext (release BlkFreeList (release BlkFrameTable
      (release BlkPageTable (release BlkMemory live))))
  end.
