(* ===== verification/PagingInv.v ===== *)
(** * The pager's invariant

    [pager_inv held c]: the tables have the sizes the context records, and
    every frame is exactly one of free, occupied by the one valid page that
    maps to it, or held by the operation in progress ([held] is empty between
    operations).  The lemmas of this file say how the elementary moves of the
    pager (take a frame, give it back, unmap a page, map a page, write to a
    frame) change the invariant. *)

From S2P Require Import Prelude Machine Protocol PageService Paging.

(** ** The free part of the stack, and the bytes of a frame *)

Definition free_frames (c : dsm_context) : list Z :=
  take (Z.to_nat (free_list_top c)) (free_list c).

Definition unoccupied (c : dsm_context) (f : Z) : Prop :=
  ∃ e, zget (frame_table c) f = Some e ∧ occupied e = 0.

Definition frame_data (c : dsm_context) (f : Z) : list byte :=
  slice (local_memory c) (Z.to_nat (frame_to_ptr f)) page_bytes.

(** Page [p] is cached in frame [f]. *)
Definition mapped (c : dsm_context) (p f : Z) : Prop :=
  (∃ pe, zget (page_table c) p = Some pe ∧ valid pe = 1 ∧ frame_number pe = f) ∧
  (∃ e, zget (frame_table c) f = Some e ∧ occupied e = 1 ∧ page_number e = p).

Record pager_inv (held : list Z) (c : dsm_context) : Prop := {
  inv_num_pages : 0 < num_pages c <= UINT32_MAX;
  inv_num_virtual : 0 <= num_virtual_pages c <= UINT32_MAX;
  inv_memory : zlen (local_memory c) = num_pages c * PAGE_SIZE;
  inv_page_table : zlen (page_table c) = num_virtual_pages c;
  inv_frame_table : zlen (frame_table c) = num_pages c;
  inv_free_list : zlen (free_list c) = num_pages c;
  inv_top : 0 <= free_list_top c <= num_pages c;
  inv_hand : 0 <= clock_hand c < num_pages c;
  inv_prefetch : 0 <= prefetch_count c < 2 ^ 8;
  inv_nodup : NoDup (free_frames c ++ held);
  inv_free f : f ∈ free_frames c ++ held ↔ unoccupied c f;
  inv_occupied f e : zget (frame_table c) f = Some e → occupied e ≠ 0 →
    mapped c (page_number e) f;
  inv_valid p pe : zget (page_table c) p = Some pe → valid pe ≠ 0 →
    mapped c p (frame_number pe);
}.

Lemma truthy_true z : truthy z = true ↔ z ≠ 0.
Proof. unfold truthy. destruct (Z.eqb_spec z 0); simpl; split; congruence. Qed.

Lemma truthy_false z : truthy z = false ↔ z = 0.
Proof. unfold truthy. destruct (Z.eqb_spec z 0); simpl; split; congruence. Qed.

(** The fields of the context the invariant reads. *)
Lemma pager_inv_ext held c c' :
  pager_inv held c →
  num_pages c' = num_pages c → num_virtual_pages c' = num_virtual_pages c →
  zlen (local_memory c') = zlen (local_memory c) →
  page_table c' = page_table c → frame_table c' = frame_table c →
  free_list c' = free_list c → free_list_top c' = free_list_top c →
  prefetch_count c' = prefetch_count c → 0 <= clock_hand c' < num_pages c →
  pager_inv held c'.
Proof.
  intros [] E1 E2 E3 E4 E5 E6 E7 E8 Hh.
  constructor; unfold free_frames, unoccupied, mapped in *;
    rewrite ?E1, ?E2, ?E3, ?E4, ?E5, ?E6, ?E7, ?E8; done.
Qed.

Section pager_inv_lemmas.
Context (held : list Z) (c : dsm_context) (I : pager_inv held c).

Lemma inv_unoccupied_range f : unoccupied c f → 0 <= f < num_pages c.
Proof.
  intros (e & He & _). apply zget_Some_range in He.
  by rewrite (inv_frame_table _ _ I) in He.
Qed.

Lemma inv_held_range f : f ∈ held → 0 <= f < num_pages c.
Proof.
  intros Hf. apply inv_unoccupied_range, (inv_free _ _ I), elem_of_app. by right.
Qed.

Lemma inv_frame_get f : 0 <= f < num_pages c → ∃ e, zget (frame_table c) f = Some e.
Proof. intros. apply zget_in_range. by rewrite (inv_frame_table _ _ I). Qed.

Lemma inv_page_get p : 0 <= p < num_virtual_pages c → ∃ e, zget (page_table c) p = Some e.
Proof. intros. apply zget_in_range. by rewrite (inv_page_table _ _ I). Qed.

Lemma inv_page_range p pe :
  zget (page_table c) p = Some pe → 0 <= p < num_virtual_pages c.
Proof. intros H%zget_Some_range. by rewrite (inv_page_table _ _ I) in H. Qed.

Lemma inv_frame_range f e : zget (frame_table c) f = Some e → 0 <= f < num_pages c.
Proof. intros H%zget_Some_range. by rewrite (inv_frame_table _ _ I) in H. Qed.

Lemma inv_frame_count : zlen (free_frames c) + zlen held <= num_pages c.
Proof.
  rewrite <- zlen_app.
  pose proof (inv_num_pages _ _ I).
  etrans; [apply (NoDup_bounded_length _ (num_pages c))|lia].
  - apply (inv_nodup _ _ I).
  - intros f Hf. by apply inv_unoccupied_range, (inv_free _ _ I).
Qed.

Lemma zlen_free_frames : zlen (free_frames c) = free_list_top c.
Proof.
  unfold free_frames, zlen. rewrite length_take.
  pose proof (inv_top _ _ I). pose proof (inv_free_list _ _ I). unfold zlen in *. lia.
Qed.

Lemma inv_frame_mem f :
  0 <= f < num_pages c →
  0 <= frame_to_ptr f ∧ frame_to_ptr f + Z.of_nat page_bytes <= zlen (local_memory c).
Proof.
  intros. rewrite (inv_memory _ _ I), page_bytes_Z. unfold frame_to_ptr, PAGE_SIZE. nia.
Qed.

Lemma length_frame_data f : 0 <= f < num_pages c → length (frame_data c f) = page_bytes.
Proof.
  intros Hf%inv_frame_mem. unfold frame_data, zlen in *. apply length_slice. lia.
Qed.

Lemma mapped_frame_unique p p' f : mapped c p f → mapped c p' f → p = p'.
Proof. intros [_ (e & ? & ? & ?)] [_ (e' & ? & ? & ?)]. congruence. Qed.

Lemma mapped_not_unoccupied p f : mapped c p f → ¬ unoccupied c f.
Proof. intros [_ (e & ? & ? & ?)] (e' & ? & ?). simplify_eq. congruence. Qed.

End pager_inv_lemmas.

Lemma pager_inv_perm held held' c : held ≡ₚ held' → pager_inv held c → pager_inv held' c.
Proof.
  intros Hp []. constructor; try done.
  - by rewrite <- Hp.
  - intros f. by rewrite <- Hp.
Qed.

(** ** The elementary moves *)

(** [get_free_frame] on a non-empty stack. *)
Lemma pager_inv_pop held c f :
  pager_inv held c → zget (free_list c) (free_list_top c - 1) = Some f →
  pager_inv (f :: held) (set_free_list_top (free_list_top c - 1) c).
Proof.
  intros I Hf.
  assert (free_frames c = free_frames (set_free_list_top (free_list_top c - 1) c) ++ [f]) as E.
  { unfold free_frames. simpl. rewrite <- (take_snoc_zget _ _ f) by done. f_equal. lia. }
  pose proof (zget_Some_range _ _ _ Hf). destruct I. constructor; simpl; try done.
  - lia.
  - by rewrite E, <- app_assoc in *.
  - intros g. rewrite E, <- app_assoc in *. apply inv_free0.
Qed.

(** [push_free_frame]. *)
Lemma pager_inv_push held c f :
  pager_inv (f :: held) c →
  0 <= free_list_top c < zlen (free_list c) ∧
  pager_inv held (set_free_list (zupd (free_list c) (free_list_top c) f)
    (set_free_list_top (free_list_top c + 1) c)).
Proof.
  intros I.
  pose proof (inv_frame_count _ _ I) as Hc. rewrite (zlen_free_frames _ _ I) in Hc.
  pose proof (inv_top _ _ I). pose proof (inv_free_list _ _ I).
  rewrite zlen_cons in Hc. pose proof (zlen_nonneg held).
  assert (0 <= free_list_top c < zlen (free_list c)) as Hr by lia. split; [done|].
  set (c' := set_free_list _ _).
  assert (free_frames c' = free_frames c ++ [f]) as E.
  { unfold free_frames, c'. simpl. by apply take_zupd_snoc. }
  destruct I. constructor; simpl; try done.
  - by rewrite zlen_zupd.
  - lia.
  - by rewrite E, <- app_assoc.
  - intros g. rewrite E, <- app_assoc. apply inv_free0.
Qed.

(** Unmapping a page: the first half of an eviction.  The frame is held. *)
Lemma pager_inv_unmap held c p f pe e pe' e' :
  pager_inv held c →
  zget (page_table c) p = Some pe → valid pe ≠ 0 → frame_number pe = f →
  zget (frame_table c) f = Some e →
  valid pe' = 0 → occupied e' = 0 →
  pager_inv (f :: held)
    (set_frame_table (zupd (frame_table c) f e') (set_page_table (zupd (page_table c) p pe') c)).
Proof.
  intros I Hp Hv Hf He Hv' Ho'.
  pose proof (inv_valid _ _ I _ _ Hp Hv) as Hm. rewrite Hf in Hm.
  pose proof (zget_Some_range _ _ _ Hp) as Rp. pose proof (zget_Some_range _ _ _ He) as Rf.
  assert (∀ q g, mapped c q g → g ≠ f → q ≠ p) as Hqp.
  { intros q g [(qe & Hq & _ & Hqf) _] Hne ->. simplify_eq. }
  set (c' := set_frame_table _ _).
  assert (∀ q g, mapped c q g → g ≠ f → mapped c' q g) as Hkeep.
  { intros q g Hqg Hne. pose proof (Hqp _ _ Hqg Hne) as Hq.
    destruct Hqg as [(qe & ? & ? & ?) (ge & ? & ? & ?)]. unfold mapped, c'. simpl.
    split; [exists qe|exists ge]; rewrite zget_zupd_ne by lia; done. }
  destruct I. constructor; simpl; rewrite ?zlen_zupd; try done.
  - apply (NoDup_Permutation_proper _ _ (Permutation_middle (free_frames c) held f)).
    constructor; [|done]. rewrite inv_free0. by eapply mapped_not_unoccupied.
  - intros g. change (free_frames c') with (free_frames c).
    rewrite <- Permutation_middle, elem_of_cons, inv_free0. unfold unoccupied. simpl.
    destruct (decide (g = f)) as [->|].
    + split; [intros _|by left]. exists e'. by rewrite zget_zupd_eq.
    + rewrite zget_zupd_ne by lia. split; [by intros [?|?]|by right].
  - intros g ge. rewrite zget_zupd by done. case_decide as Hfg; intros.
    + simplify_eq.
    + apply Hkeep; [|done]. by apply inv_occupied0.
  - intros q qe. rewrite zget_zupd by done. case_decide; intros Hq Hqv.
    + simplify_eq.
    + pose proof (inv_valid0 _ _ Hq Hqv) as Hqm. apply Hkeep; [done|].
      intros E. rewrite E in Hqm.
      destruct Hqm as [_ (? & ? & ? & ?)], Hm as [_ (? & ? & ? & ?)]. congruence.
Qed.

(** Mapping a page to a held frame. *)
Lemma pager_inv_map held c p f pe e pe' :
  pager_inv (f :: held) c →
  zget (page_table c) p = Some pe → valid pe = 0 →
  zget (frame_table c) f = Some e →
  valid pe' = 1 → frame_number pe' = f →
  pager_inv held
    (set_frame_table (zupd (frame_table c) f (mk_frame p 1))
      (set_page_table (zupd (page_table c) p pe') c)).
Proof.
  intros I Hp Hv He Hv' Hf'.
  pose proof (zget_Some_range _ _ _ Hp) as Rp. pose proof (zget_Some_range _ _ _ He) as Rf.
  assert (unoccupied c f) as Hun.
  { apply (inv_free _ _ I), elem_of_app. right. by left. }
  set (c' := set_frame_table _ _).
  assert (mapped c' p f) as Hpf.
  { unfold mapped, c'. simpl. split; [exists pe'|exists (mk_frame p 1)];
      by rewrite zget_zupd_eq. }
  assert (∀ q g, mapped c q g → mapped c' q g) as Hkeep.
  { intros q g Hqg.
    assert (g ≠ f) by (intros ->; by eapply mapped_not_unoccupied).
    destruct Hqg as [(qe & ? & ? & ?) (ge & ? & ? & ?)].
    assert (q ≠ p) by (intros ->; simplify_eq; congruence).
    unfold mapped, c'. simpl. split; [exists qe|exists ge]; rewrite zget_zupd_ne by lia; done. }
  destruct I. constructor; simpl; rewrite ?zlen_zupd; try done.
  - rewrite <- Permutation_middle in inv_nodup0. apply NoDup_cons in inv_nodup0. apply inv_nodup0.
  - intros g. change (free_frames c') with (free_frames c).
    rewrite <- Permutation_middle in inv_nodup0. apply NoDup_cons in inv_nodup0 as [Hnf _].
    setoid_rewrite <- Permutation_middle in inv_free0. specialize (inv_free0 g).
    rewrite elem_of_cons in inv_free0. unfold unoccupied in *. simpl.
    destruct (decide (g = f)) as [->|].
    + split; [done|]. intros (e1 & Hg & Ho). rewrite zget_zupd_eq in Hg by done. by simplify_eq.
    + rewrite zget_zupd_ne by lia. rewrite <- inv_free0. split; [by right|by intros [?|?]].
  - intros g ge. rewrite zget_zupd by done. case_decide; intros; simplify_eq/=; auto.
  - intros q qe. rewrite zget_zupd by done. case_decide; intros; simplify_eq/=; auto.
Qed.

(** Changing bits of an entry other than the mapping. *)
Lemma pager_inv_bits held c p pe pe' :
  pager_inv held c → zget (page_table c) p = Some pe →
  valid pe' = valid pe → frame_number pe' = frame_number pe →
  pager_inv held (set_page_table (zupd (page_table c) p pe') c).
Proof.
  intros I Hp Hv Hf. pose proof (zget_Some_range _ _ _ Hp) as Rp.
  set (c' := set_page_table _ _).
  assert (∀ q g, mapped c q g → mapped c' q g) as Hkeep.
  { intros q g [(qe & Hq & Hqv & Hqf) He]. split; [|done]. unfold c'. simpl.
    rewrite zget_zupd by done. case_decide; [|by exists qe].
    exists pe'. simplify_eq. by rewrite Hv, Hf. }
  destruct I. constructor; simpl; rewrite ?zlen_zupd; try done.
  - intros g ge Hg Ho. by apply Hkeep, inv_occupied0.
  - intros q qe. rewrite zget_zupd by done. case_decide; intros; simplify_eq/=; [|by auto].
    rewrite Hf. apply Hkeep, inv_valid0; congruence.
Qed.

(** Writing to the memory. *)
Lemma pager_inv_memory held c off bs :
  pager_inv held c → 0 <= off → off + zlen bs <= zlen (local_memory c) →
  pager_inv held (set_local_memory (splice (local_memory c) (Z.to_nat off) bs) c).
Proof.
  intros I ??. eapply pager_inv_ext; try done; simpl.
  - unfold zlen in *. rewrite length_splice by lia. done.
  - apply I.
Qed.
