(* ===== verification/PagingOps.v ===== *)
(** * The pager's operations keep the invariant and the memory they represent

    [represents (Some V) (c, w)]: the pager, connected to a page service,
    stands for the memory [V] that maps a page id to a page of bytes.  A
    cached page holds its bytes in its frame, and the service holds them too
    unless the page is dirty; any other page is held by the service.
    [represents None] claims nothing, which covers the in-memory mode.  Every
    operation is specified once, for both.  The flag [live] adds the claim
    that the service serves every page of the context, under which no
    operation fails. *)

From S2P Require Import Prelude Machine Protocol PageService Paging PagingInv.

Section pager_ops.
Context {W : Type} {RO : RpcOps W} {PSV : PageService W}.
Context (live : bool).
Implicit Types (c : dsm_context) (w : W) (s : PS (W:=W)).

Definition memory : Type := Z → list byte.

Definition page_view (V : memory) c w (p : Z) (pe : page_table_entry) : Prop :=
  if truthy (valid pe) then
    frame_data c (frame_number pe) = V p ∧ location pe = LOC_REMOTE ∧
    (dirty pe = 0 → page_of w (sock_fd c) p = V p)
  else page_of w (sock_fd c) p = V p.

Definition serves_all c w : Prop :=
  in_step w (sock_fd c) (num_virtual_pages c) ∧
  (live = true → ∀ p, 0 <= p < num_virtual_pages c → serves w (sock_fd c) p).

Definition represents (m : option memory) c w : Prop :=
  serves_all c w ∧
  match m with
  | None => True
  | Some V => 0 <= sock_fd c ∧
      ∀ p pe, zget (page_table c) p = Some pe → page_view V c w p pe
  end.

Definition pager_ok (held : list Z) (m : option memory) s : Prop :=
  pager_inv held s.1 ∧ represents m s.1 s.2.

(** What no operation changes. *)
Definition same_geometry c c' : Prop :=
  num_pages c' = num_pages c ∧ num_virtual_pages c' = num_virtual_pages c ∧
  sock_fd c' = sock_fd c ∧ prefetch_count c' = prefetch_count c.

#[global] Instance same_geometry_preorder : PreOrder same_geometry.
Proof.
  split; unfold same_geometry; [done|]. intros c1 c2 c3. intuition congruence.
Qed.

(** ** Symbolic execution of the accessors *)

Lemma wp_cget {A} (f : dsm_context → A) (Q : A → PS → Prop) c w :
  Q (f c) (c, w) → wp (cget f) Q (c, w).
Proof. intros. by apply wp_gets. Qed.

Lemma wp_cmod (f : dsm_context → dsm_context) (Q : unit → PS → Prop) c w :
  Q tt (f c, w) → wp (cmod f) Q (c, w).
Proof. intros. by apply wp_modify. Qed.

Lemma wp_get_pte p pe (Q : _ → PS → Prop) c w :
  zget (page_table c) p = Some pe → Q pe (c, w) → wp (get_pte p) Q (c, w).
Proof. intros. apply wp_bind, wp_cget. by eapply wp_load. Qed.

Lemma wp_get_frame f e (Q : _ → PS → Prop) c w :
  zget (frame_table c) f = Some e → Q e (c, w) → wp (get_frame f) Q (c, w).
Proof. intros. apply wp_bind, wp_cget. by eapply wp_load. Qed.

Lemma wp_upd_pte p pe g (Q : unit → PS → Prop) c w :
  zget (page_table c) p = Some pe →
  Q tt (set_page_table (zupd (page_table c) p (g pe)) c, w) →
  wp (upd_pte p g) Q (c, w).
Proof.
  intros Hp HQ. apply wp_bind, wp_cget, wp_bind. eapply wp_load; [done|].
  apply wp_bind, wp_store; [by eapply zget_Some_range|]. by apply wp_cmod.
Qed.

Lemma wp_upd_frame f e g (Q : unit → PS → Prop) c w :
  zget (frame_table c) f = Some e →
  Q tt (set_frame_table (zupd (frame_table c) f (g e)) c, w) →
  wp (upd_frame f g) Q (c, w).
Proof.
  intros Hp HQ. apply wp_bind, wp_cget, wp_bind. eapply wp_load; [done|].
  apply wp_bind, wp_store; [by eapply zget_Some_range|]. by apply wp_cmod.
Qed.

Lemma wp_read_frame held f (Q : list byte → PS → Prop) c w :
  pager_inv held c → 0 <= f < num_pages c →
  Q (frame_data c f) (c, w) → wp (read_mem (frame_to_ptr f) page_bytes) Q (c, w).
Proof.
  intros I Hf HQ. destruct (inv_frame_mem _ _ I _ Hf).
  apply wp_bind, wp_cget, wp_load_region; done.
Qed.

Lemma wp_write_mem ptr bs (Q : unit → PS → Prop) c w :
  0 <= ptr → ptr + zlen bs <= zlen (local_memory c) →
  Q tt (set_local_memory (splice (local_memory c) (Z.to_nat ptr) bs) c, w) →
  wp (write_mem ptr bs) Q (c, w).
Proof. intros. apply wp_bind, wp_cget, wp_bind, wp_store_region; [done..|]. by apply wp_cmod. Qed.

Lemma wp_advance_clock_hand held (Q : unit → PS → Prop) c w :
  pager_inv held c →
  (∀ h, h = (clock_hand c + 1) mod num_pages c → 0 <= h < num_pages c →
     Q tt (set_clock_hand h c, w)) →
  wp advance_clock_hand Q (c, w).
Proof.
  intros I HQ. pose proof (inv_num_pages _ _ I). pose proof (inv_hand _ _ I).
  unfold UINT32_MAX in *. apply wp_bind, wp_cget, wp_bind, wp_cget.
  destruct (Z.eqb_spec (num_pages c) 0); [lia|].
  apply wp_cmod, HQ; [by word_small|]. apply Z.mod_pos_bound. lia.
Qed.

(** The stack of free frames. *)
Lemma wp_get_free_frame held (Q : Z → PS → Prop) c w :
  pager_inv held c →
  (free_list_top c = 0 → Q DSM_NO_FRAME (c, w)) →
  (∀ f, 0 <= f < num_pages c →
     pager_inv (f :: held) (set_free_list_top (free_list_top c - 1) c) →
     Q f (set_free_list_top (free_list_top c - 1) c, w)) →
  wp get_free_frame Q (c, w).
Proof.
  intros I HQ0 HQ. pose proof (inv_top _ _ I). pose proof (inv_num_pages _ _ I).
  unfold UINT32_MAX in *.
  apply wp_bind, wp_cget. destruct (Z.ltb_spec 0 (free_list_top c)).
  - apply wp_bind, wp_cmod, wp_bind, wp_cget, wp_bind, wp_cget. simpl. word_small.
    destruct (zget_in_range (free_list c) (free_list_top c - 1)) as [f Hf].
    { rewrite (inv_free_list _ _ I). lia. }
    pose proof (pager_inv_pop _ _ _ I Hf) as I'.
    apply (wp_load _ _ f); [done|]. apply HQ; [|done].
    apply (inv_held_range _ _ I'). by left.
  - apply wp_ret, HQ0. lia.
Qed.

Lemma wp_push_free_frame held f (Q : unit → PS → Prop) c w :
  pager_inv (f :: held) c →
  (∀ c', c' = set_free_list (zupd (free_list c) (free_list_top c) f)
                (set_free_list_top (free_list_top c + 1) c) →
     pager_inv held c' → Q tt (c', w)) →
  wp (push_free_frame f) Q (c, w).
Proof.
  intros I HQ. destruct (pager_inv_push _ _ _ I) as [Hr I'].
  pose proof (inv_num_pages _ _ I). pose proof (inv_free_list _ _ I). unfold UINT32_MAX in *.
  apply wp_bind, wp_cget, wp_bind, wp_cmod, wp_bind, wp_cget, wp_bind. simpl. word_small.
  apply wp_store; [done|]. apply wp_cmod. simpl. by apply HQ.
Qed.

(** ** How the moves change what is represented *)

Lemma represents_ext m c c' w :
  represents m c w → page_table c' = page_table c →
  local_memory c' = local_memory c → sock_fd c' = sock_fd c →
  num_virtual_pages c' = num_virtual_pages c → represents m c' w.
Proof.
  intros R E1 E2 E3 E4. destruct m; unfold represents, serves_all, page_view, frame_data in *;
    by rewrite ?E1, ?E2, ?E3, ?E4.
Qed.

(** A world change that keeps what is served. *)
Definition keeps_serving c w w' : Prop :=
  in_step w' (sock_fd c) (num_virtual_pages c) ∧
  (live = true → ∀ p, serves w (sock_fd c) p → serves w' (sock_fd c) p).

Lemma serves_all_world c w w' : serves_all c w → keeps_serving c w w' → serves_all c w'.
Proof. unfold serves_all, keeps_serving. intros [_ ?] [? ?]. auto. Qed.

Lemma represents_world m c w w' :
  represents m c w → (∀ p, page_of w' (sock_fd c) p = page_of w (sock_fd c) p) →
  keeps_serving c w w' → represents m c w'.
Proof.
  intros [Hs HR] Hw Hk. split; [by eapply serves_all_world|].
  destruct m as [V|]; [|done]. destruct HR as [Hfd HV]. split; [done|].
  intros p pe Hp. specialize (HV p pe Hp). unfold page_view in *.
  destruct (truthy (valid pe)); by rewrite Hw.
Qed.

(** A put of a dirty page changes nothing the memory depends on. *)
Lemma represents_put m c w w' p pe :
  represents m c w → zget (page_table c) p = Some pe → valid pe ≠ 0 → dirty pe ≠ 0 →
  (∀ q, q ≠ p → page_of w' (sock_fd c) q = page_of w (sock_fd c) q) →
  keeps_serving c w w' → represents m c w'.
Proof.
  intros [Hs HR] Hp Hv Hd Hw Hk. split; [by eapply serves_all_world|].
  destruct m as [V|]; [|done]. destruct HR as [Hfd HV]. split; [done|].
  intros q qe Hq. specialize (HV q qe Hq). unfold page_view in *.
  destruct (decide (q = p)) as [->|Hne].
  - simplify_eq. destruct (truthy (valid pe)) eqn:E; [|by apply truthy_false in E].
    destruct HV as (? & ? & ?). by split_and!.
  - destruct (truthy (valid qe)); by rewrite Hw.
Qed.

Lemma represents_unmap m c w p pe pe' :
  represents m c w → zget (page_table c) p = Some pe → valid pe' = 0 →
  (∀ V, m = Some V → page_of w (sock_fd c) p = V p) →
  represents m (set_page_table (zupd (page_table c) p pe') c) w.
Proof.
  intros [Hs HR] Hp Hv Hw. split; [done|].
  destruct m as [V|]; [|done]. destruct HR as [Hfd HV]. split; [done|].
  pose proof (zget_Some_range _ _ _ Hp).
  intros q qe. simpl. rewrite zget_zupd by done. case_decide; intros Hq.
  - simplify_eq. unfold page_view. rewrite Hv. by apply Hw.
  - by apply HV.
Qed.

Lemma represents_map m c w p pe pe' :
  represents m c w → zget (page_table c) p = Some pe → valid pe = 0 → valid pe' = 1 →
  (∀ V, m = Some V → frame_data c (frame_number pe') = V p ∧ location pe' = LOC_REMOTE) →
  represents m (set_page_table (zupd (page_table c) p pe') c) w.
Proof.
  intros [Hs HR] Hp Hv Hv' Hw. split; [done|].
  destruct m as [V|]; [|done]. destruct HR as [Hfd HV]. split; [done|].
  pose proof (zget_Some_range _ _ _ Hp).
  intros q qe. simpl. rewrite zget_zupd by done. case_decide; intros Hq.
  - simplify_eq. unfold page_view. rewrite Hv'. simpl.
    specialize (HV _ _ Hp). unfold page_view in HV. rewrite Hv in HV. simpl in HV.
    destruct (Hw V eq_refl). by split_and!.
  - by apply HV.
Qed.

Lemma represents_bits m c w p pe pe' :
  represents m c w → zget (page_table c) p = Some pe →
  valid pe' = valid pe → frame_number pe' = frame_number pe → location pe' = location pe →
  (dirty pe' = 0 → dirty pe = 0) →
  represents m (set_page_table (zupd (page_table c) p pe') c) w.
Proof.
  intros [Hs HR] Hp Hv Hf Hl Hd. split; [done|].
  destruct m as [V|]; [|done]. destruct HR as [Hfd HV]. split; [done|].
  pose proof (zget_Some_range _ _ _ Hp).
  intros q qe. simpl. rewrite zget_zupd by done. case_decide; intros Hq; [|by apply HV].
  simplify_eq. specialize (HV _ _ Hp). unfold page_view in *. rewrite Hv, Hf, Hl.
  destruct (truthy (valid pe)); [|done]. destruct HV as (? & ? & ?). split_and!; auto.
Qed.

(** Frames do not overlap. *)
Lemma frame_data_other held c f g bs :
  pager_inv held c → 0 <= f < num_pages c → 0 <= g → f ≠ g → length bs = page_bytes →
  frame_data (set_local_memory (splice (local_memory c) (Z.to_nat (frame_to_ptr f)) bs) c) g
  = frame_data c g.
Proof.
  intros I Hf Hg Hne Hl. destruct (inv_frame_mem _ _ I _ Hf) as [H0 H1].
  pose proof page_bytes_Z. unfold frame_data, frame_to_ptr, zlen, PAGE_SIZE in *. simpl.
  apply slice_splice_disjoint; [lia|]. rewrite Hl. nia.
Qed.

Lemma frame_data_same held c f bs :
  pager_inv held c → 0 <= f < num_pages c → length bs = page_bytes →
  frame_data (set_local_memory (splice (local_memory c) (Z.to_nat (frame_to_ptr f)) bs) c) f
  = bs.
Proof.
  intros I Hf Hl. destruct (inv_frame_mem _ _ I _ Hf) as [H0 H1].
  unfold frame_data, zlen in *. simpl. rewrite <- Hl. apply slice_splice_same. lia.
Qed.

(** Overwriting a held frame: no page of the memory lives there. *)
Lemma represents_held_frame held m c w f bs :
  pager_inv held c → f ∈ held → represents m c w → length bs = page_bytes →
  represents m (set_local_memory (splice (local_memory c) (Z.to_nat (frame_to_ptr f)) bs) c) w.
Proof.
  intros I Hh [Hs HR] Hl. split; [done|].
  destruct m as [V|]; [|done]. destruct HR as [Hfd HV]. split; [done|].
  intros p pe Hp. specialize (HV p pe Hp). unfold page_view in *.
  change (page_table _) with (page_table c) in Hp.
  destruct (truthy (valid pe)) eqn:E; [|done]. apply truthy_true in E.
  pose proof (inv_valid _ _ I _ _ Hp E) as Hm.
  rewrite (frame_data_other held); [done|done|by eapply inv_held_range| |  |done].
  - destruct Hm as [_ (e & He & _)]. apply zget_Some_range in He. lia.
  - intros ->. eapply mapped_not_unoccupied; [done|].
    apply (inv_free _ _ I), elem_of_app. by right.
Qed.

End pager_ops.
