(* ===== verification/PagingAccess.v ===== *)
(** * Eviction, prefetch and access

    The specifications of the pager's compound operations: each returns,
    without undefined behaviour, with the invariant and the represented
    memory intact, whatever the page service answers. *)

From S2P Require Import Prelude Machine Protocol PageService Paging PagingInv PagingOps.

Section pager_access.
Context {W : Type} {RO : RpcOps W} {PSV : PageService W}.
Context (live : bool).
Implicit Types (c : dsm_context) (w : W) (s : PS (W:=W)) (m : option memory).

#[local] Abbreviation represents := (represents live).
#[local] Abbreviation pager_ok := (pager_ok live).
#[local] Abbreviation keeps_serving := (keeps_serving live).

(** ** Eviction *)

(** Pages that are not cached stay so. *)
Definition keeps_invalid c c' : Prop := ∀ p pe,
  zget (page_table c) p = Some pe → valid pe = 0 →
  ∃ pe', zget (page_table c') p = Some pe' ∧ valid pe' = 0.

#[global] Instance keeps_invalid_preorder : PreOrder keeps_invalid.
Proof.
  split.
  - intros c p pe ??. by exists pe.
  - intros c1 c2 c3 H1 H2 p pe Hp Hv. destruct (H1 _ _ Hp Hv) as (pe' & ? & ?). eauto.
Qed.

Lemma keeps_invalid_upd c c' p pe pe' :
  zget (page_table c) p = Some pe → (valid pe = 0 → valid pe' = 0) →
  page_table c' = zupd (page_table c) p pe' → keeps_invalid c c'.
Proof.
  intros Hp Hv E q qe Hq Hqv. rewrite E. pose proof (zget_Some_range _ _ _ Hp).
  rewrite zget_zupd by done. case_decide; [|by exists qe].
  exists pe'. simplify_eq. auto.
Qed.

Lemma keeps_invalid_same c c' : page_table c' = page_table c → keeps_invalid c c'.
Proof. intros E p pe Hp Hv. exists pe. by rewrite E. Qed.

Lemma write_back_ok m c w p f pe :
  pager_ok [] m (c, w) → zget (page_table c) p = Some pe → valid pe ≠ 0 →
  frame_number pe = f →
  wp (write_back f p pe) (λ ok s',
    s'.1 = c ∧ represents m c s'.2 ∧
    (live = true → ok = true) ∧
    (ok = true → ∀ V, m = Some V → page_of s'.2 (sock_fd c) p = V p)) (c, w).
Proof.
  intros [I R] Hp Hv Hf. simpl in *. unfold write_back.
  pose proof (inv_page_range _ _ I _ _ Hp) as Hpr. pose proof (inv_num_virtual _ _ I).
  assert (0 <= f < num_pages c) as Hfr.
  { destruct (inv_valid _ _ I _ _ Hp Hv) as [_ (e & He & _)].
    apply (inv_frame_range _ _ I) in He. by rewrite <- Hf. }
  assert (∀ V, m = Some V → frame_data c f = V p ∧ location pe = LOC_REMOTE ∧
            (dirty pe = 0 → page_of w (sock_fd c) p = V p)) as HV.
  { intros V ->. destruct R as [_ [_ HV]]. specialize (HV _ _ Hp). unfold page_view in HV.
    rewrite (proj2 (truthy_true _) Hv), Hf in HV. done. }
  destruct (truthy (dirty pe) && (location pe =? LOC_REMOTE)) eqn:E.
  - apply andb_true_iff in E as [Hd%truthy_true _].
    apply wp_bind. eapply wp_read_frame; [done|done|].
    apply wp_bind, wp_cget, wp_bind, wp_on_snd.
    eapply wp_mono; [apply rpc_put_ok; [apply R|lia|by eapply length_frame_data]|].
    intros r w' (Hstep & Hother & Hput & Hserve). apply wp_ret. simpl.
    assert (live = true → serves w (sock_fd c) p) as Hs by (intros; by apply R).
    split_and!; [done| | |].
    + eapply represents_put; try done. split; [done|]. intros ? q. by apply Hserve, Hs.
    + intros Hl. destruct (Hserve (Hs Hl)). destruct (Z.ltb_spec r 0); [lia|done].
    + intros Hr V Hm. rewrite Hput; [|destruct (Z.ltb_spec r 0); done]. by apply HV.
  - apply wp_ret. simpl. split_and!; [done|done|done|]. intros _ V Hm.
    destruct (HV V Hm) as (_ & Hl & Hc). apply Hc. apply andb_false_iff in E as [E|E].
    + by apply truthy_false.
    + by rewrite Hl in E.
Qed.

(** How many frames the clock hand would spare. *)
Definition referenced c (f : Z) : bool :=
  match zget (frame_table c) f with
  | Some e =>
      match zget (page_table c) (page_number e) with
      | Some pe => truthy (reference_bit pe)
      | None => false
      end
  | None => false
  end.

Definition reference_count c : nat :=
  length (filter (λ f, referenced c f = true) (seqZ 0 (num_pages c))).

Lemma reference_count_le c : (reference_count c ≤ Z.to_nat (num_pages c))%nat.
Proof.
  unfold reference_count. etrans; [apply length_filter|]. by rewrite length_seqZ.
Qed.

(** With no free frame, every frame is mapped. *)
Lemma full_mapped c f :
  pager_inv [] c → free_list_top c = 0 → 0 <= f < num_pages c →
  ∃ e, zget (frame_table c) f = Some e ∧ occupied e = 1 ∧ mapped c (page_number e) f.
Proof.
  intros I Htop Hf. destruct (inv_frame_get _ _ I f Hf) as [e He].
  destruct (decide (occupied e = 0)) as [Ho|Ho].
  - assert (f ∈ free_frames c ++ []) as Hin by (apply (inv_free _ _ I); by exists e).
    unfold free_frames in Hin. rewrite Htop in Hin. simpl in Hin. by apply not_elem_of_nil in Hin.
  - pose proof (inv_occupied _ _ I _ _ He Ho) as Hm. exists e. split_and!; [done| |done].
    destruct Hm as [_ (e' & ? & ? & ?)]. congruence.
Qed.

(** Clearing the bit under the hand makes the next sweep shorter. *)
Lemma reference_count_clear c f e pe h :
  pager_inv [] c → free_list_top c = 0 → 0 <= f < num_pages c →
  zget (frame_table c) f = Some e → zget (page_table c) (page_number e) = Some pe →
  reference_bit pe ≠ 0 →
  (reference_count (set_clock_hand h
     (set_page_table (zupd (page_table c) (page_number e) (set_reference_bit 0 pe)) c))
   < reference_count c)%nat.
Proof.
  intros I Htop Hf He Hp Hr. unfold reference_count. simpl.
  pose proof (zget_Some_range _ _ _ Hp) as Rp.
  apply (length_filter_strict _ _ _ f).
  - intros g Hg%elem_of_seqZ. unfold referenced. simpl.
    destruct (zget (frame_table c) g) as [ge|]; [|done].
    rewrite zget_zupd by done. case_decide as Eq; [|done].
    rewrite <- Eq, Hp. intros _. by apply truthy_true.
  - apply elem_of_seqZ. lia.
  - unfold referenced. rewrite He, Hp. by apply truthy_true.
  - unfold referenced. simpl. by rewrite He, zget_zupd_eq.
Qed.

Lemma referenced_clear c f e pe h g :
  pager_inv [] c → free_list_top c = 0 → 0 <= f < num_pages c →
  zget (frame_table c) f = Some e → zget (page_table c) (page_number e) = Some pe →
  0 <= g < num_pages c →
  referenced (set_clock_hand h
     (set_page_table (zupd (page_table c) (page_number e) (set_reference_bit 0 pe)) c)) g
  = referenced c g && negb (g =? f).
Proof.
  intros I Htop Hf He Hp Hg. pose proof (zget_Some_range _ _ _ Hp) as Rp.
  destruct (full_mapped _ _ I Htop Hf) as (e' & He' & _ & Hm). simplify_eq.
  destruct (full_mapped _ _ I Htop Hg) as (ge & Hge & _ & Hgm).
  unfold referenced. simpl. destruct (Z.eqb_spec g f) as [->|Hne]; simpl.
  - rewrite He, zget_zupd_eq by done. by rewrite andb_false_r.
  - rewrite Hge, zget_zupd_ne by (lia || intros E; destruct Hm as [(? & ? & _ & ?) _],
      Hgm as [(? & ? & _ & ?) _]; congruence). by rewrite andb_true_r.
Qed.

(** One step of the clock: a referenced frame loses its bit and is passed
    over, an unreferenced one is the victim. *)
Definition clock_step c (r : option Z) c' : Prop :=
  match r with
  | None => referenced c (clock_hand c) = true ∧
      clock_hand c' = (clock_hand c + 1) mod num_pages c ∧
      ∀ f, 0 <= f < num_pages c → referenced c' f = referenced c f && negb (f =? clock_hand c)
  | Some f => referenced c (clock_hand c) = false ∧
      (f ≠ DSM_NO_FRAME → f = clock_hand c ∧
         clock_hand c' = (clock_hand c + 1) mod num_pages c)
  end.

Definition evict_post m c (f : Z) s : Prop :=
  same_geometry c s.1 ∧ keeps_invalid c s.1 ∧ last_page_id s.1 = last_page_id c ∧
  ((f = DSM_NO_FRAME ∧ live ≠ true ∧ pager_ok [] m s ∧ evictions s.1 = evictions c) ∨
   (0 <= f < num_pages c ∧ pager_ok [f] m s ∧ evictions s.1 = u64 (evictions c + 1))).

Lemma evict_step_ok m c w :
  pager_ok [] m (c, w) → free_list_top c = 0 →
  wp evict_step (λ r s', clock_step c r s'.1 ∧
    match r with
    | Some f => evict_post m c f s'
    | None => pager_ok [] m s' ∧ free_list_top s'.1 = 0 ∧ same_geometry c s'.1 ∧
        keeps_invalid c s'.1 ∧ last_page_id s'.1 = last_page_id c ∧
        evictions s'.1 = evictions c ∧ (reference_count s'.1 < reference_count c)%nat
    end) (c, w).
Proof.
  intros [I R] Htop. simpl in *. pose proof (inv_hand _ _ I) as Hh.
  destruct (full_mapped _ _ I Htop Hh) as (e & He & Ho & Hm).
  destruct Hm as [(pe & Hp & Hv & Hf) _].
  apply wp_bind, wp_cget, wp_bind. eapply wp_get_frame; [done|].
  rewrite Ho. simpl. apply wp_bind. eapply wp_get_pte; [done|].
  destruct (truthy (reference_bit pe)) eqn:Er.
  - apply truthy_true in Er. apply wp_bind. eapply wp_upd_pte; [done|].
    assert (pager_inv [] (set_page_table
      (zupd (page_table c) (page_number e) (set_reference_bit 0 pe)) c)) as I'
      by (by eapply pager_inv_bits).
    apply wp_bind. eapply wp_advance_clock_hand; [done|]. intros h Eh Hh'.
    assert (referenced c (clock_hand c) = true) as Href.
    { unfold referenced. rewrite He, Hp. by apply truthy_true. }
    apply wp_ret. split_and!; simpl; try done.
    + split_and!; [done|done|]. intros g Hg. by apply referenced_clear.
    + split; simpl; [eapply pager_inv_ext; [exact I'|done..]|].
      eapply represents_ext; [by eapply (represents_bits live _ _ _ _ pe (set_reference_bit 0 pe))|done..].
    + by eapply (keeps_invalid_upd c _ _ pe (set_reference_bit 0 pe)).
    + by apply (reference_count_clear c (clock_hand c) e pe h).
  - assert (referenced c (clock_hand c) = false) as Href.
    { unfold referenced. by rewrite He, Hp. }
    apply wp_bind. eapply wp_mono; [by eapply write_back_ok; [split|done|lia|done]|].
    intros ok [c1 w1]; simpl. intros (-> & R1 & Hlive & Hok). destruct ok; simpl.
    2: { apply wp_ret. split; [by split|]. split_and!; [done..|]. left. split_and!; try done.
         intros Hl. by specialize (Hlive Hl). }
    apply wp_bind. eapply wp_upd_pte; [done|].
    apply wp_bind. eapply wp_upd_frame; [done|]. simpl.
    set (c2 := set_frame_table _ _).
    assert (pager_inv [clock_hand c] c2) as I2 by (by eapply pager_inv_unmap; [done|done|lia|..]).
    assert (represents m c2 w1) as R2.
    { eapply represents_ext; [eapply (represents_unmap live _ _ _ _ pe); [done|done| |by apply Hok]
        |done..]. done. }
    apply wp_bind. eapply wp_advance_clock_hand; [done|]. intros h Eh Hh'.
    apply wp_bind, wp_cget, wp_bind, wp_cmod, wp_bind. simpl.
    apply (wp_push_free_frame []).
    { eapply pager_inv_ext; [exact I2|done..]. }
    intros c3 Ec3 I3. apply wp_bind. apply (wp_get_free_frame []); [done| |].
    { intros E. pose proof (inv_top _ _ I). subst c3. simpl in E. lia. }
    intros f Hf' I4.
    assert (f = clock_hand c) as ->.
    { assert (unoccupied c3 (clock_hand c)) as Hun.
      { subst c3. exists (set_occupied 0 e). simpl. split; [|done].
        apply zget_zupd_eq. by eapply zget_Some_range. }
      apply (inv_free _ _ I4) in Hun. subst c3. unfold free_frames in Hun. simpl in Hun.
      rewrite Htop in Hun. simpl in Hun. by apply list_elem_of_singleton in Hun. }
    apply wp_ret. split; [by split; subst c3|]. split_and!; subst c3; simpl; try done.
    + by eapply (keeps_invalid_upd c _ _ pe (set_dirty 0 (set_valid 0 pe))).
    + right. split; [done|]. split; [|done]. split; [done|].
      eapply represents_ext; [exact R2|done..].
Qed.

Lemma evict_page_ok m c w :
  pager_ok [] m (c, w) → free_list_top c = 0 → wp evict_page (evict_post m c) (c, w).
Proof.
  intros Hok Htop. apply wp_bind, wp_cget.
  apply (wp_loop _ (λ s, pager_ok [] m s ∧ free_list_top s.1 = 0 ∧ same_geometry c s.1 ∧
     keeps_invalid c s.1 ∧ last_page_id s.1 = last_page_id c ∧ evictions s.1 = evictions c)
     (λ s, reference_count s.1)).
  - intros [c1 w1] (Hok1 & Htop1 & Hg & Hk & Hl & He). simpl in *.
    eapply wp_mono; [by apply evict_step_ok|]. intros [f|] s' [_ Hs'].
    + destruct Hs' as (Hg' & Hk' & Hl' & Hcases). unfold evict_post.
      split_and!; [by etrans|by etrans|congruence|].
      destruct Hg as (E & _). rewrite <- E, <- He. done.
    + destruct Hs' as (? & ? & Hg' & Hk' & Hl' & He' & ?).
      split_and!; [done|done|by etrans|by etrans|congruence|congruence|done].
  - split_and!; done.
  - simpl. pose proof (reference_count_le c). destruct Hok as [I _].
    pose proof (inv_num_pages _ _ I). simpl in *. lia.
Qed.

(** ** Prefetch *)

(** The first [bc] entries of the two local arrays: distinct remote pages
    that are not cached, and frames held for them. *)
Record batch_ok (held : list Z) c (page_ids frames : list Z) (bc : Z) : Prop := {
  batch_ids_len : zlen page_ids = DSM_PREFETCH_MAX;
  batch_frames_len : zlen frames = DSM_PREFETCH_MAX;
  batch_count_range : 0 <= bc <= DSM_PREFETCH_MAX;
  batch_inv : pager_inv (take (Z.to_nat bc) frames ++ held) c;
  batch_nodup : NoDup (take (Z.to_nat bc) page_ids);
  batch_pages p : p ∈ take (Z.to_nat bc) page_ids →
    ∃ pe, zget (page_table c) p = Some pe ∧ valid pe = 0 ∧ location pe = LOC_REMOTE;
}.

Lemma set_free_list_top_id c : set_free_list_top (free_list_top c) c = c.
Proof. by destruct c. Qed.

Lemma batch_ok_snoc held c page_ids frames bc p pe f t :
  batch_ok held c page_ids frames bc → bc < DSM_PREFETCH_MAX →
  zget (page_table c) p = Some pe → valid pe = 0 → location pe = LOC_REMOTE →
  p ∉ take (Z.to_nat bc) page_ids →
  pager_inv (f :: take (Z.to_nat bc) frames ++ held) (set_free_list_top t c) →
  batch_ok held (set_free_list_top t c) (zupd page_ids bc p) (zupd frames bc f) (bc + 1).
Proof.
  intros [] Hlt Hp Hv Hl Hni I'. constructor; rewrite ?zlen_zupd; try done.
  - lia.
  - rewrite take_zupd_snoc by lia. eapply pager_inv_perm; [|exact I'].
    rewrite <- app_assoc. apply Permutation_middle.
  - rewrite take_zupd_snoc by lia. apply NoDup_app. split_and!; [done| |apply NoDup_singleton].
    intros q Hq Hqp%list_elem_of_singleton. by subst.
  - intros q. rewrite take_zupd_snoc by lia.
    intros [?|Hqp%list_elem_of_singleton]%elem_of_app; subst; simpl; eauto.
Qed.

Lemma prefetch_gather_ok idx start_page page_ids frames bc held c w :
  batch_ok held c page_ids frames bc →
  NoDup ((λ i, u32 (start_page + i)) <$> idx) →
  (∀ i, i ∈ idx → u32 (start_page + i) ∉ take (Z.to_nat bc) page_ids) →
  wp (prefetch_gather idx start_page page_ids frames bc) (λ res s',
    ∃ t, s' = (set_free_list_top t c, w) ∧
         batch_ok held (set_free_list_top t c) res.1.1 res.1.2 res.2) (c, w).
Proof.
  revert page_ids frames bc c. induction idx as [|i idx IH];
    intros page_ids frames bc c B Hnd Hni; cbn [prefetch_gather].
  { apply wp_ret. exists (free_list_top c). by rewrite set_free_list_top_id. }
  assert (wp (mret (page_ids, frames, bc)) (λ res s',
    ∃ t, s' = (set_free_list_top t c, w) ∧
         batch_ok held (set_free_list_top t c) res.1.1 res.1.2 res.2) (c, w)) as Hstop.
  { apply wp_ret. exists (free_list_top c). by rewrite set_free_list_top_id. }
  rewrite fmap_cons in Hnd. apply NoDup_cons in Hnd as [Hi Hnd].
  destruct (Z.ltb_spec bc DSM_PREFETCH_MAX); [|done].
  pose proof (batch_inv _ _ _ _ _ B) as I. pose proof (inv_num_pages _ _ I).
  apply wp_bind, wp_cget. pose proof (u32_range (start_page + i)).
  destruct (Z.leb_spec (num_virtual_pages c) (u32 (start_page + i))); [done|].
  destruct (inv_page_get _ _ I (u32 (start_page + i))) as [pe Hp]; [lia|].
  apply wp_bind. eapply wp_get_pte; [done|].
  destruct (truthy (valid pe) || negb (location pe =? LOC_REMOTE)) eqn:E.
  { apply IH; [done|done|]. intros j ?. apply Hni. by right. }
  apply orb_false_iff in E as [Hv%truthy_false Hl%negb_false_iff%Z.eqb_eq].
  apply wp_bind. eapply wp_get_free_frame; [done| |].
  { intros _. rewrite Z.eqb_refl. exact Hstop. }
  intros f Hf I'. destruct (Z.eqb_spec f DSM_NO_FRAME) as [->|].
  { unfold DSM_NO_FRAME in Hf. lia. }
  pose proof (batch_count_range _ _ _ _ _ B).
  apply wp_bind, wp_store. { rewrite (batch_ids_len _ _ _ _ _ B). lia. }
  apply wp_bind, wp_store. { rewrite (batch_frames_len _ _ _ _ _ B). lia. }
  eapply wp_mono; [apply IH; [|done|]|].
  - eapply batch_ok_snoc; try done. apply Hni. by left.
  - intros j Hj. rewrite take_zupd_snoc by (rewrite (batch_ids_len _ _ _ _ _ B); lia).
    rewrite elem_of_app, list_elem_of_singleton. intros [Hin|Heq].
    + by apply (Hni j); [right|].
    + apply Hi. rewrite <- Heq. apply (list_elem_of_fmap_2 (λ i, u32 (start_page + i)) _ _ Hj).
  - intros res s' (t & -> & B'). exists t. by split.
Qed.

Lemma NoDup_prefetch_ids start_page count :
  0 <= count < 2 ^ 8 → NoDup ((λ i, u32 (start_page + i)) <$> seqZ 0 count).
Proof.
  intros Hc. apply NoDup_fmap_2_strong; [|apply NoDup_seqZ].
  intros i j Hi%elem_of_seqZ Hj%elem_of_seqZ E. unfold u32 in E.
  assert ((i - j) mod 2 ^ 32 = 0) as Hz.
  { replace (i - j) with ((start_page + i) - (start_page + j)) by lia.
    rewrite Zminus_mod, E, Z.sub_diag. by apply Z.mod_0_l. }
  apply Z.mod_divide in Hz as [k Hk]; lia.
Qed.

(** Cached pages stay cached, in the same frame and with the same bits. *)
Definition keeps_valid c c' : Prop := ∀ p pe,
  zget (page_table c) p = Some pe → valid pe ≠ 0 → zget (page_table c') p = Some pe.

#[global] Instance keeps_valid_preorder : PreOrder keeps_valid.
Proof. split; [by intros c p pe|]. intros c1 c2 c3 H1 H2 p pe Hp Hv. auto. Qed.

Definition prefetch_post (held : list Z) m c s : Prop :=
  pager_ok held m s ∧ same_geometry c s.1 ∧ keeps_valid c s.1 ∧
  last_page_id s.1 = last_page_id c ∧ evictions s.1 = evictions c ∧
  local_hits s.1 = local_hits c.

(** Giving back the frames of a batch that could not be fetched. *)
Lemma prefetch_release_ok m held c w page_ids frames bc :
  batch_ok held c page_ids frames bc → represents m c w →
  wp (for_each (seqZ 0 bc) (λ i, f ← load frames i; push_free_frame f))
    (λ _, prefetch_post held m c) (c, w).
Proof.
  intros B R. pose proof (batch_count_range _ _ _ _ _ B) as Hbc.
  apply wp_mono with (Q := λ _ s,
    prefetch_post (drop (Z.to_nat bc) (take (Z.to_nat bc) frames) ++ held) m c s).
  2: { intros _ s. rewrite drop_ge by (rewrite length_take; lia). done. }
  apply (wp_for_range _ (λ i s,
    prefetch_post (drop (Z.to_nat i) (take (Z.to_nat bc) frames) ++ held) m c s)); [lia| |].
  { split; [split; [by apply B|done]|done]. }
  intros i [c1 w1] Hi ([I1 R1] & Hg & Hk & Hl & He & Hh). simpl in *.
  destruct (zget_in_range frames i) as [f Hf].
  { rewrite (batch_frames_len _ _ _ _ _ B). lia. }
  apply wp_bind. eapply wp_load; [done|].
  assert (drop (Z.to_nat i) (take (Z.to_nat bc) frames) =
    f :: drop (Z.to_nat (i + 1)) (take (Z.to_nat bc) frames)) as E.
  { replace (Z.to_nat (i + 1)) with (S (Z.to_nat i)) by lia. apply drop_S.
    rewrite lookup_take_lt by lia. by rewrite <- zget_lookup by lia. }
  rewrite E in I1. eapply wp_push_free_frame; [exact I1|].
  intros c2 -> I2. split; [split; [done|by eapply represents_ext]|by split_and!].
Qed.

(** One page of a fetched batch. *)
Lemma prefetch_install_ok m held c w page_ids frames bufs i p pe f data :
  pager_inv (f :: held) c → represents m c w →
  zget page_ids i = Some p → zget frames i = Some f →
  0 <= i → i * PAGE_SIZE + PAGE_SIZE <= zlen bufs →
  slice bufs (Z.to_nat (i * PAGE_SIZE)) page_bytes = data →
  zget (page_table c) p = Some pe → valid pe = 0 → location pe = LOC_REMOTE →
  (∀ V, m = Some V → data = V p) →
  wp (prefetch_install page_ids frames bufs i) (λ _ s', prefetch_post held m c s' ∧
     page_table s'.1 = zupd (page_table c) p (mk_pte f 1 0 0 LOC_REMOTE) ∧ s'.2 = w) (c, w).
Proof.
  intros I R Hp Hf Hi Hb Hdata Hpe Hv Hl HV.
  assert (length data = page_bytes) as Hlen.
  { rewrite <- Hdata. apply length_slice. pose proof page_bytes_Z. unfold zlen, PAGE_SIZE in *. lia. }
  assert (0 <= f < num_pages c) as Hfr by (by eapply inv_held_range; [|left]).
  destruct (inv_frame_mem _ _ I _ Hfr) as [Hm0 Hm1].
  assert (frame_to_ptr f + zlen data <= zlen (local_memory c)) by (unfold zlen at 1; lia).
  destruct (inv_frame_get _ _ I f Hfr) as [e He].
  apply wp_bind. eapply wp_load; [done|]. apply wp_bind. eapply wp_load; [done|].
  apply wp_bind, wp_load_region; [unfold PAGE_SIZE; lia|by rewrite page_bytes_Z|].
  rewrite Hdata. apply wp_bind, wp_write_mem; [done|done|].
  set (c1 := set_local_memory _ c).
  assert (pager_inv (f :: held) c1) as I1 by (by apply pager_inv_memory).
  assert (represents m c1 w) as R1 by (by eapply represents_held_frame; [|left|..]).
  apply wp_bind. eapply wp_upd_pte; [done|]. apply wp_bind. eapply wp_upd_frame; [done|].
  apply wp_bind, wp_cget, wp_cmod. simpl. rewrite Hl.
  split; [|done]. unfold prefetch_post. split_and!; simpl; try done.
  - split; simpl.
    + eapply pager_inv_ext; [eapply (pager_inv_map held c1 p f pe e
        (mk_pte f 1 0 0 LOC_REMOTE)); done|done..|]. apply I.
    + eapply represents_ext; [eapply (represents_map live m c1 w p pe
        (mk_pte f 1 0 0 LOC_REMOTE)); try done|done..].
      intros V Hm. split; [|done]. simpl. rewrite <- (HV V Hm). by eapply frame_data_same.
  - intros q qe Hq Hqv. simpl. rewrite zget_zupd by (by eapply zget_Some_range).
    case_decide; [simplify_eq|done].
Qed.

Lemma drop_cons_zget {A} (l : list A) (n : nat) i x :
  zget l i = Some x → i < Z.of_nat n →
  drop (Z.to_nat i) (take n l) = x :: drop (Z.to_nat (i + 1)) (take n l).
Proof.
  intros Hx Hn. pose proof (zget_Some_range _ _ _ Hx).
  replace (Z.to_nat (i + 1)) with (S (Z.to_nat i)) by lia. apply drop_S.
  rewrite lookup_take_lt by lia. by rewrite <- zget_lookup by lia.
Qed.

Lemma NoDup_drop {A} (l : list A) n : NoDup l → NoDup (drop n l).
Proof. intros Hnd. rewrite <- (take_drop n l) in Hnd. by apply NoDup_app in Hnd as (_ & _ & ?). Qed.

(** The whole batch. *)
Lemma prefetch_installs_ok m held c w page_ids frames bc bufs :
  batch_ok held c page_ids frames bc → represents m c w →
  bc * PAGE_SIZE <= zlen bufs →
  (∀ i p, i < bc → zget page_ids i = Some p →
     slice bufs (Z.to_nat (i * PAGE_SIZE)) page_bytes = page_of w (sock_fd c) p) →
  wp (for_each (seqZ 0 bc) (prefetch_install page_ids frames bufs))
    (λ _, prefetch_post held m c) (c, w).
Proof.
  intros B R Hb Hdata. pose proof (batch_count_range _ _ _ _ _ B) as Hbc.
  set (ids := take (Z.to_nat bc) page_ids). set (fs := take (Z.to_nat bc) frames).
  apply wp_mono with (Q := λ _ s, prefetch_post (drop (Z.to_nat bc) fs ++ held) m c s ∧
    s.2 = w ∧ ∀ p, p ∈ drop (Z.to_nat bc) ids → ∃ pe,
      zget (page_table s.1) p = Some pe ∧ valid pe = 0 ∧ location pe = LOC_REMOTE).
  2: { intros _ s [Hp _]. rewrite drop_ge in Hp by (unfold fs; rewrite length_take; lia). done. }
  apply (wp_for_range _ (λ i s, prefetch_post (drop (Z.to_nat i) fs ++ held) m c s ∧
    s.2 = w ∧ ∀ p, p ∈ drop (Z.to_nat i) ids → ∃ pe,
      zget (page_table s.1) p = Some pe ∧ valid pe = 0 ∧ location pe = LOC_REMOTE)); [lia| |].
  { split_and!; [split; [split; [by apply B|done]|done]|done|]. apply B. }
  intros i [c1 w1] Hi (([I1 R1] & Hg & Hk & Hl & He & Hh) & Hw & Hpages). simpl in *. subst w1.
  destruct (zget_in_range frames i) as [f Hf].
  { rewrite (batch_frames_len _ _ _ _ _ B). lia. }
  destruct (zget_in_range page_ids i) as [p Hp].
  { rewrite (batch_ids_len _ _ _ _ _ B). lia. }
  pose proof (drop_cons_zget _ (Z.to_nat bc) _ _ Hf ltac:(lia)) as Ef.
  pose proof (drop_cons_zget _ (Z.to_nat bc) _ _ Hp ltac:(lia)) as Ep.
  fold fs in Ef. fold ids in Ep. rewrite Ef in I1. rewrite Ep in Hpages.
  destruct (Hpages p) as (pe & Hpe & Hv & Hloc); [by left|].
  assert (p ∈ ids) as Hin.
  { apply (list_elem_of_lookup_2 _ (Z.to_nat i)). unfold ids. rewrite lookup_take_lt by lia.
    by rewrite <- zget_lookup by lia. }
  destruct (batch_pages _ _ _ _ _ B p Hin) as (pe0 & Hpe0 & Hv0 & _).
  eapply wp_mono; [eapply (prefetch_install_ok m _ c1 w _ _ _ _ p pe f); try done|].
  - lia.
  - unfold PAGE_SIZE in *. lia.
  - intros V Hm. rewrite (Hdata i p); [|lia|done]. subst m. destruct R as [_ [_ RV]].
    specialize (RV _ _ Hpe0). unfold page_view in RV. by rewrite Hv0 in RV.
  - intros [] [c2 w2] (([I2 R2] & Hg2 & Hk2 & Hl2 & He2 & Hh2) & Hpt & Hw2). simpl in *.
    split_and!; [|done|].
    + split; [by split|]. simpl. split_and!; [by etrans|by etrans|congruence..].
    + intros q Hq. rewrite Hpt. pose proof (zget_Some_range _ _ _ Hpe).
      assert (q ≠ p).
      { intros ->. pose proof (NoDup_drop _ (Z.to_nat i) (batch_nodup _ _ _ _ _ B)) as Hnd.
        fold ids in Hnd. rewrite Ep in Hnd. by apply NoDup_cons in Hnd as [? _]. }
      rewrite zget_zupd_ne by lia. apply Hpages. by right.
Qed.

Lemma batch_ok_nil held c :
  pager_inv held c →
  batch_ok held c (replicate (Z.to_nat DSM_PREFETCH_MAX) 0)
    (replicate (Z.to_nat DSM_PREFETCH_MAX) 0) 0.
Proof.
  intros I. constructor; try done.
  - apply NoDup_nil_2.
  - intros p Hp. by apply not_elem_of_nil in Hp.
Qed.

Lemma dsm_prefetch_pages_ok m held c w start_page count :
  pager_ok held m (c, w) → 0 <= count < 2 ^ 8 →
  wp (dsm_prefetch_pages start_page count) (λ _, prefetch_post held m c) (c, w).
Proof.
  intros [I R] Hc. simpl in *. apply wp_bind. eapply wp_mono.
  { apply (prefetch_gather_ok _ _ _ _ _ held); [by apply batch_ok_nil|by apply NoDup_prefetch_ids|].
    intros i _ Hi. by apply not_elem_of_nil in Hi. }
  intros [[page_ids frames] bc] s' (t & -> & B). simpl in B.
  set (c1 := set_free_list_top t c) in *.
  assert (represents m c1 w) as R1 by (by eapply represents_ext).
  assert (∀ s, prefetch_post held m c1 s → prefetch_post held m c s) as Hpost by done.
  pose proof (batch_count_range _ _ _ _ _ B) as Hbc.
  destruct (Z.eqb_spec bc 0) as [->|].
  { apply wp_ret, Hpost. split; [split; [apply B|done]|done]. }
  apply wp_bind, wp_cget, wp_bind, wp_on_snd. eapply wp_mono.
  { apply rpc_get_batch_ok.
    - apply R1.
    - apply list.Forall_forall. intros p Hp.
      destruct (batch_pages _ _ _ _ _ B p Hp) as (pe & Hpe & _).
      by apply (inv_page_range _ _ I) in Hpe.
    - rewrite (batch_ids_len _ _ _ _ _ B). lia.
    - rewrite zlen_replicate. unfold DSM_PREFETCH_MAX, PAGE_SIZE in *. lia. }
  intros [r bufs] w' (Hstep & Hlen & Hw & Hget & Hserve). cbn [fst snd] in *.
  assert (represents m c1 w') as R2.
  { eapply represents_world; [done|done|]. split; [done|]. intros Hl. apply Hserve, list.Forall_forall.
    intros p Hp. apply (proj2 (proj1 R1) Hl). destruct (batch_pages _ _ _ _ _ B p Hp) as (pe & Hpe & _).
    by apply (inv_page_range _ _ I) in Hpe. }
  eapply wp_mono; [|intros ? s; apply Hpost].
  destruct (Z.ltb_spec r 0).
  - by eapply prefetch_release_ok.
  - apply prefetch_installs_ok; [done|done| |].
    + unfold zlen. rewrite Hlen, length_replicate. unfold DSM_PREFETCH_MAX, PAGE_SIZE in *. lia.
    + intros i p Hi Hp. rewrite (Hget ltac:(done) i p Hi Hp). done.
Qed.

(** ** Access *)

(** A page that an access returned: cached, at the pointer it returned, and
    marked dirty if the access was a write. *)
Definition accessed c (p write ptr : Z) : Prop :=
  ∃ pe, zget (page_table c) p = Some pe ∧ valid pe = 1 ∧
    ptr = frame_to_ptr (frame_number pe) ∧ (u8 write ≠ 0 → dirty pe ≠ 0).

Definition access_post m c (p write : Z) (r : option Z) s : Prop :=
  pager_ok [] m s ∧ same_geometry c s.1 ∧
  match r with
  | Some ptr => accessed s.1 p write ptr
  | None => live ≠ true
  end.

(** A frame for the page, free or freed by an eviction. *)
Definition frame_post m c (f : Z) s : Prop :=
  same_geometry c s.1 ∧ keeps_invalid c s.1 ∧
  ((f = DSM_NO_FRAME ∧ live ≠ true ∧ pager_ok [] m s) ∨ (0 <= f < num_pages c ∧ pager_ok [f] m s)).

Lemma obtain_frame_ok m c w (Q : Z → PS → Prop) :
  pager_ok [] m (c, w) → (∀ f s, frame_post m c f s → Q f s) →
  wp get_free_frame (λ frame0,
    wp (if frame0 =? DSM_NO_FRAME then evict_page else mret frame0) Q) (c, w).
Proof.
  intros [I R] HQ. simpl in *. pose proof (inv_num_pages _ _ I).
  apply (wp_get_free_frame []); [done| |].
  - intros Htop. rewrite Z.eqb_refl. eapply wp_mono; [by apply evict_page_ok|].
    intros f s (Hg & Hk & _ & Hcases). apply HQ. split; [done|]. split; [done|].
    destruct Hcases as [(? & ? & ? & _)|(? & ? & _)]; [by left|by right].
  - intros f Hf I'. destruct (Z.eqb_spec f DSM_NO_FRAME) as [->|].
    { unfold DSM_NO_FRAME in Hf. lia. }
    apply wp_ret, HQ. split; [done|]. split; [by apply keeps_invalid_same|]. right. split; [done|].
    split; [done|]. by eapply represents_ext.
Qed.

Lemma fetch_into_ok m c w f p pe :
  pager_ok [f] m (c, w) → zget (page_table c) p = Some pe → valid pe = 0 →
  wp (fetch_into f p (0 <=? sock_fd c)) (λ ok s,
    same_geometry c s.1 ∧ page_table s.1 = page_table c ∧
    if ok : bool then pager_ok [f] m s ∧ ∀ V, m = Some V → frame_data s.1 f = V p
    else live ≠ true ∧ pager_ok [] m s) (c, w).
Proof.
  intros [I R] Hp Hv. simpl in *. unfold fetch_into.
  assert (0 <= f < num_pages c) as Hf by (by eapply inv_held_range; [|left]).
  pose proof (inv_page_range _ _ I _ _ Hp). pose proof (inv_num_virtual _ _ I).
  destruct (Z.leb_spec 0 (sock_fd c)).
  2: { apply wp_ret. split_and!; [done..|]. intros V ->. destruct R as [_ [? _]]. lia. }
  apply wp_bind, wp_cget, wp_bind. eapply wp_read_frame; [done|done|].
  apply wp_bind, wp_on_snd.
  eapply wp_mono; [apply rpc_get_ok; [apply R|lia|by eapply length_frame_data]|].
  intros [r buf] w' (Hstep & Hlen & Hw & Hget & Hserve). cbn [fst snd] in *.
  assert (live = true → serves w (sock_fd c) p) as Hs by (intros; by apply R).
  destruct (inv_frame_mem _ _ I _ Hf) as [Hm0 Hm1].
  assert (frame_to_ptr f + zlen buf <= zlen (local_memory c)) by (unfold zlen at 1; lia).
  apply wp_bind, wp_write_mem; [done|done|]. set (c1 := set_local_memory _ c).
  assert (pager_inv [f] c1) as I1 by (by apply pager_inv_memory).
  assert (represents m c1 w') as R1.
  { eapply represents_world; [eapply represents_held_frame; [done|by left|done|done]|done|].
    split; [done|]. intros ? q. by apply Hserve, Hs. }
  destruct (Z.ltb_spec r 0).
  - apply wp_bind. eapply wp_push_free_frame; [done|]. intros c2 -> I2.
    apply wp_ret. split_and!; [done..| |split; [done|by eapply represents_ext]].
    intros Hl. destruct (Hserve (Hs Hl)). lia.
  - apply wp_bind, wp_cget, wp_bind, wp_cmod, wp_ret. split_and!; [done..| |].
    + split; simpl; [|by eapply represents_ext].
      eapply pager_inv_ext; [exact I1|done..|apply I].
    + intros V ->. simpl. change (frame_data c1 f = V p).
      unfold c1. erewrite frame_data_same; [|done..]. rewrite Hget by done.
      destruct R as [_ [_ RV]]. specialize (RV _ _ Hp). unfold page_view in RV. by rewrite Hv in RV.
Qed.

Lemma prefetch_if_sequential_ok m c w p :
  pager_ok [] m (c, w) →
  wp (prefetch_if_sequential p) (λ _ s,
    pager_ok [] m s ∧ same_geometry c s.1 ∧ keeps_valid c s.1) (c, w).
Proof.
  intros [I R]. simpl in *. apply wp_bind, wp_cget, wp_bind.
  assert (wp (if p =? u32 (last_page_id c + 1) then
    count ← cget prefetch_count; dsm_prefetch_pages (u32 (p + 1)) count
    else mret tt) (λ _, prefetch_post [] m c) (c, w)) as Hpre.
  { destruct (_ =? _).
    - apply wp_bind, wp_cget, dsm_prefetch_pages_ok; [done|apply I].
    - by apply wp_ret. }
  eapply wp_mono; [exact Hpre|]. intros [] [c1 w1] ([I1 R1] & Hg & Hk & _). simpl in *.
  apply wp_cmod. split_and!; [|done|done]. split; simpl.
  - eapply pager_inv_ext; [exact I1|done..|apply I1].
  - by eapply represents_ext.
Qed.

Lemma dsm_access_page_slow_ok m c w p write pe :
  pager_ok [] m (c, w) → zget (page_table c) p = Some pe → valid pe = 0 →
  wp (dsm_access_page_slow p write p) (access_post m c p write) (c, w).
Proof.
  intros Hok Hp Hv. pose proof (proj1 Hok) as I0. simpl in I0.
  pose proof (inv_num_pages _ _ I0) as Hnp.
  apply wp_bind. eapply wp_mono; cycle 1.
  { intros f0 s1 H1. apply wp_bind. exact H1. }
  apply (obtain_frame_ok m); [done|]. intros f [c1 w1] (Hg & Hk & Hcases). simpl in *.
  destruct (Hk _ _ Hp Hv) as (pe1 & Hp1 & Hv1).
  destruct Hcases as [(-> & Hnl & Hok1)|[Hf Hok1]].
  { rewrite Z.eqb_refl. by apply wp_ret. }
  destruct (Z.eqb_spec f DSM_NO_FRAME) as [->|].
  { unfold DSM_NO_FRAME in Hf. lia. }
  apply wp_bind, wp_cget, wp_bind. eapply wp_mono; [by eapply fetch_into_ok|].
  intros ok [c2 w2] (Hg2 & Hpt2 & Hok2). simpl in *.
  destruct ok; simpl; [|apply wp_ret; split; [by apply Hok2|]; split; [by etrans|by apply Hok2]].
  destruct Hok2 as [[I2 R2] HV]. simpl in *. rewrite <- Hpt2 in Hp1.
  assert (num_pages c2 = num_pages c) as Enp by (destruct Hg, Hg2; congruence).
  destruct (inv_frame_get _ _ I2 f) as [e He]; [by rewrite Enp|].
  apply wp_bind. eapply wp_upd_pte; [done|]. apply wp_bind. eapply wp_upd_frame; [done|].
  set (pe' := mk_pte _ _ _ _ _). set (c3 := set_frame_table _ _).
  assert (pager_ok [] m (c3, w2)) as Hok3.
  { split; simpl; [by apply (pager_inv_map [] c2 p f pe1 e pe')|].
    eapply represents_ext; [eapply (represents_map live m c2 w2 p pe1 pe'); try done|done..].
    intros V Hm. split; [by apply HV|]. destruct m; [|done]. destruct R2 as [_ [Hfd _]].
    assert ((0 <=? sock_fd c1) = true) as E.
    { apply Z.leb_le. destruct Hg2 as (_ & _ & E & _). by rewrite <- E. }
    unfold pe'. by rewrite E. }
  apply wp_bind. eapply wp_mono; [by apply prefetch_if_sequential_ok|].
  intros [] [c4 w4] (Hok4 & Hg4 & Hk4). apply wp_ret. split_and!; [done| |]; simpl in *.
  { transitivity c1; [done|]. by transitivity c2. }
  exists pe'. split_and!; [|done..]. apply Hk4; [|done]. simpl.
  apply zget_zupd_eq. by eapply zget_Some_range.
Qed.

(** A hit touches the entry of the page and a counter, nothing else. *)
Lemma dsm_access_page_hit_ok m c w p write pe :
  pager_ok [] m (c, w) → zget (page_table c) p = Some pe → valid pe ≠ 0 →
  wp (dsm_access_page p write) (λ r s,
    access_post m c p write r s ∧ r = Some (frame_to_ptr (frame_number pe)) ∧
    s.2 = w ∧ local_hits s.1 = u64 (local_hits c + 1) ∧
    remote_fetches s.1 = remote_fetches c ∧ evictions s.1 = evictions c ∧
    local_memory s.1 = local_memory c) (c, w).
Proof.
  intros [I R] Hp Hv. simpl in *. pose proof (zget_Some_range _ _ _ Hp) as Hr.
  apply wp_bind. eapply wp_get_pte; [done|]. rewrite (proj2 (truthy_true _) Hv).
  apply wp_bind, wp_cget, wp_bind, wp_cmod, wp_bind. eapply wp_upd_pte; [done|]. simpl.
  set (pe' := set_dirty _ _).
  assert (dirty pe' = 0 → dirty pe = 0 ∧ u8 write = 0) as Hd by apply Z.lor_eq_0_iff.
  apply wp_bind. eapply wp_get_pte; [by apply zget_zupd_eq|]. apply wp_ret.
  split_and!; [|done..]. split_and!; simpl; [|done|].
  - split; simpl.
    + eapply pager_inv_ext; [by eapply (pager_inv_bits _ _ _ pe pe')|done..|apply I].
    + eapply represents_ext; [eapply (represents_bits live m c w p pe pe'); try done; intros Hz; by apply Hd
        |done..].
  - exists pe'. split_and!; [by apply zget_zupd_eq| |done|intros Hw Hz; by destruct (Hd Hz)].
    destruct (inv_valid _ _ I _ _ Hp Hv) as [(? & ? & ? & ?) _]. by simplify_eq.
Qed.

Lemma dsm_access_page_ok m c w p write :
  pager_ok [] m (c, w) → 0 <= p < num_virtual_pages c →
  wp (dsm_access_page p write) (access_post m c p write) (c, w).
Proof.
  intros Hok Hr. destruct (inv_page_get _ _ (proj1 Hok) _ Hr) as [pe Hp].
  destruct (decide (valid pe = 0)) as [Hv|Hv].
  - apply wp_bind. eapply wp_get_pte; [done|]. rewrite Hv. by eapply dsm_access_page_slow_ok.
  - eapply wp_mono; [by eapply dsm_access_page_hit_ok|]. by intros r s (? & _).
Qed.

End pager_access.
