(* ===== verification/PagingSpec.v ===== *)
(** * What the pager promises

    The abstract specification is a memory: a page of bytes per page id, read
    and written page-wise.  The pager, driven through its public calls,
    refines it for as long as it is connected; a call may fail, and a call
    that fails has no effect on the memory.  The theorems of the pager follow
    from the specifications of [PagingAccess]. *)

From S2P Require Import Prelude Machine Protocol PageService Paging PagingInv PagingOps PagingAccess.

(** ** The abstract memory *)

Definition mem_upd (V : memory) (p : Z) (bs : list byte) : memory :=
  λ q, if decide (q = p) then bs else V q.

(** The calls of a client: read a page, overwrite bytes of a page, hint. *)
Inductive mem_op :=
| MRead (p : Z)
| MWrite (p : Z) (off : nat) (bs : list byte)
| MPrefetch (start count : Z).

Inductive mem_res :=
| RData (bs : list byte)
| RDone
| RFail.

Inductive mem_step : memory → mem_op → mem_res → memory → Prop :=
| step_read V p : mem_step V (MRead p) (RData (V p)) V
| step_write V p off bs :
    mem_step V (MWrite p off bs) RDone (mem_upd V p (splice (V p) off bs))
| step_prefetch V start count : mem_step V (MPrefetch start count) RDone V
| step_fail V o : mem_step V o RFail V.

Inductive mem_steps : memory → list mem_op → list mem_res → memory → Prop :=
| steps_nil V : mem_steps V [] [] V
| steps_cons V o r V' os rs V'' :
    mem_step V o r V' → mem_steps V' os rs V'' → mem_steps V (o :: os) (r :: rs) V''.

(** ** The same calls on the pager *)

Section client_calls.
Context {W : Type} {RO : RpcOps W}.

(** A write goes through the pointer a write access returned. *)
Definition run_op (o : mem_op) : M (PS (W:=W)) mem_res :=
  match o with
  | MRead p =>
      r ← dsm_access_page p 0;
      match r with
      | Some ptr => bs ← read_mem ptr page_bytes; mret (RData bs)
      | None => mret RFail
      end
  | MWrite p off bs =>
      r ← dsm_access_page p 1;
      match r with
      | Some ptr => write_mem (ptr + Z.of_nat off) bs;; mret RDone
      | None => mret RFail
      end
  | MPrefetch start count => dsm_prefetch_pages start count;; mret RDone
  end.

Fixpoint run_ops (os : list mem_op) : M (PS (W:=W)) (list mem_res) :=
  match os with
  | [] => mret []
  | o :: os => r ← run_op o; rs ← run_ops os; mret (r :: rs)
  end.

End client_calls.

(** The calls that respect the API: pages of the context, bytes of a page, a
    [uint8_t] count. *)
Definition op_ok (nvp : Z) (o : mem_op) : Prop :=
  match o with
  | MRead p => 0 <= p < nvp
  | MWrite p off bs => 0 <= p < nvp ∧ (off + length bs ≤ page_bytes)%nat
  | MPrefetch _ count => 0 <= count < 2 ^ 8
  end.

Section refinement.
Context {W : Type} {RO : RpcOps W} {PSV : PageService W}.
Context (live : bool).
Implicit Types (c : dsm_context) (w : W) (s : PS (W:=W)).

(** The bytes behind the pointer of an access are those of the page. *)
Lemma accessed_data V c w p write ptr :
  pager_ok live [] (Some V) (c, w) → accessed c p write ptr →
  ∃ f, 0 <= f < num_pages c ∧ ptr = frame_to_ptr f ∧ frame_data c f = V p.
Proof.
  intros [I R] (pe & Hp & Hv & -> & _). simpl in *. exists (frame_number pe).
  destruct (inv_valid _ _ I _ _ Hp) as [_ (e & He & _)]; [lia|].
  split; [by eapply inv_frame_range|]. split; [done|].
  destruct R as [_ [_ RV]]. specialize (RV _ _ Hp). unfold page_view in RV.
  rewrite Hv in RV. apply RV.
Qed.

(** Writing through the pointer of a write access updates the page. *)
Lemma user_write_ok V c w p write ptr off bs :
  pager_ok live [] (Some V) (c, w) → accessed c p write ptr → u8 write ≠ 0 →
  (off + length bs ≤ page_bytes)%nat →
  wp (write_mem (ptr + Z.of_nat off) bs) (λ _ s,
    pager_ok live [] (Some (mem_upd V p (splice (V p) off bs))) s ∧ same_geometry c s.1 ∧
    page_table s.1 = page_table c) (c, w).
Proof.
  intros Hok Ha Hw Hb.
  destruct (accessed_data _ _ _ _ _ _ Hok Ha) as (f & Hf & -> & Hdata).
  destruct Ha as (pe & Hp & Hv & Hptr & Hd). destruct Hok as [I R]. simpl in *.
  pose proof page_bytes_Z as Hpb.
  assert (frame_number pe = f) as Hfn by (unfold frame_to_ptr, PAGE_SIZE in Hptr; lia).
  destruct (inv_frame_mem _ _ I _ Hf) as [Hm0 Hm1].
  apply wp_write_mem; [lia|unfold zlen at 1; lia|]. split; [|by split]. split; simpl.
  { apply pager_inv_memory; [done|lia|unfold zlen at 1; lia]. }
  destruct R as [Hs [Hfd RV]]. split; [done|]. split; [done|].
  intros q qe Hq. specialize (RV q qe Hq). unfold page_view, mem_upd, frame_data in *.
  simpl in *. case_decide as Eq.
  - subst q. simplify_eq. rewrite Hv in *. simpl in *. destruct RV as (_ & ? & ?).
    split_and!; [|done|by intros ?%Hd].
    replace (Z.to_nat (frame_to_ptr _ + Z.of_nat off))
      with (Z.to_nat (frame_to_ptr (frame_number pe)) + off)%nat by lia.
    rewrite <- Hdata. unfold zlen in *. apply slice_splice_inside; lia.
  - destruct (truthy (valid qe)) eqn:Et; [|done]. destruct RV as (RV & ? & ?).
    split_and!; [|done|done]. rewrite <- RV.
    apply truthy_true in Et. pose proof (inv_valid _ _ I _ _ Hq Et) as Hqm.
    assert (frame_number qe ≠ f) as Hne.
    { intros E. rewrite E in Hqm. apply Eq. eapply mapped_frame_unique; [done|].
      rewrite <- Hfn. apply (inv_valid _ _ I _ _ Hp). lia. }
    destruct Hqm as [_ (e & He & _)]. apply (inv_frame_range _ _ I) in He.
    unfold frame_to_ptr, PAGE_SIZE, zlen in *. apply slice_splice_disjoint; [lia|nia].
Qed.

Definition op_post V c (o : mem_op) (r : mem_res) s : Prop :=
  same_geometry c s.1 ∧ (live = true → r ≠ RFail) ∧
  ∃ V', mem_step V o r V' ∧ pager_ok live [] (Some V') s.

Lemma run_op_ok V c w o :
  pager_ok live [] (Some V) (c, w) → op_ok (num_virtual_pages c) o →
  wp (run_op o) (op_post V c o) (c, w).
Proof.
  intros Hok Ho. destruct o as [p|p off bs|start count]; simpl in *.
  - apply wp_bind. eapply wp_mono; [by apply dsm_access_page_ok|].
    intros [ptr|] [c1 w1] (Hok1 & Hg & Hr); simpl in *.
    + destruct (accessed_data _ _ _ _ _ _ Hok1 Hr) as (f & Hf & -> & Hdata).
      apply wp_bind. eapply wp_read_frame; [apply Hok1|done|]. apply wp_ret.
      split; [done|]. split; [done|]. exists V. rewrite Hdata. split; [constructor|done].
    + apply wp_ret. split; [done|]. split; [done|]. exists V. split; [constructor|done].
  - destruct Ho as [Hp Hb]. apply wp_bind. eapply wp_mono; [by apply dsm_access_page_ok|].
    intros [ptr|] [c1 w1] (Hok1 & Hg & Hr); simpl in *.
    + apply wp_bind. eapply wp_mono; [by apply (user_write_ok V c1 w1 p 1)|].
      intros [] s (Hok2 & Hg2 & _). apply wp_ret. split; [by etrans|]. split; [done|].
      eexists. split; [constructor|done].
    + apply wp_ret. split; [done|]. split; [done|]. exists V. split; [constructor|done].
  - apply wp_bind. eapply wp_mono; [by apply dsm_prefetch_pages_ok|].
    intros [] s (Hok1 & Hg & _). apply wp_ret. split; [done|]. split; [done|].
    exists V. split; [constructor|done].
Qed.

Lemma run_ops_ok V c w os :
  pager_ok live [] (Some V) (c, w) → Forall (op_ok (num_virtual_pages c)) os →
  wp (run_ops os) (λ rs s, same_geometry c s.1 ∧ (live = true → RFail ∉ rs) ∧
    ∃ V', mem_steps V os rs V' ∧ pager_ok live [] (Some V') s) (c, w).
Proof.
  revert V c w. induction os as [|o os IH]; intros V c w Hok Hos; simpl.
  { apply wp_ret. split; [done|]. split; [intros _ Hin; by apply not_elem_of_nil in Hin|].
    exists V. split; [constructor|done]. }
  apply Forall_cons in Hos as [Ho Hos].
  apply wp_bind. eapply wp_mono; [by apply run_op_ok|].
  intros r [c1 w1] (Hg & Hl & V1 & Hstep & Hok1). simpl in *.
  apply wp_bind. eapply wp_mono.
  { apply (IH V1); [done|]. destruct Hg as (_ & E & _). by rewrite E. }
  intros rs s (Hg2 & Hl2 & V2 & Hsteps & Hok2). apply wp_ret.
  split; [by etrans|]. split.
  - intros Hlive. rewrite not_elem_of_cons. split; [symmetry; by apply Hl|by apply Hl2].
  - exists V2. split; [|done]. by econstructor.
Qed.

End refinement.
