(* ===== verification/PagingTheorems.v ===== *)
(** * Theorems about the pager

    Creation establishes the invariant; the public calls keep it; the pager
    refines the abstract memory; eviction is the clock algorithm. *)

From stdpp Require Import gmap.
From S2P Require Import Prelude Machine Protocol PageService Paging PagingInv PagingOps PagingAccess PagingSpec TableService.

(** ** Creation *)

Lemma zget_replicate {A} (n : nat) (x y : A) i :
  zget (replicate n x) i = Some y ↔ y = x ∧ 0 <= i < Z.of_nat n.
Proof.
  split.
  - intros H. pose proof (zget_Some_range _ _ _ H) as Hr. rewrite zlen_replicate in Hr.
    rewrite zget_lookup in H by lia. by apply lookup_replicate in H as [-> _].
  - intros [-> Hi]. rewrite zget_lookup by lia. apply lookup_replicate. split; [done|lia].
Qed.

Lemma initial_free_list np :
  0 <= np <= UINT32_MAX →
  NoDup ((λ i, u32 (np - 1 - i)) <$> seqZ 0 np) ∧
  ∀ f, f ∈ ((λ i, u32 (np - 1 - i)) <$> seqZ 0 np) ↔ 0 <= f < np.
Proof.
  unfold UINT32_MAX. intros Hnp. split.
  - apply NoDup_fmap_2_strong; [|apply NoDup_seqZ].
    intros i j Hi%elem_of_seqZ Hj%elem_of_seqZ. rewrite !u32_small by lia. lia.
  - intros f. rewrite list_elem_of_fmap. setoid_rewrite elem_of_seqZ. split.
    + intros (i & -> & Hi). rewrite u32_small by lia. lia.
    + intros Hf. exists (np - 1 - f). rewrite u32_small by lia. lia.
Qed.

Lemma create_context_inv g np nvp live c live' :
  0 <= np <= UINT32_MAX → 0 <= nvp <= UINT32_MAX →
  dsm_create_context g np nvp live = (Some c, live') →
  pager_inv [] c ∧ num_virtual_pages c = nvp ∧ num_pages c = np ∧
  ∀ p pe, zget (page_table c) p = Some pe → pe = mk_pte 0 0 0 0 LOC_LOCAL.
Proof.
  intros Hnp Hnvp. unfold dsm_create_context, mmap_grants.
  destruct (grant_context g); [|done]. destruct (grant_memory g); [|done].
  destruct (Z.ltb_spec 0 (np * PAGE_SIZE)) as [Hlen|]; [|done].
  destruct (grant_page_table g && grant_frame_table g && grant_free_list g); [|done].
  intros H. assert (0 < np) by (unfold PAGE_SIZE in *; lia).
  cbn -[PAGE_SIZE replicate Z.mul seqZ] in H. injection H as <- _.
  assert (∀ p pe, zget (replicate (Z.to_nat nvp) (mk_pte 0 0 0 0 LOC_LOCAL)) p = Some pe →
            pe = mk_pte 0 0 0 0 LOC_LOCAL) as Hpt by (by intros p pe [-> _]%zget_replicate).
  destruct (initial_free_list np Hnp) as [Hnd Hmem].
  split_and!; [|done|done|done].
  constructor; cbn -[PAGE_SIZE replicate Z.mul seqZ]; rewrite ?zlen_replicate; try lia.
  - unfold zlen. rewrite length_fmap, length_seqZ. lia.
  - unfold free_frames. simpl. rewrite app_nil_r, take_ge by (rewrite length_fmap, length_seqZ; lia).
    done.
  - intros f. unfold free_frames, unoccupied. cbn -[replicate seqZ].
    rewrite app_nil_r, take_ge, Hmem by (rewrite length_fmap, length_seqZ; lia).
    split.
    + intros Hf. exists (mk_frame 0 0). rewrite zget_replicate. split; [split; [done|lia]|done].
    + intros (e & [-> Hf]%zget_replicate & _). lia.
  - intros f e [-> Hf]%zget_replicate. done.
  - intros p pe Hpe%Hpt. by subst.
Qed.

(** A context that has just been created and connected represents the pages
    of the service. *)
Lemma create_connect_ok {W} {RO : RpcOps W} {PSV : PageService W} live g np nvp blks c blks' fd (w : W) :
  0 <= np <= UINT32_MAX → 0 <= nvp <= UINT32_MAX → 0 <= fd →
  dsm_create_context g np nvp blks = (Some c, blks') →
  in_step w fd nvp →
  (live = true → ∀ p, 0 <= p < nvp → serves w fd p) →
  pager_ok live [] (Some (page_of w fd)) (set_sock_fd fd c, w).
Proof.
  intros Hnp Hnvp Hfd Hc Hw Hs. destruct (create_context_inv _ _ _ _ _ _ Hnp Hnvp Hc)
    as (I & E & _ & Hpt).
  split; simpl.
  - eapply pager_inv_ext; [exact I|done..|apply I].
  - split; [|split; [done|]].
    + unfold serves_all. simpl. by rewrite E.
    + intros p pe Hp. simpl in *. unfold page_view. by rewrite (Hpt _ _ Hp).
Qed.

(** Without a claim on the memory, the invariant is enough. *)
Lemma pager_ok_none {W} {RO : RpcOps W} {PSV : PageService W} c (w : W) :
  pager_inv [] c → in_step w (sock_fd c) (num_virtual_pages c) → pager_ok false [] None (c, w).
Proof. intros ??. by split; [|split]. Qed.

Definition all_grants : alloc_grants := Build_alloc_grants true true true true true.

Lemma create_granted np nvp blks :
  0 < np → ∃ c blks', dsm_create_context all_grants np nvp blks = (Some c, blks').
Proof.
  intros Hnp. unfold dsm_create_context, mmap_grants. simpl.
  destruct (Z.ltb_spec 0 (np * PAGE_SIZE)); [by do 2 eexists|unfold PAGE_SIZE in *; lia].
Qed.

(** ** The abstract memory as a function *)

Fixpoint mem_exec (V : memory) (os : list mem_op) : list mem_res :=
  match os with
  | [] => []
  | MRead p :: os => RData (V p) :: mem_exec V os
  | MWrite p off bs :: os => RDone :: mem_exec (mem_upd V p (splice (V p) off bs)) os
  | MPrefetch _ _ :: os => RDone :: mem_exec V os
  end.

Lemma mem_steps_exec V os rs V' : mem_steps V os rs V' → RFail ∉ rs → rs = mem_exec V os.
Proof.
  induction 1 as [V|V o r V1 os rs V2 Hstep _ IH]; [done|].
  rewrite not_elem_of_cons. intros [Hr Hrs]. specialize (IH Hrs).
  destruct Hstep; simpl; congruence.
Qed.

(** ** Claims *)

(** C2: The pager refines a flat memory.  From creation, connected to any page
    service, every sequence of reads, writes and prefetch hints that respects
    the API runs to completion without undefined behaviour, and its results
    are those of a memory that starts as the service's pages: a read returns
    what the last successful write left, across evictions, writebacks,
    refetches and prefetches; a call that fails changes nothing. *)
Theorem pager_refines_memory {W} {RO : RpcOps W} {PSV : PageService W}
    g np nvp blks c blks' fd (w : W) os :
  0 <= np <= UINT32_MAX → 0 <= nvp <= UINT32_MAX → 0 <= fd → in_step w fd nvp →
  dsm_create_context g np nvp blks = (Some c, blks') →
  Forall (op_ok nvp) os →
  wp (run_ops os) (λ rs s, ∃ V, mem_steps (page_of w fd) os rs V ∧
    pager_ok false [] (Some V) s) (set_sock_fd fd c, w).
Proof.
  intros Hnp Hnvp Hfd Hw Hc Hos.
  eapply wp_mono; [apply (run_ops_ok false (page_of w fd))|].
  - by apply (create_connect_ok false g np nvp blks c blks').
  - simpl. by destruct (create_context_inv _ _ _ _ _ _ Hnp Hnvp Hc) as (_ & -> & _).
  - by intros rs s (_ & _ & ?).
Qed.

Lemma pager_refines_memory_witness : ∃ c blks',
  dsm_create_context all_grants 2 4 [] = (Some c, blks') ∧
  wp (run_ops [MWrite 1 0 [Byte.x2a]; MRead 1; MPrefetch 2 2])
    (λ rs s, ∃ V, mem_steps (page_of (mk_table ∅ [true]) 3)
       [MWrite 1 0 [Byte.x2a]; MRead 1; MPrefetch 2 2] rs V ∧
       pager_ok false [] (Some V) s) (set_sock_fd 3 c, mk_table ∅ [true]).
Proof.
  destruct (create_granted 2 4 [] ltac:(lia)) as (c & b & E). exists c, b. split; [exact E|].
  apply (pager_refines_memory all_grants 2 4 [] c b 3); try (unfold UINT32_MAX; lia).
  - exact I.
  - exact E.
  - pose proof page_bytes_pos. repeat constructor; simpl; lia.
Defined.

(** C3: With a service that fails no call, the pager fails no call, and the
    results are exactly those of the memory: read-your-writes for a single
    client, whatever is evicted in between. *)
Theorem pager_exact_when_served {W} {RO : RpcOps W} {PSV : PageService W}
    g np nvp blks c blks' fd (w : W) os :
  0 <= np <= UINT32_MAX → 0 <= nvp <= UINT32_MAX → 0 <= fd → in_step w fd nvp →
  dsm_create_context g np nvp blks = (Some c, blks') →
  (∀ p, 0 <= p < nvp → serves w fd p) →
  Forall (op_ok nvp) os →
  wp (run_ops os) (λ rs _, rs = mem_exec (page_of w fd) os) (set_sock_fd fd c, w).
Proof.
  intros Hnp Hnvp Hfd Hw Hc Hs Hos.
  eapply wp_mono; [apply (run_ops_ok true (page_of w fd))|].
  - apply (create_connect_ok true g np nvp blks c blks'); auto.
  - simpl. by destruct (create_context_inv _ _ _ _ _ _ Hnp Hnvp Hc) as (_ & -> & _).
  - intros rs s (_ & Hl & V & Hsteps & _). by eapply mem_steps_exec; [|apply Hl].
Qed.

Lemma pager_exact_when_served_witness : ∃ c blks',
  dsm_create_context all_grants 1 3 [] = (Some c, blks') ∧
  wp (run_ops [MWrite 0 5 [Byte.x2a]; MRead 1; MRead 0])
    (λ rs _, rs = [RDone; RData zero_page; RData (splice zero_page 5 [Byte.x2a])])
    (set_sock_fd 3 c, mk_table ∅ []).
Proof.
  destruct (create_granted 1 3 [] ltac:(lia)) as (c & b & E). exists c, b. split; [exact E|].
  eapply wp_mono; [apply (pager_exact_when_served all_grants 1 3 [] c b 3);
    try (unfold UINT32_MAX; lia)|].
  - exact I.
  - exact E.
  - reflexivity.
  - pose proof page_bytes_Z. unfold PAGE_SIZE in *. repeat constructor; simpl; lia.
  - intros rs s ->. reflexivity.
Defined.

(** C5: Memory safety of an access, in the connected and in the in-memory
    mode: for a page of the context, [dsm_access_page] returns (the clock
    terminates), performs no access out of bounds, keeps the invariant, and a
    pointer it returns is page-aligned inside the frame area. *)
Theorem dsm_access_page_safe {W} {RO : RpcOps W} {PSV : PageService W} c (w : W) p write :
  pager_inv [] c → in_step w (sock_fd c) (num_virtual_pages c) → 0 <= p < num_virtual_pages c →
  wp (dsm_access_page p write) (λ r s, pager_inv [] s.1 ∧
    ∀ ptr, r = Some ptr →
      ptr mod PAGE_SIZE = 0 ∧ 0 <= ptr ∧ ptr + PAGE_SIZE <= zlen (local_memory s.1) ∧
      accessed s.1 p write ptr) (c, w).
Proof.
  intros I Hw Hp. eapply wp_mono; [apply (dsm_access_page_ok false None); [|done]|].
  { by apply pager_ok_none. }
  intros r [c1 w1] ([I1 _] & _ & Hr). split; [done|]. intros ptr ->. simpl in *.
  pose proof Hr as (pe & Hpe & Hv & -> & _).
  destruct (inv_valid _ _ I1 _ _ Hpe) as [_ (e & He & _)]; [lia|].
  apply (inv_frame_range _ _ I1) in He. destruct (inv_frame_mem _ _ I1 _ He) as [? Hm].
  rewrite page_bytes_Z in Hm. split_and!; [|done|done|done].
  unfold frame_to_ptr. by apply Z.mod_mul.
Qed.

Lemma dsm_access_page_safe_witness : ∃ c blks',
  dsm_create_context all_grants 2 4 [] = (Some c, blks') ∧
  wp (dsm_access_page 3 1) (λ r s, pager_inv [] s.1 ∧
    ∀ ptr, r = Some ptr →
      ptr mod PAGE_SIZE = 0 ∧ 0 <= ptr ∧ ptr + PAGE_SIZE <= zlen (local_memory s.1) ∧
      accessed s.1 3 1 ptr) (c, mk_table ∅ []).
Proof.
  destruct (create_granted 2 4 [] ltac:(lia)) as (c & b & E). exists c, b. split; [exact E|].
  destruct (create_context_inv all_grants 2 4 [] c b ltac:(unfold UINT32_MAX; lia)
    ltac:(unfold UINT32_MAX; lia) E) as (I & En & _).
  apply dsm_access_page_safe; [exact I|constructor|]. rewrite En. lia.
Defined.

(** A full cache of one frame, for the examples: page 0 is cached, dirty and
    referenced. *)
Definition one_frame : dsm_context := {|
  sock_fd := 3;
  local_memory := zero_page;
  page_table := [mk_pte 0 1 1 1 LOC_REMOTE; mk_pte 0 0 0 0 LOC_LOCAL];
  frame_table := [mk_frame 0 1];
  free_list := [0];
  free_list_top := 0;
  clock_hand := 0;
  num_pages := 1;
  num_virtual_pages := 2;
  next_alloc_page := 0;
  last_page_id := 0;
  prefetch_count := 4;
  local_hits := 0;
  remote_fetches := 1;
  evictions := 0;
|}.

Lemma one_frame_inv : pager_inv [] one_frame.
Proof.
  assert (mapped one_frame 0 0) as Hm by (split; eexists; by split_and!).
  constructor; try (simpl; unfold UINT32_MAX; lia); try done.
  - apply NoDup_nil_2.
  - intros f. split; [intros Hf; by apply not_elem_of_nil in Hf|].
    intros (e & He & Ho). pose proof (zget_Some_range _ _ _ He) as Hr.
    unfold zlen in Hr. simpl in Hr. replace f with 0 in He by lia.
    injection He as <-. done.
  - intros f e He Ho. pose proof (zget_Some_range _ _ _ He) as Hr.
    unfold zlen in Hr. simpl in Hr. replace f with 0 in * by lia. injection He as <-. done.
  - intros p pe Hp Hv. pose proof (zget_Some_range _ _ _ Hp) as Hr.
    unfold zlen in Hr. simpl in Hr. assert (p = 0 ∨ p = 1) as [->| ->] by lia;
      injection Hp as <-; done.
Qed.

(** The position the hand reaches after [k] steps. *)
Definition hand_at c (k : Z) : Z := (clock_hand c + k) mod num_pages c.

Lemma hand_at_inj c j k :
  0 < num_pages c → hand_at c j = hand_at c k → 0 <= j <= k → k - j < num_pages c → j = k.
Proof.
  unfold hand_at. intros Hn E Hjk Hd.
  assert ((k - j) mod num_pages c = 0) as Hz.
  { replace (k - j) with ((clock_hand c + k) - (clock_hand c + j)) by lia.
    rewrite Zminus_mod, E, Z.sub_diag. apply Z.mod_0_l. lia. }
  rewrite Z.mod_small in Hz by lia. lia.
Qed.

Lemma hand_at_succ c k : 0 < num_pages c → (hand_at c k + 1) mod num_pages c = hand_at c (k + 1).
Proof. intros. unfold hand_at. rewrite Z.add_mod_idemp_l by lia. f_equal. lia. Qed.

Section clock.
Context {W : Type} {RO : RpcOps W} {PSV : PageService W} (m : option memory).

(** The state of the sweep after [k] steps. *)
Definition swept c (k : Z) (s : PS (W:=W)) : Prop :=
  0 <= k <= num_pages c ∧ pager_ok false [] m s ∧ free_list_top s.1 = 0 ∧
  same_geometry c s.1 ∧ clock_hand s.1 = hand_at c k ∧
  (∀ j, 0 <= j < k → referenced c (hand_at c j) = true) ∧
  (∀ f, 0 <= f < num_pages c → referenced s.1 f = true ↔
     referenced c f = true ∧ ∀ j, 0 <= j < k → f ≠ hand_at c j).

Definition clock_post c (f : Z) (s : PS (W:=W)) : Prop :=
  ∃ k, 0 <= k <= num_pages c ∧
    (∀ j, 0 <= j < k → referenced c (hand_at c j) = true) ∧
    (referenced c (hand_at c k) = false ∨ k = num_pages c) ∧
    (f ≠ DSM_NO_FRAME → f = hand_at c k ∧ clock_hand s.1 = hand_at c (k + 1)).

Lemma swept_next c k c1 (w1 : W) s' :
  0 < num_pages c → swept c k (c1, w1) → clock_step c1 None s'.1 →
  pager_ok false [] m s' → free_list_top s'.1 = 0 → same_geometry c1 s'.1 →
  swept c (k + 1) s'.
Proof.
  intros Hn (Hk & Hok & Htop & Hg & Hh & Hpass & Href) (Hr & Hh' & Href') Hok' Htop' Hg'.
  simpl in *. destruct Hg as (En & Hg). rewrite En, Hh in *.
  assert (0 <= hand_at c k < num_pages c) as Hhr by (apply Z.mod_pos_bound; lia).
  apply Href in Hr as [Hrk Hnew]; [|done].
  assert (k ≠ num_pages c) as Hkn.
  { intros ->. apply (Hnew 0); [lia|]. unfold hand_at.
    by rewrite <- Z.add_mod_idemp_r, Z.mod_same by lia. }
  split_and!; try done; try lia.
  - transitivity c1; [by split|done].
  - rewrite Hh'. by apply hand_at_succ.
  - intros j Hj. destruct (decide (j = k)) as [->|]; [done|]. apply Hpass. lia.
  - intros f Hf. rewrite Href', andb_true_iff, Href by done. rewrite negb_true_iff, Z.eqb_neq.
    split.
    + intros [[? Hold] Hne]. split; [done|]. intros j Hj.
      destruct (decide (j = k)) as [->|]; [done|]. apply Hold. lia.
    + intros [? Hall]. split; [split; [done|]|apply Hall; lia]. intros j Hj. apply Hall. lia.
Qed.

Lemma swept_victim c k c1 (w1 : W) f s' :
  0 < num_pages c → swept c k (c1, w1) → clock_step c1 (Some f) s'.1 → clock_post c f s'.
Proof.
  intros Hn (Hk & Hok & Htop & Hg & Hh & Hpass & Href) (Hr & Hf).
  simpl in *. destruct Hg as (En & Hg). rewrite En, Hh in *.
  assert (0 <= hand_at c k < num_pages c) as Hhr by (apply Z.mod_pos_bound; lia).
  exists k. split_and!; try done; try lia.
  - destruct (referenced c (hand_at c k)) eqn:E; [right|by left].
    destruct (decide (k = num_pages c)) as [|Hne]; [done|]. exfalso.
    assert (referenced c1 (hand_at c k) = true); [|congruence].
    apply Href; [done|]. split; [done|]. intros j Hj Ej.
    assert (j = k); [|lia]. by apply (hand_at_inj c); [|symmetry| |]; lia || done.
  - intros Hne. destruct (Hf Hne) as [-> ->]. split; [done|]. by apply hand_at_succ.
Qed.

Lemma evict_page_clock_ok c (w : W) :
  pager_ok false [] m (c, w) → free_list_top c = 0 →
  wp evict_page (clock_post c) (c, w).
Proof.
  intros Hok Htop. pose proof (inv_num_pages _ _ (proj1 Hok)) as Hn. simpl in Hn.
  pose proof (inv_hand _ _ (proj1 Hok)) as Hh. simpl in Hh.
  apply wp_bind, wp_cget.
  apply (wp_loop _ (λ s, ∃ k, swept c k s) (λ s, reference_count s.1)).
  - intros [c1 w1] [k Hsw]. pose proof Hsw as (Hk & Hok1 & Htop1 & Hg & _).
    eapply wp_mono; [by apply (evict_step_ok false m)|]. intros [f|] s' [Hclock Hs'].
    + by eapply swept_victim; [lia|..].
    + destruct Hs' as (Hok' & Htop' & Hg' & _ & _ & _ & Hlt). split; [|done].
      exists (k + 1). by eapply swept_next; [lia|..].
  - exists 0. split_and!; try done; try lia.
    + unfold hand_at. by rewrite Z.add_0_r, Z.mod_small.
    + intros f Hf. split; [|by intros [? _]]. intros Hr. split; [done|]. intros j Hj. lia.
  - simpl. pose proof (reference_count_le c). lia.
Qed.

End clock.



(** C6: An eviction loses no data.  On a full cache that represents the memory
    [V], [evict_page] either reports that the writeback failed, and then every
    page is still represented, or frees one frame, counts the eviction, and
    the memory is still [V]: a dirty page has reached the service. *)
Theorem evict_page_keeps_memory {W} {RO : RpcOps W} {PSV : PageService W} V c (w : W) :
  pager_ok false [] (Some V) (c, w) → free_list_top c = 0 →
  wp evict_page (λ f s,
    (f = DSM_NO_FRAME ∧ pager_ok false [] (Some V) s ∧ evictions s.1 = evictions c) ∨
    (0 <= f < num_pages c ∧ pager_ok false [f] (Some V) s ∧
     evictions s.1 = u64 (evictions c + 1))) (c, w).
Proof.
  intros Hok Htop. eapply wp_mono; [by apply evict_page_ok|].
  intros f s (_ & _ & _ & [(? & _ & ? & ?)|?]); [by left|by right].
Qed.

Lemma evict_page_keeps_memory_witness :
  wp evict_page (λ f s,
    (f = DSM_NO_FRAME ∧ pager_ok false [] (Some (λ _, zero_page)) s ∧ evictions s.1 = 0) ∨
    (0 <= f < 1 ∧ pager_ok false [f] (Some (λ _, zero_page)) s ∧ evictions s.1 = 1))
    (one_frame, mk_table ∅ [true]).
Proof.
  apply (evict_page_keeps_memory (λ _, zero_page) one_frame); [|reflexivity].
  split; [exact one_frame_inv|]. split; [done|]. split; [done|].
  intros p pe Hp. pose proof (zget_Some_range _ _ _ Hp) as Hr.
  unfold zlen in Hr. simpl in Hr. assert (p = 0 ∨ p = 1) as [->| ->] by lia;
    injection Hp as <-; [|reflexivity].
  split_and!; [|done|done]. unfold frame_data. simpl. unfold slice. rewrite drop_0.
  by apply take_ge; rewrite length_zero_page.
Defined.

(** C35: A hit is local: an access to a cached page returns the pointer to its
    frame, touches neither the service nor the frame area, and counts one
    local hit and no fetch or eviction. *)
Theorem dsm_access_page_hit {W} {RO : RpcOps W} {PSV : PageService W} c (w : W) p write pe :
  pager_inv [] c → in_step w (sock_fd c) (num_virtual_pages c) →
  zget (page_table c) p = Some pe → valid pe ≠ 0 →
  wp (dsm_access_page p write) (λ r s,
    r = Some (frame_to_ptr (frame_number pe)) ∧ s.2 = w ∧
    local_memory s.1 = local_memory c ∧ local_hits s.1 = u64 (local_hits c + 1) ∧
    remote_fetches s.1 = remote_fetches c ∧ evictions s.1 = evictions c) (c, w).
Proof.
  intros I Hw Hp Hv. eapply wp_mono.
  { apply (dsm_access_page_hit_ok false None c w p write pe); [|done|done]. by apply pager_ok_none. }
  intros r s (_ & ? & ? & ? & ? & ? & ?). done.
Qed.

Lemma dsm_access_page_hit_witness :
  wp (dsm_access_page 0 0) (λ r s,
    r = Some 0 ∧ s.2 = mk_table ∅ [] ∧
    local_memory s.1 = zero_page ∧ local_hits s.1 = 1 ∧
    remote_fetches s.1 = 1 ∧ evictions s.1 = 0) (one_frame, mk_table ∅ []).
Proof.
  apply (dsm_access_page_hit one_frame (mk_table ∅ []) 0 0 (mk_pte 0 1 1 1 LOC_REMOTE));
    [exact one_frame_inv|constructor|reflexivity|done].
Defined.

(** C34: A prefetch only adds: it evicts nothing, leaves every cached page where
    it is with its bits, and keeps the memory, also when the batch fails (the
    frames it took are then free again). *)
Theorem dsm_prefetch_pages_adds {W} {RO : RpcOps W} {PSV : PageService W} V c (w : W) start count :
  pager_ok false [] (Some V) (c, w) → 0 <= count < 2 ^ 8 →
  wp (dsm_prefetch_pages start count) (λ _ s,
    pager_ok false [] (Some V) s ∧ evictions s.1 = evictions c ∧
    ∀ p pe, zget (page_table c) p = Some pe → valid pe ≠ 0 →
      zget (page_table s.1) p = Some pe) (c, w).
Proof.
  intros Hok Hc. eapply wp_mono; [by apply dsm_prefetch_pages_ok|].
  by intros [] s (? & _ & ? & _ & ? & _).
Qed.

Lemma dsm_prefetch_pages_adds_witness : ∃ c blks',
  dsm_create_context all_grants 2 4 [] = (Some c, blks') ∧
  wp (dsm_prefetch_pages 1 3) (λ _ s,
    pager_ok false [] (Some (page_of (mk_table ∅ [true]) 3)) s ∧
    evictions s.1 = evictions (set_sock_fd 3 c) ∧
    ∀ p pe, zget (page_table (set_sock_fd 3 c)) p = Some pe → valid pe ≠ 0 →
      zget (page_table s.1) p = Some pe) (set_sock_fd 3 c, mk_table ∅ [true]).
Proof.
  destruct (create_granted 2 4 [] ltac:(lia)) as (c & b & E). exists c, b. split; [exact E|].
  apply dsm_prefetch_pages_adds; [|lia].
  apply (create_connect_ok false all_grants 2 4 [] c b); try (unfold UINT32_MAX; lia); done.
Defined.

(** ** A hint about pages that were never accessed *)

Lemma prefetch_gather_local {W} (c : dsm_context) (w : W) idx start ids frames bc :
  (∀ p pe, zget (page_table c) p = Some pe → location pe = LOC_LOCAL) →
  num_virtual_pages c = zlen (page_table c) →
  prefetch_gather idx start ids frames bc (c, w) = Ret ((ids, frames, bc), (c, w)).
Proof.
  intros Hloc Hn. induction idx as [|i idx IH]; [done|]. cbn [prefetch_gather].
  destruct (bc <? DSM_PREFETCH_MAX); [|done].
  unfold mbind, M_bind, cget, gets. simpl.
  destruct (Z.leb_spec (num_virtual_pages c) (u32 (start + i))); [done|].
  destruct (zget_in_range (page_table c) (u32 (start + i))) as [pe Hp].
  { pose proof (u32_range (start + i)). lia. }
  unfold get_pte, mbind, M_bind, cget, gets, load. simpl. rewrite Hp. simpl.
  rewrite (Hloc _ _ Hp). by rewrite orb_true_r.
Qed.

(** C40: On a context whose pages have never been accessed,
    [dsm_prefetch_pages] does nothing at all: it takes no frame and sends no
    request, because a page's [location] is [LOC_LOCAL] until its first
    access. *)
Theorem prefetch_fresh_does_nothing {W} {RO : RpcOps W} g np nvp blks c blks' fd (w : W)
    start count :
  0 <= np <= UINT32_MAX → 0 <= nvp <= UINT32_MAX →
  dsm_create_context g np nvp blks = (Some c, blks') →
  dsm_prefetch_pages start count (set_sock_fd fd c, w) = Ret (tt, (set_sock_fd fd c, w)).
Proof.
  intros Hnp Hnvp Hc.
  destruct (create_context_inv _ _ _ _ _ _ Hnp Hnvp Hc) as (I & En & _ & Hpt).
  unfold dsm_prefetch_pages. unfold mbind at 1, M_bind at 1.
  rewrite prefetch_gather_local; [done| |].
  - intros p pe Hp. by rewrite (Hpt p pe Hp).
  - simpl. by rewrite (inv_page_table _ _ I).
Qed.

Lemma prefetch_fresh_does_nothing_witness : ∃ c blks',
  dsm_create_context all_grants 256 4096 [] = (Some c, blks') ∧
  dsm_prefetch_pages 8 4 (set_sock_fd 3 c, mk_table ∅ []) =
    Ret (tt, (set_sock_fd 3 c, mk_table ∅ [])).
Proof.
  destruct (create_granted 256 4096 [] ltac:(lia)) as (c & b & E). exists c, b. split; [exact E|].
  apply (prefetch_fresh_does_nothing all_grants 256 4096 [] c b 3); try (unfold UINT32_MAX; lia).
  exact E.
Defined.

(** C37: Creation leaks nothing: if any of the five allocations fails,
    [dsm_create_context] returns [NULL] with everything released, a context
    without frames is refused, and destroying the result of a creation
    (also [NULL]) releases everything. *)
Theorem create_destroy_balanced g np nvp :
  let '(r, live) := dsm_create_context g np nvp [] in
  dsm_destroy_context r live = [] ∧ (r = None ↔ live = []) ∧ (np = 0 → r = None).
Proof.
  unfold dsm_create_context, mmap_grants.
  destruct g as [[] [] [] [] []]; simpl; try done;
    destruct (Z.ltb_spec 0 (np * PAGE_SIZE)); simpl; try done.
  split_and!; [done|done|]. intros ->. lia.
Qed.

(** ** The two copies of the hit path *)

Lemma upd_pte_run {W} p g c (w : W) :
  upd_pte p g (c, w) =
    match zget (page_table c) p with
    | Some e => Ret (tt, (set_page_table (zupd (page_table c) p (g e)) c, w))
    | None => Undef
    end.
Proof.
  unfold upd_pte, cget, gets, cmod, modify, load, store, mbind, M_bind. simpl.
  destruct (zget (page_table c) p) as [e|] eqn:E; simpl; [|done].
  apply zget_Some_range in E.
  by rewrite (proj2 (Z.leb_le 0 p)), (proj2 (Z.ltb_lt p _)) by lia.
Qed.

(** C36: The inline fast path of the header and [dsm_access_page] are the same
    function, on every state and every argument, undefined behaviour
    included. *)
Theorem dsm_access_page_fast_equiv {W} {RO : RpcOps W} p write (s : PS (W:=W)) :
  dsm_access_page_fast p write s = dsm_access_page p write s.
Proof.
  destruct s as [c w]. unfold dsm_access_page_fast, dsm_access_page.
  unfold mbind, M_bind, get_pte, cget, gets, cmod, modify, load. simpl.
  unfold mbind, M_bind. simpl.
  destruct (zget (page_table c) p) as [e|] eqn:E; simpl; [|done].
  destruct (truthy (valid e)); [|done].
  pose proof (zget_Some_range _ _ _ E) as Hr.
  rewrite !upd_pte_run. simpl. rewrite E, upd_pte_run. simpl.
  rewrite !zget_zupd_eq by (rewrite ?zlen_zupd; done). simpl.
  rewrite zupd_zupd, zget_zupd_eq by done. done.
Qed.
