(* ===== verification/Node.v ===== *)
(** * The data of the cluster: [include/dsm_cluster.h]

    Node records, the membership table and the configuration, shared by the
    gossip codec and the cluster state machine. *)

From Stdlib Require Strings.String.
From S2P Require Import Prelude.

Definition CLUSTER_MAX_NODES : Z := 64.
Definition NODE_ID_LEN : Z := 16.
Definition CLUSTER_PORT_OFFSET : Z := 1000.
Definition HEARTBEAT_INTERVAL_MS : Z := 1000.
Definition HEARTBEAT_TIMEOUT_MS : Z := 3000.
Definition GOSSIP_INTERVAL_MS : Z := 500.
Definition GOSSIP_FANOUT : Z := 3.

(** [node_state_t] *)
Definition NODE_STATE_ALIVE : Z := 1.
Definition NODE_STATE_SUSPECT : Z := 2.
Definition NODE_STATE_DEAD : Z := 3.

(** The number of bytes of a node id, as the length of a list. *)
Definition id_bytes : nat := Z.to_nat NODE_ID_LEN.

(** [cluster_node_t]; its padding is never read. *)
Record cluster_node := mk_node {
  n_id : list byte;
  n_addr : Z;
  n_client_port : Z;
  n_cluster_port : Z;
  n_range_start : Z;
  n_range_end : Z;
  n_last_seen : Z;
  n_incarnation : Z;
  n_state : Z;
}.

Definition set_last_seen t n := mk_node (n_id n) (n_addr n) (n_client_port n)
  (n_cluster_port n) (n_range_start n) (n_range_end n) t (n_incarnation n) (n_state n).
Definition set_state v n := mk_node (n_id n) (n_addr n) (n_client_port n)
  (n_cluster_port n) (n_range_start n) (n_range_end n) (n_last_seen n) (n_incarnation n) v.

(** All bytes zero. *)
Definition zero_node : cluster_node :=
  mk_node (replicate id_bytes Byte.x00) 0 0 0 0 0 0 0 0.

(** Every field holds a value of its C type. *)
Definition node_wf (n : cluster_node) : Prop :=
  length (n_id n) = id_bytes ∧ 0 <= n_addr n < 2 ^ 32 ∧
  0 <= n_client_port n < 2 ^ 16 ∧ 0 <= n_cluster_port n < 2 ^ 16 ∧
  0 <= n_range_start n < 2 ^ 32 ∧ 0 <= n_range_end n < 2 ^ 32 ∧
  0 <= n_last_seen n < 2 ^ 64 ∧ 0 <= n_incarnation n < 2 ^ 32 ∧
  0 <= n_state n < 2 ^ 8.

(** [cluster_state_t]: an array of [CLUSTER_MAX_NODES] records of which the
    first [node_count] are in use.  The lock serialises its users. *)
Record cluster_state := mk_state {
  nodes : list cluster_node;
  node_count : Z;
  self_idx : Z;
}.

Record cluster_config := mk_cluster_config {
  seed_addr : option String.string;
  seed_port : Z;
  cfg_node_id : option String.string;
  cfg_cluster_port : Z;
  heartbeat_ms : Z;
  gossip_ms : Z;
  timeout_ms : Z;
  page_range_start : Z;
  page_range_end : Z;
}.

(** [struct sockaddr_in]: address and port in network byte order. *)
Record sockaddr := mk_sockaddr {
  sin_addr : Z;
  sin_port : Z;
}.

(** [htons] and [ntohs] of a little-endian host: exchange the two bytes. *)
Definition htons (x : Z) : Z :=
  Z.lor (Z.shiftl (Z.land x 255) 8) (Z.shiftr x 8).

Definition ntohs (x : Z) : Z := htons x.

Lemma htons_arith x : 0 <= x < 2 ^ 16 → htons x = (x mod 256) * 256 + x / 256.
Proof.
  intros Hx. unfold htons. change 255 with (Z.ones 8).
  rewrite Z.land_ones, Z.shiftr_div_pow2 by lia. change (2 ^ 8) with 256.
  assert (0 <= x / 256 < 256) as Hd by (split; [apply Z.div_pos|apply Z.div_lt_upper_bound]; lia).
  set (d := x / 256) in *. pose proof (Z.add_lor_land (Z.shiftl (x mod 256) 8) d) as Hadd.
  assert (Z.land (Z.shiftl (x mod 256) 8) d = 0) as E.
  { apply Z.bits_inj'. intros n Hn. rewrite Z.land_spec, Z.bits_0, Z.shiftl_spec by done.
    destruct (Z.ltb_spec n 8); [rewrite Z.testbit_neg_r by lia; done|].
    rewrite <- (Z.mod_small d (2 ^ 8)) by lia. rewrite Z.mod_pow2_bits_high by lia.
    apply andb_false_r. }
  rewrite E, Z.add_0_r in Hadd. rewrite Hadd, Z.shiftl_mul_pow2 by lia. done.
Qed.

Lemma htons_range x : 0 <= x < 2 ^ 16 → 0 <= htons x < 2 ^ 16.
Proof.
  intros Hx. rewrite htons_arith by done. pose proof (Z.mod_pos_bound x 256).
  assert (0 <= x / 256 < 256) by (split; [apply Z.div_pos|apply Z.div_lt_upper_bound]; lia). lia.
Qed.

Lemma ntohs_htons x : 0 <= x < 2 ^ 16 → ntohs (htons x) = x.
Proof.
  intros Hx. unfold ntohs. rewrite (htons_arith (htons x)) by (by apply htons_range).
  rewrite htons_arith by done.
  assert (0 <= x / 256 < 256) by (split; [apply Z.div_pos|apply Z.div_lt_upper_bound]; lia).
  rewrite Z.div_add_l by lia. rewrite (Z.div_small (x / 256)) by lia.
  rewrite (Z.add_comm (x mod 256 * 256)), Z.mod_add by lia.
  rewrite (Z.mod_small (x / 256)) by lia. pose proof (Z.div_mod x 256). lia.
Qed.
