(* ===== verification/Gossip.v ===== *)
(** * The gossip codec: [include/dsm_gossip.h] and [src/dsm_gossip.c]

    Messages, their packed little-endian layout, the senders of the three
    message types and the parser.  The datagram socket is the class
    [DatagramOps]. *)

From S2P Require Import Prelude Machine Protocol Node.

Definition GOSSIP_MSG_MAX_NODES : Z := 16.
Definition GOSSIP_MAGIC : Z := 0x44534D47.

(** [gossip_msg_type_t] *)
Definition GOSSIP_PING : Z := 1.
Definition GOSSIP_PONG : Z := 2.
Definition GOSSIP_JOIN : Z := 3.

Record gossip_header := mk_gossip_header {
  gh_magic : Z;
  gh_type : Z;
  gh_node_count : Z;
  gh_client_port : Z;
  gh_sender_id : list byte;
  gh_incarnation : Z;
  gh_range_start : Z;
  gh_range_end : Z;
}.

Record gossip_node_info := mk_node_info {
  gn_id : list byte;
  gn_addr : Z;
  gn_client_port : Z;
  gn_cluster_port : Z;
  gn_range_start : Z;
  gn_range_end : Z;
  gn_incarnation : Z;
  gn_state : Z;
  gn_pad : list byte;
}.

Record gossip_msg := mk_gossip_msg {
  gm_hdr : gossip_header;
  gm_nodes : list gossip_node_info;
}.

(** ** The packed layouts *)

Definition gossip_header_size : nat := 36.
Definition node_info_size : nat := 40.

Definition gossip_header_bytes (h : gossip_header) : list byte :=
  le_bytes 4 (gh_magic h) ++ le_bytes 1 (gh_type h) ++ le_bytes 1 (gh_node_count h) ++
  le_bytes 2 (gh_client_port h) ++ gh_sender_id h ++ le_bytes 4 (gh_incarnation h) ++
  le_bytes 4 (gh_range_start h) ++ le_bytes 4 (gh_range_end h).

Definition gossip_header_of_bytes (bs : list byte) : gossip_header := {|
  gh_magic := le_val (slice bs 0 4);
  gh_type := le_val (slice bs 4 1);
  gh_node_count := le_val (slice bs 5 1);
  gh_client_port := le_val (slice bs 6 2);
  gh_sender_id := slice bs 8 id_bytes;
  gh_incarnation := le_val (slice bs 24 4);
  gh_range_start := le_val (slice bs 28 4);
  gh_range_end := le_val (slice bs 32 4);
|}.

Definition node_info_bytes (g : gossip_node_info) : list byte :=
  gn_id g ++ le_bytes 4 (gn_addr g) ++ le_bytes 2 (gn_client_port g) ++
  le_bytes 2 (gn_cluster_port g) ++ le_bytes 4 (gn_range_start g) ++
  le_bytes 4 (gn_range_end g) ++ le_bytes 4 (gn_incarnation g) ++
  le_bytes 1 (gn_state g) ++ gn_pad g.

Definition node_info_of_bytes (bs : list byte) : gossip_node_info := {|
  gn_id := slice bs 0 id_bytes;
  gn_addr := le_val (slice bs 16 4);
  gn_client_port := le_val (slice bs 20 2);
  gn_cluster_port := le_val (slice bs 22 2);
  gn_range_start := le_val (slice bs 24 4);
  gn_range_end := le_val (slice bs 28 4);
  gn_incarnation := le_val (slice bs 32 4);
  gn_state := le_val (slice bs 36 1);
  gn_pad := slice bs 37 3;
|}.

(** A [gossip_msg_t] in memory: the header and all sixteen entries. *)
Definition gossip_msg_bytes (m : gossip_msg) : list byte :=
  gossip_header_bytes (gm_hdr m) ++ concat (node_info_bytes <$> gm_nodes m).

Definition gossip_header_wf (h : gossip_header) : Prop :=
  0 <= gh_magic h < 2 ^ 32 ∧ 0 <= gh_type h < 2 ^ 8 ∧ 0 <= gh_node_count h < 2 ^ 8 ∧
  0 <= gh_client_port h < 2 ^ 16 ∧ length (gh_sender_id h) = id_bytes ∧
  0 <= gh_incarnation h < 2 ^ 32 ∧ 0 <= gh_range_start h < 2 ^ 32 ∧
  0 <= gh_range_end h < 2 ^ 32.

Definition node_info_wf (g : gossip_node_info) : Prop :=
  length (gn_id g) = id_bytes ∧ 0 <= gn_addr g < 2 ^ 32 ∧
  0 <= gn_client_port g < 2 ^ 16 ∧ 0 <= gn_cluster_port g < 2 ^ 16 ∧
  0 <= gn_range_start g < 2 ^ 32 ∧ 0 <= gn_range_end g < 2 ^ 32 ∧
  0 <= gn_incarnation g < 2 ^ 32 ∧ 0 <= gn_state g < 2 ^ 8 ∧ length (gn_pad g) = 3%nat.

Definition gossip_msg_wf (m : gossip_msg) : Prop :=
  gossip_header_wf (gm_hdr m) ∧ zlen (gm_nodes m) = GOSSIP_MSG_MAX_NODES ∧
  Forall node_info_wf (gm_nodes m).

(** What [memset] to zero leaves. *)
Definition zero_node_info : gossip_node_info :=
  mk_node_info (replicate id_bytes Byte.x00) 0 0 0 0 0 0 0 (replicate 3 Byte.x00).

(** ** Building a message *)

Definition fill_header (type : Z) (self : cluster_node) : gossip_msg := {|
  gm_hdr := {|
    gh_magic := GOSSIP_MAGIC;
    gh_type := u8 type;
    gh_node_count := 0;
    gh_client_port := n_client_port self;
    gh_sender_id := n_id self;
    gh_incarnation := n_incarnation self;
    gh_range_start := n_range_start self;
    gh_range_end := n_range_end self;
  |};
  gm_nodes := replicate (Z.to_nat GOSSIP_MSG_MAX_NODES) zero_node_info;
|}.

Definition set_gh_node_count (v : Z) (m : gossip_msg) : gossip_msg :=
  let h := gm_hdr m in
  mk_gossip_msg (mk_gossip_header (gh_magic h) (gh_type h) v (gh_client_port h)
    (gh_sender_id h) (gh_incarnation h) (gh_range_start h) (gh_range_end h)) (gm_nodes m).

Definition cluster_node_to_gossip (cn : cluster_node) : gossip_node_info := {|
  gn_id := n_id cn;
  gn_addr := n_addr cn;
  gn_client_port := n_client_port cn;
  gn_cluster_port := n_cluster_port cn;
  gn_range_start := n_range_start cn;
  gn_range_end := n_range_end cn;
  gn_incarnation := n_incarnation cn;
  gn_state := n_state cn;
  gn_pad := replicate 3 Byte.x00;
|}.

Definition gossip_node_to_cluster (gn : gossip_node_info) : cluster_node := {|
  n_id := gn_id gn;
  n_addr := gn_addr gn;
  n_client_port := gn_client_port gn;
  n_cluster_port := gn_cluster_port gn;
  n_range_start := gn_range_start gn;
  n_range_end := gn_range_end gn;
  n_last_seen := 0;
  n_incarnation := gn_incarnation gn;
  n_state := gn_state gn;
|}.

(** ** Sending *)

Class DatagramOps (W : Type) := {
  sys_sendto : Z → list byte → sockaddr → M W (sysres Z);
}.

Section send.
Context {W : Type} {DO : DatagramOps W}.

(** The kernel copies the first [len] bytes of the message. *)
Definition send_msg (fd : Z) (msg : gossip_msg) (dest : sockaddr) : M W Z :=
  let len := Z.of_nat gossip_header_size +
             gh_node_count (gm_hdr msg) * Z.of_nat node_info_size in
  bytes ← load_region (gossip_msg_bytes msg) 0 (Z.to_nat len);
  r ← sys_sendto fd bytes dest;
  match r with
  | SysOk n => mret (if n =? len then 0 else -1)
  | SysErr _ => mret (-1)
  end.

Definition gossip_send_ping (fd : Z) (self : cluster_node) (dest : sockaddr) : M W Z :=
  let msg := set_gh_node_count 0 (fill_header GOSSIP_PING self) in
  send_msg fd msg dest.

(** The loop that fills [msg.nodes]. *)
Fixpoint pong_nodes (idx : list Z) (nodes : list cluster_node)
    (out : list gossip_node_info) : M W (list gossip_node_info) :=
  match idx with
  | [] => mret out
  | i :: idx =>
      n ← load nodes i;
      out' ← store out i (cluster_node_to_gossip n);
      pong_nodes idx nodes out'
  end.

Definition gossip_send_pong (fd : Z) (self : cluster_node) (dest : sockaddr)
    (nodes : list cluster_node) (node_count : Z) : M W Z :=
  let msg := fill_header GOSSIP_PONG self in
  let count := if GOSSIP_MSG_MAX_NODES <? node_count then GOSSIP_MSG_MAX_NODES
               else node_count in
  let msg := set_gh_node_count (u8 count) msg in
  out ← pong_nodes (seqZ 0 count) nodes (gm_nodes msg);
  send_msg fd (mk_gossip_msg (gm_hdr msg) out) dest.

Definition gossip_send_join (fd : Z) (self : cluster_node) (dest : sockaddr) : M W Z :=
  let msg := set_gh_node_count 1 (fill_header GOSSIP_JOIN self) in
  out ← store (gm_nodes msg) 0 (cluster_node_to_gossip self);
  send_msg fd (mk_gossip_msg (gm_hdr msg) out) dest.

(** ** Parsing *)

(** The entries of a run of bytes. *)
Fixpoint node_infos_of_bytes (n : nat) (bs : list byte) : list gossip_node_info :=
  match n with
  | O => []
  | S n => node_info_of_bytes (take node_info_size bs) ::
           node_infos_of_bytes n (drop node_info_size bs)
  end.

(** [memcpy] of [count] entries into an array of entries. *)
Definition store_nodes (out : list gossip_node_info) (count : nat) (bs : list byte) :
    M W (list gossip_node_info) :=
  if (count <=? length out)%nat
  then mret (node_infos_of_bytes count bs ++ drop count out) else undefined.

(** [buf] is the receive buffer, of which [len] bytes were received; the
    result is the return value and the new contents of [*out]. *)
Definition gossip_parse (buf : list byte) (len : Z) (out : gossip_msg) : M W (Z * gossip_msg) :=
  if len <? Z.of_nat gossip_header_size then mret (-1, out) else
  hb ← load_region buf 0 gossip_header_size;
  let h := gossip_header_of_bytes hb in
  let out := mk_gossip_msg h (gm_nodes out) in
  if negb (gh_magic h =? GOSSIP_MAGIC) then mret (-1, out) else
  if GOSSIP_MSG_MAX_NODES <? gh_node_count h then mret (-1, out) else
  let expected := Z.of_nat gossip_header_size + gh_node_count h * Z.of_nat node_info_size in
  if len <? expected then mret (-1, out) else
  if 0 <? gh_node_count h then
    let count := Z.to_nat (gh_node_count h) in
    nb ← load_region buf (Z.of_nat gossip_header_size) (count * node_info_size);
    ns ← store_nodes (gm_nodes out) count nb;
    mret (0, mk_gossip_msg h ns)
  else mret (0, out).

End send.
