(* ===== verification/GossipTheorems.v ===== *)
(** * Theorems about the gossip codec *)

From S2P Require Import Prelude Machine Protocol Node Gossip.

(** ** The layouts *)

(** Read one field out of a packed struct written as a concatenation. *)
Ltac read_field Hids :=
  change id_bytes with 16%nat in *;
  repeat (rewrite slice_app_skip by (rewrite ?length_le_bytes, ?Hids; lia);
          rewrite ?length_le_bytes, ?Hids; cbn [Nat.sub]);
  first [rewrite slice_app by (rewrite ?length_le_bytes, ?Hids; done)
        |rewrite slice_all by (rewrite ?length_le_bytes; done)];
  rewrite ?le_val_bytes; try (apply Z.mod_small; simpl Z.mul; lia); try done.

Lemma length_gossip_header_bytes h :
  gossip_header_wf h → length (gossip_header_bytes h) = gossip_header_size.
Proof.
  intros (_ & _ & _ & _ & Hid & _). unfold gossip_header_bytes.
  rewrite !length_app, !length_le_bytes, Hid. done.
Qed.

Lemma gossip_header_roundtrip h :
  gossip_header_wf h → gossip_header_of_bytes (gossip_header_bytes h) = h.
Proof.
  destruct h as [mg ty nc cp sid inc rs re].
  intros (H1 & H2 & H3 & H4 & Hid & H5 & H6 & H7).
  unfold gossip_header_of_bytes, gossip_header_bytes. cbn -[slice] in *.
  f_equal; read_field Hid.
Qed.

Lemma length_node_info_bytes g :
  node_info_wf g → length (node_info_bytes g) = node_info_size.
Proof.
  intros (Hid & _ & _ & _ & _ & _ & _ & _ & Hp). unfold node_info_bytes.
  rewrite !length_app, !length_le_bytes, Hid, Hp. done.
Qed.

Lemma node_info_roundtrip g :
  node_info_wf g → node_info_of_bytes (node_info_bytes g) = g.
Proof.
  destruct g as [id ad cp clp rs re inc st pd].
  intros (Hid & H1 & H2 & H3 & H4 & H5 & H6 & H7 & Hp).
  unfold node_info_of_bytes, node_info_bytes. cbn -[slice] in *.
  f_equal; read_field Hid.
Qed.

Lemma node_infos_roundtrip gs rest :
  Forall node_info_wf gs →
  node_infos_of_bytes (length gs) (concat (node_info_bytes <$> gs) ++ rest) = gs.
Proof.
  induction 1 as [|g gs Hg _ IH]; [done|]. pose proof (length_node_info_bytes g Hg) as Hl.
  cbn [length node_infos_of_bytes fmap list_fmap concat]. rewrite <- app_assoc.
  rewrite take_app_length', drop_app_length' by done.
  rewrite node_info_roundtrip by done. f_equal. apply IH.
Qed.

Lemma length_node_infos n bs : length (node_infos_of_bytes n bs) = n.
Proof. revert bs. induction n as [|n IH]; intros bs; simpl; [done|]. by rewrite IH. Qed.

(** Whatever the bytes, the decoded values fit their fields. *)
Lemma le_val_slice_range bs off n :
  (off + n ≤ length bs)%nat → 0 <= le_val (slice bs off n) < 2 ^ (8 * Z.of_nat n).
Proof.
  intros H. pose proof (le_val_range (slice bs off n)) as Hr. by rewrite length_slice in Hr.
Qed.

Ltac field_range :=
  match goal with
  | |- context [le_val (slice ?b ?o ?n)] =>
      let H := fresh in
      assert (o + n ≤ length b)%nat as H by (change id_bytes with 16%nat in *; lia);
      apply le_val_slice_range in H; simpl in H |- *; lia
  end.

Lemma node_info_of_bytes_wf bs :
  length bs = node_info_size → node_info_wf (node_info_of_bytes bs).
Proof.
  unfold node_info_size. intros Hl. unfold node_info_wf. cbn -[slice].
  split_and!; try field_range; apply length_slice; change id_bytes with 16%nat; lia.
Qed.

Lemma gossip_header_of_bytes_wf bs :
  length bs = gossip_header_size → gossip_header_wf (gossip_header_of_bytes bs).
Proof.
  unfold gossip_header_size. intros Hl. unfold gossip_header_wf. cbn -[slice].
  split_and!; try field_range; apply length_slice; change id_bytes with 16%nat; lia.
Qed.

Lemma lookup_node_infos n bs i :
  (i < n)%nat →
  node_infos_of_bytes n bs !! i =
    Some (node_info_of_bytes (slice bs (i * node_info_size) node_info_size)).
Proof.
  revert bs i. induction n as [|n IH]; intros bs i Hi; [lia|].
  destruct i as [|i]; cbn [node_infos_of_bytes lookup list_lookup].
  - unfold slice. by rewrite Nat.mul_0_l, drop_0.
  - rewrite IH by lia. unfold slice. rewrite drop_drop. do 5 f_equal.
Qed.

(** ** The parser *)

Definition parsed_header (buf : list byte) : gossip_header :=
  gossip_header_of_bytes (take gossip_header_size buf).

(** When a datagram of [len] bytes is accepted. *)
Definition acceptable (buf : list byte) (len : Z) : Prop :=
  36 <= len ∧ gh_magic (parsed_header buf) = GOSSIP_MAGIC ∧
  gh_node_count (parsed_header buf) <= 16 ∧ 36 + 40 * gh_node_count (parsed_header buf) <= len.

Section parse.
Context {W : Type}.

Lemma parsed_count_range buf : (gossip_header_size ≤ length buf)%nat →
  0 <= gh_node_count (parsed_header buf) < 2 ^ 8.
Proof.
  intros Hl. unfold parsed_header. cbn -[slice].
  set (b := slice _ _ _). pose proof (le_val_range b) as Hr.
  assert (length b = 1%nat) as E; [|rewrite E in Hr; lia].
  apply length_slice. rewrite length_take. unfold gossip_header_size in *. lia.
Qed.

Lemma gossip_parse_reject buf len out (w : W) :
  len <= zlen buf → ¬ acceptable buf len →
  ∃ h, gossip_parse buf len out w = Ret ((-1, mk_gossip_msg h (gm_nodes out)), w).
Proof.
  intros Hl Hna. unfold gossip_parse, gossip_header_size, node_info_size.
  destruct (Z.ltb_spec len (Z.of_nat 36)); [by exists (gm_hdr out); destruct out|].
  unfold zlen in Hl. unfold load_region.
  rewrite (proj2 (Z.leb_le 0 0)), (proj2 (Z.leb_le _ (zlen buf))) by (unfold zlen; lia).
  unfold mbind, M_bind. cbn [andb Z.to_nat mret M_ret]. unfold slice. rewrite drop_0.
  change (take 36 buf) with (take gossip_header_size buf). fold (parsed_header buf).
  exists (parsed_header buf).
  destruct (Z.eqb_spec (gh_magic (parsed_header buf)) GOSSIP_MAGIC); [|done].
  destruct (Z.ltb_spec GOSSIP_MSG_MAX_NODES (gh_node_count (parsed_header buf))); [done|].
  cbn [negb gm_hdr]. unfold GOSSIP_MSG_MAX_NODES in *.
  destruct (Z.ltb_spec len (Z.of_nat 36 + gh_node_count (parsed_header buf) * Z.of_nat 40));
    [done|]. exfalso. apply Hna. unfold acceptable. split_and!; [lia|done|lia|lia].
Qed.

Lemma gossip_parse_accept buf len out (w : W) :
  len <= zlen buf → zlen (gm_nodes out) = GOSSIP_MSG_MAX_NODES → acceptable buf len →
  let h := parsed_header buf in
  let count := Z.to_nat (gh_node_count h) in
  gossip_parse buf len out w =
    Ret ((0, mk_gossip_msg h (node_infos_of_bytes count
           (slice buf gossip_header_size (count * node_info_size)) ++
           drop count (gm_nodes out))), w).
Proof.
  intros Hl Ho (H1 & H2 & H3 & H4) h count.
  unfold zlen, GOSSIP_MSG_MAX_NODES in *.
  assert (0 <= gh_node_count h < 2 ^ 8) as Hc
    by (apply parsed_count_range; unfold gossip_header_size; lia).
  unfold gossip_parse, gossip_header_size, node_info_size.
  destruct (Z.ltb_spec len (Z.of_nat 36)); [lia|]. unfold load_region.
  rewrite (proj2 (Z.leb_le 0 0)), (proj2 (Z.leb_le _ (zlen buf))) by (unfold zlen; lia).
  unfold mbind, M_bind. cbn [andb mret M_ret].
  change (gossip_header_of_bytes (slice buf (Z.to_nat 0) 36)) with h.
  fold h in H2, H3, H4. rewrite H2. change (GOSSIP_MAGIC =? GOSSIP_MAGIC) with true.
  cbn [negb gm_hdr]. unfold GOSSIP_MSG_MAX_NODES.
  destruct (Z.ltb_spec 16 (gh_node_count h)); [lia|].
  destruct (Z.ltb_spec len (Z.of_nat 36 + gh_node_count h * Z.of_nat 40)); [lia|].
  destruct (Z.ltb_spec 0 (gh_node_count h)).
  - fold count. change (0 <=? Z.of_nat 36) with true.
    rewrite (proj2 (Z.leb_le _ (zlen buf))) by (unfold zlen, count; lia).
    cbn [andb mret M_ret]. unfold store_nodes. cbn [gm_nodes].
    rewrite (proj2 (Nat.leb_le _ _)) by (unfold count; lia).
    unfold mret, M_ret. by rewrite Nat2Z.id.
  - assert (count = 0%nat) as -> by (unfold count; lia). done.
Qed.

End parse.

#[export] Instance acceptable_dec buf len : Decision (acceptable buf len).
Proof. unfold acceptable. apply _. Defined.

(** C26: The parser is total and safe on every datagram: it reads only the
    bytes received and writes only inside the sixteen entries of the message.
    It accepts exactly the datagrams that hold a whole header with the magic,
    at most sixteen entries, and all of them; the message is then the decoded
    one.  A datagram it rejects leaves the entries alone. *)
Theorem gossip_parse_total {W} buf len out (w : W) :
  len <= zlen buf → zlen (gm_nodes out) = GOSSIP_MSG_MAX_NODES →
  ∃ r m, gossip_parse buf len out w = Ret ((r, m), w) ∧
    zlen (gm_nodes m) = GOSSIP_MSG_MAX_NODES ∧ (r = 0 ∨ r = -1) ∧
    (r = 0 ↔ acceptable buf len) ∧
    (r = -1 → gm_nodes m = gm_nodes out) ∧
    (r = 0 → gm_hdr m = parsed_header buf ∧
       ∀ i, 0 <= i < gh_node_count (gm_hdr m) →
         zget (gm_nodes m) i =
           Some (node_info_of_bytes (slice buf (Z.to_nat (36 + 40 * i)) node_info_size))).
Proof.
  intros Hl Ho. destruct (decide (acceptable buf len)) as [Ha|Hna].
  - pose proof (gossip_parse_accept buf len out w Hl Ho Ha) as E. cbv zeta in E.
    destruct Ha as (H1 & H2 & H3 & H4). unfold zlen, GOSSIP_MSG_MAX_NODES in *.
    assert (0 <= gh_node_count (parsed_header buf) < 2 ^ 8) as Hc
      by (apply parsed_count_range; unfold gossip_header_size; lia).
    set (count := Z.to_nat (gh_node_count (parsed_header buf))) in *.
    do 2 eexists. split; [exact E|]. cbn [gm_hdr gm_nodes].
    split_and!; [|by left|by unfold acceptable|done|].
    + rewrite length_app, length_node_infos, length_drop. lia.
    + intros _. split; [done|]. intros i Hi. rewrite zget_lookup by lia.
      rewrite lookup_app_l by (rewrite length_node_infos; lia).
      rewrite lookup_node_infos by lia. unfold node_info_size, gossip_header_size.
      rewrite slice_slice by lia. do 3 f_equal. lia.
  - destruct (gossip_parse_reject buf len out w Hl Hna) as [h E].
    do 2 eexists. split; [exact E|]. cbn [gm_hdr gm_nodes]. by split_and!; auto.
Qed.

Lemma gossip_parse_total_witness : ∃ r m,
  gossip_parse (replicate 40 Byte.x00) 40
    (fill_header GOSSIP_PING zero_node) () = Ret ((r, m), ()) ∧ (r = 0 ∨ r = -1).
Proof.
  destruct (gossip_parse_total (replicate 40 Byte.x00) 40 (fill_header GOSSIP_PING zero_node) ())
    as (r & m & E & _ & Hr & _); [reflexivity|reflexivity|].
  exists r, m. split; [exact E|exact Hr].
Defined.

(** What a handler may rely on of a message the parser has accepted. *)
Definition msg_ok (m : gossip_msg) : Prop :=
  gossip_header_wf (gm_hdr m) ∧ gh_node_count (gm_hdr m) <= zlen (gm_nodes m) ∧
  Forall node_info_wf (take (Z.to_nat (gh_node_count (gm_hdr m))) (gm_nodes m)).

Lemma gossip_parse_ok {W} buf len out (w : W) :
  len <= zlen buf → zlen (gm_nodes out) = GOSSIP_MSG_MAX_NODES →
  wp (gossip_parse buf len out) (λ res w', w' = w ∧ (res.1 = 0 → msg_ok res.2)) w.
Proof.
  intros Hl Ho. apply wp_returns. destruct (decide (acceptable buf len)) as [Ha|Hna].
  - pose proof (gossip_parse_accept buf len out w Hl Ho Ha) as E. cbv zeta in E.
    destruct Ha as (H1 & H2 & H3 & H4). unfold zlen, GOSSIP_MSG_MAX_NODES in *.
    assert (0 <= gh_node_count (parsed_header buf) < 2 ^ 8) as Hc
      by (apply parsed_count_range; unfold gossip_header_size; lia).
    set (count := Z.to_nat (gh_node_count (parsed_header buf))) in *.
    do 2 eexists. split; [exact E|]. split; [done|]. intros _. split_and!; cbn [gm_hdr gm_nodes snd].
    + apply gossip_header_of_bytes_wf. rewrite length_take. unfold gossip_header_size. lia.
    + unfold zlen. rewrite length_app, length_node_infos, length_drop. lia.
    + fold count. rewrite take_app_length' by (by rewrite length_node_infos).
      apply Forall_lookup. intros i g Hg. pose proof (lookup_lt_Some _ _ _ Hg) as Hi.
      rewrite length_node_infos in Hi. rewrite lookup_node_infos in Hg by done.
      injection Hg as <-. apply node_info_of_bytes_wf, length_slice.
      rewrite length_slice; unfold gossip_header_size, node_info_size; lia.
  - destruct (gossip_parse_reject buf len out w Hl Hna) as [h E].
    do 2 eexists. split; [exact E|]. by split.
Qed.

(** The bytes of a message that go over the wire. *)
Definition datagram (m : gossip_msg) : list byte :=
  gossip_header_bytes (gm_hdr m) ++
  concat (node_info_bytes <$> take (Z.to_nat (gh_node_count (gm_hdr m))) (gm_nodes m)).

Lemma node_infos_length gs :
  Forall node_info_wf gs → Forall (λ l, length l = node_info_size) (node_info_bytes <$> gs).
Proof. intros H. apply Forall_fmap. eapply Forall_impl; [exact H|]. apply length_node_info_bytes. Qed.

Lemma length_datagram m :
  gossip_msg_wf m → gh_node_count (gm_hdr m) <= GOSSIP_MSG_MAX_NODES →
  zlen (datagram m) = 36 + 40 * gh_node_count (gm_hdr m).
Proof.
  intros (Hh & Hn & Hw) Hc. pose proof (length_gossip_header_bytes _ Hh) as Hl.
  pose proof Hh as (_ & _ & Hr & _). unfold zlen, datagram, GOSSIP_MSG_MAX_NODES in *.
  rewrite length_app, Hl, (length_concat_eq _ node_info_size), length_fmap, length_take
    by (by apply node_infos_length, Forall_take).
  unfold gossip_header_size, node_info_size. lia.
Qed.

Lemma send_msg_datagram {W} {DO : DatagramOps W} fd m dest (w : W) :
  gossip_msg_wf m → gh_node_count (gm_hdr m) <= GOSSIP_MSG_MAX_NODES →
  send_msg fd m dest w =
    (r ← sys_sendto fd (datagram m) dest;
     mret (match r with SysOk n => if n =? zlen (datagram m) then 0 else -1
                      | SysErr _ => -1 end)) w.
Proof.
  intros Hwf Hc. pose proof (length_datagram _ Hwf Hc) as Hlen.
  pose proof Hwf as (Hh & Hn & Hw). pose proof (length_gossip_header_bytes _ Hh) as Hl.
  pose proof Hh as (_ & _ & Hr & _).
  unfold send_msg. unfold load_region.
  assert (gossip_msg_bytes m = datagram m ++ concat (node_info_bytes <$>
    drop (Z.to_nat (gh_node_count (gm_hdr m))) (gm_nodes m))) as Esplit.
  { unfold gossip_msg_bytes, datagram. rewrite <- app_assoc, <- concat_app, <- fmap_app.
    by rewrite take_drop. }
  replace (Z.of_nat gossip_header_size + gh_node_count (gm_hdr m) * Z.of_nat node_info_size)
    with (zlen (datagram m)) by (rewrite Hlen; unfold gossip_header_size, node_info_size; lia).
  rewrite (proj2 (Z.leb_le 0 0)), (proj2 (Z.leb_le _ (zlen (gossip_msg_bytes m)))).
  2: { rewrite Esplit, zlen_app. unfold zlen. lia. }
  2: { lia. }
  unfold mbind, M_bind. cbn [andb mret M_ret]. rewrite Esplit.
  rewrite slice_app by (unfold zlen; lia).
  destruct (sys_sendto _ _ _ w) as [[[n|e] w']| | |]; done.
Qed.

(** The datagram of a well-formed message parses back to it. *)
Lemma parse_datagram {W} m out (w : W) :
  gossip_msg_wf m → gh_magic (gm_hdr m) = GOSSIP_MAGIC →
  gh_node_count (gm_hdr m) <= GOSSIP_MSG_MAX_NODES →
  zlen (gm_nodes out) = GOSSIP_MSG_MAX_NODES →
  gossip_parse (datagram m) (zlen (datagram m)) out w =
    Ret ((0, mk_gossip_msg (gm_hdr m)
       (take (Z.to_nat (gh_node_count (gm_hdr m))) (gm_nodes m) ++
        drop (Z.to_nat (gh_node_count (gm_hdr m))) (gm_nodes out))), w).
Proof.
  intros Hwf Hm Hc Ho. pose proof (length_datagram _ Hwf Hc) as Hlen.
  pose proof Hwf as (Hh & Hn & Hw). pose proof (length_gossip_header_bytes _ Hh) as Hl.
  pose proof Hh as (_ & _ & Hr & _).
  assert (parsed_header (datagram m) = gm_hdr m) as Eh.
  { unfold parsed_header, datagram. rewrite take_app_length' by done.
    by apply gossip_header_roundtrip. }
  rewrite gossip_parse_accept; [|done|done|].
  - rewrite Eh. cbv zeta. do 5 f_equal. unfold datagram.
    rewrite slice_app_skip, Hl, Nat.sub_diag by (rewrite Hl; done).
    set (ns := take _ _).
    assert (length ns = Z.to_nat (gh_node_count (gm_hdr m))) as Hns.
    { unfold ns. rewrite length_take. unfold zlen, GOSSIP_MSG_MAX_NODES in *. lia. }
    assert (Forall node_info_wf ns) as Hwn by (by apply Forall_take).
    rewrite slice_all.
    + rewrite <- Hns, <- (app_nil_r (concat _)). by apply node_infos_roundtrip.
    + by rewrite (length_concat_eq _ _ (node_infos_length _ Hwn)), length_fmap, Hns.
  - unfold acceptable. rewrite Eh, Hlen. unfold GOSSIP_MSG_MAX_NODES in *.
    split_and!; done || lia.
Qed.

(** ** The three messages *)

Lemma cluster_node_to_gossip_wf n : node_wf n → node_info_wf (cluster_node_to_gossip n).
Proof.
  intros (? & ? & ? & ? & ? & ? & _ & ? & ?). unfold node_info_wf. simpl. split_and!; done || lia.
Qed.

Lemma zero_node_info_wf : node_info_wf zero_node_info.
Proof. unfold node_info_wf. simpl. split_and!; done || lia. Qed.

(** The header of a message from [self] with [count] entries. *)
Definition header_from (type : Z) (self : cluster_node) (count : Z) : gossip_header :=
  mk_gossip_header GOSSIP_MAGIC type count (n_client_port self) (n_id self)
    (n_incarnation self) (n_range_start self) (n_range_end self).

Lemma header_from_wf type self count :
  node_wf self → 0 <= type < 2 ^ 8 → 0 <= count < 2 ^ 8 →
  gossip_header_wf (header_from type self count).
Proof.
  intros (? & ? & ? & ? & ? & ? & _ & ? & ?) ??. unfold gossip_header_wf, GOSSIP_MAGIC. simpl.
  split_and!; done || lia.
Qed.

(** A message from [self] whose first entries are [ns]. *)
Definition message_from (type : Z) (self : cluster_node) (ns : list cluster_node) : gossip_msg :=
  mk_gossip_msg (header_from type self (zlen ns))
    ((cluster_node_to_gossip <$> ns) ++
     drop (length ns) (replicate (Z.to_nat GOSSIP_MSG_MAX_NODES) zero_node_info)).

Lemma message_from_wf type self ns :
  node_wf self → Forall node_wf ns → 0 <= type < 2 ^ 8 → zlen ns <= GOSSIP_MSG_MAX_NODES →
  gossip_msg_wf (message_from type self ns).
Proof.
  intros Hs Hns Ht Hl. pose proof (zlen_nonneg ns). unfold GOSSIP_MSG_MAX_NODES in *.
  split_and!.
  - apply header_from_wf; [done|done|lia].
  - unfold zlen in *. cbn [message_from gm_nodes]. rewrite length_app, length_fmap, length_drop, length_replicate. unfold GOSSIP_MSG_MAX_NODES. lia.
  - cbn [message_from gm_nodes]. apply Forall_app. split.
    + apply Forall_fmap. eapply Forall_impl; [exact Hns|]. apply cluster_node_to_gossip_wf.
    + apply Forall_drop, Forall_replicate, zero_node_info_wf.
Qed.

(** What the receiver makes of such a message. *)
Lemma parse_message_from {W} type self ns out (w : W) :
  node_wf self → Forall node_wf ns → 0 <= type < 2 ^ 8 → zlen ns <= GOSSIP_MSG_MAX_NODES →
  zlen (gm_nodes out) = GOSSIP_MSG_MAX_NODES →
  let D := datagram (message_from type self ns) in
  ∃ m, gossip_parse D (zlen D) out w = Ret ((0, m), w) ∧
    gm_hdr m = header_from type self (zlen ns) ∧
    gossip_node_to_cluster <$> take (length ns) (gm_nodes m) = set_last_seen 0 <$> ns.
Proof.
  intros Hs Hns Ht Hl Ho D. unfold D.
  rewrite parse_datagram; [|by apply message_from_wf|done|done|done].
  eexists. split; [done|]. split; [done|]. cbn [gm_hdr gm_nodes message_from header_from gh_node_count].
  unfold zlen. rewrite Nat2Z.id.
  rewrite !(take_app_length' (cluster_node_to_gossip <$> ns)) by (by rewrite length_fmap).
  rewrite <- list_fmap_compose. by apply list_fmap_ext.
Qed.

(** How the senders' results follow from the system call's. *)
Definition sendto_result (len : Z) (r : sysres Z) : Z :=
  match r with SysOk n => if n =? len then 0 else -1 | SysErr _ => -1 end.

Section senders.
Context {W : Type} {DO : DatagramOps W}.

Definition sends (fd : Z) (D : list byte) (dest : sockaddr) : M W Z :=
  r ← sys_sendto fd D dest; mret (sendto_result (zlen D) r).

Lemma send_message_from fd type self ns dest (w : W) :
  node_wf self → Forall node_wf ns → 0 <= type < 2 ^ 8 → zlen ns <= GOSSIP_MSG_MAX_NODES →
  send_msg fd (message_from type self ns) dest w =
    sends fd (datagram (message_from type self ns)) dest w.
Proof.
  intros. rewrite send_msg_datagram; [done|by apply message_from_wf|done].
Qed.

Lemma pong_nodes_ok nodes out (k : nat) (w : W) :
  (k ≤ length nodes)%nat → (k ≤ length out)%nat →
  pong_nodes (seqZ 0 (Z.of_nat k)) nodes out w =
    Ret ((cluster_node_to_gossip <$> take k nodes) ++ drop k out, w).
Proof.
  intros Hn Ho.
  assert (∀ j i, (i + j = k)%nat →
    pong_nodes (seqZ (Z.of_nat i) (Z.of_nat j)) nodes
      ((cluster_node_to_gossip <$> take i nodes) ++ drop i out) w =
    Ret ((cluster_node_to_gossip <$> take k nodes) ++ drop k out, w)) as H; [|by apply (H k 0%nat)].
  induction j as [|j IH]; intros i Hi.
  { by replace i with k by lia. }
  rewrite seqZ_cons by lia. cbn [pong_nodes].
  destruct (lookup_lt_is_Some_2 nodes i) as [n Hni]; [lia|].
  assert (length (cluster_node_to_gossip <$> take i nodes) = i) as Hli
    by (rewrite length_fmap, length_take; lia).
  unfold mbind, M_bind, load. rewrite zget_lookup, Nat2Z.id, Hni by lia.
  cbn [mret M_ret]. unfold mret, M_ret, store.
  rewrite (proj2 (Z.leb_le 0 _)), (proj2 (Z.ltb_lt _ _)) by
    (unfold zlen; rewrite ?length_app, ?Hli, ?length_drop; lia).
  cbn [andb]. unfold mret, M_ret. replace (Z.succ (Z.of_nat i)) with (Z.of_nat (S i)) by lia.
  replace (Z.pred (Z.of_nat (S j))) with (Z.of_nat j) by lia. rewrite <- (IH (S i)) by lia.
  f_equal. unfold zupd. rewrite Nat2Z.id. rewrite (take_S_r _ _ _ Hni), fmap_app.
  rewrite insert_app_r_alt, Hli, Nat.sub_diag by lia.
  destruct (drop i out) as [|o rest] eqn:Ed.
  { apply (f_equal length) in Ed. rewrite length_drop in Ed. simpl in Ed. lia. }
  simpl. rewrite <- app_assoc. simpl. do 2 f_equal.
  by rewrite <- Nat.add_1_r, <- drop_drop, Ed.
Qed.

End senders.

(** A network that delivers every datagram to a log, for the examples. *)
#[export] Instance datagram_log : DatagramOps (list (list byte * sockaddr)) := {
  sys_sendto _ bs dest := λ w, Ret (SysOk (zlen bs), w ++ [(bs, dest)]);
}.

(** What reaches the receiver of a message: the sender's header and the nodes
    listed, without their [last_seen]. *)
Definition delivers (D : list byte) (type : Z) (self : cluster_node) (ns : list cluster_node) : Prop :=
  zlen D = 36 + 40 * zlen ns ∧
  ∀ W (w : W) out, zlen (gm_nodes out) = GOSSIP_MSG_MAX_NODES →
    ∃ m, gossip_parse D (zlen D) out w = Ret ((0, m), w) ∧
      gm_hdr m = header_from type self (zlen ns) ∧
      gossip_node_to_cluster <$> take (length ns) (gm_nodes m) = set_last_seen 0 <$> ns.

Lemma message_delivers type self ns :
  node_wf self → Forall node_wf ns → 0 <= type < 2 ^ 8 → zlen ns <= GOSSIP_MSG_MAX_NODES →
  delivers (datagram (message_from type self ns)) type self ns.
Proof.
  intros Hs Hns Ht Hl. split.
  - rewrite length_datagram; [done|by apply message_from_wf|done].
  - intros W w out Ho. by apply parse_message_from.
Qed.

(** The datagram of a pong, and what it delivers. *)
Lemma gossip_pong_sends {W} {DO : DatagramOps W} fd self dest ns nc :
  node_wf self → Forall node_wf ns → 0 <= nc <= zlen ns →
  ∃ D, (∀ w : W, gossip_send_pong fd self dest ns nc w = sends fd D dest w) ∧
    delivers D GOSSIP_PONG self (take (Z.to_nat (Z.min 16 nc)) ns) ∧ zlen D <= 676.
Proof.
  intros Hs Hns Hnc. set (k := Z.to_nat (Z.min 16 nc)). set (l := take k ns).
  assert (length l = k) as Hlen by (unfold l, zlen in *; rewrite length_take; lia).
  assert (zlen l = Z.min 16 nc) as Hz by (unfold zlen; lia).
  assert (Forall node_wf l) as Hl by (by apply Forall_take).
  assert (0 <= GOSSIP_PONG < 2 ^ 8) by (unfold GOSSIP_PONG; lia).
  assert (delivers (datagram (message_from GOSSIP_PONG self l)) GOSSIP_PONG self l) as HD.
  { apply message_delivers; [done|done|done|]. unfold GOSSIP_MSG_MAX_NODES. lia. }
  exists (datagram (message_from GOSSIP_PONG self l)). split_and!; [|done|].
  - intros w. rewrite <- send_message_from by (done || unfold GOSSIP_MSG_MAX_NODES; lia).
    unfold gossip_send_pong. unfold mbind, M_bind.
    replace (if GOSSIP_MSG_MAX_NODES <? nc then GOSSIP_MSG_MAX_NODES else nc) with (Z.of_nat k)
      by (unfold GOSSIP_MSG_MAX_NODES; destruct (Z.ltb_spec 16 nc); lia).
    rewrite pong_nodes_ok.
    + rewrite u8_small by lia. f_equal. unfold message_from. rewrite Hlen.
      f_equal. unfold header_from, set_gh_node_count, fill_header. cbn.
      unfold zlen. by rewrite Hlen, u8_small by lia.
    + unfold zlen in *. lia.
    + cbn [set_gh_node_count fill_header gm_nodes]. rewrite length_replicate.
      unfold GOSSIP_MSG_MAX_NODES. lia.
  - destruct HD as [E _]. rewrite E. lia.
Qed.

(** C27: A pong carries the membership table: [gossip_send_pong] makes one
    [sendto] of a datagram that fits the receiver's buffer, and
    [gossip_parse] turns it back into the sender's header and the first
    sixteen nodes of the table, every field but [last_seen]. *)
Theorem gossip_pong_roundtrip {W} {DO : DatagramOps W} fd self dest ns nc :
  node_wf self → Forall node_wf ns → 0 <= nc <= zlen ns →
  ∃ D, (∀ w : W, gossip_send_pong fd self dest ns nc w = sends fd D dest w) ∧
    delivers D GOSSIP_PONG self (take (Z.to_nat (Z.min 16 nc)) ns) ∧ zlen D <= 676.
Proof. apply gossip_pong_sends. Qed.

Lemma gossip_pong_roundtrip_witness : ∃ D,
  (∀ w : list (list byte * sockaddr),
     gossip_send_pong 5 zero_node (mk_sockaddr 1 2) (replicate 64 zero_node) 64 w =
     sends 5 D (mk_sockaddr 1 2) w) ∧
  delivers D GOSSIP_PONG zero_node (take 16 (replicate 64 zero_node)) ∧ zlen D <= 676.
Proof.
  apply (gossip_pong_roundtrip 5 zero_node (mk_sockaddr 1 2) (replicate 64 zero_node) 64).
  - unfold node_wf. simpl. split_and!; reflexivity || lia.
  - apply Forall_replicate. unfold node_wf. simpl. split_and!; reflexivity || lia.
  - unfold zlen. rewrite length_replicate. lia.
Defined.

(** The datagrams of a ping and of a join. *)
Lemma gossip_ping_join_sends {W} {DO : DatagramOps W} fd self dest :
  node_wf self →
  ∃ P J, (∀ w : W, gossip_send_ping fd self dest w = sends fd P dest w) ∧
    (∀ w : W, gossip_send_join fd self dest w = sends fd J dest w) ∧
    delivers P GOSSIP_PING self [] ∧ delivers J GOSSIP_JOIN self [self].
Proof.
  intros Hs. exists (datagram (message_from GOSSIP_PING self [])),
    (datagram (message_from GOSSIP_JOIN self [self])).
  assert (Forall node_wf [self]) as Hself by (by constructor).
  split_and!.
  - intros w. rewrite <- send_message_from by (done || unfold GOSSIP_PING; lia). done.
  - intros w. rewrite <- send_message_from by (done || unfold GOSSIP_JOIN; lia). done.
  - apply message_delivers; done || unfold GOSSIP_PING; lia.
  - apply message_delivers; done || unfold GOSSIP_JOIN; lia.
Qed.

(** C28: A ping carries the sender's header and no node; a join carries the
    sender itself as its one node.  Each is one datagram that the receiver
    parses back. *)
Theorem gossip_ping_join_roundtrip {W} {DO : DatagramOps W} fd self dest :
  node_wf self →
  ∃ P J, (∀ w : W, gossip_send_ping fd self dest w = sends fd P dest w) ∧
    (∀ w : W, gossip_send_join fd self dest w = sends fd J dest w) ∧
    delivers P GOSSIP_PING self [] ∧ delivers J GOSSIP_JOIN self [self].
Proof. apply gossip_ping_join_sends. Qed.

Lemma gossip_ping_join_roundtrip_witness : ∃ P J,
  (∀ w : list (list byte * sockaddr),
     gossip_send_ping 5 zero_node (mk_sockaddr 1 2) w = sends 5 P (mk_sockaddr 1 2) w) ∧
  (∀ w : list (list byte * sockaddr),
     gossip_send_join 5 zero_node (mk_sockaddr 1 2) w = sends 5 J (mk_sockaddr 1 2) w) ∧
  delivers P GOSSIP_PING zero_node [] ∧ delivers J GOSSIP_JOIN zero_node [zero_node].
Proof.
  apply gossip_ping_join_roundtrip. unfold node_wf. simpl. split_and!; reflexivity || lia.
Defined.
