(* ===== verification/Cluster.v ===== *)
(** * Cluster membership and forwarding: [src/dsm_cluster.c]

    The context of a cluster node, the merge of gossip into its membership
    table, failure detection, ownership lookup, peer connections and
    forwarding.  The table is guarded by a readers-writer lock; a critical
    section is one computation here, and [ClusterSteps] interleaves them. *)

From Stdlib Require Strings.String.
From S2P Require Import Prelude Machine Protocol Node Gossip.

Record cluster_ctx := mk_ctx {
  ctx_cfg : cluster_config;
  ctx_state : cluster_state;
  ctx_self : cluster_node;
  udp_fd : Z;
  ctx_running : Z;
  peer_fds : list Z;
}.

Definition set_ctx_state v c :=
  mk_ctx (ctx_cfg c) v (ctx_self c) (udp_fd c) (ctx_running c) (peer_fds c).
Definition set_udp_fd v c :=
  mk_ctx (ctx_cfg c) (ctx_state c) (ctx_self c) v (ctx_running c) (peer_fds c).
Definition set_ctx_running v c :=
  mk_ctx (ctx_cfg c) (ctx_state c) (ctx_self c) (udp_fd c) v (peer_fds c).
Definition set_peer_fds v c :=
  mk_ctx (ctx_cfg c) (ctx_state c) (ctx_self c) (udp_fd c) (ctx_running c) v.

Definition set_nodes v s := mk_state v (node_count s) (self_idx s).
Definition set_node_count v s := mk_state (nodes s) v (self_idx s).

(** The two threads of a node. *)
Inductive thread := GossipThread | HeartbeatThread.

Definition SOCK_STREAM : Z := 1.
Definition SOCK_DGRAM : Z := 2.

(** The system calls of this file that are not transfers. *)
Class ClusterOps (W : Type) := {
  clock_monotonic : M W (Z * Z);
  clock_realtime : M W (Z * Z);
  sys_usleep : Z → M W unit;
  sys_recvfrom : Z → nat → M W (sysres (list byte * sockaddr));
  sys_socket : Z → M W (sysres Z);
  sys_bind : Z → sockaddr → M W (sysres unit);
  sys_connect : Z → sockaddr → M W (sysres unit);
  sys_close : Z → M W unit;
  read_urandom : nat → M W (option (list byte));
  sys_srand : Z → M W unit;
  sys_rand : M W Z;
  pthread_create : thread → M W bool;
  pthread_join : thread → M W unit;
  sys_getaddrinfo : String.string → Z → M W (option sockaddr);
}.

Section cluster.
Context {W : Type} {SO : SocketOps W} {DO : DatagramOps W} {OO : SockoptOps W} {CO : ClusterOps W}.

(** The state of a cluster call: the context and the world. *)
Definition CS : Type := cluster_ctx * W.

Definition xget {A} (f : cluster_ctx → A) : M CS A := gets (λ s, f s.1).
Definition xmod (f : cluster_ctx → cluster_ctx) : M CS unit := modify (λ s, (f s.1, s.2)).

Definition now_ms : M W Z :=
  '(sec, nsec) ← clock_monotonic; mret (dsm_now_ms sec nsec).

(** [s->nodes[i]], read and assigned. *)
Definition get_node (i : Z) : M CS cluster_node :=
  s ← xget ctx_state; load (nodes s) i.

Definition put_node (i : Z) (n : cluster_node) : M CS unit :=
  s ← xget ctx_state;
  ns ← store (nodes s) i n;
  xmod (set_ctx_state (set_nodes ns s)).

(** ** Identity *)

(** The loop of the fallback: [n] more bytes from [rand]. *)
Fixpoint fill_rand (n : nat) (id : list byte) : M W (list byte) :=
  match n with
  | O => mret id
  | S n => x ← sys_rand; fill_rand n (id ++ le_bytes 1 (Z.land x 0xFF))
  end.

(** [open] and [read] of [/dev/urandom] give sixteen bytes, or the fallback
    fills the id from the clock and [rand]. *)
Definition generate_node_id : M W (list byte) :=
  r ← read_urandom id_bytes;
  let fallback :=
    '(sec, nsec) ← clock_realtime;
    sys_srand (u32 (Z.lxor (u64 sec) (u64 nsec)));;
    let t := u64 (u64 (u64 sec * 1000000000) + u64 nsec) in
    fill_rand (id_bytes - 8) (le_bytes 8 t) in
  match r with
  | Some bs => if (length bs =? id_bytes)%nat then mret bs else fallback
  | None => fallback
  end.

Definition find_node_by_id (id : list byte) : M CS Z :=
  s ← xget ctx_state;
  r ← for_ret (seqZ 0 (node_count s)) (λ i,
    n ← get_node i;
    mret (if decide (n_id n = id) then Some i else None));
  mret (default (-1) r).

(** ** Merging a node record *)

Definition merge_node (node : cluster_node) : M CS unit :=
  idx ← find_node_by_id (n_id node);
  if 0 <=? idx then
    existing ← get_node idx;
    if n_incarnation existing <? n_incarnation node then
      now ← on_snd now_ms;
      put_node idx (mk_node (n_id existing) (n_addr node) (n_client_port node)
        (n_cluster_port node) (n_range_start node) (n_range_end node) now
        (n_incarnation node) (n_state node))
    else if n_incarnation node =? n_incarnation existing then
      now ← on_snd now_ms;
      let existing := set_last_seen now existing in
      put_node idx (if n_state node =? NODE_STATE_ALIVE
                    then set_state NODE_STATE_ALIVE existing else existing)
    else mret tt
  else
    s ← xget ctx_state;
    if node_count s <? CLUSTER_MAX_NODES then
      put_node (node_count s) node;;
      now ← on_snd now_ms;
      put_node (node_count s) (set_last_seen now node);;
      s ← xget ctx_state;
      xmod (set_ctx_state (set_node_count (u8 (node_count s + 1)) s))
    else mret tt.

(** ** Messages *)

(** The record of a message's sender, from the header and the datagram's
    source address. *)
Definition sender_node (h : gossip_header) (from : sockaddr) : cluster_node :=
  mk_node (gh_sender_id h) (sin_addr from) (gh_client_port h) (ntohs (sin_port from))
    (gh_range_start h) (gh_range_end h) 0 (gh_incarnation h) NODE_STATE_ALIVE.

(** The part of [handle_gossip_msg] under the write lock. *)
Definition merge_gossip (msg : gossip_msg) (from : sockaddr) : M CS unit :=
  merge_node (sender_node (gm_hdr msg) from);;
  for_each (seqZ 0 (gh_node_count (gm_hdr msg))) (λ i,
    g ← load (gm_nodes msg) i;
    merge_node (gossip_node_to_cluster g)).

(** And the answer, under the read lock. *)
Definition answer_gossip (msg : gossip_msg) (from : sockaddr) : M CS unit :=
  let type := gh_type (gm_hdr msg) in
  if (type =? GOSSIP_PING) || (type =? GOSSIP_JOIN) then
    fd ← xget udp_fd;
    self ← xget ctx_self;
    s ← xget ctx_state;
    on_snd (gossip_send_pong fd self from (nodes s) (node_count s));;
    mret tt
  else mret tt.

Definition handle_gossip_msg (msg : gossip_msg) (from : sockaddr) : M CS unit :=
  merge_gossip msg from;;
  answer_gossip msg from.

(** One iteration of [gossip_loop]; [buf] is its receive buffer.  The message
    is parsed into an uninitialised local; only the parts the parser has
    filled are read, so zeros stand for its first contents. *)
Definition gossip_iteration (buf : list byte) : M CS (list byte) :=
  fd ← xget udp_fd;
  r ← on_snd (sys_recvfrom fd (length buf));
  match r with
  | SysErr _ => mret buf
  | SysOk (bs, from) =>
      buf' ← store_region buf 0 bs;
      if 0 <? zlen bs then
        '(r, msg) ← gossip_parse buf' (zlen bs) (fill_header 0 zero_node);
        if r =? 0 then handle_gossip_msg msg from;; mret buf' else mret buf'
      else mret buf'
  end.

Definition gossip_buf_size : nat := 676.

Definition gossip_loop (fuel : nat) : M CS unit :=
  fd ← xget udp_fd;
  on_snd (sys_setsockopt fd SO_RCVTIMEO 100000);;
  let fix go (fuel : nat) (buf : list byte) : M CS unit :=
    running ← xget ctx_running;
    if running =? 0 then mret tt else
    match fuel with
    | O => diverge
    | S fuel => buf' ← gossip_iteration buf; go fuel buf'
    end in
  go fuel (replicate gossip_buf_size Byte.x00).

(** ** Heartbeat *)

(** Failure detection for one node at the time [now]. *)
Definition age_node (timeout now : Z) (n : cluster_node) : cluster_node :=
  let elapsed := u64 (now - n_last_seen n) in
  if (n_state n =? NODE_STATE_ALIVE) && (timeout / 2 <? elapsed)
  then set_state NODE_STATE_SUSPECT n
  else if (n_state n =? NODE_STATE_SUSPECT) && (timeout <? elapsed)
  then set_state NODE_STATE_DEAD n
  else n.

(** The loop of [heartbeat_loop] under the write lock. *)
Definition age_nodes (now : Z) : M CS unit :=
  s ← xget ctx_state;
  cfg ← xget ctx_cfg;
  for_each (seqZ 0 (node_count s)) (λ i,
    if i =? self_idx s then mret tt else
    n ← get_node i;
    put_node i (age_node (timeout_ms cfg) now n)).

(** The pings, under the read lock: at most [GOSSIP_FANOUT] of them. *)
Fixpoint ping_nodes (idx : list Z) (sent : Z) : M CS Z :=
  match idx with
  | [] => mret sent
  | i :: idx =>
      if sent <? GOSSIP_FANOUT then
        s ← xget ctx_state;
        if i =? self_idx s then ping_nodes idx sent else
        n ← get_node i;
        if n_state n =? NODE_STATE_DEAD then ping_nodes idx sent else
        let dest := mk_sockaddr (n_addr n) (htons (n_cluster_port n)) in
        fd ← xget udp_fd;
        self ← xget ctx_self;
        on_snd (gossip_send_ping fd self dest);;
        ping_nodes idx (sent + 1)
      else mret sent
  end.

(** One iteration of [heartbeat_loop]; the result is the new [last_gossip]. *)
Definition heartbeat_iteration (last_gossip : Z) : M CS Z :=
  cfg ← xget ctx_cfg;
  on_snd (sys_usleep (u32 (heartbeat_ms cfg * 1000) / 4));;
  now ← on_snd now_ms;
  age_nodes now;;
  if gossip_ms cfg <=? u64 (now - last_gossip) then
    s ← xget ctx_state;
    ping_nodes (seqZ 0 (node_count s)) 0;;
    mret now
  else mret last_gossip.

Definition heartbeat_loop (fuel : nat) : M CS unit :=
  let fix go (fuel : nat) (last_gossip : Z) : M CS unit :=
    running ← xget ctx_running;
    if running =? 0 then mret tt else
    match fuel with
    | O => diverge
    | S fuel => last ← heartbeat_iteration last_gossip; go fuel last
    end in
  go fuel 0.

(** ** Life cycle *)

(** [memcpy] of the first sixteen characters at most into a zeroed id. *)
Definition id_of_string (str : String.string) : list byte :=
  let bs := String.list_byte_of_string str in
  splice (replicate id_bytes Byte.x00) 0 (take id_bytes bs).

(** [alloc_ok] and [lock_ok]: the results of [calloc] and of the lock's
    initialisation. *)
Definition cluster_create (alloc_ok lock_ok : bool) (cfg : cluster_config)
    (local_addr client_port : Z) : M W (option cluster_ctx) :=
  if negb alloc_ok then mret None else
  if negb lock_ok then mret None else
  id ← (match cfg_node_id cfg with
        | Some str => mret (id_of_string str)
        | None => generate_node_id
        end);
  now ← now_ms;
  let self := mk_node id local_addr client_port (cfg_cluster_port cfg)
    (page_range_start cfg) (page_range_end cfg) now 1 NODE_STATE_ALIVE in
  ns ← store (replicate (Z.to_nat CLUSTER_MAX_NODES) zero_node) 0 self;
  mret (Some {|
    ctx_cfg := cfg;
    ctx_state := mk_state ns 1 0;
    ctx_self := self;
    udp_fd := -1;
    ctx_running := 0;
    peer_fds := replicate (Z.to_nat CLUSTER_MAX_NODES) (-1);
  |}).

(** [-1] after the socket has been closed again. *)
Definition abandon_socket : M CS Z :=
  fd ← xget udp_fd;
  on_snd (sys_close fd);;
  xmod (set_udp_fd (-1));;
  mret (-1).

Definition cluster_start : M CS Z :=
  r ← on_snd (sys_socket SOCK_DGRAM);
  match r with
  | SysErr _ => xmod (set_udp_fd (-1));; mret (-1)
  | SysOk fd =>
      xmod (set_udp_fd fd);;
      cfg ← xget ctx_cfg;
      b ← on_snd (sys_bind fd (mk_sockaddr 0 (htons (cfg_cluster_port cfg))));
      match b with
      | SysErr _ => abandon_socket
      | SysOk _ =>
          xmod (set_ctx_running 1);;
          g ← on_snd (pthread_create GossipThread);
          if negb g then
            xmod (set_ctx_running 0);;
            abandon_socket
          else
          h ← on_snd (pthread_create HeartbeatThread);
          if negb h then
            xmod (set_ctx_running 0);;
            on_snd (pthread_join GossipThread);;
            abandon_socket
          else mret 0
      end
  end.

Definition cluster_stop : M CS unit :=
  running ← xget ctx_running;
  if running =? 0 then mret tt else
  xmod (set_ctx_running 0);;
  on_snd (pthread_join GossipThread);;
  on_snd (pthread_join HeartbeatThread).

(** The memory and the lock go with the context. *)
Definition cluster_destroy : M CS unit :=
  cluster_stop;;
  fd ← xget udp_fd;
  (if 0 <=? fd then on_snd (sys_close fd) else mret tt);;
  for_each (seqZ 0 CLUSTER_MAX_NODES) (λ i,
    fds ← xget peer_fds;
    p ← load fds i;
    if 0 <=? p then on_snd (sys_close p) else mret tt).

(** The wait for the seed's answer; [others] is what the other threads do to
    the context while this one sleeps. *)
Fixpoint join_wait (attempts : nat) (others : M CS unit) (count : Z) : M CS Z :=
  match attempts with
  | O => mret count
  | S n =>
      s ← xget ctx_state;
      let count := u8 (node_count s) in
      if 1 <? count then mret count else
      on_snd (sys_usleep 100000);;
      others;;
      join_wait n others count
  end.

Definition cluster_join (others : M CS unit) : M CS Z :=
  cfg ← xget ctx_cfg;
  match seed_addr cfg with
  | None => mret 0
  | Some host =>
      r ← on_snd (sys_getaddrinfo host (seed_port cfg));
      match r with
      | None => mret (-1)
      | Some seed =>
          fd ← xget udp_fd;
          self ← xget ctx_self;
          on_snd (gossip_send_join fd self seed);;
          count ← join_wait 10 others 0;
          mret (if 1 <? count then 0 else -1)
      end
  end.

(** ** Ownership *)

Definition owns (n : cluster_node) (page_id : Z) : bool :=
  negb (n_state n =? NODE_STATE_DEAD) &&
  (n_range_start n <=? page_id) && (page_id <? n_range_end n).

(** [None] is the result [-1]; [Some] the node copied to [*out]. *)
Definition cluster_get_owner (page_id : Z) : M CS (option cluster_node) :=
  s ← xget ctx_state;
  for_ret (seqZ 0 (node_count s)) (λ i,
    n ← get_node i;
    mret (if owns n page_id then Some n else None)).

Definition cluster_is_local (page_id : Z) : M CS bool :=
  self ← xget ctx_self;
  mret ((n_range_start self <=? page_id) && (page_id <? n_range_end self)).

(** ** Forwarding *)

Definition get_peer_connection (node : cluster_node) : M CS Z :=
  idx ← find_node_by_id (n_id node);
  if idx <? 0 then mret (-1) else
  fds ← xget peer_fds;
  p ← load fds idx;
  if 0 <=? p then mret p else
  r ← on_snd (sys_socket SOCK_STREAM);
  match r with
  | SysErr _ => mret (-1)
  | SysOk fd =>
      c ← on_snd (sys_connect fd (mk_sockaddr (n_addr node) (htons (n_client_port node))));
      match c with
      | SysErr _ => on_snd (sys_close fd);; mret (-1)
      | SysOk _ =>
          on_snd (dsm_setup_socket_optimal fd);;
          fds' ← store fds idx fd;
          xmod (set_peer_fds fds');;
          mret fd
      end
  end.

Definition cluster_forward_get (fuel : nat) (page_id : Z) (buf : list byte) :
    M CS (Z * list byte) :=
  owner ← cluster_get_owner page_id;
  match owner with
  | None => mret (-1, buf)
  | Some owner =>
      fd ← get_peer_connection owner;
      if fd <? 0 then mret (-1, buf) else
      on_snd (dsm_rpc_get fuel fd page_id buf)
  end.

Definition cluster_forward_put (fuel : nat) (page_id : Z) (buf : list byte) : M CS Z :=
  owner ← cluster_get_owner page_id;
  match owner with
  | None => mret (-1)
  | Some owner =>
      fd ← get_peer_connection owner;
      if fd <? 0 then mret (-1) else
      on_snd (dsm_rpc_put fuel fd page_id buf)
  end.

End cluster.
