(* ===== verification/ClusterInv.v ===== *)
(** * The membership table: its invariant and what a merge does to it *)

From S2P Require Import Prelude Machine Protocol Node Gossip Cluster.

(** ** Time *)

(** The readings of a monotonic clock, in nanoseconds, stay in range for
    longer than any machine runs. *)
Definition clock_reading (t : Z * Z) : Prop :=
  0 <= t.1 < 2 ^ 53 ∧ 0 <= t.2 < 1000000000.

Definition reading_ns (t : Z * Z) : Z := t.1 * 1000000000 + t.2.

Lemma dsm_now_ms_exact t :
  clock_reading t → dsm_now_ms t.1 t.2 = reading_ns t / 1000000.
Proof.
  destruct t as [sec nsec]. intros [Hs Hn]. unfold dsm_now_ms, reading_ns. simpl in *.
  assert (0 <= nsec / 1000000 < 1000) as Hd.
  { split; [apply Z.div_pos; lia|apply Z.div_lt_upper_bound; lia]. }
  rewrite (u64_small nsec), (u64_small sec), (u64_small (sec * 1000)), u64_small by lia.
  replace (sec * 1000000000 + nsec) with (sec * 1000 * 1000000 + nsec) by lia.
  by rewrite Z.div_add_l by lia.
Qed.

Lemma dsm_now_ms_range t : 0 <= dsm_now_ms t.1 t.2 < 2 ^ 64.
Proof. apply u64_range. Qed.

(** What the cluster code relies on of its environment: calls return, and
    time does not run backwards. *)
Class ClusterEnv (W : Type) `{SocketOps W, DatagramOps W, SockoptOps W, ClusterOps W} := {
  uptime : W → Z;
  uptime_range w : 0 <= uptime w < 2 ^ 53 * 1000000000;
  clock_ok w : wp clock_monotonic (λ t w', clock_reading t ∧
    uptime w <= reading_ns t <= uptime w') w;
  sendto_ok fd bs dest w : wp (sys_sendto fd bs dest) (λ _ w', uptime w <= uptime w') w;
  usleep_ok us w : wp (sys_usleep us) (λ _ w', uptime w <= uptime w') w;
  recvfrom_ok fd n w : wp (sys_recvfrom fd n) (λ r w', uptime w <= uptime w' ∧
    match r with
    | SysOk (bs, from) => (length bs ≤ n)%nat ∧ 0 <= sin_addr from < 2 ^ 32 ∧
                          0 <= sin_port from < 2 ^ 16
    | SysErr _ => True
    end) w;
  urandom_ok n w : wp (read_urandom n) (λ _ w', uptime w <= uptime w') w;
  realtime_ok w : wp clock_realtime (λ _ w', uptime w <= uptime w') w;
  srand_ok x w : wp (sys_srand x) (λ _ w', uptime w <= uptime w') w;
  rand_ok w : wp sys_rand (λ _ w', uptime w <= uptime w') w;
  socket_ok type w : wp (sys_socket type) (λ r w', uptime w <= uptime w' ∧
    match r with SysOk fd => 0 <= fd | SysErr _ => True end) w;
  connect_ok fd a w : wp (sys_connect fd a) (λ _ w', uptime w <= uptime w') w;
  close_ok fd w : wp (sys_close fd) (λ _ w', uptime w <= uptime w') w;
  setsockopt_ok fd o v w : wp (sys_setsockopt fd o v) (λ _ w', uptime w <= uptime w') w;
}.

(** The clock in milliseconds. *)
Definition uptime_ms {W} `{ClusterEnv W} (w : W) : Z := uptime w / 1000000.

(** ** The abstract table

    The membership table is the list of the records in use.  A record is
    merged into the one with the same id, or appended while there is room. *)

Definition members (c : cluster_ctx) : list cluster_node :=
  take (Z.to_nat (node_count (ctx_state c))) (nodes (ctx_state c)).

Definition merge_record (now : Z) (node e : cluster_node) : cluster_node :=
  if n_incarnation e <? n_incarnation node then set_last_seen now node
  else if n_incarnation node =? n_incarnation e then
    let e := set_last_seen now e in
    if n_state node =? NODE_STATE_ALIVE then set_state NODE_STATE_ALIVE e else e
  else e.

Definition merge_list (now : Z) (node : cluster_node) (l : list cluster_node) :
    list cluster_node :=
  if decide (n_id node ∈ n_id <$> l) then
    (λ e, if decide (n_id e = n_id node) then merge_record now node e else e) <$> l
  else if zlen l <? CLUSTER_MAX_NODES then l ++ [set_last_seen now node]
  else l.

(** ** The invariant *)

Record cluster_inv (c : cluster_ctx) : Prop := {
  ci_nodes : zlen (nodes (ctx_state c)) = CLUSTER_MAX_NODES;
  ci_count : 1 <= node_count (ctx_state c) <= CLUSTER_MAX_NODES;
  ci_self_idx : self_idx (ctx_state c) = 0;
  ci_ids : NoDup (n_id <$> members c);
  ci_wf : Forall node_wf (nodes (ctx_state c));
  ci_self_wf : node_wf (ctx_self c);
  ci_self : ∃ n, zget (nodes (ctx_state c)) 0 = Some n ∧ n_id n = n_id (ctx_self c);
  ci_peers : zlen (peer_fds c) = CLUSTER_MAX_NODES;
}.

Lemma length_members c : cluster_inv c → zlen (members c) = node_count (ctx_state c).
Proof.
  intros I. pose proof (ci_nodes _ I). pose proof (ci_count _ I).
  unfold members, zlen in *. rewrite length_take. lia.
Qed.

Lemma zget_members c i :
  cluster_inv c → i < node_count (ctx_state c) →
  zget (members c) i = zget (nodes (ctx_state c)) i.
Proof. intros I Hi. pose proof (ci_count _ I). apply zget_take. lia. Qed.

(** What the invariant asks of the table itself. *)
Definition table_ok (self_id : list byte) (l : list cluster_node) : Prop :=
  1 <= zlen l <= CLUSTER_MAX_NODES ∧ NoDup (n_id <$> l) ∧ Forall node_wf l ∧
  head (n_id <$> l) = Some self_id.

Lemma members_ok c : cluster_inv c → table_ok (n_id (ctx_self c)) (members c).
Proof.
  intros I. pose proof (length_members _ I) as Hl. pose proof (ci_count _ I).
  split_and!; [lia|lia|apply I|by apply Forall_take, I|].
  destruct (ci_self _ I) as (n & Hn & Hid). rewrite <- zget_members in Hn by (done || lia).
  destruct (members c); [done|]. injection Hn as ->. simpl. by rewrite Hid.
Qed.

(** ** Merging keeps the table *)

Lemma merge_record_id now node e : n_id node = n_id e → n_id (merge_record now node e) = n_id e.
Proof. intros E. unfold merge_record. by repeat case_match. Qed.

Lemma merge_record_wf now node e :
  node_wf node → node_wf e → 0 <= now < 2 ^ 64 → node_wf (merge_record now node e).
Proof.
  intros (? & ? & ? & ? & ? & ? & ? & ? & ?) (? & ? & ? & ? & ? & ? & ? & ? & ?) Hnow.
  unfold merge_record, NODE_STATE_ALIVE.
  repeat case_match; unfold node_wf; simpl; split_and!; done || lia.
Qed.

Lemma merge_list_grows now node l : zlen (merge_list now node l) <= zlen l + 1.
Proof.
  unfold merge_list, zlen. repeat case_match; rewrite ?length_fmap, ?length_app; simpl; lia.
Qed.

Lemma merge_list_ids now node l :
  n_id <$> merge_list now node l =
    if decide (n_id node ∈ n_id <$> l) then n_id <$> l
    else if zlen l <? CLUSTER_MAX_NODES then (n_id <$> l) ++ [n_id node] else n_id <$> l.
Proof.
  unfold merge_list. case_decide as Hin.
  - rewrite <- list_fmap_compose. apply list_fmap_ext. intros i e _. simpl.
    case_decide; [|done]. by apply merge_record_id.
  - case_match; [|done]. by rewrite fmap_app.
Qed.

Lemma merge_list_ok self_id now node l :
  table_ok self_id l → node_wf node → 0 <= now < 2 ^ 64 →
  table_ok self_id (merge_list now node l).
Proof.
  intros (Hlen & Hnd & Hwf & Hh) Hn Hnow. split_and!.
  1-2: unfold merge_list; case_decide; [unfold zlen in *; rewrite length_fmap; lia|];
    destruct (Z.ltb_spec (zlen l) CLUSTER_MAX_NODES); [rewrite zlen_app; unfold zlen in *; simpl; lia|lia].
  - rewrite merge_list_ids. case_decide as Hin; [done|]. case_match; [|done].
    apply NoDup_app. split_and!; [done| |apply NoDup_singleton].
    intros x Hx ->%list_elem_of_singleton. done.
  - unfold merge_list. case_decide as Hin.
    + apply Forall_fmap. eapply Forall_impl; [exact Hwf|]. intros e He. simpl.
      case_decide; [by apply merge_record_wf|done].
    + case_match; [|done]. apply Forall_app. split; [done|]. constructor; [|done].
      destruct Hn as (? & ? & ? & ? & ? & ? & ? & ? & ?). unfold node_wf. simpl. split_and!; done || lia.
  - rewrite merge_list_ids. case_decide; [done|]. case_match; [|done]. by destruct l.
Qed.

(** ** The code of the merge *)

(** Updating every record with an id is updating the one that has it. *)
Lemma fmap_update_unique {A B} `{EqDecision B} (f : A → B) (g : A → A) (l : list A) i e :
  NoDup (f <$> l) → zget l i = Some e →
  (λ x, if decide (f x = f e) then g x else x) <$> l = zupd l i (g e).
Proof.
  intros Hnd Hi. pose proof (zget_Some_range _ _ _ Hi). rewrite zget_lookup in Hi by lia.
  apply list_eq. intros j. rewrite list_lookup_fmap. unfold zupd.
  destruct (decide (j = Z.to_nat i)) as [->|Hne].
  - rewrite list_lookup_insert_eq by (by eapply lookup_lt_Some). rewrite Hi. simpl.
    by rewrite decide_True.
  - rewrite list_lookup_insert_ne by done. destruct (l !! j) as [x|] eqn:Ej; [|done]. simpl.
    rewrite decide_False; [done|]. intros E. apply Hne.
    eapply (NoDup_lookup _ _ _ (f x) Hnd); rewrite list_lookup_fmap; [by rewrite Ej|].
    by rewrite Hi, E.
Qed.

Lemma take_zupd {A} (l : list A) (n : nat) i x :
  i < Z.of_nat n → 0 <= i → take n (zupd l i x) = zupd (take n l) i x.
Proof. intros. unfold zupd. apply take_insert_lt. lia. Qed.

(** Everything but the table. *)
Definition same_rest (c c' : cluster_ctx) : Prop :=
  ctx_cfg c' = ctx_cfg c ∧ ctx_self c' = ctx_self c ∧ udp_fd c' = udp_fd c ∧
  ctx_running c' = ctx_running c ∧ peer_fds c' = peer_fds c.

#[global] Instance same_rest_preorder : PreOrder same_rest.
Proof. split; unfold same_rest; [done|]. intros x y z. intuition congruence. Qed.

Lemma cluster_inv_table c c' :
  cluster_inv c → same_rest c c' → self_idx (ctx_state c') = 0 →
  zlen (nodes (ctx_state c')) = CLUSTER_MAX_NODES →
  zlen (members c') = node_count (ctx_state c') →
  Forall node_wf (nodes (ctx_state c')) →
  table_ok (n_id (ctx_self c)) (members c') → cluster_inv c'.
Proof.
  intros I (E1 & E2 & E3 & E4 & E5) Es Hn Hc Hwf (Hlen & Hnd & _ & Hh).
  split; try done; try lia.
  - rewrite E2. apply I.
  - rewrite E2. destruct (members c') as [|n l] eqn:Em; [done|]. exists n.
    injection Hh as Hid. split; [|done]. unfold members in Em.
    destruct (nodes (ctx_state c')), (Z.to_nat _); simpl in Em; try done. by injection Em as ->.
  - rewrite E5. apply I.
Qed.

Section merge.
Context {W : Type} {SO : SocketOps W} {DO : DatagramOps W} {OO : SockoptOps W}
  {CO : ClusterOps W} {CE : ClusterEnv W}.
Implicit Types (c : cluster_ctx) (w : W) (s : CS (W:=W)).

Lemma wp_xget {A} (f : cluster_ctx → A) (Q : A → CS → Prop) c w :
  Q (f c) (c, w) → wp (xget f) Q (c, w).
Proof. intros. by apply wp_gets. Qed.

Lemma wp_xmod f (Q : unit → CS → Prop) c w : Q tt (f c, w) → wp (xmod f) Q (c, w).
Proof. intros. by apply wp_modify. Qed.

Lemma wp_get_node i n (Q : _ → CS → Prop) c w :
  zget (nodes (ctx_state c)) i = Some n → Q n (c, w) → wp (get_node i) Q (c, w).
Proof. intros. apply wp_bind, wp_xget. by eapply wp_load. Qed.

Definition with_nodes ns c := set_ctx_state (set_nodes ns (ctx_state c)) c.

Lemma wp_put_node i n (Q : unit → CS → Prop) c w :
  0 <= i < zlen (nodes (ctx_state c)) →
  Q tt (with_nodes (zupd (nodes (ctx_state c)) i n) c, w) → wp (put_node i n) Q (c, w).
Proof. intros. apply wp_bind, wp_xget, wp_bind, wp_store; [done|]. by apply wp_xmod. Qed.

Lemma uptime_ms_range w : 0 <= uptime_ms w < 2 ^ 64.
Proof.
  pose proof (uptime_range w). unfold uptime_ms. split; [apply Z.div_pos; lia|].
  apply Z.div_lt_upper_bound; lia.
Qed.

Lemma uptime_ms_mono w w' : uptime w <= uptime w' → uptime_ms w <= uptime_ms w'.
Proof. intros. apply Z.div_le_mono; lia. Qed.

Lemma now_ms_ok w :
  wp now_ms (λ t w', uptime_ms w <= t <= uptime_ms w' ∧ 0 <= t < 2 ^ 64 ∧ uptime w <= uptime w') w.
Proof.
  apply wp_bind. eapply wp_mono; [apply clock_ok|]. intros [sec nsec] w' (Hr & H1 & H2).
  apply wp_ret. pose proof (dsm_now_ms_exact _ Hr) as E. pose proof (dsm_now_ms_range (sec, nsec)).
  simpl in *. assert (uptime_ms w <= dsm_now_ms sec nsec <= uptime_ms w').
  { rewrite E. unfold uptime_ms. split; apply Z.div_le_mono; lia. }
  split_and!; lia.
Qed.

Lemma find_node_ok id c w :
  cluster_inv c →
  wp (find_node_by_id id) (λ r s, s = (c, w) ∧
    ((r = -1 ∧ id ∉ n_id <$> members c) ∨
     (0 <= r < node_count (ctx_state c) ∧
      ∃ n, zget (nodes (ctx_state c)) r = Some n ∧ n_id n = id))) (c, w).
Proof.
  intros I. pose proof (ci_nodes _ I). pose proof (ci_count _ I).
  apply wp_bind, wp_xget, wp_bind. eapply wp_mono.
  { apply (wp_for_ret_range _ (λ i s, s = (c, w) ∧ ∀ j n, 0 <= j < i →
      zget (nodes (ctx_state c)) j = Some n → n_id n ≠ id)
      (λ r s, s = (c, w) ∧ 0 <= r < node_count (ctx_state c) ∧
         ∃ n, zget (nodes (ctx_state c)) r = Some n ∧ n_id n = id)); [lia| |].
    - split; [done|]. intros. lia.
    - intros i s Hi [-> Hbefore].
      destruct (zget_in_range (nodes (ctx_state c)) i) as [n Hn]; [lia|].
      apply wp_bind. eapply wp_get_node; [done|]. apply wp_ret. case_decide; [eauto|].
      split; [done|]. intros j n' Hj Hn'. destruct (decide (j = i)) as [->|]; [congruence|].
      apply (Hbefore j); [lia|done]. }
  intros [r|] s; intros [-> Hr]; apply wp_ret; (split; [done|]); simpl; [by right|left].
  split; [done|]. intros (n & -> & Hin)%list_elem_of_fmap.
  apply list_elem_of_lookup in Hin as [j Hj]. pose proof (lookup_lt_Some _ _ _ Hj) as Hlt.
  pose proof (length_members _ I) as Hl. unfold zlen in Hl.
  apply (Hr (Z.of_nat j) n); [lia| |done]. rewrite <- zget_members by (done || lia).
  by rewrite zget_nat.
Qed.

Lemma members_with_nodes i n c :
  cluster_inv c → 0 <= i < node_count (ctx_state c) →
  members (with_nodes (zupd (nodes (ctx_state c)) i n) c) = zupd (members c) i n.
Proof. intros I Hi. unfold members. simpl. apply take_zupd; lia. Qed.

Lemma merge_list_found now node c i e :
  cluster_inv c → 0 <= i < node_count (ctx_state c) →
  zget (nodes (ctx_state c)) i = Some e → n_id e = n_id node →
  merge_list now node (members c) = zupd (members c) i (merge_record now node e).
Proof.
  intros I Hi He Hid. rewrite <- zget_members in He by (done || lia). unfold merge_list.
  rewrite decide_True; [rewrite <- Hid; by apply fmap_update_unique; [apply I|]|].
  rewrite <- Hid. apply list_elem_of_fmap. exists e. split; [done|]. by eapply zget_elem.
Qed.

(** What a merge establishes. *)
Definition merged (node : cluster_node) c w (s : CS) : Prop := ∃ now,
  uptime_ms w <= now <= uptime_ms s.2 ∧ 0 <= now < 2 ^ 64 ∧
  members s.1 = merge_list now node (members c) ∧
  cluster_inv s.1 ∧ same_rest c s.1 ∧ uptime w <= uptime s.2.

Lemma merged_replace node c w w' i e now :
  cluster_inv c → node_wf node → 0 <= i < node_count (ctx_state c) →
  zget (nodes (ctx_state c)) i = Some e → n_id e = n_id node →
  uptime_ms w <= now <= uptime_ms w' → 0 <= now < 2 ^ 64 → uptime w <= uptime w' →
  merged node c w (with_nodes (zupd (nodes (ctx_state c)) i (merge_record now node e)) c, w').
Proof.
  intros I Hn Hi He Hid Hnow Hr Hup. exists now. simpl.
  assert (members (with_nodes (zupd (nodes (ctx_state c)) i (merge_record now node e)) c) =
          merge_list now node (members c)) as E.
  { rewrite members_with_nodes by done. symmetry. by apply merge_list_found. }
  split_and!; [lia|lia|lia|lia|done| |done|done].
  eapply cluster_inv_table; [exact I|done|apply (ci_self_idx _ I)| | | |].
  - simpl. rewrite zlen_zupd. apply I.
  - rewrite members_with_nodes, zlen_zupd by done. exact (length_members _ I).
  - simpl. unfold zupd. apply Forall_insert; [apply I|]. apply merge_record_wf; [done| |done].
    eapply Forall_forall; [apply I|]. by eapply zget_elem.
  - rewrite E. apply merge_list_ok; [by apply members_ok|done|done].
Qed.

Lemma merged_same node c w :
  cluster_inv c → merge_list (uptime_ms w) node (members c) = members c → merged node c w (c, w).
Proof.
  intros I E. exists (uptime_ms w). pose proof (uptime_ms_range w). simpl. rewrite E.
  split_and!; done || lia.
Qed.

Lemma merged_append node c w w' now :
  cluster_inv c → node_wf node → n_id node ∉ n_id <$> members c →
  node_count (ctx_state c) < CLUSTER_MAX_NODES →
  uptime_ms w <= now <= uptime_ms w' → 0 <= now < 2 ^ 64 → uptime w <= uptime w' →
  let st := ctx_state c in
  let c' := set_ctx_state (set_node_count (u8 (node_count st + 1))
    (set_nodes (zupd (nodes st) (node_count st) (set_last_seen now node)) st)) c in
  merged node c w (c', w').
Proof.
  intros I Hn Hid Hc Hnow Hr Hup st c'. pose proof (ci_count _ I). pose proof (ci_nodes _ I).
  pose proof (length_members _ I) as Hlen. unfold CLUSTER_MAX_NODES in *.
  assert (u8 (node_count st + 1) = node_count st + 1) as Eu by (apply u8_small; unfold st; lia).
  assert (members c' = merge_list now node (members c)) as E.
  { unfold merge_list. rewrite decide_False by done.
    destruct (Z.ltb_spec (zlen (members c)) CLUSTER_MAX_NODES); unfold CLUSTER_MAX_NODES in *; [|lia].
    unfold members. simpl. rewrite Eu. fold st.
    apply take_zupd_snoc. unfold st. lia. }
  exists now. simpl. split_and!; [lia|lia|lia|lia|done| |done|done].
  eapply cluster_inv_table; [exact I|done|apply (ci_self_idx _ I)| | | |].
  - simpl. rewrite zlen_zupd. apply I.
  - rewrite E. unfold merge_list. rewrite decide_False by done. rewrite Hlen.
    destruct (Z.ltb_spec (node_count (ctx_state c)) CLUSTER_MAX_NODES); unfold CLUSTER_MAX_NODES in *; [|lia].
    rewrite zlen_app, Hlen. simpl. rewrite Eu. done.
  - simpl. unfold zupd. apply Forall_insert; [apply I|].
    destruct Hn as (? & ? & ? & ? & ? & ? & ? & ? & ?). unfold node_wf. simpl.
    split_and!; done || lia.
  - rewrite E. apply merge_list_ok; [by apply members_ok|done|done].
Qed.

Lemma zupd_id {A} (l : list A) i x : zget l i = Some x → zupd l i x = l.
Proof.
  intros H. pose proof (zget_Some_range _ _ _ H). rewrite zget_lookup in H by lia.
  unfold zupd. by apply list_insert_id.
Qed.

Lemma merge_node_ok node c w :
  cluster_inv c → node_wf node → wp (merge_node node) (λ _, merged node c w) (c, w).
Proof.
  intros I Hn. pose proof (ci_count _ I). pose proof (ci_nodes _ I).
  apply wp_bind. eapply wp_mono; [by apply find_node_ok|].
  intros idx s (-> & [(-> & Hid)|(Hidx & e & He & Hid)]).
  - simpl. apply wp_bind, wp_xget.
    destruct (Z.ltb_spec (node_count (ctx_state c)) CLUSTER_MAX_NODES).
    + apply wp_bind, wp_put_node; [lia|]. apply wp_bind, wp_on_snd.
      eapply wp_mono; [apply now_ms_ok|]. intros now w' (Hnow & Hr & Hup).
      apply wp_bind, wp_put_node; [simpl; rewrite zlen_zupd; lia|].
      apply wp_bind, wp_xget, wp_xmod. simpl. unfold with_nodes, set_ctx_state, set_nodes. simpl.
      rewrite zupd_zupd. by apply merged_append.
    + apply wp_ret, merged_same; [done|]. unfold merge_list. rewrite decide_False by done.
      rewrite length_members by done. by destruct (Z.ltb_spec (node_count (ctx_state c)) CLUSTER_MAX_NODES); [lia|].
  - destruct (Z.leb_spec 0 idx); [|lia]. apply wp_bind. eapply wp_get_node; [done|].
    destruct (Z.ltb_spec (n_incarnation e) (n_incarnation node)).
    + apply wp_bind, wp_on_snd. eapply wp_mono; [apply now_ms_ok|].
      intros now w' (Hnow & Hr & Hup). apply wp_put_node; [lia|].
      assert (set_last_seen now node = merge_record now node e) as E.
      { unfold merge_record. by destruct (Z.ltb_spec (n_incarnation e) (n_incarnation node)); [|lia]. }
      rewrite Hid. change (mk_node (n_id node) _ _ _ _ _ now _ _) with (set_last_seen now node).
      rewrite E. by apply merged_replace.
    + destruct (Z.eqb_spec (n_incarnation node) (n_incarnation e)) as [Ei|Ei].
      * apply wp_bind, wp_on_snd. eapply wp_mono; [apply now_ms_ok|].
        intros now w' (Hnow & Hr & Hup). apply wp_put_node; [lia|].
        assert (∀ v, v = merge_record now node e →
          merged node c w (with_nodes (zupd (nodes (ctx_state c)) idx v) c, w')) as Hgo.
        { intros v ->. by apply merged_replace. }
        apply Hgo. unfold merge_record. rewrite Ei, Z.ltb_irrefl, Z.eqb_refl. done.
      * apply wp_ret, merged_same; [done|].
        rewrite (merge_list_found _ _ _ _ _ I Hidx He Hid). unfold merge_record.
        destruct (Z.ltb_spec (n_incarnation e) (n_incarnation node)); [lia|].
        destruct (Z.eqb_spec (n_incarnation node) (n_incarnation e)); [done|].
        apply zupd_id. by rewrite zget_members by (done || lia).
Qed.

End merge.
