(* ===== verification/ClusterTheorems.v ===== *)
(** * Theorems about the cluster

    The handlers are total and keep the membership table's invariant; what
    they do to the table is a sequence of merges, and the failure detector
    ages it; ownership and forwarding follow the table. *)

From S2P Require Import Prelude Machine Protocol Node Gossip GossipTheorems Cluster ClusterInv.

(** A run of merges, each at its own time between [lo] and [hi]. *)
Inductive merge_many (lo hi : Z) :
    list cluster_node → list cluster_node → list cluster_node → Prop :=
| mm_nil l : merge_many lo hi [] l l
| mm_cons n ns l l' now : lo <= now <= hi →
    merge_many lo hi ns (merge_list now n l) l' → merge_many lo hi (n :: ns) l l'.

Lemma merge_many_app lo hi ns1 ns2 l1 l2 l3 :
  merge_many lo hi ns1 l1 l2 → merge_many lo hi ns2 l2 l3 → merge_many lo hi (ns1 ++ ns2) l1 l3.
Proof. induction 1; [done|]. intros. econstructor; eauto. Qed.

Lemma merge_many_widen lo hi lo' hi' ns l l' :
  lo' <= lo → hi <= hi' → merge_many lo hi ns l l' → merge_many lo' hi' ns l l'.
Proof. intros ??. induction 1; [constructor|]. econstructor; [|done]. lia. Qed.

Section cluster_ops.
Context {W : Type} {SO : SocketOps W} {DO : DatagramOps W} {OO : SockoptOps W}
  {CO : ClusterOps W} {CE : ClusterEnv W}.
Implicit Types (c : cluster_ctx) (w : W) (s : CS (W:=W)).

(** What the handlers guarantee of the whole state. *)
Definition keeps c w s : Prop :=
  cluster_inv s.1 ∧ same_rest c s.1 ∧ uptime w <= uptime s.2.

Lemma sender_node_wf h from :
  gossip_header_wf h → 0 <= sin_addr from < 2 ^ 32 → 0 <= sin_port from < 2 ^ 16 →
  node_wf (sender_node h from).
Proof.
  intros (_ & _ & _ & ? & ? & ? & ? & ?) ? Hp. pose proof (htons_range _ Hp).
  unfold node_wf, sender_node, NODE_STATE_ALIVE, ntohs. simpl. split_and!; done || lia.
Qed.

Lemma gossip_node_to_cluster_wf g : node_info_wf g → node_wf (gossip_node_to_cluster g).
Proof.
  intros (? & ? & ? & ? & ? & ? & ? & ? & ?). unfold node_wf. simpl. split_and!; done || lia.
Qed.

(** The records a message carries, in the order they are merged. *)
Definition carried (msg : gossip_msg) (from : sockaddr) : list cluster_node :=
  sender_node (gm_hdr msg) from ::
  (gossip_node_to_cluster <$> take (Z.to_nat (gh_node_count (gm_hdr msg))) (gm_nodes msg)).

Lemma merge_gossip_ok msg from c w :
  cluster_inv c → msg_ok msg → 0 <= sin_addr from < 2 ^ 32 → 0 <= sin_port from < 2 ^ 16 →
  wp (merge_gossip msg from) (λ _ s, keeps c w s ∧
    merge_many (uptime_ms w) (uptime_ms s.2) (carried msg from) (members c) (members s.1)) (c, w).
Proof.
  intros I (Hh & Hc & Hns) Ha Hp. pose proof Hh as (_ & _ & Hcount & _).
  apply wp_bind. eapply wp_mono; [apply merge_node_ok; [done|by apply sender_node_wf]|].
  intros [] [c1 w1] (now & Hnow & _ & E & I1 & R1 & Hup). simpl in *.
  eapply wp_mono.
  { apply (wp_for_range _ (λ i s, keeps c w s ∧
      merge_many (uptime_ms w) (uptime_ms s.2)
        (sender_node (gm_hdr msg) from ::
         (gossip_node_to_cluster <$> take (Z.to_nat i) (gm_nodes msg)))
        (members c) (members s.1))); [lia| |].
    - split; [by split_and!|]. simpl. apply (mm_cons _ _ _ _ _ _ now); [done|]. rewrite <- E. constructor.
    - intros i [ci wi] Hi [(Ii & Ri & Hui) Hm]. simpl in *.
      destruct (zget_in_range (gm_nodes msg) i) as [g Hg]; [lia|].
      assert (node_info_wf g) as Hwf.
      { eapply list.Forall_forall; [exact Hns|]. rewrite <- (zget_take _ (Z.to_nat (gh_node_count (gm_hdr msg)))) in Hg by lia.
        by eapply zget_elem. }
      apply wp_bind. eapply wp_load; [done|]. eapply wp_mono.
      { apply merge_node_ok; [done|by apply gossip_node_to_cluster_wf]. }
      intros [] [cj wj] (nowj & Hnowj & _ & Ej & Ij & Rj & Huj). simpl in *.
      pose proof (uptime_ms_mono _ _ Hui). pose proof (uptime_ms_mono _ _ Huj).
      split; [split_and!; [done|by etrans|simpl; lia]|].
      rewrite (take_snoc_zget _ _ _ Hg), fmap_app, app_comm_cons.
      eapply merge_many_app; [eapply merge_many_widen; [| |exact Hm]; simpl; lia|].
      simpl. apply (mm_cons _ _ _ _ _ _ nowj); [lia|]. rewrite <- Ej. constructor. }
  by intros [] s.
Qed.

(** The answer changes nothing here. *)
Lemma answer_gossip_ok msg from c w :
  cluster_inv c →
  wp (answer_gossip msg from) (λ _ s, s.1 = c ∧ uptime w <= uptime s.2) (c, w).
Proof.
  intros I. unfold answer_gossip. destruct (_ || _); [|apply wp_ret; simpl; split; [done|lia]].
  apply wp_bind, wp_xget, wp_bind, wp_xget, wp_bind, wp_xget, wp_bind, wp_on_snd.
  pose proof (ci_count _ I). pose proof (ci_nodes _ I).
  destruct (gossip_pong_sends (DO:=DO) (udp_fd c) (ctx_self c) from (nodes (ctx_state c))
    (node_count (ctx_state c)) (ci_self_wf _ I) (ci_wf _ I)) as (D & Hsend & _); [lia|].
  apply wp_returns. destruct (proj1 (wp_returns (sends (udp_fd c) D from) (λ _ w', uptime w <= uptime w') w))
    as (r & w' & E & Hw').
  { apply wp_bind. eapply wp_mono; [apply sendto_ok|]. intros r w' ?. by apply wp_ret. }
  exists r, w'. rewrite Hsend. split; [done|]. by apply wp_ret.
Qed.

Lemma handle_gossip_msg_ok msg from c w :
  cluster_inv c → msg_ok msg → 0 <= sin_addr from < 2 ^ 32 → 0 <= sin_port from < 2 ^ 16 →
  wp (handle_gossip_msg msg from) (λ _ s, keeps c w s ∧
    merge_many (uptime_ms w) (uptime_ms s.2) (carried msg from) (members c) (members s.1)) (c, w).
Proof.
  intros I Hm Ha Hp. apply wp_bind. eapply wp_mono; [by apply merge_gossip_ok|].
  intros [] [c1 w1] [(I1 & R1 & Hu1) Hmm]. eapply wp_mono; [by apply answer_gossip_ok|].
  intros [] [c2 w2] [E Hu2]. simpl in *. subst c2. split; [split_and!; [done|done|simpl; lia]|].
  eapply merge_many_widen; [| |exact Hmm]; [lia|by apply uptime_ms_mono].
Qed.

Lemma gossip_iteration_ok buf c w :
  cluster_inv c → length buf = gossip_buf_size →
  wp (gossip_iteration buf) (λ buf' s, length buf' = gossip_buf_size ∧ keeps c w s ∧
    ∃ ns, merge_many (uptime_ms w) (uptime_ms s.2) ns (members c) (members s.1)) (c, w).
Proof.
  intros I Hb. apply wp_bind, wp_xget, wp_bind, wp_on_snd.
  eapply wp_mono; [apply recvfrom_ok|].
  assert (∀ (b : list byte) w', length b = gossip_buf_size → uptime w <= uptime w' →
    length b = gossip_buf_size ∧ keeps c w (c, w') ∧
    ∃ ns, merge_many (uptime_ms w) (uptime_ms w') ns (members c) (members c)) as Hsame.
  { intros b w' ? Hu. split_and!; [done|done|]. exists []. constructor. }
  intros [[bs from]|e] w1 [Hu1 Hr]; [|apply wp_ret; by apply Hsame].
  destruct Hr as (Hl & Ha & Hp).
  apply wp_bind, wp_store_region; [lia|unfold zlen; lia|]. simpl.
  set (buf' := splice buf (Z.to_nat 0) bs).
  assert (length buf' = gossip_buf_size) as Hb' by (unfold buf'; rewrite length_splice; lia).
  destruct (Z.ltb_spec 0 (zlen bs)); [|apply wp_ret; by apply Hsame].
  apply wp_bind. eapply wp_mono.
  { apply gossip_parse_ok; [unfold zlen; lia|done]. }
  intros [r msg] s [-> Hm]. simpl in Hm. destruct (Z.eqb_spec r 0) as [->|];
    [|apply wp_ret; by apply Hsame].
  apply wp_bind. eapply wp_mono; [apply handle_gossip_msg_ok; auto|].
  intros [] [c2 w2] [(I2 & R2 & Hu2) Hmm]. apply wp_ret. simpl in *.
  split_and!; [done|split_and!; [done|done|simpl; lia]|].
  eexists. eapply merge_many_widen; [| |exact Hmm]; [by apply uptime_ms_mono|simpl; lia].
Qed.

(** ** Failure detection *)

(** The first record is the node's own; the others age. *)
Definition age_list (timeout now : Z) (l : list cluster_node) : list cluster_node :=
  match l with
  | [] => []
  | self :: peers => self :: (age_node timeout now <$> peers)
  end.

Lemma zget_age_list t now l i n :
  zget l i = Some n →
  zget (age_list t now l) i = Some (if i =? 0 then n else age_node t now n).
Proof.
  intros Hi. pose proof (zget_Some_range _ _ _ Hi). rewrite zget_lookup in * by lia.
  destruct l as [|x l]; [done|]. simpl. destruct (Z.eqb_spec i 0) as [->|]; [done|].
  destruct (Z.to_nat i) as [|k] eqn:Ek; [lia|]. simpl in *. by rewrite list_lookup_fmap, Hi.
Qed.

Lemma age_node_id t now n : n_id (age_node t now n) = n_id n.
Proof. unfold age_node. by repeat case_match. Qed.

Lemma age_node_wf t now n : node_wf n → node_wf (age_node t now n).
Proof.
  intros (? & ? & ? & ? & ? & ? & ? & ? & ?).
  unfold age_node, NODE_STATE_SUSPECT, NODE_STATE_DEAD.
  repeat case_match; unfold node_wf; simpl; split_and!; done || lia.
Qed.

Lemma age_list_ids t now l : n_id <$> age_list t now l = n_id <$> l.
Proof.
  destruct l as [|x l]; [done|]. simpl. f_equal. rewrite <- list_fmap_compose.
  apply list_fmap_ext. intros. apply age_node_id.
Qed.

Lemma length_age_list t now l : length (age_list t now l) = length l.
Proof. destruct l; simpl; [done|]. by rewrite length_fmap. Qed.

Lemma age_list_ok self_id t now l : table_ok self_id l → table_ok self_id (age_list t now l).
Proof.
  intros (H1 & H2 & H3 & H4). unfold table_ok. rewrite age_list_ids. unfold zlen in *.
  rewrite length_age_list. split_and!; [lia|lia|done| |done].
  destruct l; [done|]. inversion H3; subst. constructor; [done|].
  apply Forall_fmap. eapply Forall_impl; [eassumption|]. intros. by apply age_node_wf.
Qed.

(** [ns] is the array with the records before [i] aged. *)
Definition aged_below (t now i : Z) (old ns : list cluster_node) : Prop :=
  zlen ns = zlen old ∧ Forall node_wf ns ∧
  ∀ j n, zget old j = Some n →
    zget ns j = Some (if (0 <? j) && (j <? i) then age_node t now n else n).

Lemma aged_below_next t now i old ns n :
  aged_below t now i old ns → zget old i = Some n → 0 < i →
  aged_below t now (i + 1) old (zupd ns i (age_node t now n)).
Proof.
  intros (Hl & Hwf & Hns) Hi H0. pose proof (zget_Some_range _ _ _ Hi).
  split_and!; [by rewrite zlen_zupd| |].
  - unfold zupd. apply Forall_insert; [done|]. apply age_node_wf.
    eapply list.Forall_forall; [exact Hwf|]. apply (zget_elem _ i). rewrite (Hns _ _ Hi).
    by rewrite Z.ltb_irrefl, andb_false_r.
  - intros j m Hj. rewrite zget_zupd by lia. case_decide as Eij.
    + subst j. rewrite Hj in Hi. injection Hi as ->.
      destruct (Z.ltb_spec 0 i), (Z.ltb_spec i (i + 1)); simpl; done || lia.
    + rewrite (Hns _ _ Hj).
      destruct (Z.ltb_spec 0 j), (Z.ltb_spec j i), (Z.ltb_spec j (i + 1)); simpl; done || lia.
Qed.

Lemma aged_below_members t now c ns :
  cluster_inv c → aged_below t now (node_count (ctx_state c)) (nodes (ctx_state c)) ns →
  members (with_nodes ns c) = age_list t now (members c).
Proof.
  intros I (Hl & Hwf & Hns). pose proof (length_members _ I) as Hlm.
  pose proof (ci_nodes _ I). pose proof (ci_count _ I).
  apply list_eq. intros k.
  destruct (decide (k < Z.to_nat (node_count (ctx_state c)))%nat) as [Hk|Hk].
  - destruct (zget_in_range (nodes (ctx_state c)) (Z.of_nat k)) as [n Hnk]; [lia|].
    rewrite <- !zget_nat, (zget_age_list _ _ _ (Z.of_nat k) n)
      by (rewrite zget_members; [done|done|lia]).
    unfold members. simpl. rewrite zget_take by lia. rewrite (Hns _ _ Hnk).
    destruct (Z.ltb_spec 0 (Z.of_nat k)), (Z.ltb_spec (Z.of_nat k) (node_count (ctx_state c))),
      (Z.eqb_spec (Z.of_nat k) 0); simpl; done || lia.
  - rewrite !lookup_ge_None_2; [done| |].
    + rewrite length_age_list. unfold zlen in Hlm. lia.
    + unfold members. simpl. rewrite length_take. lia.
Qed.

Lemma age_nodes_ok now c w :
  cluster_inv c →
  wp (age_nodes now) (λ _ s, s.2 = w ∧ cluster_inv s.1 ∧ same_rest c s.1 ∧
    members s.1 = age_list (timeout_ms (ctx_cfg c)) now (members c)) (c, w).
Proof.
  intros I. pose proof (ci_nodes _ I) as Hn. pose proof (ci_count _ I) as Hc.
  apply wp_bind, wp_xget, wp_bind, wp_xget. set (t := timeout_ms (ctx_cfg c)). eapply wp_mono.
  { apply (wp_for_range _ (λ i s, ∃ ns, s = (with_nodes ns c, w) ∧
      aged_below t now i (nodes (ctx_state c)) ns)); [lia| |].
    - exists (nodes (ctx_state c)).
      split_and!; [by destruct c as [? [] ? ? ? ?]|split_and!; [done|apply I|]].
      intros j n Hj. destruct (Z.ltb_spec 0 j), (Z.ltb_spec j 0); simpl; done || lia.
    - intros i s Hi (ns & -> & Ha). rewrite (ci_self_idx _ I).
      destruct (zget_in_range (nodes (ctx_state c)) i) as [n Hni]; [lia|].
      pose proof Ha as (Hl & Hwf & Hns). destruct (Z.eqb_spec i 0) as [->|].
      + apply wp_ret. exists ns. split_and!; [done|split_and!; [done|done|]].
        intros j m Hj. rewrite (Hns _ _ Hj).
        destruct (Z.ltb_spec 0 j), (Z.ltb_spec j 0), (Z.ltb_spec j (0 + 1)); simpl; done || lia.
      + apply wp_bind. eapply wp_get_node.
        { simpl. rewrite (Hns _ _ Hni). by rewrite Z.ltb_irrefl, andb_false_r. }
        apply wp_put_node; [simpl; lia|].
        exists (zupd ns i (age_node t now n)). split; [done|]. apply aged_below_next; done || lia. }
  intros [] s (ns & -> & Ha). simpl. pose proof (aged_below_members _ _ _ _ I Ha) as E.
  pose proof Ha as (Hl & Hwf & _). split_and!; [done| |done|done].
  eapply cluster_inv_table; [exact I|done|apply (ci_self_idx _ I)| | |done|].
  - simpl. lia.
  - unfold members, zlen in *. simpl. rewrite length_take. lia.
  - rewrite E. apply age_list_ok. by apply members_ok.
Qed.

(** ** The pings *)

Lemma ping_nodes_ok idx sent c w :
  cluster_inv c → 0 <= sent <= GOSSIP_FANOUT →
  Forall (λ i, 0 <= i < node_count (ctx_state c)) idx →
  wp (ping_nodes idx sent) (λ r s, s.1 = c ∧ uptime w <= uptime s.2 ∧
    sent <= r <= GOSSIP_FANOUT) (c, w).
Proof.
  intros I. pose proof (ci_nodes _ I) as Hn. pose proof (ci_count _ I) as Hc. revert sent w.
  induction idx as [|i idx IH]; intros sent w Hs Hidx.
  { apply wp_ret. simpl. split_and!; done || lia. }
  inversion Hidx as [|?? Hi Hidx']; subst. cbn [ping_nodes].
  destruct (Z.ltb_spec sent GOSSIP_FANOUT); [|apply wp_ret; simpl; split_and!; done || lia].
  apply wp_bind, wp_xget. destruct (Z.eqb_spec i (self_idx (ctx_state c))); [by apply IH|].
  destruct (zget_in_range (nodes (ctx_state c)) i) as [nd Hni]; [lia|].
  apply wp_bind. eapply wp_get_node; [done|].
  destruct (n_state nd =? NODE_STATE_DEAD); [by apply IH|].
  apply wp_bind, wp_xget, wp_bind, wp_xget, wp_bind, wp_on_snd.
  destruct (gossip_ping_join_sends (DO:=DO) (udp_fd c) (ctx_self c)
    (mk_sockaddr (n_addr nd) (htons (n_cluster_port nd))) (ci_self_wf _ I)) as (P & J & HP & _).
  destruct (proj1 (wp_returns (sends (udp_fd c) P (mk_sockaddr (n_addr nd) (htons (n_cluster_port nd))))
    (λ _ w', uptime w <= uptime w') w)) as (r & w' & E & Hw').
  { apply wp_bind. eapply wp_mono; [apply sendto_ok|]. intros r w' ?. by apply wp_ret. }
  apply wp_returns. exists r, w'. rewrite HP. split; [done|].
  eapply wp_mono; [apply IH; [lia|done]|].
  intros r' [c' w''] (E1 & E2 & E3). simpl in *. split_and!; done || lia.
Qed.

Lemma heartbeat_iteration_ok last c w :
  cluster_inv c →
  wp (heartbeat_iteration last) (λ _ s, keeps c w s ∧ ∃ now,
    uptime_ms w <= now <= uptime_ms s.2 ∧ 0 <= now < 2 ^ 64 ∧
    members s.1 = age_list (timeout_ms (ctx_cfg c)) now (members c)) (c, w).
Proof.
  intros I. apply wp_bind, wp_xget, wp_bind, wp_on_snd.
  eapply wp_mono; [apply usleep_ok|]. intros [] w1 Hu1. apply wp_bind, wp_on_snd.
  eapply wp_mono; [apply now_ms_ok|]. intros now w2 (Hnow & Hr & Hu2).
  apply wp_bind. eapply wp_mono; [by apply age_nodes_ok|].
  intros [] [c3 w3] (E & I3 & R3 & Em). simpl in *. subst w3.
  pose proof (uptime_ms_mono _ _ Hu1). pose proof (uptime_ms_mono _ _ Hu2).
  destruct (gossip_ms (ctx_cfg c) <=? u64 (now - last)).
  - apply wp_bind, wp_xget, wp_bind. eapply wp_mono.
    { apply ping_nodes_ok; [done|unfold GOSSIP_FANOUT; lia|].
      apply list.Forall_forall. intros i Hi%elem_of_seqZ. lia. }
    intros r [c4 w4] (E4 & Hu4 & _). simpl in *. subst c4. apply wp_ret.
    pose proof (uptime_ms_mono _ _ Hu4).
    split; [split_and!; [done|done|simpl; lia]|]. exists now. simpl. split_and!; done || lia.
  - apply wp_ret. split; [split_and!; [done|done|simpl; lia]|]. exists now. simpl.
    split_and!; done || lia.
Qed.

(** ** Creation *)

Lemma fill_rand_ok n id w :
  wp (fill_rand n id) (λ r w', length r = (length id + n)%nat ∧ uptime w <= uptime w') w.
Proof.
  revert id w. induction n as [|n IH]; intros id w; [apply wp_ret; rewrite Nat.add_0_r; split; [done|lia]|].
  apply wp_bind. eapply wp_mono; [apply rand_ok|]. intros x w1 H1.
  eapply wp_mono; [apply IH|]. intros r w2 [Hl H2]. rewrite length_app, length_le_bytes in Hl.
  cbn in H1. split; lia.
Qed.

Lemma generate_node_id_ok w :
  wp generate_node_id (λ id w', length id = id_bytes ∧ uptime w <= uptime w') w.
Proof.
  apply wp_bind. eapply wp_mono; [apply urandom_ok|]. intros r w1 H1. cbv zeta.
  match goal with |- context [if _ then mret _ else ?f] => set (fb := f) end.
  assert (wp fb (λ id w', length id = id_bytes ∧ uptime w <= uptime w') w1) as Hfb.
  { apply wp_bind. eapply wp_mono; [apply realtime_ok|]. intros [sec nsec] w2 H2.
    apply wp_bind. eapply wp_mono; [apply srand_ok|]. intros [] w3 H3.
    eapply wp_mono; [apply fill_rand_ok|]. intros id w4 [Hl H4].
    rewrite length_le_bytes in Hl. cbn in H1, H2, H3. split; [done|lia]. }
  destruct r as [bs|]; [|done]. destruct (Nat.eqb_spec (length bs) id_bytes); [|done].
  by apply wp_ret.
Qed.

Lemma length_id_of_string str : length (id_of_string str) = id_bytes.
Proof.
  unfold id_of_string. rewrite length_splice; [apply length_replicate|].
  rewrite length_take, length_replicate. lia.
Qed.

(** Every field of the configuration holds a value of its C type. *)
Definition config_wf (cfg : cluster_config) : Prop :=
  0 <= cfg_cluster_port cfg < 2 ^ 16 ∧ 0 <= page_range_start cfg < 2 ^ 32 ∧
  0 <= page_range_end cfg < 2 ^ 32 ∧ 0 <= timeout_ms cfg < 2 ^ 32.

Lemma zero_node_wf : node_wf zero_node.
Proof. unfold node_wf. simpl. split_and!; done || lia. Qed.

Lemma cluster_create_ok cfg addr port w :
  config_wf cfg → 0 <= addr < 2 ^ 32 → 0 <= port < 2 ^ 16 →
  wp (cluster_create true true cfg addr port) (λ r w', ∃ c, r = Some c ∧
    cluster_inv c ∧ ctx_cfg c = cfg ∧ members c = [ctx_self c] ∧
    n_range_start (ctx_self c) = page_range_start cfg ∧
    n_range_end (ctx_self c) = page_range_end cfg ∧
    (∀ str, cfg_node_id cfg = Some str → n_id (ctx_self c) = id_of_string str)) w.
Proof.
  intros (Hcp & Hrs & Hre & Ht) Ha Hp. unfold cluster_create. cbn [negb]. apply wp_bind.
  eapply wp_mono with (Q := λ id w', length id = id_bytes ∧
    (∀ str, cfg_node_id cfg = Some str → id = id_of_string str)).
  { destruct (cfg_node_id cfg) as [str|].
    - apply wp_ret. split; [apply length_id_of_string|]. by intros ? [= ->].
    - eapply wp_mono; [apply generate_node_id_ok|]. by intros id w' [? _]. }
  intros id w1 [Hid Hstr]. apply wp_bind. eapply wp_mono; [apply now_ms_ok|].
  intros now w2 (_ & Hr & _). set (self := mk_node _ _ _ _ _ _ _ _ _).
  assert (node_wf self) as Hself.
  { unfold node_wf, NODE_STATE_ALIVE. simpl. split_and!; done || lia. }
  apply wp_bind, wp_store; [done|]. apply wp_ret. eexists. split; [done|].
  split_and!; [|done|done|done|done|done].
  split; try done.
  - apply NoDup_singleton.
  - constructor; [done|]. apply (Forall_replicate _ 63%nat), zero_node_wf.
  - by exists self.
Qed.

(** ** Ownership *)

Lemma cluster_get_owner_ok p c w :
  cluster_inv c →
  wp (cluster_get_owner p) (λ r s, s = (c, w) ∧ r = find (λ n, owns n p) (members c)) (c, w).
Proof.
  intros I. pose proof (ci_nodes _ I). pose proof (ci_count _ I).
  assert (∀ i, 0 <= i <= node_count (ctx_state c) →
    find (λ n, owns n p) (members c) =
    match find (λ n, owns n p) (take (Z.to_nat i) (members c)) with
    | Some n => Some n
    | None => find (λ n, owns n p) (drop (Z.to_nat i) (members c)) end) as Hsplit.
  { intros i _. rewrite <- (take_drop (Z.to_nat i) (members c)) at 1. apply find_app. }
  apply wp_bind, wp_xget. eapply wp_mono.
  { apply (wp_for_ret_range _ (λ i s, s = (c, w) ∧
      find (λ n, owns n p) (take (Z.to_nat i) (members c)) = None)
      (λ n s, s = (c, w) ∧ find (λ n, owns n p) (members c) = Some n)); [lia|done|].
    intros i s Hi [-> Hnone].
    destruct (zget_in_range (nodes (ctx_state c)) i) as [n Hn]; [lia|].
    apply wp_bind. eapply wp_get_node; [done|]. apply wp_ret.
    rewrite <- zget_members in Hn by (done || lia).
    destruct (owns n p) eqn:Eo.
    - split; [done|]. rewrite (Hsplit i) by lia. rewrite Hnone.
      rewrite zget_lookup in Hn by lia. rewrite (drop_S _ _ _ Hn). simpl. by rewrite Eo.
    - split; [done|]. rewrite (take_snoc_zget _ _ _ Hn), find_app, Hnone. simpl. by rewrite Eo. }
  intros [n|] s; [by intros [-> ->]|]. intros [-> E]. split; [done|].
  rewrite take_ge in E; [done|]. pose proof (length_members _ I). unfold zlen in *. lia.
Qed.

End cluster_ops.
