(* ===== verification/ClusterSteps.v ===== *)
(** * The cluster as a transition system

    The gossip thread, the heartbeat thread and the client threads share the
    context.  The steps are their critical sections and their unlocked
    writes, in any order; a heartbeat ages the table with a clock reading it
    took before it had the lock, so the step takes any reading. *)

From stdpp Require Import relations.
From S2P Require Import Prelude Machine Protocol Node Gossip GossipTheorems Cluster ClusterInv ClusterTheorems.

Section steps.
Context {W : Type} {SO : SocketOps W} {DO : DatagramOps W} {OO : SockoptOps W}
  {CO : ClusterOps W} {CE : ClusterEnv W}.
Implicit Types (c : cluster_ctx) (w : W) (s : CS (W:=W)).

(** ** Peer connections *)

Lemma setup_socket_ok fd w :
  wp (dsm_setup_socket_optimal fd) (λ r w', (r = 0 ∨ r = -1) ∧ uptime w <= uptime w') w.
Proof.
  apply wp_bind. eapply wp_mono; [apply setsockopt_ok|]. intros [[]|e] w1 H1; cbn beta in *.
  2: { apply wp_ret. split; [by right|lia]. }
  do 6 (apply wp_bind; eapply wp_mono; [apply setsockopt_ok|];
        let v := fresh "v" in let H := fresh "H" in intros ? v H; cbn beta in H).
  apply wp_ret. split; [by left|lia].
Qed.

Lemma set_peer_fds_same c : set_peer_fds (peer_fds c) c = c.
Proof. by destruct c. Qed.

Lemma get_peer_connection_ok node c w :
  cluster_inv c →
  wp (get_peer_connection node) (λ fd s, uptime w <= uptime s.2 ∧
    ((fd = -1 ∧ s.1 = c) ∨
     (0 <= fd ∧ ∃ idx n, 0 <= idx < node_count (ctx_state c) ∧
        zget (nodes (ctx_state c)) idx = Some n ∧ n_id n = n_id node ∧
        s.1 = set_peer_fds (zupd (peer_fds c) idx fd) c ∧
        (∀ p, zget (peer_fds c) idx = Some p → 0 <= p → fd = p ∧ s = (c, w))))) (c, w).
Proof.
  intros I. pose proof (ci_count _ I). pose proof (ci_peers _ I).
  apply wp_bind. eapply wp_mono; [by apply find_node_ok|].
  intros idx s (-> & [(-> & _)|(Hidx & n & Hn & Hid)]).
  { apply wp_ret. split; [simpl; lia|by left]. }
  destruct (Z.ltb_spec idx 0); [lia|]. apply wp_bind, wp_xget.
  destruct (zget_in_range (peer_fds c) idx) as [p Hp]; [lia|].
  apply wp_bind. eapply wp_load; [done|]. destruct (Z.leb_spec 0 p).
  { apply wp_ret. split; [simpl; lia|]. right. split; [done|]. exists idx, n.
    split_and!; [lia|lia|done|done| |].
    - simpl. by rewrite zupd_id, set_peer_fds_same.
    - intros q Hq Hq0. rewrite Hq in Hp. by injection Hp as ->. }
  apply wp_bind, wp_on_snd. eapply wp_mono; [apply socket_ok|].
  intros [fd|e] w1 [Hu1 Hfd]; [|apply wp_ret; split; [simpl; lia|by left]].
  apply wp_bind, wp_on_snd. eapply wp_mono; [apply connect_ok|].
  intros [[]|e] w2 Hu2; cbn beta in Hu2.
  - apply wp_bind, wp_on_snd. eapply wp_mono; [apply setup_socket_ok|].
    intros r w3 [_ Hu3]. apply wp_bind, wp_store; [lia|]. apply wp_bind, wp_xmod, wp_ret.
    split; [simpl; lia|]. right. split; [done|]. exists idx, n. split_and!; try done; try lia.
    intros q Hq Hq0. rewrite Hq in Hp. injection Hp as ->. lia.
  - apply wp_bind, wp_on_snd. eapply wp_mono; [apply close_ok|]. intros [] w3 Hu3; cbn beta in Hu3.
    apply wp_ret. split; [simpl; lia|by left].
Qed.

(** ** The transition system *)

Inductive cluster_step : CS (W:=W) → CS (W:=W) → Prop :=
| step_merge msg from s s' :
    msg_ok msg → 0 <= sin_addr from < 2 ^ 32 → 0 <= sin_port from < 2 ^ 16 →
    merge_gossip msg from s = Ret (tt, s') → cluster_step s s'
| step_age now s s' :
    age_nodes now s = Ret (tt, s') → cluster_step s s'
| step_peer idx fd c w :
    0 <= idx < node_count (ctx_state c) →
    cluster_step (c, w) (set_peer_fds (zupd (peer_fds c) idx fd) c, w)
| step_running v c w : cluster_step (c, w) (set_ctx_running v c, w)
| step_world c w w' : uptime w <= uptime w' → cluster_step (c, w) (c, w').

(** What every step keeps: the invariant, the node's own identity and range,
    and the position of every node in the table. *)
Definition step_keeps s s' : Prop :=
  cluster_inv s'.1 ∧ ctx_self s'.1 = ctx_self s.1 ∧ ctx_cfg s'.1 = ctx_cfg s.1 ∧
  (n_id <$> members s.1) `prefix_of` (n_id <$> members s'.1).

Lemma merge_list_prefix now n l : (n_id <$> l) `prefix_of` (n_id <$> merge_list now n l).
Proof.
  rewrite merge_list_ids. case_decide; [done|]. case_match; [|done]. by eexists.
Qed.

Lemma merge_many_prefix lo hi ns l l' :
  merge_many lo hi ns l l' → (n_id <$> l) `prefix_of` (n_id <$> l').
Proof. induction 1; [done|]. etrans; [apply merge_list_prefix|done]. Qed.

Lemma cluster_inv_peers c fds :
  cluster_inv c → zlen fds = CLUSTER_MAX_NODES → cluster_inv (set_peer_fds fds c).
Proof. intros I H. split; try apply I. done. Qed.

Lemma cluster_inv_running c v : cluster_inv c → cluster_inv (set_ctx_running v c).
Proof. intros I. split; apply I. Qed.

Lemma cluster_step_keeps s s' : cluster_inv s.1 → cluster_step s s' → step_keeps s s'.
Proof.
  intros I Hstep. destruct Hstep as [msg from [c w] s' Hm Ha Hp E|now [c w] s' E|idx fd c w Hi|v c w|c w w' _];
    simpl in *.
  - pose proof (merge_gossip_ok msg from c w I Hm Ha Hp) as Hwp.
    apply wp_returns in Hwp as ([] & s1 & E1 & (I1 & R1 & _) & Hmm).
    rewrite E in E1. injection E1 as <-. destruct R1 as (? & ? & _).
    split_and!; [done|done|done|by eapply merge_many_prefix].
  - pose proof (age_nodes_ok now c w I) as Hwp.
    apply wp_returns in Hwp as ([] & s1 & E1 & _ & I1 & (? & ? & _) & Em).
    rewrite E in E1. injection E1 as <-. split_and!; [done|done|done|].
    simpl. by rewrite Em, age_list_ids.
  - split_and!; [|done|done|done]. apply cluster_inv_peers; [done|].
    rewrite zlen_zupd. apply I.
  - split_and!; [by apply cluster_inv_running|done|done|done].
  - by split_and!.
Qed.

Lemma cluster_steps_keep s s' : cluster_inv s.1 → rtc cluster_step s s' → step_keeps s s'.
Proof.
  intros I. induction 1 as [s|s1 s2 s3 Hstep _ IH]; [by split_and!|].
  destruct (cluster_step_keeps _ _ I Hstep) as (I2 & E1 & E2 & P1).
  destruct (IH I2) as (I3 & E3 & E4 & P2). split_and!; [done|congruence|congruence|by etrans].
Qed.

End steps.
