(* ===== verification/ClusterClaims.v ===== *)
(** * What the cluster guarantees

    The properties of the cluster node, each with an example in a small
    world. *)

From stdpp Require Import relations.
From S2P Require Import Prelude Machine Protocol Node Gossip GossipTheorems Cluster ClusterInv ClusterTheorems ClusterSteps.

(** ** A small world for the examples

    A clock that stands still between sleeps, a queue of datagrams to
    receive, a log of the datagrams sent, descriptors handed out in order,
    and the connections made. *)

Record lab := mk_lab {
  lab_clock : Z;
  lab_inbox : list (list byte * sockaddr);
  lab_sent : list (list byte * sockaddr);
  lab_fd : Z;
  lab_links : list (Z * sockaddr);
}.

Definition lab_time (w : lab) : Z :=
  Z.max 0 (Z.min (2 ^ 53 * 1000000000 - 1) (lab_clock w)).

#[export] Instance lab_sockets : SocketOps lab := {
  sys_send _ _ _ := mret (SysErr 9);
  sys_recv _ _ _ := mret (SysErr 9);
  sys_writev _ _ := mret (SysErr 9);
  sigpipe := mret tt;
}.

#[export] Instance lab_datagrams : DatagramOps lab := {
  sys_sendto _ bs dest := λ w, Ret (SysOk (zlen bs),
    mk_lab (lab_clock w) (lab_inbox w) (lab_sent w ++ [(bs, dest)]) (lab_fd w) (lab_links w));
}.

#[export] Instance lab_sockopt : SockoptOps lab := {
  sys_setsockopt _ _ _ := mret (SysOk tt);
}.

#[export] Instance lab_cluster : ClusterOps lab := {
  clock_monotonic := gets (λ w, (lab_time w / 1000000000, lab_time w mod 1000000000));
  clock_realtime := mret (0, 0);
  sys_usleep us := modify (λ w,
    mk_lab (lab_clock w + Z.max 0 us * 1000) (lab_inbox w) (lab_sent w) (lab_fd w)
      (lab_links w));
  sys_recvfrom _ n := λ w,
    match lab_inbox w with
    | [] => Ret (SysErr 11, w)
    | (bs, from) :: rest =>
        Ret (SysOk (take n bs, mk_sockaddr (u32 (sin_addr from)) (u16 (sin_port from))),
             mk_lab (lab_clock w) rest (lab_sent w) (lab_fd w) (lab_links w))
    end;
  sys_socket _ := λ w, Ret (SysOk (Z.max 0 (lab_fd w)),
    mk_lab (lab_clock w) (lab_inbox w) (lab_sent w) (lab_fd w + 1) (lab_links w));
  sys_bind _ _ := mret (SysOk tt);
  sys_connect fd a := λ w, Ret (SysOk tt,
    mk_lab (lab_clock w) (lab_inbox w) (lab_sent w) (lab_fd w) ((fd, a) :: lab_links w));
  sys_close _ := mret tt;
  read_urandom n := mret (Some (replicate n Byte.x07));
  sys_srand _ := mret tt;
  sys_rand := mret 0;
  pthread_create _ := mret true;
  pthread_join _ := mret tt;
  sys_getaddrinfo _ _ := mret None;
}.

Lemma lab_time_range w : 0 <= lab_time w < 2 ^ 53 * 1000000000.
Proof. unfold lab_time. lia. Qed.

#[export] Program Instance lab_env : ClusterEnv lab := {| uptime := lab_time |}.
Next Obligation. apply lab_time_range. Qed.
Next Obligation.
  intros w. apply wp_gets. simpl. pose proof (lab_time_range w).
  pose proof (Z.mod_pos_bound (lab_time w) 1000000000).
  pose proof (Z.div_mod (lab_time w) 1000000000).
  unfold clock_reading, reading_ns. cbn [fst snd].
  assert (lab_time w / 1000000000 < 2 ^ 53) by (apply Z.div_lt_upper_bound; lia).
  assert (0 <= lab_time w / 1000000000) by (apply Z.div_pos; lia). lia.
Qed.
Next Obligation. intros. apply wp_returns. do 2 eexists. split; [done|]. unfold lab_time. simpl. lia. Qed.
Next Obligation. intros. apply wp_modify. unfold lab_time. cbn [lab_clock]. lia. Qed.
Next Obligation.
  intros fd n w. apply wp_returns. simpl.
  destruct (lab_inbox w) as [|[bs from] rest]; do 2 eexists; (split; [done|]); unfold lab_time;
    cbn [lab_clock].
  - split; [lia|done].
  - split; [lia|]. rewrite length_take. pose proof (u32_range (sin_addr from)).
    pose proof (u16_range (sin_port from)). cbn [sin_addr sin_port]. lia.
Qed.
Next Obligation. intros. apply wp_ret. lia. Qed.
Next Obligation. intros. apply wp_ret. lia. Qed.
Next Obligation. intros. apply wp_ret. lia. Qed.
Next Obligation. intros. apply wp_ret. lia. Qed.
Next Obligation.
  intros. apply wp_returns. do 2 eexists. split; [done|]. unfold lab_time. cbn [lab_clock]. lia.
Qed.
Next Obligation.
  intros. apply wp_returns. do 2 eexists. split; [done|]. unfold lab_time. cbn [lab_clock]. lia.
Qed.
Next Obligation. intros. apply wp_ret. lia. Qed.
Next Obligation. intros. apply wp_ret. lia. Qed.

(** Two nodes in one table: this one owns the pages below 8, its peer the
    next 8. *)
Definition lab_id (b : byte) : list byte := replicate id_bytes b.
Definition lab_self : cluster_node := mk_node (lab_id Byte.x01) 1 9001 10001 0 8 5 1 NODE_STATE_ALIVE.
Definition lab_peer : cluster_node := mk_node (lab_id Byte.x02) 2 9002 10002 8 16 5 1 NODE_STATE_ALIVE.

Definition lab_config : cluster_config :=
  mk_cluster_config None 10999 None 10001 1000 500 3000 0 8.

Definition lab_ctx : cluster_ctx := {|
  ctx_cfg := lab_config;
  ctx_state := mk_state (lab_self :: lab_peer :: replicate 62 zero_node) 2 0;
  ctx_self := lab_self;
  udp_fd := 3;
  ctx_running := 1;
  peer_fds := -1 :: 7 :: replicate 62 (-1);
|}.

(** Four milliseconds after boot, with a datagram of garbage to receive. *)
Definition lab0 : lab := mk_lab 4000000 [(replicate 700 Byte.xff, mk_sockaddr 1 2)] [] 8
  [(7, mk_sockaddr 2 (htons 9002))].

Lemma lab_ctx_inv : cluster_inv lab_ctx.
Proof.
  assert (node_wf lab_self ∧ node_wf lab_peer) as [H1 H2].
  { unfold node_wf, NODE_STATE_ALIVE. simpl. split; split_and!; done || lia. }
  split; try done.
  - unfold members. simpl. repeat constructor; rewrite ?list_elem_of_singleton; set_solver.
  - constructor; [done|]. constructor; [done|]. apply (Forall_replicate _ 62%nat), zero_node_wf.
  - by exists lab_self.
Qed.

Section claims.
Context {W : Type} {SO : SocketOps W} {DO : DatagramOps W} {OO : SockoptOps W}
  {CO : ClusterOps W} {CE : ClusterEnv W}.
Implicit Types (c : cluster_ctx) (w : W).

(** No node has been heard from in the future. *)
Definition fresh c w : Prop := Forall (λ n, n_last_seen n <= uptime_ms w) (members c).

Lemma merge_list_seen now node t l :
  now <= t → Forall (λ n, n_last_seen n <= t) l →
  Forall (λ n, n_last_seen n <= t) (merge_list now node l).
Proof.
  intros Hnow Hl. unfold merge_list. case_decide.
  - apply Forall_fmap. eapply Forall_impl; [exact Hl|]. intros e He. simpl.
    case_decide; [|done]. unfold merge_record. by repeat case_match.
  - case_match; [|done]. apply Forall_app. split; [done|]. by constructor.
Qed.

Lemma merge_many_seen lo hi ns l l' :
  merge_many lo hi ns l l' → Forall (λ n, n_last_seen n <= hi) l →
  Forall (λ n, n_last_seen n <= hi) l'.
Proof. induction 1; [done|]. intros. apply IHmerge_many, merge_list_seen; [lia|done]. Qed.

Lemma fresh_later t t' l : t <= t' → Forall (λ n, n_last_seen n <= t) l →
  Forall (λ n, n_last_seen n <= t') l.
Proof. intros Ht Hl. eapply Forall_impl; [exact Hl|]. intros n Hn. simpl in *. lia. Qed.

(** C12: No datagram can break a node.  Whatever arrives, an iteration of the
    gossip thread returns without undefined behaviour, keeps the membership
    invariant (at most 64 nodes, distinct ids, the node itself first), leaves
    the node's own identity and page range alone, and never moves a node to
    another slot; what it does to the table is a sequence of merges at the
    present time. *)
Theorem gossip_datagram_safe buf c w :
  cluster_inv c → length buf = gossip_buf_size →
  wp (gossip_iteration buf) (λ buf' s, length buf' = gossip_buf_size ∧
    cluster_inv s.1 ∧ same_rest c s.1 ∧
    (n_id <$> members c) `prefix_of` (n_id <$> members s.1) ∧
    (fresh c w → fresh s.1 s.2) ∧
    ∃ ns, merge_many (uptime_ms w) (uptime_ms s.2) ns (members c) (members s.1)) (c, w).
Proof.
  intros I Hb. eapply wp_mono; [by apply gossip_iteration_ok|].
  intros buf' s (Hb' & (I' & R & Hu) & ns & Hm).
  split_and!; [done|done|done|by eapply merge_many_prefix| |by exists ns].
  intros Hf. eapply merge_many_seen; [done|]. eapply fresh_later; [|exact Hf].
  by apply uptime_ms_mono.
Qed.

(** C11: [merge_node] implements the merge of a record into an ordered table:
    a newer incarnation replaces the record, the same incarnation refreshes
    it (and can only revive it), an older one is ignored, an unknown node is
    appended while there is room.  No other record changes. *)
Theorem merge_node_refines node c w :
  cluster_inv c → node_wf node →
  wp (merge_node node) (λ _ s, cluster_inv s.1 ∧ same_rest c s.1 ∧ ∃ now,
    uptime_ms w <= now <= uptime_ms s.2 ∧
    members s.1 = merge_list now node (members c)) (c, w).
Proof.
  intros I Hn. eapply wp_mono; [by apply merge_node_ok|].
  intros [] s (now & Hnow & _ & E & I' & R & _). split_and!; [done|done|by exists now].
Qed.

(** ** Merging in any order *)

(** What a record says of a node, apart from its liveness. *)
Definition identity (n : cluster_node) : list byte * Z * Z * Z * Z * Z * Z :=
  (n_id n, n_addr n, n_client_port n, n_cluster_port n, n_range_start n, n_range_end n,
   n_incarnation n).

Lemma merge_record_identity now n e :
  identity (merge_record now n e) =
    if n_incarnation e <? n_incarnation n then identity n else identity e.
Proof. unfold merge_record. by repeat case_match. Qed.

(** Of every node that [l] or [rs] knows, [l'] says what one of their records
    with the highest incarnation says, and it knows no others. *)
Definition newest (l rs l' : list cluster_node) : Prop :=
  (∀ e, e ∈ l' → (∃ m, m ∈ l ++ rs ∧ identity e = identity m) ∧
     ∀ n, n ∈ l ++ rs → n_id n = n_id e → n_incarnation n <= n_incarnation e) ∧
  (∀ n, n ∈ l ++ rs → ∃ e, e ∈ l' ∧ n_id e = n_id n).

Lemma identity_inv a b :
  identity a = identity b → n_id a = n_id b ∧ n_incarnation a = n_incarnation b.
Proof. by injection 1. Qed.

Lemma merge_record_newest now n e :
  n_incarnation n <= n_incarnation (merge_record now n e) ∧
  n_incarnation e <= n_incarnation (merge_record now n e) ∧
  (identity (merge_record now n e) = identity e ∨ identity (merge_record now n e) = identity n).
Proof.
  pose proof (merge_record_identity now n e) as Hi.
  destruct (Z.ltb_spec (n_incarnation e) (n_incarnation n));
    apply identity_inv in Hi as Hi'; destruct Hi' as [_ ->]; split_and!; auto; lia.
Qed.

Lemma ids_unique (l : list cluster_node) x y :
  NoDup (n_id <$> l) → x ∈ l → y ∈ l → n_id x = n_id y → x = y.
Proof.
  intros Hnd [i Hi]%list_elem_of_lookup [k Hk]%list_elem_of_lookup E.
  assert (i = k) as ->; [|congruence].
  eapply (NoDup_lookup _ _ _ (n_id y) Hnd); rewrite list_lookup_fmap;
    [by rewrite Hi; simpl; rewrite E|by rewrite Hk].
Qed.

Ltac mem := rewrite ?elem_of_app, ?list_elem_of_singleton, ?elem_of_cons in *; tauto.

Lemma merge_list_newest now n l :
  NoDup (n_id <$> l) → zlen l < CLUSTER_MAX_NODES → newest l [n] (merge_list now n l).
Proof.
  intros Hnd Hroom. unfold merge_list. case_decide as Hin.
  - apply list_elem_of_fmap in Hin as (e0 & Hid0 & He0). split.
    + intros e (x & -> & Hx)%list_elem_of_fmap. case_decide as Ex.
      * destruct (merge_record_newest now n x) as (H1 & H2 & H3). split.
        -- destruct H3; [exists x|exists n]; (split; [mem|done]).
        -- intros m [Hm| ->%list_elem_of_singleton]%elem_of_app Em; [|done].
           rewrite merge_record_id in Em by done. by rewrite (ids_unique l m x).
      * split; [exists x; split; [mem|done]|].
        intros m [Hm| ->%list_elem_of_singleton]%elem_of_app Em; [|congruence].
        by rewrite (ids_unique l m x).
    + intros m [Hm| ->%list_elem_of_singleton]%elem_of_app.
      * eexists. split; [apply list_elem_of_fmap; by exists m|]. simpl.
        case_decide; [by apply merge_record_id|done].
      * eexists. split; [apply list_elem_of_fmap; by exists e0|]. simpl.
        rewrite decide_True by done. by rewrite merge_record_id.
  - destruct (Z.ltb_spec (zlen l) CLUSTER_MAX_NODES); [|lia].
    assert (∀ m, m ∈ l → n_id m ≠ n_id n) as Hne.
    { intros m Hm E. apply Hin. apply list_elem_of_fmap. by exists m. }
    split.
    + intros e [He| ->%list_elem_of_singleton]%elem_of_app; split.
      * exists e. split; [mem|done].
      * intros m [Hm| ->%list_elem_of_singleton]%elem_of_app Em; [by rewrite (ids_unique l m e)|].
        by destruct (Hne e He).
      * exists n. split; [mem|done].
      * intros m [Hm| ->%list_elem_of_singleton]%elem_of_app Em; [by destruct (Hne m Hm)|done].
    + intros m [Hm| ->%list_elem_of_singleton]%elem_of_app;
        [exists m|exists (set_last_seen now n)]; (split; [mem|done]).
Qed.

Lemma newest_trans l n l1 rs l' :
  newest l [n] l1 → newest l1 rs l' → newest l (n :: rs) l'.
Proof.
  assert (∀ x, x ∈ l ++ n :: rs ↔ x ∈ l ++ [n] ∨ x ∈ rs) as Hsplit by (intros x; mem).
  intros [Ha Hb] [Hc Hd]. split.
  - intros e He. destruct (Hc e He) as [(m & Hm & Em) Hmax]. split.
    + apply elem_of_app in Hm as [Hm|Hm]; [|exists m; rewrite Hsplit; by split; [right|]].
      destruct (Ha m Hm) as [(m' & Hm' & Em') _]. exists m'. rewrite Hsplit.
      split; [by left|congruence].
    + intros x [Hx|Hx]%Hsplit Ex; [|apply Hmax; [apply elem_of_app; by right|done]].
      destruct (Hb x Hx) as (y & Hy & Ey). transitivity (n_incarnation y).
      * by apply (Ha y Hy).
      * apply Hmax; [apply elem_of_app; by left|congruence].
  - intros x [Hx|Hx]%Hsplit; [|apply Hd, elem_of_app; by right].
    destruct (Hb x Hx) as (y & Hy & Ey).
    destruct (Hd y) as (e & He & Ee); [apply elem_of_app; by left|]. exists e. split; [done|congruence].
Qed.

(** What the table says is determined by the records, not by their order. *)
Lemma newest_agree l rs rs' l1 l2 e1 e2 :
  rs ≡ₚ rs' → newest l rs l1 → newest l rs' l2 → e1 ∈ l1 → e2 ∈ l2 → n_id e1 = n_id e2 →
  n_incarnation e1 = n_incarnation e2 ∧
  ((∀ a b, a ∈ l ++ rs → b ∈ l ++ rs → n_id a = n_id e1 → n_id b = n_id e1 →
      n_incarnation a = n_incarnation e1 → n_incarnation b = n_incarnation e1 →
      identity a = identity b) → identity e1 = identity e2).
Proof.
  intros Hp [H1 _] [H2 _] He1 He2 Eid.
  assert (∀ x, x ∈ l ++ rs ↔ x ∈ l ++ rs') as Hiff by (intros x; by rewrite !elem_of_app, Hp).
  destruct (H1 _ He1) as [(m1 & Hm1 & E1) Hmax1], (H2 _ He2) as [(m2 & Hm2 & E2) Hmax2].
  apply identity_inv in E1 as F1. apply identity_inv in E2 as F2. destruct F1 as [I1 N1], F2 as [I2 N2].
  assert (n_incarnation e1 = n_incarnation e2) as E.
  { apply Z.le_antisymm; [rewrite N1; apply Hmax2; [by apply Hiff|congruence]|].
    rewrite N2. apply Hmax1; [by apply Hiff|congruence]. }
  split; [done|]. intros Hagree. rewrite E1, E2. apply Hagree; [done|by apply Hiff|congruence..].
Qed.

Lemma merges_newest rs c w :
  cluster_inv c → Forall node_wf rs → zlen (members c) + zlen rs <= CLUSTER_MAX_NODES →
  wp (for_each rs merge_node) (λ _ s, newest (members c) rs (members s.1)) (c, w).
Proof.
  revert c w. induction rs as [|n rs IH]; intros c w I Hwf Hroom; simpl.
  - apply wp_ret. simpl. unfold newest. rewrite app_nil_r. split.
    + intros e He. split; [by exists e|]. intros m Hm Em.
      by rewrite (ids_unique (members c) m e); [|apply I|..].
    + intros m Hm. by exists m.
  - rewrite zlen_cons in Hroom. assert (0 <= zlen rs) by (unfold zlen; lia).
    inversion_clear Hwf as [|? ? Hn Hrs]. apply wp_bind.
    eapply wp_mono; [by apply merge_node_ok|]. intros [] [c1 w1] (now & _ & _ & E & I1 & _).
    simpl in E, I1. eapply wp_mono; [apply IH; [done|done|]|].
    + pose proof (merge_list_grows now n (members c)). rewrite E. lia.
    + intros [] s Hs. rewrite E in Hs. eapply newest_trans; [|exact Hs].
      apply merge_list_newest; [apply I|lia].
Qed.

(** C15: The order in which gossip arrives does not matter.  The same records,
    merged by [merge_node] in two different orders into a table with room for
    them, leave the same nodes with the same incarnations: the highest that
    any record of the node has.  The address, ports and page range are those
    of a record with that incarnation, so they agree too, unless records of
    the highest incarnation differ among themselves. *)
Theorem merge_order_independent rs rs' c w :
  cluster_inv c → Forall node_wf rs → rs ≡ₚ rs' →
  zlen (members c) + zlen rs <= CLUSTER_MAX_NODES →
  wp (for_each rs merge_node) (λ _ s1,
    wp (for_each rs' merge_node) (λ _ s2,
      newest (members c) rs (members s1.1) ∧
      (∀ id, id ∈ n_id <$> members s1.1 ↔ id ∈ n_id <$> members s2.1) ∧
      ∀ e1 e2, e1 ∈ members s1.1 → e2 ∈ members s2.1 → n_id e1 = n_id e2 →
        n_incarnation e1 = n_incarnation e2 ∧
        ((∀ a b, a ∈ members c ++ rs → b ∈ members c ++ rs →
            n_id a = n_id e1 → n_id b = n_id e1 →
            n_incarnation a = n_incarnation e1 → n_incarnation b = n_incarnation e1 →
            identity a = identity b) → identity e1 = identity e2)) (c, w)) (c, w).
Proof.
  intros I Hwf Hp Hroom. eapply wp_mono; [by apply merges_newest|]. intros [] s1 H1.
  assert (zlen rs' = zlen rs) as El by (unfold zlen; by rewrite Hp).
  eapply wp_mono; [apply merges_newest; [done|by rewrite <- Hp|by rewrite El]|]. intros [] s2 H2.
  split_and!; [done| |].
  - intros id. assert (∀ x, x ∈ members c ++ rs ↔ x ∈ members c ++ rs') as Hiff
      by (intros x; by rewrite !elem_of_app, Hp).
    rewrite !list_elem_of_fmap. split; intros (e & -> & He).
    + destruct (proj1 H1 e He) as [(m & Hm & [Em _]%identity_inv) _].
      destruct (proj2 H2 m) as (e' & He' & Ee); [by apply Hiff|]. exists e'. split; [congruence|done].
    + destruct (proj1 H2 e He) as [(m & Hm & [Em _]%identity_inv) _].
      destruct (proj2 H1 m) as (e' & He' & Ee); [by apply Hiff|]. exists e'. split; [congruence|done].
  - intros. by eapply (newest_agree (members c) rs rs').
Qed.

End claims.

(** The peer restarts while an old record of it is still on its way. *)
Definition lab_restarted : cluster_node :=
  mk_node (lab_id Byte.x02) 2 9002 10002 8 24 5 2 NODE_STATE_ALIVE.

Lemma merge_order_independent_witness :
  wp (for_each [lab_restarted; lab_peer] merge_node) (λ _ s1,
    wp (for_each [lab_peer; lab_restarted] merge_node) (λ _ s2,
      ∀ e1 e2, e1 ∈ members s1.1 → e2 ∈ members s2.1 → n_id e1 = n_id e2 →
        n_incarnation e1 = n_incarnation e2) (lab_ctx, lab0)) (lab_ctx, lab0).
Proof.
  eapply wp_mono; [apply (merge_order_independent [lab_restarted; lab_peer]
    [lab_peer; lab_restarted] lab_ctx lab0)|].
  - exact lab_ctx_inv.
  - repeat constructor; unfold NODE_STATE_ALIVE; simpl; reflexivity || lia || discriminate.
  - apply perm_swap.
  - vm_compute. discriminate.
  - intros u s1 H. eapply wp_mono; [exact H|]. intros u' s2 (_ & _ & H3) e1 e2 He1 He2 E.
    exact (proj1 (H3 e1 e2 He1 He2 E)).
Defined.

Lemma gossip_datagram_safe_witness :
  wp (gossip_iteration (replicate gossip_buf_size Byte.x00)) (λ buf' s,
    length buf' = gossip_buf_size ∧ cluster_inv s.1 ∧ same_rest lab_ctx s.1 ∧
    (n_id <$> members lab_ctx) `prefix_of` (n_id <$> members s.1) ∧
    (fresh lab_ctx lab0 → fresh s.1 s.2) ∧
    ∃ ns, merge_many (uptime_ms lab0) (uptime_ms s.2) ns (members lab_ctx) (members s.1))
    (lab_ctx, lab0).
Proof.
  apply (gossip_datagram_safe (replicate gossip_buf_size Byte.x00) lab_ctx
    lab0);
    [exact lab_ctx_inv|apply length_replicate].
Defined.

Lemma merge_node_refines_witness :
  wp (merge_node (set_state NODE_STATE_SUSPECT lab_peer)) (λ _ s,
    cluster_inv s.1 ∧ same_rest lab_ctx s.1 ∧ ∃ now, uptime_ms lab0 <= now <= uptime_ms s.2 ∧
    members s.1 = merge_list now (set_state NODE_STATE_SUSPECT lab_peer) (members lab_ctx))
    (lab_ctx, lab0).
Proof.
  apply (merge_node_refines (set_state NODE_STATE_SUSPECT lab_peer) lab_ctx
    lab0); [exact lab_ctx_inv|].
  unfold node_wf, NODE_STATE_SUSPECT. simpl. split_and!; reflexivity || lia.
Defined.

(** ** Failure detection *)

(** The documented rule: silent for half the timeout, suspect; silent past
    the full timeout, dead. *)
Definition verdict (timeout silent : Z) (n : cluster_node) : cluster_node :=
  if (n_state n =? NODE_STATE_ALIVE) && (timeout / 2 <? silent)
  then set_state NODE_STATE_SUSPECT n
  else if (n_state n =? NODE_STATE_SUSPECT) && (timeout <? silent)
  then set_state NODE_STATE_DEAD n
  else n.

Lemma age_node_verdict t now n :
  0 <= n_last_seen n <= now → now < 2 ^ 64 → age_node t now n = verdict t (now - n_last_seen n) n.
Proof. intros H1 H2. unfold age_node, verdict. by rewrite u64_small by lia. Qed.

Lemma age_node_seen t now n : n_last_seen (age_node t now n) = n_last_seen n.
Proof. unfold age_node. by repeat case_match. Qed.

Lemma verdict_dead t d1 d2 n :
  t < d1 → t < d2 → 0 <= t → n_state n = NODE_STATE_ALIVE ∨ n_state n = NODE_STATE_SUSPECT →
  n_state (verdict t d2 (verdict t d1 n)) = NODE_STATE_DEAD.
Proof.
  intros H1 H2 Ht Hs. assert (t / 2 < d1) by (assert (t / 2 <= t) by (apply Z.div_le_upper_bound; lia); lia).
  unfold verdict. destruct Hs as [-> | ->]; simpl.
  - destruct (Z.ltb_spec (t / 2) d1); [|lia]. simpl. by destruct (Z.ltb_spec t d2); [|lia].
  - by destruct (Z.ltb_spec t d1); [|lia].
Qed.

Section detection.
Context {W : Type} {SO : SocketOps W} {DO : DatagramOps W} {OO : SockoptOps W}
  {CO : ClusterOps W} {CE : ClusterEnv W}.
Implicit Types (c : cluster_ctx) (w : W).

Lemma members_seen_nonneg c i n :
  cluster_inv c → zget (members c) i = Some n → 0 <= n_last_seen n.
Proof.
  intros I Hi. destruct (members_ok _ I) as (_ & _ & Hwf & _).
  eapply list.Forall_forall in Hwf; [|by eapply zget_elem]. destruct Hwf as (_ & _ & _ & _ & _ & _ & ? & _).
  lia.
Qed.

Lemma heartbeat_verdicts last c w :
  cluster_inv c → fresh c w →
  wp (heartbeat_iteration last) (λ _ s, cluster_inv s.1 ∧ same_rest c s.1 ∧ fresh s.1 s.2 ∧
    ∃ now, uptime_ms w <= now <= uptime_ms s.2 ∧
    ∀ i n, zget (members c) i = Some n → zget (members s.1) i =
      Some (if i =? 0 then n else
            verdict (timeout_ms (ctx_cfg c)) (now - n_last_seen n) n)) (c, w).
Proof.
  intros I Hf. eapply wp_mono; [by apply heartbeat_iteration_ok|].
  intros r [c' w'] ((I' & R & Hu) & now & Hnow & Hr & Em). simpl in *.
  pose proof (uptime_ms_mono _ _ Hu). split_and!; [done|done| |].
  - unfold fresh. rewrite Em. apply (fresh_later (uptime_ms w)); [lia|]. unfold fresh in Hf.
    destruct (members c) as [|n0 l]; [done|]. inversion Hf; subst. constructor; [done|].
    apply Forall_fmap. eapply Forall_impl; [eassumption|]. intros n Hn. simpl.
    by rewrite age_node_seen.
  - exists now. split; [lia|]. intros i n Hi. rewrite Em, (zget_age_list _ _ _ _ _ Hi).
    destruct (i =? 0); [done|]. f_equal. apply age_node_verdict; [|lia].
    split; [exact (members_seen_nonneg _ _ _ I Hi)|]. unfold fresh in Hf.
    eapply list.Forall_forall in Hf; [|by eapply zget_elem]. simpl in Hf. lia.
Qed.

(** C13: The failure detector follows the documented rule.  In an iteration of
    the heartbeat thread, a peer is judged by the time since it was last
    heard from, a node heard from within half the timeout is left alone, the
    node itself is never judged, and nothing but the states changes. *)
Theorem heartbeat_follows_timeouts last c w :
  cluster_inv c → fresh c w →
  wp (heartbeat_iteration last) (λ _ s, cluster_inv s.1 ∧ same_rest c s.1 ∧ fresh s.1 s.2 ∧
    ∃ now, uptime_ms w <= now <= uptime_ms s.2 ∧
    ∀ i n, zget (members c) i = Some n → zget (members s.1) i =
      Some (if i =? 0 then n else
            verdict (timeout_ms (ctx_cfg c)) (now - n_last_seen n) n)) (c, w).
Proof. apply heartbeat_verdicts. Qed.

(** C14: A silent peer is declared dead: once it has been silent for longer
    than the timeout, two iterations of the heartbeat thread without a merge
    in between mark it [DEAD], and it is no longer an owner of any page. *)
Theorem silent_peer_dies last c w i n :
  cluster_inv c → fresh c w → 0 <= timeout_ms (ctx_cfg c) →
  i ≠ 0 → zget (members c) i = Some n →
  n_state n = NODE_STATE_ALIVE ∨ n_state n = NODE_STATE_SUSPECT →
  timeout_ms (ctx_cfg c) < uptime_ms w - n_last_seen n →
  wp (l ← heartbeat_iteration last; heartbeat_iteration l) (λ _ s, ∃ n',
    zget (members s.1) i = Some n' ∧ n_state n' = NODE_STATE_DEAD ∧ n_id n' = n_id n ∧
    ∀ p, owns n' p = false) (c, w).
Proof.
  intros I Hf Ht Hi Hn Hs Hsilent. apply wp_bind.
  eapply wp_mono; [by apply heartbeat_verdicts|].
  intros l [c1 w1] (I1 & (Ecfg & _) & Hf1 & now1 & Hnow1 & H1). simpl in *.
  eapply wp_mono; [by apply heartbeat_verdicts|].
  intros l2 [c2 w2] (I2 & _ & Hf2 & now2 & Hnow2 & H2). simpl in *.
  specialize (H1 _ _ Hn). specialize (H2 _ _ H1). destruct (Z.eqb_spec i 0); [done|].
  rewrite Ecfg in H2. eexists. split; [exact H2|].
  assert (∀ t d m, n_last_seen (verdict t d m) = n_last_seen m ∧ n_id (verdict t d m) = n_id m) as Hv
    by (intros; unfold verdict; by repeat case_match).
  assert (n_state (verdict (timeout_ms (ctx_cfg c))
    (now2 - n_last_seen (verdict (timeout_ms (ctx_cfg c)) (now1 - n_last_seen n) n))
    (verdict (timeout_ms (ctx_cfg c)) (now1 - n_last_seen n) n)) = NODE_STATE_DEAD) as Hd.
  { rewrite (proj1 (Hv _ _ n)). apply verdict_dead; done || lia. }
  split_and!; [done| |].
  - by rewrite (proj2 (Hv _ _ _)), (proj2 (Hv _ _ _)).
  - intros p. unfold owns. by rewrite Hd.
Qed.

(** C39: A hazard of the heartbeat thread: it reads the clock before it takes
    the lock, and the elapsed time is unsigned.  If the gossip thread hears
    from an alive peer after that reading, even a millisecond after, the
    subtraction wraps around and the peer is marked [SUSPECT] at once. *)
Theorem stale_clock_suspects timeout now n :
  0 <= now < n_last_seen n → n_last_seen n < 2 ^ 63 → 0 <= timeout < 2 ^ 32 →
  n_state n = NODE_STATE_ALIVE →
  age_node timeout now n = set_state NODE_STATE_SUSPECT n.
Proof.
  intros Hnow Hn Ht Hs. unfold age_node. rewrite Hs. simpl.
  assert (u64 (now - n_last_seen n) = now - n_last_seen n + 2 ^ 64) as E.
  { unfold u64. rewrite <- (Z.mod_add _ 1) by lia. apply Z.mod_small. lia. }
  rewrite E. destruct (Z.ltb_spec (timeout / 2) (now - n_last_seen n + 2 ^ 64)) as [|Hle]; [done|].
  assert (timeout / 2 <= timeout) by (apply Z.div_le_upper_bound; lia). lia.
Qed.

(** Hearsay keeps a node from being declared dead: a record of the same
    incarnation, from any sender and with any state, [DEAD] included,
    refreshes the time the node was last heard from, and does not change its
    state unless it says [ALIVE]. *)
Theorem hearsay_refreshes node c w i e :
  cluster_inv c → node_wf node → zget (members c) i = Some e →
  n_id e = n_id node → n_incarnation node = n_incarnation e → n_state node ≠ NODE_STATE_ALIVE →
  wp (merge_node node) (λ _ s, ∃ e', zget (members s.1) i = Some e' ∧
    n_state e' = n_state e ∧ uptime_ms w <= n_last_seen e') (c, w).
Proof.
  intros I Hn He Hid Hinc Hs. pose proof (zget_Some_range _ _ _ He) as Hr.
  rewrite length_members in Hr by done.
  eapply wp_mono; [by apply merge_node_ok|].
  intros [] s (now & Hnow & _ & E & _). rewrite E.
  rewrite (merge_list_found now node c i e I Hr); [| |done].
  2: { by rewrite zget_members in He by (done || lia). }
  exists (merge_record now node e). split_and!.
  - apply zget_zupd_eq. rewrite length_members by done. lia.
  - unfold merge_record. rewrite Hinc, Z.ltb_irrefl, Z.eqb_refl.
    by destruct (Z.eqb_spec (n_state node) NODE_STATE_ALIVE).
  - unfold merge_record. rewrite Hinc, Z.ltb_irrefl, Z.eqb_refl.
    destruct (Z.eqb_spec (n_state node) NODE_STATE_ALIVE); simpl; lia.
Qed.

End detection.

(** Ten seconds after boot. *)
Definition lab_late : lab := mk_lab 10000000000 [] [] 8 [].

Lemma lab_fresh w : 5 <= uptime_ms w → fresh lab_ctx w.
Proof. intros H. repeat constructor; exact H. Qed.

Lemma lab_late_ms : uptime_ms lab_late = 10000.
Proof. vm_compute. reflexivity. Qed.

Lemma heartbeat_follows_timeouts_witness :
  wp (heartbeat_iteration 0) (λ _ s, cluster_inv s.1 ∧ same_rest lab_ctx s.1 ∧ fresh s.1 s.2 ∧
    ∃ now, uptime_ms lab_late <= now <= uptime_ms s.2 ∧
    ∀ i n, zget (members lab_ctx) i = Some n → zget (members s.1) i =
      Some (if i =? 0 then n else verdict 3000 (now - n_last_seen n) n)) (lab_ctx, lab_late).
Proof.
  apply (heartbeat_follows_timeouts 0 lab_ctx lab_late); [exact lab_ctx_inv|].
  apply lab_fresh. rewrite lab_late_ms. lia.
Defined.

Lemma silent_peer_dies_witness :
  wp (l ← heartbeat_iteration 0; heartbeat_iteration l) (λ _ s, ∃ n',
    zget (members s.1) 1 = Some n' ∧ n_state n' = NODE_STATE_DEAD ∧ n_id n' = n_id lab_peer ∧
    ∀ p, owns n' p = false) (lab_ctx, lab_late).
Proof.
  apply (silent_peer_dies 0 lab_ctx lab_late 1 lab_peer).
  - exact lab_ctx_inv.
  - apply lab_fresh. rewrite lab_late_ms. lia.
  - simpl. lia.
  - lia.
  - reflexivity.
  - left. reflexivity.
  - rewrite lab_late_ms. simpl. lia.
Defined.

Lemma stale_clock_suspects_witness :
  age_node 3000 999 (set_last_seen 1000 lab_peer) =
  set_state NODE_STATE_SUSPECT (set_last_seen 1000 lab_peer).
Proof. apply (stale_clock_suspects 3000 999); simpl; lia. Defined.

Lemma hearsay_refreshes_witness :
  wp (merge_node (set_state NODE_STATE_DEAD lab_peer)) (λ _ s, ∃ e',
    zget (members s.1) 1 = Some e' ∧ n_state e' = NODE_STATE_ALIVE ∧
    uptime_ms lab_late <= n_last_seen e') (lab_ctx, lab_late).
Proof.
  apply (hearsay_refreshes (set_state NODE_STATE_DEAD lab_peer) lab_ctx lab_late 1 lab_peer).
  - exact lab_ctx_inv.
  - unfold node_wf, NODE_STATE_DEAD. simpl. split_and!; reflexivity || lia.
  - reflexivity.
  - reflexivity.
  - reflexivity.
  - discriminate.
Defined.

(** ** Reachable states *)

Section reachable.
Context {W : Type} {SO : SocketOps W} {DO : DatagramOps W} {OO : SockoptOps W}
  {CO : ClusterOps W} {CE : ClusterEnv W}.
Implicit Types (c : cluster_ctx) (w : W).

(** C10: The membership invariant holds in every reachable state.  From
    [cluster_create] on, whatever messages arrive and however the gossip,
    heartbeat and client threads interleave, the table has at most 64 nodes
    with distinct ids, the node itself is first, no node ever changes its
    slot (so a slot's peer connection stays with its node), and the node's
    own page range never changes. *)
Theorem cluster_reachable cfg addr port w :
  config_wf cfg → 0 <= addr < 2 ^ 32 → 0 <= port < 2 ^ 16 →
  ∃ c w', cluster_create true true cfg addr port w = Ret (Some c, w') ∧
    ∀ s, rtc cluster_step (c, w') s →
      cluster_inv s.1 ∧ ctx_self s.1 = ctx_self c ∧ head (members c) = Some (ctx_self c) ∧
      ∀ s', rtc cluster_step s s' →
        (n_id <$> members s.1) `prefix_of` (n_id <$> members s'.1).
Proof.
  intros Hcfg Ha Hp. pose proof (cluster_create_ok cfg addr port w Hcfg Ha Hp) as H.
  apply wp_returns in H as (r & w' & E & c & -> & I & _ & Em & _).
  exists c, w'. split; [done|]. intros s Hs.
  destruct (cluster_steps_keep (c, w') s I Hs) as (I' & Eself & _ & _).
  split_and!; [done|done|by rewrite Em|]. intros s' Hs'. by apply (cluster_steps_keep s s' I').
Qed.

End reachable.

Lemma cluster_reachable_witness : ∃ c w',
  cluster_create true true lab_config 1 9001 lab0 = Ret (Some c, w') ∧ cluster_inv c.
Proof.
  destruct (cluster_reachable lab_config 1 9001 lab0) as (c & w' & E & H).
  - unfold config_wf. simpl. lia.
  - lia.
  - lia.
  - exists c, w'. split; [exact E|]. apply (H (c, w')). apply rtc_refl.
Defined.
