(* ===== verification/ClusterRouting.v ===== *)
(** * Ownership and forwarding

    Which node answers for a page, and where a forwarded request goes. *)

From S2P Require Import Prelude Machine Protocol Node Gossip GossipTheorems Cluster ClusterInv ClusterTheorems ClusterSteps ClusterClaims.

(** ** Connections and where they lead *)

(** [dialled w fd] is the address a descriptor has been connected to. *)
Class Dialling (W : Type) {OO : SockoptOps W} {CO : ClusterOps W} := {
  dialled : W → Z → option sockaddr;
  connect_dials fd a w : wp (sys_connect fd a) (λ r w',
    match r with SysOk _ => dialled w' fd = Some a | SysErr _ => True end) w;
  setsockopt_dials fd o v w : wp (sys_setsockopt fd o v) (λ _ w', dialled w' fd = dialled w fd) w;
}.

(** What every option keeps, the set-up of a socket keeps. *)
Lemma setup_socket_keeps {W} {OO : SockoptOps W} (P : W → Prop) fd (w : W) :
  (∀ o v w, P w → wp (sys_setsockopt fd o v) (λ _, P) w) → P w →
  wp (dsm_setup_socket_optimal fd) (λ _, P) w.
Proof.
  intros Hkeep Hw. apply wp_bind. eapply wp_mono; [by apply Hkeep|].
  intros [[]|e] w1 Hw1; [|by apply wp_ret].
  do 6 (apply wp_bind; eapply wp_mono; [by apply Hkeep|intros ? ? ?]). by apply wp_ret.
Qed.

Lemma setup_socket_dials {W} {OO : SockoptOps W} {CO : ClusterOps W} {DL : Dialling W} fd (w : W) :
  wp (dsm_setup_socket_optimal fd) (λ _ w', dialled w' fd = dialled w fd) w.
Proof.
  apply (setup_socket_keeps (λ w', dialled w' fd = dialled w fd)); [|done]. intros o v w1 E.
  eapply wp_mono; [apply setsockopt_dials|]. intros ? w2 E2. congruence.
Qed.

(** Where the clients of a node connect. *)
Definition client_addr (n : cluster_node) : sockaddr :=
  mk_sockaddr (n_addr n) (htons (n_client_port n)).

(** No connection to [a] can be had now. *)
Definition unreachable {W} {CO : ClusterOps W} (w : W) (a : sockaddr) : Prop :=
  (∃ e w', sys_socket SOCK_STREAM w = Ret (SysErr e, w')) ∨
  (∃ fd w1 e w2, sys_socket SOCK_STREAM w = Ret (SysOk fd, w1) ∧
     sys_connect fd a w1 = Ret (SysErr e, w2)).

(** ** The owner of a page *)

(** The documented rule: a node answers for the pages of its range, start
    included and end excluded, unless it is dead. *)
Definition responsible (n : cluster_node) (p : Z) : Prop :=
  n_state n ≠ NODE_STATE_DEAD ∧ n_range_start n <= p < n_range_end n.

Lemma owns_responsible n p : owns n p = true ↔ responsible n p.
Proof.
  unfold owns, responsible. rewrite !andb_true_iff, negb_true_iff, Z.eqb_neq, Z.leb_le, Z.ltb_lt.
  tauto.
Qed.

(** The node that answers for [p] is in slot [idx]; of several, the first. *)
Definition owner_at (c : cluster_ctx) (p idx : Z) (n : cluster_node) : Prop :=
  zget (members c) idx = Some n ∧ responsible n p ∧
  ∀ j m, 0 <= j < idx → zget (members c) j = Some m → ¬ responsible m p.

Definition no_owner (c : cluster_ctx) (p : Z) : Prop :=
  ∀ n, n ∈ members c → ¬ responsible n p.

Lemma owner_first c p idx n : owner_at c p idx n ↔ first_at (λ n, owns n p) (members c) idx n.
Proof.
  unfold owner_at, first_at. rewrite owns_responsible.
  assert (∀ m, owns m p = false ↔ ¬ responsible m p) as Hn.
  { intros m. by rewrite <- owns_responsible, not_true_iff_false. }
  setoid_rewrite Hn. done.
Qed.

Lemma no_owner_find c p : no_owner c p ↔ find (λ n, owns n p) (members c) = None.
Proof.
  unfold no_owner. split.
  - intros H. destruct (find _ _) as [n|] eqn:E; [|done]. exfalso.
    apply find_some in E as [Hin%list_elem_of_In Ho]. by apply (H n), owns_responsible.
  - intros E n Hin Hr. apply list_elem_of_In in Hin. eapply find_none in E; [|done].
    apply owns_responsible in Hr. congruence.
Qed.

(** The connection in a slot, if there is one, leads to the node. *)
Definition linked {W} {OO : SockoptOps W} {CO : ClusterOps W} {DL : Dialling W}
    (c : cluster_ctx) (w : W) (idx : Z) (n : cluster_node) : Prop :=
  ∀ fd, zget (peer_fds c) idx = Some fd → 0 <= fd → dialled w fd = Some (client_addr n).

Definition not_linked (c : cluster_ctx) (idx : Z) : Prop :=
  ∃ fd, zget (peer_fds c) idx = Some fd ∧ fd < 0.

(** A connection to the node in slot [idx] is at hand: the one in the slot,
    or a new one, which is now in the slot. *)
Definition at_hand {W} {OO : SockoptOps W} {CO : ClusterOps W} {DL : Dialling W}
    (c : cluster_ctx) (w : W) (idx : Z) (n : cluster_node) (fd : Z) (c1 : cluster_ctx) (w1 : W) : Prop :=
  0 <= fd ∧ dialled w1 fd = Some (client_addr n) ∧
  ((zget (peer_fds c) idx = Some fd ∧ c1 = c ∧ w1 = w) ∨
   (not_linked c idx ∧ c1 = set_peer_fds (zupd (peer_fds c) idx fd) c)).

Section routing.
Context {W : Type} {SO : SocketOps W} {DO : DatagramOps W} {OO : SockoptOps W}
  {CO : ClusterOps W} {CE : ClusterEnv W}.
Implicit Types (c : cluster_ctx) (w : W) (n : cluster_node).

Lemma cluster_get_owner_run p c w :
  cluster_inv c →
  cluster_get_owner p (c, w) = Ret (find (λ n, owns n p) (members c), (c, w)).
Proof.
  intros I. pose proof (cluster_get_owner_ok p c w I) as H.
  apply wp_returns in H as (r & s & E & -> & ->). done.
Qed.

(** C16: [cluster_get_owner] finds an owner exactly when the table has one: a
    node that is not dead and whose range contains the page.  Of several it
    takes the first in the table, and it changes nothing. *)
Theorem cluster_get_owner_correct p c w :
  cluster_inv c →
  wp (cluster_get_owner p) (λ r s, s = (c, w) ∧
    (∀ n, r = Some n ↔ ∃ idx, zget (members c) idx = Some n ∧
       (n_state n ≠ NODE_STATE_DEAD ∧ n_range_start n <= p < n_range_end n) ∧
       ∀ j m, 0 <= j < idx → zget (members c) j = Some m →
         ¬ (n_state m ≠ NODE_STATE_DEAD ∧ n_range_start m <= p < n_range_end m)) ∧
    (r = None ↔ ∀ n, n ∈ members c →
       ¬ (n_state n ≠ NODE_STATE_DEAD ∧ n_range_start n <= p < n_range_end n))) (c, w).
Proof.
  intros I. eapply wp_mono; [by apply cluster_get_owner_ok|].
  intros r s [-> ->]. split_and!; [done| |].
  - intros n. split.
    + intros [idx Hi]%find_first. exists idx. by apply owner_first.
    + intros [idx Hi]. by eapply first_at_find, owner_first.
  - symmetry. apply no_owner_find.
Qed.

(** ** The connection to a node *)

Lemma find_node_slot c w n idx :
  cluster_inv c → zget (members c) idx = Some n →
  find_node_by_id (n_id n) (c, w) = Ret (idx, (c, w)).
Proof.
  intros I Hn. pose proof (zget_Some_range _ _ _ Hn) as Hr.
  pose proof (find_node_ok (n_id n) c w I) as Hf. apply wp_returns in Hf as (j & s' & -> & -> & Hj).
  do 2 f_equal. destruct Hj as [(-> & Hno)|(Hj & m & Hm & Hid)].
  { exfalso. apply Hno. apply list_elem_of_fmap. exists n. split; [done|by eapply zget_elem]. }
  rewrite <- zget_members in Hm by (done || lia).
  pose proof (zget_Some_range _ _ _ Hm). rewrite zget_lookup in Hm, Hn by lia.
  apply Z2Nat.inj; [lia|lia|].
  eapply (NoDup_lookup _ _ _ (n_id n) (ci_ids _ I)); rewrite list_lookup_fmap; [by rewrite Hm, <- Hid|].
  by rewrite Hn.
Qed.

Context {DL : Dialling W}.

Lemma get_peer_connection_at n c w idx :
  cluster_inv c → zget (members c) idx = Some n → linked c w idx n →
  (∃ fd c1 w1, at_hand c w idx n fd c1 w1 ∧ get_peer_connection n (c, w) = Ret (fd, (c1, w1))) ∨
  (not_linked c idx ∧ unreachable w (client_addr n) ∧
   ∃ w', get_peer_connection n (c, w) = Ret (-1, (c, w'))).
Proof.
  intros I Hn Hl. pose proof (zget_Some_range _ _ _ Hn) as Hr. rewrite length_members in Hr by done.
  pose proof (ci_count _ I). pose proof (ci_peers _ I).
  destruct (zget_in_range (peer_fds c) idx) as [p Hp]; [lia|].
  unfold get_peer_connection, mbind, M_bind. rewrite (find_node_slot _ _ _ _ I Hn).
  destruct (Z.ltb_spec idx 0); [lia|]. unfold xget, gets, load. simpl. rewrite Hp. simpl.
  destruct (Z.leb_spec 0 p) as [Hp0|Hp0].
  { left. exists p, c, w. split; [|done]. split_and!; [done|by apply Hl|]. by left. }
  assert (not_linked c idx) as Hnl by (by exists p).
  pose proof (socket_ok SOCK_STREAM w) as Hs.
  apply wp_returns in Hs as ([fd|e] & w1 & Es & _ & Hfd); rewrite (on_snd_run _ _ _ _ _ Es).
  2: { right. split_and!; [done|left; by exists e, w1|by exists w1]. }
  change (mk_sockaddr (n_addr n) (htons (n_client_port n))) with (client_addr n).
  pose proof (connect_dials fd (client_addr n) w1) as Hc.
  apply wp_returns in Hc as ([[]|e] & w2 & Ec & Hd); rewrite (on_snd_run _ _ _ _ _ Ec).
  2: { right. pose proof (close_ok fd w2) as Hx. apply wp_returns in Hx as ([] & w3 & Ex & _).
       rewrite (on_snd_run _ _ _ _ _ Ex).
       split_and!; [done|right; by exists fd, w1, e, w2|by exists w3]. }
  left. pose proof (setup_socket_dials fd w2) as Ho. apply wp_returns in Ho as (r & w3 & Eo & Hd3).
  rewrite (on_snd_run _ _ _ _ _ Eo). unfold store.
  destruct (Z.leb_spec 0 idx); [|lia]. destruct (Z.ltb_spec idx (zlen (peer_fds c))); [|lia].
  eexists fd, _, w3. split; [|reflexivity]. split_and!; [done|congruence|]. right. done.
Qed.

Lemma forward_run fuel p buf c w :
  cluster_inv c →
  (∀ idx n, owner_at c p idx n → linked c w idx n →
     (∃ fd c1 w1, at_hand c w idx n fd c1 w1 ∧
        cluster_forward_get fuel p buf (c, w) = on_snd (dsm_rpc_get fuel fd p buf) (c1, w1) ∧
        cluster_forward_put fuel p buf (c, w) = on_snd (dsm_rpc_put fuel fd p buf) (c1, w1)) ∨
     (not_linked c idx ∧ unreachable w (client_addr n) ∧ ∃ w',
        cluster_forward_get fuel p buf (c, w) = Ret ((-1, buf), (c, w')) ∧
        cluster_forward_put fuel p buf (c, w) = Ret (-1, (c, w')))) ∧
  (no_owner c p →
     cluster_forward_get fuel p buf (c, w) = Ret ((-1, buf), (c, w)) ∧
     cluster_forward_put fuel p buf (c, w) = Ret (-1, (c, w))).
Proof.
  intros I. unfold cluster_forward_get, cluster_forward_put, mbind, M_bind.
  rewrite cluster_get_owner_run by done. split.
  - intros idx n Ho Hl. rewrite (first_at_find _ _ _ _ (proj1 (owner_first _ _ _ _) Ho)).
    destruct (get_peer_connection_at n c w idx I (proj1 Ho) Hl)
      as [(fd & c1 & w1 & Ha & ->)|(Hnl & Hu & w' & ->)].
    + left. exists fd, c1, w1. pose proof Ha as (H0 & _). by destruct (Z.ltb_spec fd 0); [lia|].
    + right. split_and!; [done|done|]. by exists w'.
  - by intros ->%no_owner_find.
Qed.

(** C17: Forwarding goes to the owner.  A request for a page that has an owner
    is exactly the RPC on a connection to the owner's address and client
    port: the one in the owner's slot, or one made now, which stays in the
    slot.  It fails without an RPC exactly when there is no owner, or no
    connection to the owner and none can be made. *)
Theorem forward_reaches_owner fuel p buf c w :
  cluster_inv c →
  (∀ idx n, owner_at c p idx n → linked c w idx n →
     (∃ fd c1 w1, at_hand c w idx n fd c1 w1 ∧
        cluster_forward_get fuel p buf (c, w) = on_snd (dsm_rpc_get fuel fd p buf) (c1, w1) ∧
        cluster_forward_put fuel p buf (c, w) = on_snd (dsm_rpc_put fuel fd p buf) (c1, w1)) ∨
     (not_linked c idx ∧ unreachable w (client_addr n) ∧ ∃ w',
        cluster_forward_get fuel p buf (c, w) = Ret ((-1, buf), (c, w')) ∧
        cluster_forward_put fuel p buf (c, w) = Ret (-1, (c, w')))) ∧
  (no_owner c p →
     cluster_forward_get fuel p buf (c, w) = Ret ((-1, buf), (c, w)) ∧
     cluster_forward_put fuel p buf (c, w) = Ret (-1, (c, w))).
Proof. apply forward_run. Qed.

End routing.

(** ** Examples *)

#[export] Program Instance lab_dialling : Dialling lab := {|
  dialled w fd := snd <$> find (λ l, l.1 =? fd) (lab_links w);
|}.
Next Obligation.
  intros fd a w. apply wp_returns. do 2 eexists. split; [done|]. simpl. by rewrite Z.eqb_refl.
Qed.
Next Obligation. intros. by apply wp_ret. Qed.

Lemma cluster_get_owner_correct_witness :
  wp (cluster_get_owner 8) (λ r s, s = (lab_ctx, lab0) ∧ r ≠ None) (lab_ctx, lab0).
Proof.
  eapply wp_mono; [apply (cluster_get_owner_correct 8 lab_ctx lab0); exact lab_ctx_inv|].
  intros r s (E & _ & H). split; [exact E|]. intros Hr. apply (proj1 H Hr lab_peer).
  - right. left.
  - split; [discriminate|simpl; lia].
Defined.

(** Page 9 belongs to the peer, to which descriptor 7 is connected; page 99 to
    nobody. *)
Lemma forward_reaches_owner_witness :
  (∃ fd c1 w1, at_hand lab_ctx lab0 1 lab_peer fd c1 w1 ∧
     cluster_forward_put 3 9 zero_page (lab_ctx, lab0) =
       on_snd (dsm_rpc_put 3 fd 9 zero_page) (c1, w1)) ∧
  cluster_forward_put 3 99 zero_page (lab_ctx, lab0) = Ret (-1, (lab_ctx, lab0)).
Proof.
  split.
  - destruct (proj1 (forward_reaches_owner 3 9 zero_page lab_ctx lab0 lab_ctx_inv) 1 lab_peer)
      as [(fd & c1 & w1 & H1 & _ & H2)|((fd & [= <-] & ?) & _)]; [| | |lia].
    + split; [reflexivity|]. split; [split; [discriminate|simpl; lia]|].
      intros j m Hj Hm. assert (j = 0) as -> by lia. injection Hm as <-. unfold responsible. simpl. lia.
    + intros fd [= <-] _. reflexivity.
    + exists fd, c1, w1. split; [exact H1|exact H2].
  - apply (proj2 (forward_reaches_owner 3 99 zero_page lab_ctx lab0 lab_ctx_inv)).
    apply no_owner_find. reflexivity.
Defined.
