(* ===== verification/Server.v ===== *)
(** * The server: [src/dsm_server.c]

    The thread that serves one client, the set-up of the listening socket,
    and the accept loop with its table of client threads. *)

From Stdlib Require Import Strings.String.
From S2P Require Import Prelude Machine Protocol Node Gossip Cluster.

(** The globals: the page store and the optional cluster context. *)
Record server := mk_server {
  g_storage : list byte;
  g_storage_pages : Z;
  g_cluster : option cluster_ctx;
}.

Definition set_g_storage v s := mk_server v (g_storage_pages s) (g_cluster s).
Definition set_g_cluster v s := mk_server (g_storage s) (g_storage_pages s) v.

(** An entry of [getifaddrs]: the family and address, if it has one. *)
Record ifaddr := mk_ifaddr {
  ifa_name : String.string;
  ifa_addr : option (Z * Z);
}.

Definition AF_INET : Z := 2.

(** Of the allocator only success and failure matter: a block is released
    by the path that holds it.  [sys_mmap] takes the length; a thread is
    created with the descriptor of its argument block. *)
Class ServerOps (W : Type) := {
  load_running : M W bool;
  sys_getifaddrs : M W (option (list ifaddr));
  sys_listen : Z → Z → M W (sysres unit);
  sys_accept : Z → M W (sysres Z);
  sys_shutdown : Z → M W unit;
  sys_malloc : M W bool;
  sys_realloc : M W bool;
  sys_free : M W unit;
  sys_mmap : Z → M W bool;
  sys_munmap : M W unit;
  client_thread_create : Z → M W (option Z);
  thread_tryjoin : Z → M W bool;
  thread_join : Z → M W unit;
}.

Section server.
Context {W : Type} {SO : SocketOps W} {DO : DatagramOps W} {OO : SockoptOps W}
  {CO : ClusterOps W} {VO : ServerOps W}.

Definition SS : Type := server * W.

Definition vget {A} (f : server → A) : M SS A := gets (λ s, f s.1).
Definition vmod (f : server → server) : M SS unit := modify (λ s, (f s.1, s.2)).

(** A call into the cluster module; [g_cluster] is not [NULL]. *)
Definition in_cluster {A} (m : M CS A) : M SS A := λ s,
  match g_cluster s.1 with
  | None => Undef
  | Some c =>
      match m (c, s.2) with
      | Ret (a, (c', w')) => Ret (a, (set_g_cluster (Some c') s.1, w'))
      | Undef => Undef
      | Diverge => Diverge
      | Killed => Killed
      end
  end.

(** ** Serving a client *)

Definition is_local_page (page_id : Z) : M SS bool :=
  g ← vget g_cluster;
  match g with
  | None => mret true
  | Some _ => in_cluster (cluster_is_local page_id)
  end.

Definition has_cluster : M SS bool :=
  g ← vget g_cluster; mret (match g with Some _ => true | None => false end).

(** [break] leaves the loop, and so the thread; its result is [Some tt]. *)
Definition reply (fuel : nat) (client_fd : Z) (bs : list byte) : M SS (option unit) :=
  s ← on_snd (dsm_send_full fuel client_fd bs 0);
  mret (if s <? 0 then Some tt else None).

Definition serve_get (fuel : nat) (client_fd page_id : Z) (is_local : bool) : M SS (option unit) :=
  pages ← vget g_storage_pages;
  cluster ← has_cluster;
  if is_local && (page_id <? pages) then
    st ← vget g_storage;
    data ← load_region st (page_id * PAGE_SIZE) page_bytes;
    reply fuel client_fd data
  else if (cluster : bool) then
    '(r, page_buf) ← in_cluster (cluster_forward_get fuel page_id zero_page);
    if r =? 0 then reply fuel client_fd page_buf
    else reply fuel client_fd zero_page
  else reply fuel client_fd zero_page.

Definition serve_put (fuel : nat) (client_fd page_id : Z) (is_local : bool) : M SS (option unit) :=
  '(r, page_buf) ← on_snd (dsm_recv_full fuel client_fd zero_page);
  if r <? 0 then mret (Some tt) else
  pages ← vget g_storage_pages;
  cluster ← has_cluster;
  let ack := dsm_rpc_make_header OP_ACK page_id in
  if is_local && (page_id <? pages) then
    st ← vget g_storage;
    st' ← store_region st (page_id * PAGE_SIZE) page_buf;
    vmod (set_g_storage st');;
    reply fuel client_fd (header_bytes ack)
  else if (cluster : bool) then
    f ← in_cluster (cluster_forward_put fuel page_id page_buf);
    if f <? 0 then mret (Some tt)
    else reply fuel client_fd (header_bytes ack)
  else mret (Some tt).

(** One iteration of the loop of [handle_client_thread].  The request and the
    page buffer are locals that are read only after they have been filled:
    zeros stand for their first contents.  The three counters of the thread
    only feed a debug line and are left out. *)
Definition handle_request (fuel : nat) (client_fd : Z) : M SS (option unit) :=
  '(r, bytes) ← on_snd (dsm_recv_full fuel client_fd (replicate header_size Byte.x00));
  if r <? 0 then mret (Some tt) else
  let req := header_of_bytes bytes in
  is_local ← is_local_page (hdr_page_id req);
  if hdr_op req =? OP_GET_PAGE then serve_get fuel client_fd (hdr_page_id req) is_local
  else if hdr_op req =? OP_PUT_PAGE then serve_put fuel client_fd (hdr_page_id req) is_local
  else mret None.

(** [n] bounds the number of requests, [fuel] the transfers.  At its end the
    thread frees its argument. *)
Definition handle_client_thread (n fuel : nat) (client_fd : Z) : M SS unit :=
  loop n (
    running ← on_snd load_running;
    if negb running then mret (Some tt) else handle_request fuel client_fd);;
  on_snd sys_free.

(** ** Set-up *)

(** The first interface that has an IPv4 address and is not the loopback. *)
Fixpoint first_ipv4 (ifas : list ifaddr) (addr : Z) : Z :=
  match ifas with
  | [] => addr
  | i :: ifas =>
      match ifa_addr i with
      | None => first_ipv4 ifas addr
      | Some (family, a) =>
          if negb (family =? AF_INET) then first_ipv4 ifas addr
          else if String.eqb (ifa_name i) "lo"%string then first_ipv4 ifas addr
          else a
      end
  end.

(** [htonl(INADDR_LOOPBACK)] on a little-endian host. *)
Definition LOOPBACK : Z := 0x0100007F.

Definition get_local_addr : M W Z :=
  r ← sys_getifaddrs;
  match r with
  | None => mret LOOPBACK
  | Some ifas => mret (first_ipv4 ifas LOOPBACK)
  end.

(** [bind_addr] is the result of [inet_pton] on the configured address. *)
Definition start_server (port : Z) (bind_addr : option Z) : M W Z :=
  r ← sys_socket SOCK_STREAM;
  match r with
  | SysErr _ => mret (-1)
  | SysOk listen_fd =>
      let fail := sys_close listen_fd;; mret (-1) in
      o ← sys_setsockopt listen_fd SO_REUSEADDR 1;
      match o with
      | SysErr _ => fail
      | SysOk _ =>
          sys_setsockopt listen_fd TCP_DEFER_ACCEPT 1;;
          match bind_addr with
          | None => fail
          | Some a =>
              b ← sys_bind listen_fd (mk_sockaddr a (htons port));
              match b with
              | SysErr _ => fail
              | SysOk _ =>
                  l ← sys_listen listen_fd 128;
                  match l with
                  | SysErr _ => fail
                  | SysOk _ => mret listen_fd
                  end
              end
          end
      end
  end.

(** ** The accept loop *)

Definition MAX_CLIENTS : Z := 256.

Record client_slot := mk_slot {
  slot_tid : Z;
  slot_fd : Z;
}.

(** The locals of [main]: the array of slots, its capacity and its fill. *)
Record slot_table := mk_slots {
  slots : list client_slot;
  slot_cap : Z;
  slot_count : Z;
}.

Definition TS : Type := slot_table * W.

Definition tget {A} (f : slot_table → A) : M TS A := gets (λ s, f s.1).
Definition tmod (f : slot_table → slot_table) : M TS unit := modify (λ s, (f s.1, s.2)).

Definition set_slots v t := mk_slots v (slot_cap t) (slot_count t).
Definition set_slot_count v t := mk_slots (slots t) (slot_cap t) v.
Definition set_slot_cap v t := mk_slots (slots t) v (slot_count t).

(** Join the threads that have finished, close their sockets and close up the
    rest; the result is [kept]. *)
Fixpoint reap_slots (idx : list Z) (kept : Z) : M TS Z :=
  match idx with
  | [] => mret kept
  | i :: idx =>
      ss ← tget slots;
      s ← load ss i;
      done ← on_snd (thread_tryjoin (slot_tid s));
      if (done : bool) then
        on_snd (sys_close (slot_fd s));;
        reap_slots idx kept
      else
        ss' ← store ss kept s;
        tmod (set_slots ss');;
        reap_slots idx (kept + 1)
  end.

(** Room for one more client: reap, then double the array.  [false] when the
    array is full and cannot grow. *)
Definition make_room : M TS bool :=
  n ← tget slot_count;
  cap ← tget slot_cap;
  if n =? cap then
    kept ← reap_slots (seqZ 0 n) 0;
    tmod (set_slot_count kept);;
    if kept =? cap then
      ok ← on_snd sys_realloc;
      if negb ok then mret false else
      ss ← tget slots;
      tmod (set_slots (ss ++ replicate (Z.to_nat cap) (mk_slot 0 0)));;
      tmod (set_slot_cap (2 * cap));;
      mret true
    else mret true
  else mret true.

(** One iteration of the accept loop; [Some tt] is its [break]. *)
Definition accept_iteration (listen_fd : Z) : M TS (option unit) :=
  r ← on_snd (sys_accept listen_fd);
  match r with
  | SysErr e => mret (if e =? EINTR then None else Some tt)
  | SysOk client_fd =>
      on_snd (dsm_setup_socket_optimal client_fd);;
      cta ← on_snd sys_malloc;
      if negb cta then on_snd (sys_close client_fd);; mret None else
      room ← make_room;
      if negb room then on_snd (sys_close client_fd);; on_snd sys_free;; mret None else
      t ← on_snd (client_thread_create client_fd);
      match t with
      | None => on_snd (sys_close client_fd);; on_snd sys_free;; mret None
      | Some tid =>
          ss ← tget slots;
          n ← tget slot_count;
          ss' ← store ss n (mk_slot tid client_fd);
          tmod (set_slots ss');;
          tmod (set_slot_count (n + 1));;
          mret None
      end
  end.

Definition accept_loop (n : nat) (listen_fd : Z) : M TS unit :=
  loop n (
    running ← on_snd load_running;
    if negb running then mret (Some tt) else accept_iteration listen_fd).

(** After the loop: wake the client threads, wait for them, close their
    sockets. *)
Definition shutdown_clients (listen_fd : Z) : M TS unit :=
  on_snd (sys_close listen_fd);;
  n ← tget slot_count;
  for_each (seqZ 0 n) (λ i, ss ← tget slots; s ← load ss i; on_snd (sys_shutdown (slot_fd s)));;
  for_each (seqZ 0 n) (λ i,
    ss ← tget slots;
    s ← load ss i;
    on_snd (thread_join (slot_tid s));;
    on_snd (sys_close (slot_fd s))).

End server.
