(* ===== verification/ServerSpec.v ===== *)
(** * The server as a stream transformer

    The reference semantics of a server without a cluster: the bytes a client
    has sent are a sequence of requests, each answered from the store.
    [serve] is the stream function the client sees; the thread that serves a
    client implements it. *)

From S2P Require Import Prelude Machine Protocol Node Gossip Cluster Server.

Inductive request :=
| RqGet (id : Z)
| RqPut (id : Z) (data : list byte)
| RqOther (h : dsm_rpc_header).

(** The next complete request of a stream. *)
Definition next_request (input : list byte) : option (request * list byte) :=
  if (length input <? header_size)%nat then None else
  let h := header_of_bytes (take header_size input) in
  let rest := drop header_size input in
  if hdr_op h =? OP_GET_PAGE then Some (RqGet (hdr_page_id h), rest)
  else if hdr_op h =? OP_PUT_PAGE then
    if (length rest <? page_bytes)%nat then None
    else Some (RqPut (hdr_page_id h) (take page_bytes rest), drop page_bytes rest)
  else Some (RqOther h, rest).

(** A page of the store. *)
Definition stored_page (st : list byte) (id : Z) : list byte :=
  slice st (Z.to_nat (id * PAGE_SIZE)) page_bytes.

(** The answer to a request and the new store; [None] ends the connection. *)
Definition answer (pages : Z) (st : list byte) (r : request) : option (list byte * list byte) :=
  match r with
  | RqGet id => Some (if id <? pages then stored_page st id else zero_page, st)
  | RqPut id data =>
      if id <? pages then
        Some (header_bytes (dsm_rpc_make_header OP_ACK id),
              splice st (Z.to_nat (id * PAGE_SIZE)) data)
      else None
  | RqOther _ => Some ([], st)
  end.

(** At most [n] requests: the answers, the store, and the bytes left. *)
Fixpoint serve_n (n : nat) (pages : Z) (st input : list byte) : list byte * list byte * list byte :=
  match n with
  | O => ([], st, input)
  | S n =>
      match next_request input with
      | None => ([], st, input)
      | Some (r, rest) =>
          match answer pages st r with
          | None => ([], st, input)
          | Some (out, st') =>
              let '(outs, st'', rest') := serve_n n pages st' rest in
              (out ++ outs, st'', rest')
          end
      end
  end.

(** A request has at least a header, so this many are enough. *)
Definition serve (pages : Z) (st input : list byte) : list byte * list byte * list byte :=
  serve_n (length input) pages st input.

Definition serve_out pages st input := (serve pages st input).1.1.
Definition serve_store pages st input := (serve pages st input).1.2.
Definition serve_rest pages st input := (serve pages st input).2.

(** ** Requests *)

Lemma next_request_bytes input r rest :
  next_request input = Some (r, rest) → ∃ pre, input = pre ++ rest ∧ (header_size ≤ length pre)%nat.
Proof.
  unfold next_request. destruct (Nat.ltb_spec (length input) header_size) as [|Hl]; [done|].
  assert (∀ k, (header_size ≤ k)%nat → (k ≤ length input)%nat →
    ∃ pre, input = pre ++ drop k input ∧ (header_size ≤ length pre)%nat) as Hk.
  { intros k H1 H2. exists (take k input). rewrite take_drop, length_take. split; [done|lia]. }
  repeat case_match; intros; simplify_eq; try (by apply Hk).
  rewrite drop_drop. apply Hk; [lia|].
  match goal with H : (_ <? _)%nat = false |- _ => apply Nat.ltb_ge in H; rewrite length_drop in H end.
  lia.
Qed.

Lemma next_request_app input more r rest :
  next_request input = Some (r, rest) → next_request (input ++ more) = Some (r, rest ++ more).
Proof.
  unfold next_request. destruct (Nat.ltb_spec (length input) header_size) as [|Hl]; [done|].
  rewrite length_app. destruct (Nat.ltb_spec (length input + length more) header_size); [lia|].
  rewrite take_app_le, drop_app_le by lia.
  case_match; [by intros [= <- <-]|]. case_match; [|by intros [= <- <-]].
  rewrite length_app.
  destruct (Nat.ltb_spec (length (drop header_size input)) page_bytes); [done|].
  destruct (Nat.ltb_spec (length (drop header_size input) + length more) page_bytes); [lia|].
  rewrite take_app_le, drop_app_le by lia. by intros [= <- <-].
Qed.

(** More fuel than requests changes nothing. *)
Lemma serve_n_fuel n m pages st input :
  (length input ≤ n)%nat → (length input ≤ m)%nat →
  serve_n n pages st input = serve_n m pages st input.
Proof.
  revert m st input. induction n as [|n IH]; intros m st input Hn Hm.
  - destruct input; [|simpl in Hn; lia]. by destruct m.
  - destruct m as [|m].
    { destruct input; [done|simpl in Hm; lia]. }
    simpl. destruct (next_request input) as [[r rest]|] eqn:E; [|done].
    destruct (answer pages st r) as [[out st']|]; [|done].
    apply next_request_bytes in E as (pre & -> & Hpre). rewrite length_app in *.
    unfold header_size in *. by rewrite (IH m) by lia.
Qed.

(** One request at a time. *)
Lemma serve_step pages st input r rest out st' :
  next_request input = Some (r, rest) → answer pages st r = Some (out, st') →
  serve pages st input =
    (out ++ serve_out pages st' rest, serve_store pages st' rest, serve_rest pages st' rest).
Proof.
  intros E Ea. unfold serve at 1. pose proof (next_request_bytes _ _ _ E) as (pre & Hin & Hpre).
  assert (length input = length pre + length rest)%nat as Hl by (rewrite Hin; apply length_app).
  destruct (length input) as [|n] eqn:El; [unfold header_size in *; lia|].
  simpl. rewrite E, Ea. unfold header_size in *.
  rewrite (serve_n_fuel n (length rest)) by lia.
  unfold serve_out, serve_store, serve_rest, serve.
  by destruct (serve_n (length rest) pages st' rest) as [[outs st''] rest'].
Qed.

(** When everything has been served, what follows is served on its own. *)
Lemma serve_app pages st a b :
  serve_rest pages st a = [] →
  serve_out pages st (a ++ b) = serve_out pages st a ++ serve_out pages (serve_store pages st a) b ∧
  serve_store pages st (a ++ b) = serve_store pages (serve_store pages st a) b ∧
  serve_rest pages st (a ++ b) = serve_rest pages (serve_store pages st a) b.
Proof.
  remember (length a) as n eqn:Hn. revert a st Hn.
  induction n as [n IH] using lt_wf_ind. intros a st -> Hrest.
  destruct (next_request a) as [[r rest]|] eqn:E.
  - destruct (answer pages st r) as [[out st']|] eqn:Ea.
    + pose proof (serve_step _ _ _ _ _ _ _ E Ea) as Es.
      pose proof (serve_step _ _ _ _ _ _ _ (next_request_app _ b _ _ E) Ea) as Es'.
      pose proof (next_request_bytes _ _ _ E) as (pre & Hin & Hpre).
      unfold serve_out, serve_store, serve_rest in *. rewrite Es, Es' in *. cbn [fst snd] in *.
      edestruct (IH (length rest)) as (H1 & H2 & H3); [|done|exact Hrest|].
      { rewrite Hin, length_app. unfold header_size in *. lia. }
      rewrite H1, H2, H3. by rewrite app_assoc.
    + assert (serve pages st a = ([], st, a)) as Es.
      { unfold serve. destruct (length a) eqn:El; [done|]. simpl. by rewrite E, Ea. }
      unfold serve_rest in Hrest. rewrite Es in Hrest. simpl in Hrest. subst a. done.
  - assert (serve pages st a = ([], st, a)) as Es.
    { unfold serve. destruct (length a) eqn:El; [done|]. simpl. by rewrite E. }
    unfold serve_rest in Hrest. rewrite Es in Hrest. simpl in Hrest. subst a. done.
Qed.

(** Answers are never revoked. *)
Lemma serve_out_mono pages st a b :
  serve_out pages st a `prefix_of` serve_out pages st (a ++ b).
Proof.
  remember (length a) as n eqn:Hn. revert a st Hn.
  induction n as [n IH] using lt_wf_ind. intros a st ->.
  destruct (next_request a) as [[r rest]|] eqn:E.
  2: { assert (serve_out pages st a = []) as ->; [|apply prefix_nil].
       unfold serve_out, serve. destruct (length a); [done|]. simpl. by rewrite E. }
  destruct (answer pages st r) as [[out st']|] eqn:Ea.
  2: { assert (serve_out pages st a = []) as ->; [|apply prefix_nil].
       unfold serve_out, serve. destruct (length a); [done|]. simpl. by rewrite E, Ea. }
  pose proof (next_request_bytes _ _ _ E) as (pre & Hin & Hpre).
  unfold serve_out at 1 2. rewrite (serve_step _ _ _ _ _ _ _ E Ea).
  rewrite (serve_step _ _ _ _ _ _ _ (next_request_app _ b _ _ E) Ea). cbn [fst snd].
  apply prefix_app. apply (IH (length rest)); [|done].
  rewrite Hin, length_app. unfold header_size in *. lia.
Qed.

Lemma serve_n_add m n pages st input out st' rest :
  serve_n m pages st input = (out, st', rest) →
  serve_n (m + n) pages st input =
    ((out ++ (serve_n n pages st' rest).1.1), (serve_n n pages st' rest).1.2,
     (serve_n n pages st' rest).2).
Proof.
  revert st input out. induction m as [|m IH]; intros st input out; simpl.
  - intros [= <- <- <-]. by destruct (serve_n n pages st input) as [[? ?] ?].
  - destruct (next_request input) as [[r rest0]|] eqn:E.
    2: { intros [= <- <- <-]. destruct n; simpl; [done|]. by rewrite E. }
    destruct (answer pages st r) as [[o st1]|] eqn:Ea.
    2: { intros [= <- <- <-]. destruct n; simpl; [done|]. by rewrite E, Ea. }
    destruct (serve_n m pages st1 rest0) as [[outs st2] rest2] eqn:Es.
    intros [= <- <- <-]. rewrite (IH _ _ _ Es). simpl. by rewrite app_assoc.
Qed.

(** There is nothing more to serve: no complete request, or one that is
    refused. *)
Definition served_out (pages : Z) (st input : list byte) : Prop :=
  ∀ rq rest, next_request input = Some (rq, rest) → answer pages st rq = None.

(** Serving until there is nothing more to serve is serving everything. *)
Lemma serve_n_served_out m pages st input out st' rest :
  serve_n m pages st input = (out, st', rest) → served_out pages st' rest →
  serve pages st input = (out, st', rest).
Proof.
  intros Hm Hend. unfold serve.
  rewrite (serve_n_fuel (length input) (m + length input)) by lia.
  rewrite (serve_n_add _ (length input) _ _ _ _ _ _ Hm).
  assert (serve_n (length input) pages st' rest = ([], st', rest)) as ->; [|simpl; by rewrite app_nil_r].
  destruct (length input) as [|n]; [done|]. simpl.
  destruct (next_request rest) as [[rq rest']|] eqn:E; [|done]. by rewrite (Hend _ _ E).
Qed.
