(* ===== verification/ServerTheorems.v ===== *)
(** * The thread that serves a client implements [serve] *)

From S2P Require Import Prelude Machine Protocol PageService Node Gossip Cluster Server ServerSpec.

(** Reading the shutdown flag does not touch the sockets.  [faultless w fd]
    says that no call on [fd] will fail (it may still be interrupted, or
    transfer a part only) and that no shutdown is to come. *)
Class ServerEnv (W : Type) `{Links W} `{ServerOps W} := {
  faultless_running fd w b w' : faultless w fd → load_running w = Ret (b, w') →
    b = true ∧ faultless w' fd;
  running_ok w : wp load_running (λ _ w', ∀ fd, sent w' fd = sent w fd ∧
    pending w' fd = pending w fd ∧ hangup w' fd = hangup w fd ∧
    (interrupts w' ≤ interrupts w)%nat) w;
  free_ok w : wp sys_free (λ _ w', ∀ fd, sent w' fd = sent w fd) w;
}.

(** A server without a cluster, with a store for [pages] pages. *)
Definition store_ok (pages : Z) (sv : server) : Prop :=
  g_cluster sv = None ∧ g_storage_pages sv = pages ∧ 0 <= pages <= UINT32_MAX ∧
  zlen (g_storage sv) = pages * PAGE_SIZE.

Lemma length_stored_page pages st id :
  zlen st = pages * PAGE_SIZE → 0 <= id < pages → length (stored_page st id) = page_bytes.
Proof.
  intros Hl Hid. apply length_slice. pose proof page_bytes_Z.
  unfold zlen, PAGE_SIZE in *. nia.
Qed.

Lemma zlen_answer pages st r out st' :
  zlen st = pages * PAGE_SIZE →
  match r with
  | RqGet id => 0 <= id
  | RqPut id data => 0 <= id ∧ length data = page_bytes
  | RqOther _ => True
  end →
  answer pages st r = Some (out, st') → zlen st' = pages * PAGE_SIZE.
Proof.
  intros Hl Hr Ha. destruct r as [id|id data|h]; simpl in Ha; [by simplify_eq| |by simplify_eq].
  destruct Hr as [H0 Hd]. destruct (Z.ltb_spec id pages); [|done]. simplify_eq.
  unfold zlen in *. rewrite length_splice; [done|]. pose proof page_bytes_Z.
  unfold PAGE_SIZE in *. nia.
Qed.

Section serve_thread.
Context {W : Type} {SO : SocketOps W} {SK : Sockets W} {DO : DatagramOps W} {OO : SockoptOps W}
  {CO : ClusterOps W} {VO : ServerOps W} {LK : Links W} {VE : ServerEnv W}.
Context (fd pages : Z).
Implicit Types (sv : server) (w : W) (s : SS (W:=W)).

Lemma recv_full_ok fuel buf w :
  (length buf + interrupts w ≤ fuel)%nat → hangup w fd = true →
  wp (dsm_recv_full fuel fd buf) (λ res w', received_post w fd buf 0 res w' ∧
    (faultless w fd → (res.1 = 0 ∧ faultless w' fd) ∨
       (res.1 = -1 ∧ (length (pending w fd) < length buf)%nat))) w.
Proof.
  intros Hf Hh. apply wp_strengthen; [apply dsm_recv_full_ok; [done|by right]|].
  intros [r buf'] w' E Hw. pose proof (recv_faultless _ _ _ _ _ _ _ _ E (or_intror Hh) Hw) as H.
  by rewrite Nat.sub_0_r in H.
Qed.

(** The state of the connection when the thread has consumed its input up to
    [rest] and sent [out]. *)
Definition progressed w (rest out : list byte) (w' : W) : Prop :=
  pending w' fd = rest ∧ sent w' fd = sent w fd ++ out ∧ hangup w' fd = true ∧
  (interrupts w' ≤ interrupts w)%nat.

(** How an iteration ends: it has answered one request in full, or it is the
    last one and has answered at most one request, perhaps in part.  Without
    faults the last one is the one that finds nothing more to serve. *)
Definition request_post sv w (r : option unit) s : Prop :=
  store_ok pages s.1 ∧
  match r with
  | None => ∃ rq rest out, next_request (pending w fd) = Some (rq, rest) ∧
      answer pages (g_storage sv) rq = Some (out, g_storage s.1) ∧ progressed w rest out s.2 ∧
      (faultless w fd → faultless s.2 fd)
  | Some _ => ∃ n k out rest,
      serve_n n pages (g_storage sv) (pending w fd) = (out, g_storage s.1, rest) ∧
      sent s.2 fd = sent w fd ++ take k out ∧
      (faultless w fd → n = 0%nat ∧ served_out pages (g_storage sv) (pending w fd))
  end.

Lemma request_post_stop sv w w' :
  store_ok pages sv → sent w' fd = sent w fd →
  (faultless w fd → served_out pages (g_storage sv) (pending w fd)) →
  request_post sv w (Some tt) (sv, w').
Proof.
  intros Hok E Hd. split; [done|]. exists 0%nat, 0%nat. do 2 eexists. split; [done|].
  rewrite take_nil, app_nil_r. split; [done|]. auto.
Qed.

(** The answer to a request goes out. *)
Lemma reply_ok fuel sv w w1 rq rest out st' :
  store_ok pages (set_g_storage st' sv) → hangup w1 fd = true →
  next_request (pending w fd) = Some (rq, rest) →
  answer pages (g_storage sv) rq = Some (out, st') →
  pending w1 fd = rest → sent w1 fd = sent w fd → (interrupts w1 ≤ interrupts w)%nat →
  (faultless w fd → faultless w1 fd) →
  (length out + interrupts w1 ≤ fuel)%nat →
  wp (reply fuel fd out) (request_post sv w) (set_g_storage st' sv, w1).
Proof.
  intros Hok Hh Hn Ha Hp Hs Hi Hfl Hf. apply wp_bind, wp_on_snd.
  eapply wp_mono; [eapply wp_strengthen; [by apply dsm_send_full_ok|];
    intros r w2 E; exact (send_full_faultless _ _ _ _ _ _ _ E)|].
  intros r w2 (([-> | ->] & [k Hk] & H0) & Hfl2); apply wp_ret; simpl.
  - destruct (H0 eq_refl) as (Hs2 & [_ Hkeep] & Hi2). destruct (Hkeep Hh) as [Hh2 Hp2].
    split; [done|]. exists rq, rest, out. split_and!; [done|done| |].
    + unfold progressed; simpl. split_and!; [congruence|congruence|done|lia].
    + intros Hw. by apply Hfl2, Hfl.
  - split; [done|]. exists 1%nat, k, out, rest. split; [simpl; by rewrite Hn, Ha, app_nil_r|].
    simpl. split; [congruence|]. intros Hw. by destruct (Hfl2 (Hfl Hw)).
Qed.

Lemma set_g_storage_same sv : set_g_storage (g_storage sv) sv = sv.
Proof. by destruct sv. Qed.

Lemma wp_vget {A} (f : server → A) (Q : A → SS → Prop) sv w :
  Q (f sv) (sv, w) → wp (vget f) Q (sv, w).
Proof. intros. by apply wp_gets. Qed.

Lemma wp_has_cluster (Q : bool → SS → Prop) sv w :
  g_cluster sv = None → Q false (sv, w) → wp has_cluster Q (sv, w).
Proof. intros E HQ. apply wp_bind, wp_vget. rewrite E. by apply wp_ret. Qed.

Lemma serve_get_ok fuel sv w w1 id rest :
  store_ok pages sv → hangup w1 fd = true → 0 <= id →
  next_request (pending w fd) = Some (RqGet id, rest) →
  pending w1 fd = rest → sent w1 fd = sent w fd → (interrupts w1 ≤ interrupts w)%nat →
  (faultless w fd → faultless w1 fd) →
  (page_bytes + interrupts w1 ≤ fuel)%nat →
  wp (serve_get fuel fd id true) (request_post sv w) (sv, w1).
Proof.
  intros Hok Hh H0 Hn Hp Hs Hi Hfl Hf. pose proof Hok as (Hc & Hpg & Hpages & Hlen).
  assert (∀ out, length out = page_bytes →
    answer pages (g_storage sv) (RqGet id) = Some (out, g_storage sv) →
    wp (reply fuel fd out) (request_post sv w) (sv, w1)) as Hreply.
  { intros out Hl Ha. rewrite <- (set_g_storage_same sv) at 2.
    eapply reply_ok; try done; try lia; by rewrite set_g_storage_same. }
  apply wp_bind, wp_vget, wp_bind, wp_has_cluster; [done|]. cbn [andb]. rewrite Hpg.
  destruct (Z.ltb_spec id pages).
  - apply wp_bind, wp_vget, wp_bind, wp_load_region.
    + unfold PAGE_SIZE. lia.
    + rewrite page_bytes_Z, Hlen. unfold PAGE_SIZE. lia.
    + apply Hreply; [by eapply length_stored_page|]. simpl.
      by destruct (Z.ltb_spec id pages); [|lia].
  - apply Hreply; [apply length_zero_page|]. simpl.
    by destruct (Z.ltb_spec id pages); [lia|].
Qed.

Lemma serve_put_ok fuel sv w w1 id bytes :
  store_ok pages sv → hangup w1 fd = true → 0 <= id < 2 ^ 32 →
  length bytes = header_size → pending w fd = bytes ++ pending w1 fd →
  hdr_op (header_of_bytes bytes) = OP_PUT_PAGE → hdr_page_id (header_of_bytes bytes) = id →
  sent w1 fd = sent w fd → (interrupts w1 ≤ interrupts w)%nat →
  (faultless w fd → faultless w1 fd) →
  (page_bytes + interrupts w1 ≤ fuel)%nat →
  wp (serve_put fuel fd id true) (request_post sv w) (sv, w1).
Proof.
  intros Hok Hh H0 Hb Hp Hop Hid Hs Hi Hfl Hf. pose proof Hok as (Hc & Hpg & Hpages & Hlen).
  apply wp_bind, wp_on_snd. pose proof length_zero_page as Hzl.
  eapply wp_mono; [apply recv_full_ok; [rewrite Hzl; lia|done]|].
  intros [r data] w2 [Hpost Hfl2]. cbn [fst] in Hfl2. unfold received_post in Hpost.
  rewrite Hzl in Hpost, Hfl2. destruct Hpost as (Hl & _ & Hr & Hs2 & Hz).
  destruct Hr as [-> | ->]; [change (0 <? 0) with false|change (-1 <? 0) with true]; cbv iota.
  2: { apply wp_ret, request_post_stop; [done|congruence|]. intros Hw rq rest.
       destruct (Hfl2 (Hfl Hw)) as [[? _]|[_ Hshort]]; [done|]. rewrite Hp. unfold next_request.
       rewrite length_app, take_app_length', drop_app_length', Hop by done. simpl.
       destruct (Nat.ltb_spec (length (pending w1 fd)) page_bytes); [|lia].
       by destruct (_ <? _)%nat. }
  destruct (Hz eq_refl) as (Hp2 & Hh2 & Hi2). rewrite drop_0 in Hp2.
  assert (next_request (pending w fd) = Some (RqPut id data, pending w2 fd)) as Hn.
  { rewrite Hp, Hp2. unfold next_request. rewrite !length_app.
    destruct (Nat.ltb_spec (length bytes + (length data + length (pending w2 fd))) header_size); [lia|].
    rewrite take_app_length', drop_app_length' by done. rewrite Hop, Hid. simpl.
    rewrite length_app.
    destruct (Nat.ltb_spec (length data + length (pending w2 fd)) page_bytes); [lia|].
    by rewrite take_app_length', drop_app_length' by done. }
  apply wp_bind, wp_vget, wp_bind, wp_has_cluster; [done|]. cbn [andb]. rewrite Hpg.
  destruct (Z.ltb_spec id pages).
  - pose proof page_bytes_Z. pose proof page_bytes_pos.
    assert (zlen data = PAGE_SIZE) as Hzd by (unfold zlen; lia).
    apply wp_bind, wp_vget, wp_bind, wp_store_region.
    + unfold PAGE_SIZE. lia.
    + rewrite Hzd, Hlen. unfold PAGE_SIZE. lia.
    + apply wp_bind. apply wp_modify. simpl.
      assert (answer pages (g_storage sv) (RqPut id data) =
        Some (header_bytes (dsm_rpc_make_header OP_ACK id),
              splice (g_storage sv) (Z.to_nat (id * PAGE_SIZE)) data)) as Ha.
      { simpl. by destruct (Z.ltb_spec id pages); [|lia]. }
      eapply reply_ok; try done; try congruence; try lia.
      * split_and!; [done|done|lia|lia|]. simpl.
        eapply zlen_answer; [exact Hlen| |exact Ha]. split; [lia|done].
      * intros Hw. by destruct (Hfl2 (Hfl Hw)) as [[_ ?]|[? _]].
      * rewrite length_header_bytes by apply make_header_wf.
        assert (header_size ≤ page_bytes)%nat; [|lia]. unfold header_size, PAGE_SIZE in *. lia.
  - apply wp_ret, request_post_stop; [done|congruence|]. intros _ rq rest E.
    rewrite Hn in E. injection E as <- _. simpl. by destruct (Z.ltb_spec id pages); [lia|].
Qed.

Lemma handle_request_ok fuel sv w :
  store_ok pages sv → hangup w fd = true →
  (header_size + page_bytes + interrupts w ≤ fuel)%nat →
  wp (handle_request fuel fd) (request_post sv w) (sv, w).
Proof.
  intros Hok Hh Hf. pose proof Hok as (Hc & Hpg & Hpages & Hlen).
  apply wp_bind, wp_on_snd. eapply wp_mono.
  { apply recv_full_ok; [|done]. change (header_size + interrupts w ≤ fuel)%nat. lia. }
  intros [r bytes] w1 [(Hl & _ & Hr & Hs & Hz) Hfl]. cbn [fst] in Hfl. change (length bytes = header_size) in Hl.
  destruct Hr as [-> | ->]; [change (0 <? 0) with false|change (-1 <? 0) with true]; cbv iota.
  2: { apply wp_ret, request_post_stop; [done|done|]. intros Hw rq rest.
       destruct (Hfl Hw) as [[? _]|[_ Hshort]]; [done|].
       change (length (pending w fd) < header_size)%nat in Hshort. unfold next_request.
       by destruct (Nat.ltb_spec (length (pending w fd)) header_size); [|lia]. }
  assert (faultless w fd → faultless w1 fd) as Hfl1.
  { intros Hw. destruct (Hfl Hw) as [[_ ?]|[? _]]; done. }
  destruct (Hz eq_refl) as (Hp & Hh1 & Hi). rewrite drop_0 in Hp. rewrite Hh in Hh1.
  pose proof (header_of_bytes_wf _ Hl) as (Hop & _ & Hid).
  assert (∀ rq, (if hdr_op (header_of_bytes bytes) =? OP_GET_PAGE
      then rq = RqGet (hdr_page_id (header_of_bytes bytes))
      else hdr_op (header_of_bytes bytes) ≠ OP_PUT_PAGE ∧ rq = RqOther (header_of_bytes bytes)) →
      next_request (pending w fd) = Some (rq, pending w1 fd)) as Hn.
  { intros rq Hrq. rewrite Hp. unfold next_request. rewrite length_app.
    destruct (Nat.ltb_spec (length bytes + length (pending w1 fd)) header_size); [lia|].
    rewrite take_app_length', drop_app_length' by done.
    destruct (hdr_op (header_of_bytes bytes) =? OP_GET_PAGE); [by subst|].
    destruct Hrq as [Hne ->]. by destruct (Z.eqb_spec (hdr_op (header_of_bytes bytes)) OP_PUT_PAGE). }
  apply wp_bind. unfold is_local_page. apply wp_bind, wp_vget. rewrite Hc. apply wp_ret.
  destruct (hdr_op (header_of_bytes bytes) =? OP_GET_PAGE) eqn:Eg.
  - eapply serve_get_ok; try done; [lia|by apply Hn|lia].
  - destruct (Z.eqb_spec (hdr_op (header_of_bytes bytes)) OP_PUT_PAGE) as [Ep|Ep].
    + eapply serve_put_ok; try done; lia.
    + apply wp_ret. split; [done|]. do 3 eexists. split_and!; [by apply Hn|done| |done].
      unfold progressed. simpl. rewrite app_nil_r. by split_and!.
Qed.

(** What the thread has done so far: it has served [m] requests. *)
Definition served_so_far sv w s : Prop :=
  store_ok pages s.1 ∧ hangup s.2 fd = true ∧ (interrupts s.2 ≤ interrupts w)%nat ∧
  (faultless w fd → faultless s.2 fd) ∧
  ∃ m out, serve_n m pages (g_storage sv) (pending w fd) = (out, g_storage s.1, pending s.2 fd) ∧
    sent s.2 fd = sent w fd ++ out.

Lemma served_next sv w s s' rq rest out :
  served_so_far sv w s → store_ok pages s'.1 →
  next_request (pending s.2 fd) = Some (rq, rest) →
  answer pages (g_storage s.1) rq = Some (out, g_storage s'.1) →
  progressed s.2 rest out s'.2 → (faultless s.2 fd → faultless s'.2 fd) →
  served_so_far sv w s' ∧ (length (pending s'.2 fd) < length (pending s.2 fd))%nat.
Proof.
  intros (Hok & Hh & Hi & Hfl & m & o & Hm & Hs) Hok' Hn Ha (Hp & Hs' & Hh' & Hi') Hfl'.
  split.
  - split_and!; [done|done|lia|by auto|]. exists (m + 1)%nat, (o ++ out).
    rewrite (serve_n_add _ 1 _ _ _ _ _ _ Hm). simpl. rewrite Hn, Ha. simpl.
    rewrite app_nil_r, Hp. split; [done|]. by rewrite Hs', Hs, app_assoc.
  - apply next_request_bytes in Hn as (pre & -> & Hpre). rewrite Hp, length_app.
    unfold header_size in *. lia.
Qed.

(** How the thread ends. *)
Definition thread_post sv w s : Prop :=
  store_ok pages s.1 ∧ ∃ m k out rest,
    serve_n m pages (g_storage sv) (pending w fd) = (out, g_storage s.1, rest) ∧
    sent s.2 fd = sent w fd ++ take k out ∧
    (faultless w fd → take k out = out ∧ served_out pages (g_storage s.1) rest).

Lemma served_last sv w s s' n k out rest :
  served_so_far sv w s → store_ok pages s'.1 →
  serve_n n pages (g_storage s.1) (pending s.2 fd) = (out, g_storage s'.1, rest) →
  sent s'.2 fd = sent s.2 fd ++ take k out →
  (faultless s.2 fd → n = 0%nat ∧ served_out pages (g_storage s.1) (pending s.2 fd)) →
  thread_post sv w s'.
Proof.
  intros (Hok & Hh & Hi & Hfl & m & o & Hm & Hs) Hok' Hn Hs' Hend. split; [done|].
  exists (m + n)%nat, (length o + k)%nat, (o ++ out), rest.
  rewrite (serve_n_add _ n _ _ _ _ _ _ Hm), Hn. simpl. split; [done|].
  rewrite take_app_add. split; [by rewrite Hs', Hs, app_assoc|].
  intros Hw. destruct (Hend (Hfl Hw)) as [-> Hso]. simpl in Hn. injection Hn as <- <- <-.
  by rewrite take_nil.
Qed.

Lemma thread_end sv w (r : unit) s :
  thread_post sv w s → wp (on_snd sys_free) (λ _ s, thread_post sv w s) s.
Proof.
  destruct s as [sv1 w1]. intros [Hok (m & k & out & rest & Hm & Hs & Hend)].
  apply wp_on_snd. eapply wp_mono; [apply free_ok|]. intros [] w2 E. split; [done|].
  exists m, k, out, rest. simpl in *. by rewrite E.
Qed.

Lemma handle_client_thread_ok n fuel sv w :
  store_ok pages sv → hangup w fd = true →
  (length (pending w fd) < n)%nat → (header_size + page_bytes + interrupts w ≤ fuel)%nat →
  wp (handle_client_thread n fuel fd) (λ _ s, thread_post sv w s) (sv, w).
Proof.
  intros Hok Hh Hn Hf. apply wp_bind. eapply wp_mono; [|exact (thread_end sv w)].
  apply (wp_loop _ (served_so_far sv w) (λ s, length (pending s.2 fd)));
    [|by repeat (split_and!; try done); exists 0%nat, []; rewrite app_nil_r|done].
  intros [sv1 w1] HI. apply wp_bind, wp_on_snd.
  eapply wp_mono; [apply (wp_strengthen _ _ (λ b w2, faultless w1 fd → b = true ∧ faultless w2 fd) _
    (running_ok w1)); intros b w2 E Hw; exact (faultless_running fd _ _ _ Hw E)|].
  intros b w2 [Hw2 Hrun]. destruct (Hw2 fd) as (Es & Ep & Eh & Ei).
  assert (served_so_far sv w (sv1, w2)) as HI2.
  { destruct HI as (? & ? & ? & Hfl & m & o & ? & ?). split_and!; simpl in *; [done|congruence|lia| |].
    - intros Hw. by apply Hrun, Hfl.
    - exists m, o. rewrite Ep, Es. done. }
  destruct b; simpl.
  2: { apply wp_ret. destruct HI as (? & ? & ? & Hfl & m & o & Hm & Hs). split; [done|].
       exists m, (length o), o, (pending w1 fd). rewrite firstn_all. simpl in *.
       split_and!; [done|congruence|]. intros Hw. by destruct (Hrun (Hfl Hw)). }
  pose proof HI2 as (Hok2 & Hh2 & Hi2 & _). simpl in Hok2, Hh2, Hi2.
  eapply wp_mono; [apply handle_request_ok; [done|done|lia]|].
  intros [[]|] s' [Hok' Hpost].
  - destruct Hpost as (n' & k & out & rest & Hs1 & Hs2 & Hs3).
    by eapply (served_last sv w (sv1, w2)).
  - destruct Hpost as (rq & rest & out & H1 & H2 & H3 & H4).
    destruct (served_next sv w (sv1, w2) s' rq rest out HI2 Hok' H1 H2 H3 H4) as [? Hlt].
    split; [done|]. simpl in *. by rewrite Ep in Hlt.
Qed.

End serve_thread.
