(* ===== verification/ServerLoop.v ===== *)
(** * The accept loop: descriptors and threads

    The main thread owns the descriptors it has opened and the threads it has
    to join.  The table of client slots accounts for them: every descriptor
    is closed once, every thread is joined once, and the array is never
    indexed out of its bounds. *)

From S2P Require Import Prelude Machine Protocol Node Gossip Cluster ClusterRouting Server.

(** What the main thread owns: [open_fds] are the descriptors it has opened
    and not closed, [joinable] its threads that have not been joined.  To
    close a descriptor twice or to join a thread twice is outside the laws. *)
Class Resources (W : Type) {CO : ClusterOps W} {OO : SockoptOps W} {VO : ServerOps W} := {
  open_fds : W → list Z;
  joinable : W → list Z;
  same_resources w w' := open_fds w' = open_fds w ∧ joinable w' = joinable w;
  socket_resources k w : wp (sys_socket k) (λ r w', joinable w' = joinable w ∧
    match r with
    | SysOk fd => 0 <= fd ∧ open_fds w' = fd :: open_fds w
    | SysErr _ => open_fds w' = open_fds w
    end) w;
  accept_resources fd w : wp (sys_accept fd) (λ r w', joinable w' = joinable w ∧
    match r with
    | SysOk c => 0 <= c ∧ open_fds w' = c :: open_fds w
    | SysErr _ => open_fds w' = open_fds w
    end) w;
  close_resources fd fds w : open_fds w ≡ₚ fd :: fds →
    wp (sys_close fd) (λ _ w', joinable w' = joinable w ∧ open_fds w' ≡ₚ fds) w;
  create_resources fd w : wp (client_thread_create fd) (λ r w', open_fds w' = open_fds w ∧
    joinable w' = match r with Some tid => tid :: joinable w | None => joinable w end) w;
  tryjoin_resources tid ts w : joinable w ≡ₚ tid :: ts →
    wp (thread_tryjoin tid) (λ b w', open_fds w' = open_fds w ∧
      if b : bool then joinable w' ≡ₚ ts else joinable w' = joinable w) w;
  join_resources tid ts w : joinable w ≡ₚ tid :: ts →
    wp (thread_join tid) (λ _ w', open_fds w' = open_fds w ∧ joinable w' ≡ₚ ts) w;
  setsockopt_resources fd o v w : wp (sys_setsockopt fd o v) (λ _, same_resources w) w;
  bind_resources fd a w : wp (sys_bind fd a) (λ _, same_resources w) w;
  connect_resources fd a w : wp (sys_connect fd a) (λ _, same_resources w) w;
  usleep_resources us w : wp (sys_usleep us) (λ _, same_resources w) w;
  listen_resources fd n w : wp (sys_listen fd n) (λ _, same_resources w) w;
  malloc_resources w : wp sys_malloc (λ _, same_resources w) w;
  realloc_resources w : wp sys_realloc (λ _, same_resources w) w;
  free_resources w : wp sys_free (λ _, same_resources w) w;
  mmap_resources len w : wp (sys_mmap len) (λ _, same_resources w) w;
  munmap_resources w : wp sys_munmap (λ _, same_resources w) w;
  running_resources w : wp load_running (λ _, same_resources w) w;
  shutdown_resources fd w : wp (sys_shutdown fd) (λ _, same_resources w) w;
}.

Section slots.
Context {W : Type} {SO : SocketOps W} {DO : DatagramOps W} {OO : SockoptOps W}
  {CO : ClusterOps W} {VO : ServerOps W} {RS : Resources W}.
Implicit Types (t : slot_table) (w : W) (ss : list client_slot).

(** The used part of the table owns [fds] and [ts], besides what the main
    thread owns otherwise. *)
Definition owns_slots (fds ts : list Z) ss w : Prop :=
  open_fds w ≡ₚ (slot_fd <$> ss) ++ fds ∧ joinable w ≡ₚ (slot_tid <$> ss) ++ ts.

Definition used t : list client_slot := take (Z.to_nat (slot_count t)) (slots t).

Record slots_ok (fds ts : list Z) (s : TS (W:=W)) : Prop := {
  slots_len : zlen (slots s.1) = slot_cap s.1;
  slots_cap : MAX_CLIENTS <= slot_cap s.1;
  slots_count : 0 <= slot_count s.1 <= slot_cap s.1;
  slots_owned : owns_slots fds ts (used s.1) s.2;
}.

Lemma owns_slots_same fds ts ss w w' :
  same_resources w w' → owns_slots fds ts ss w → owns_slots fds ts ss w'.
Proof. intros [E1 E2]. unfold owns_slots. by rewrite E1, E2. Qed.

Lemma slots_ok_same fds ts t w w' :
  same_resources w w' → slots_ok fds ts (t, w) → slots_ok fds ts (t, w').
Proof. intros Hw []. split; try done. by eapply owns_slots_same. Qed.

Lemma wp_tget {A} (f : slot_table → A) (Q : A → TS → Prop) t w :
  Q (f t) (t, w) → wp (tget f) Q (t, w).
Proof. intros. by apply wp_gets. Qed.

Lemma wp_tmod (f : slot_table → slot_table) (Q : unit → TS → Prop) t w :
  Q tt (f t, w) → wp (tmod f) Q (t, w).
Proof. intros. by apply wp_modify. Qed.

(** ** Reaping *)

(** The slots from [i] on that are still to be looked at. *)
Definition rest_slots t (i n : Z) : list client_slot :=
  slice (slots t) (Z.to_nat i) (Z.to_nat (n - i)).

Lemma rest_slots_cons t i n s :
  0 <= i < n → zget (slots t) i = Some s → rest_slots t i n = s :: rest_slots t (i + 1) n.
Proof.
  intros Hi Hs. rewrite zget_lookup in Hs by lia. unfold rest_slots, slice.
  replace (Z.to_nat (n - i)) with (S (Z.to_nat (n - (i + 1)))) by lia.
  replace (Z.to_nat (i + 1)) with (S (Z.to_nat i)) by lia.
  by rewrite (drop_S _ _ _ Hs).
Qed.

Lemma reap_slots_ok fds ts n k i t w :
  0 <= k <= i → i <= n <= zlen (slots t) →
  owns_slots fds ts (take (Z.to_nat k) (slots t) ++ rest_slots t i n) w →
  wp (reap_slots (seqZ i (n - i)) k) (λ kept s, k <= kept <= n ∧
    zlen (slots s.1) = zlen (slots t) ∧ slot_cap s.1 = slot_cap t ∧
    slot_count s.1 = slot_count t ∧
    owns_slots fds ts (take (Z.to_nat kept) (slots s.1)) s.2) (t, w).
Proof.
  remember (Z.to_nat (n - i)) as m eqn:Hm. revert k i t w Hm.
  induction m as [|m IH]; intros k i t w Hm Hk Hn Hown.
  { rewrite seqZ_nil by lia. apply wp_ret. split_and!; try done; try lia.
    assert (rest_slots t i n = []) as E by (unfold rest_slots, slice; by rewrite <- Hm).
    by rewrite E, app_nil_r in Hown. }
  rewrite seqZ_cons by lia. replace (Z.succ i) with (i + 1) by lia.
  replace (Z.pred (n - i)) with (n - (i + 1)) by lia. simpl.
  destruct (zget_in_range (slots t) i ltac:(lia)) as [s Hs].
  rewrite (rest_slots_cons t i n s ltac:(lia) Hs) in Hown.
  apply wp_bind, wp_tget, wp_bind. eapply wp_load; [done|].
  apply wp_bind, wp_on_snd. destruct Hown as [Hf Ht].
  rewrite fmap_app, fmap_cons, <- Permutation_middle in Hf, Ht. simpl in Hf, Ht.
  eapply wp_mono; [by apply tryjoin_resources|]. intros [] w1 [E1 Et1].
  - apply wp_bind, wp_on_snd. rewrite <- E1 in Hf.
    eapply wp_mono; [by apply close_resources|]. intros _ w2 [E2 Ef2].
    apply IH; [lia|lia|lia|]. split; rewrite fmap_app; [done|by rewrite E2].
  - apply wp_bind, wp_store; [lia|]. apply wp_bind, wp_tmod.
    assert (take (Z.to_nat (k + 1)) (zupd (slots t) k s) = take (Z.to_nat k) (slots t) ++ [s]) as Ek
      by (apply take_zupd_snoc; lia).
    assert (rest_slots (set_slots (zupd (slots t) k s) t) (i + 1) n = rest_slots t (i + 1) n) as Er.
    { unfold rest_slots, slice, zupd. simpl. by rewrite drop_insert_lt by lia. }
    eapply wp_mono.
    + apply (IH (k + 1) (i + 1)); simpl; rewrite ?zlen_zupd; [lia|lia|lia|].
      rewrite Er, Ek. split; rewrite !fmap_app; simpl; rewrite <- (app_assoc _ [_]); simpl;
        rewrite <- Permutation_middle.
      * by rewrite E1.
      * by rewrite Et1.
    + intros kept [t' w'] (Hkept & Hlen & Hc & Hcnt & Hown'). simpl in *.
      rewrite zlen_zupd in Hlen. split_and!; try done; lia.
Qed.

(** ** Making room *)

Lemma make_room_ok fds ts t w :
  slots_ok fds ts (t, w) →
  wp make_room (λ room s, slots_ok fds ts s ∧
    (room = true → slot_count s.1 < slot_cap s.1)) (t, w).
Proof.
  intros [Hlen Hcap Hcnt Hown]. cbn [fst snd] in *. unfold MAX_CLIENTS in *.
  apply wp_bind, wp_tget, wp_bind, wp_tget.
  destruct (Z.eqb_spec (slot_count t) (slot_cap t)) as [E|E].
  2: { apply wp_ret. split; [by split|]. simpl. lia. }
  apply wp_bind. rewrite <- (Z.sub_0_r (slot_count t)). eapply wp_mono.
  { apply (reap_slots_ok fds ts); [lia|lia|]. rewrite take_0. unfold rest_slots, slice.
    rewrite drop_0, Z.sub_0_r. exact Hown. }
  intros kept [t1 w1] (Hk & Hl1 & Hc1 & Hn1 & Hown1). cbn [fst snd] in *.
  apply wp_bind, wp_tmod.
  assert (slots_ok fds ts (set_slot_count kept t1, w1)) as Hok1.
  { split; unfold MAX_CLIENTS; simpl; [lia|lia|lia|done]. }
  destruct (Z.eqb_spec kept (slot_cap t)) as [Ek|Ek].
  2: { apply wp_ret. split; [done|]. simpl. lia. }
  apply wp_bind, wp_on_snd. eapply wp_mono; [apply realloc_resources|].
  intros [] w2 Hw2; simpl.
  2: { apply wp_ret. split; [by eapply slots_ok_same|done]. }
  apply wp_bind, wp_tget, wp_bind, wp_tmod, wp_bind, wp_tmod, wp_ret. simpl.
  assert (zlen (slots t1) = kept) as Hl by lia.
  split; [|simpl; lia]. split; unfold MAX_CLIENTS; simpl.
  - rewrite zlen_app, zlen_replicate. lia.
  - lia.
  - lia.
  - eapply owns_slots_same; [done|]. unfold used. simpl.
    rewrite take_app_le by (unfold zlen in Hl; lia). done.
Qed.

(** ** An iteration of the loop *)

Lemma setup_socket_resources fd w :
  wp (dsm_setup_socket_optimal fd) (λ _, same_resources w) w.
Proof.
  apply setup_socket_keeps; [|done]. intros o v w' [E1 E2].
  eapply wp_mono; [apply setsockopt_resources|]. intros _ w'' [E3 E4]. split; congruence.
Qed.

Lemma close_extra fds ts t w c :
  slots_ok (c :: fds) ts (t, w) →
  wp (on_snd (sys_close c);; mret None) (λ (_ : option unit) s, slots_ok fds ts s) (t, w).
Proof.
  intros [Hlen Hcap Hcnt [Hf Ht]]. cbn [fst snd] in *. apply wp_bind, wp_on_snd.
  rewrite <- Permutation_middle in Hf.
  eapply wp_mono; [by apply close_resources|]. intros _ w' [E Hf']. apply wp_ret.
  split; try done. split; simpl; [done|by rewrite E].
Qed.

Lemma close_free_extra fds ts t w c :
  slots_ok (c :: fds) ts (t, w) →
  wp (on_snd (sys_close c);; on_snd sys_free;; mret None) (λ (_ : option unit) s, slots_ok fds ts s)
    (t, w).
Proof.
  intros Hok. apply close_extra in Hok. apply wp_returns in Hok as (r & [t' w'] & E & Hok).
  apply wp_bind, wp_returns. unfold mbind, M_bind in E.
  destruct (on_snd (sys_close c) (t, w)) as [[[] s1]| | |] eqn:E1; try done.
  injection E as <- ->. exists tt, (t', w'). split; [done|].
  apply wp_bind, wp_on_snd. eapply wp_mono; [apply free_resources|]. intros [] w2 Hw2.
  apply wp_ret. by eapply slots_ok_same.
Qed.

Lemma accept_iteration_ok fds ts listen_fd t w :
  slots_ok fds ts (t, w) →
  wp (accept_iteration listen_fd) (λ _ s, slots_ok fds ts s) (t, w).
Proof.
  intros Hok. apply wp_bind, wp_on_snd. eapply wp_mono; [apply accept_resources|].
  intros [c|e] w1 [Ej Ef].
  2: { apply wp_ret. by eapply slots_ok_same; [|done]. }
  destruct Ef as [Hc Ef].
  assert (slots_ok (c :: fds) ts (t, w1)) as Hok1.
  { destruct Hok as [? ? ? [Hf Ht]]. split; try done. split; simpl in *.
    - by rewrite Ef, Hf, Permutation_middle.
    - by rewrite Ej. }
  apply wp_bind, wp_on_snd. eapply wp_mono; [apply setup_socket_resources|].
  intros ? w2 Hw2. apply (slots_ok_same _ _ _ _ _ Hw2) in Hok1.
  apply wp_bind, wp_on_snd. eapply wp_mono; [apply malloc_resources|].
  intros b w3 Hw3. apply (slots_ok_same _ _ _ _ _ Hw3) in Hok1.
  destruct b; simpl; [|by apply close_extra].
  apply wp_bind. eapply wp_mono; [by apply make_room_ok|].
  intros b [t4 w4] [Hok4 Hroom]. destruct b; simpl; [|by apply close_free_extra].
  specialize (Hroom eq_refl). simpl in Hroom.
  apply wp_bind, wp_on_snd. eapply wp_mono; [apply create_resources|].
  intros [tid|] w5 [Ef5 Ej5].
  2: { apply close_free_extra. by eapply slots_ok_same; [|done]. }
  destruct Hok4 as [Hlen Hcap Hcnt [Hf Ht]]. cbn [fst snd] in *.
  apply wp_bind, wp_tget, wp_bind, wp_tget, wp_bind, wp_store; [lia|].
  apply wp_bind, wp_tmod, wp_bind, wp_tmod, wp_ret.
  split; simpl; [by rewrite zlen_zupd|done|lia|]. unfold used. simpl.
  rewrite take_zupd_snoc by lia. unfold used in Hf, Ht.
  split; rewrite fmap_app; simpl; rewrite <- (app_assoc _ [_]); simpl.
  - by rewrite Ef5.
  - by rewrite Ej5, Ht, Permutation_middle.
Qed.

(** ** Shutting down *)

Lemma shutdown_clients_ok fds ts listen_fd t w :
  slots_ok (listen_fd :: fds) ts (t, w) →
  wp (shutdown_clients listen_fd) (λ _ s, open_fds s.2 ≡ₚ fds ∧ joinable s.2 ≡ₚ ts) (t, w).
Proof.
  intros [Hlen Hcap Hcnt [Hf Ht]]. cbn [fst snd] in *.
  apply wp_bind, wp_on_snd. rewrite <- Permutation_middle in Hf.
  eapply wp_mono; [by apply close_resources|]. intros _ w1 [E1 Hf1]. rewrite <- E1 in Ht.
  apply wp_bind, wp_tget, wp_bind. eapply wp_mono.
  { apply (wp_for_range _ (λ _ s, s.1 = t ∧ owns_slots fds ts (used t) s.2)); [lia|done|].
    intros i [t' w'] Hi [Et Hown]. cbn [fst snd] in *. subst t'.
    destruct (zget_in_range (slots t) i ltac:(lia)) as [s Hs].
    apply wp_bind, wp_tget, wp_bind. eapply wp_load; [done|]. apply wp_on_snd.
    eapply wp_mono; [apply shutdown_resources|]. intros ? w2 Hw2. split; [done|].
    eapply owns_slots_same; [exact Hw2|exact Hown]. }
  intros [] [t' w'] [Et Hown]. cbn [fst snd] in *. subst t'. eapply wp_mono.
  { apply (wp_for_range _ (λ i s, s.1 = t ∧ owns_slots fds ts (rest_slots t i (slot_count t)) s.2));
      [lia| |].
    - split; [done|]. unfold rest_slots, slice. by rewrite drop_0, Z.sub_0_r.
    - intros i [t' w2] Hi [Et [Hf2 Ht2]]. cbn [fst snd] in *. subst t'.
      destruct (zget_in_range (slots t) i ltac:(lia)) as [s Hs].
      rewrite (rest_slots_cons _ _ _ _ Hi Hs) in Hf2, Ht2. simpl in Hf2, Ht2.
      apply wp_bind, wp_tget, wp_bind. eapply wp_load; [done|]. apply wp_bind, wp_on_snd.
      eapply wp_mono; [by apply join_resources|]. intros _ w3 [E3 Ht3]. rewrite <- E3 in Hf2.
      apply wp_on_snd. eapply wp_mono; [by apply close_resources|].
      intros _ w4 [E4 Hf4]. split; [done|]. split; [done|]. simpl. by rewrite E4. }
  intros [] [t' w2] [Et [Hf2 Ht2]]. cbn [fst snd] in *. subst t'. unfold rest_slots, slice in Hf2, Ht2.
  by rewrite Z.sub_diag in Hf2, Ht2.
Qed.

(** ** The listening socket *)

Lemma start_server_ok port addr w :
  wp (start_server port addr) (λ r w', joinable w' = joinable w ∧
    ((r = -1 ∧ open_fds w' ≡ₚ open_fds w) ∨
     (0 <= r ∧ addr ≠ None ∧ open_fds w' ≡ₚ r :: open_fds w))) w.
Proof.
  apply wp_bind. eapply wp_mono; [apply socket_resources|].
  intros [fd|e] w1 [Ej Ef]; [|apply wp_ret; split; [done|left]; by rewrite Ef].
  destruct Ef as [Hfd Ef].
  set (Q := λ r w', _). assert (∀ w', joinable w' = joinable w → open_fds w' = fd :: open_fds w →
    wp (sys_close fd;; mret (-1)) Q w') as Hfail.
  { intros w' E1 E2. apply wp_bind. eapply wp_mono; [apply close_resources; by rewrite E2|].
    intros _ w'' [E3 E4]. apply wp_ret. split; [congruence|]. by left. }
  apply wp_bind. eapply wp_mono; [apply setsockopt_resources|].
  intros [[]|e] w2 [E1 E2]; [|apply Hfail; congruence].
  apply wp_bind. eapply wp_mono; [apply setsockopt_resources|].
  intros _ w3 [E3 E4]. destruct addr as [a|]; [|apply Hfail; congruence].
  apply wp_bind. eapply wp_mono; [apply bind_resources|].
  intros [[]|e] w4 [E5 E6]; [|apply Hfail; congruence].
  apply wp_bind. eapply wp_mono; [apply listen_resources|].
  intros [[]|e] w5 [E7 E8]; [|apply Hfail; congruence].
  apply wp_ret. split; [congruence|]. right. split_and!; [done|done|].
  rewrite E7, E5, E3, E1, Ef. done.
Qed.

End slots.
