(* ===== verification/ServerHeap.v ===== *)
(** * The memory of the server's main thread

    [heap] counts the blocks and mappings that the main thread is to release.
    A thread takes over the block with its argument, which it frees at its
    end.  A balance is a fact about every run that returns, whatever the calls
    on the way answer. *)

From S2P Require Import Prelude Machine Protocol Node Gossip Cluster Server.

(** ** Balances *)

(** Every run of [m] that returns [a] changes [f] by [d a]. *)
Definition moves {S A} (f : S → Z) (m : M S A) (d : A → Z) : Prop :=
  ∀ s a s', m s = Ret (a, s') → f s' = f s + d a.

Section moves.
Context {S : Type} (f : S → Z).

Lemma moves_ret {A} (a : A) (d : A → Z) : d a = 0 → moves f (mret a) d.
Proof. intros Hd s a' s' [= <- <-]. lia. Qed.

Lemma moves_bind {A B} (m : M S A) (k : A → M S B) (dm : A → Z) (d : B → Z) :
  moves f m dm → (∀ a, moves f (k a) (λ b, d b - dm a)) → moves f (m ≫= k) d.
Proof.
  intros Hm Hk s b s' E. unfold mbind, M_bind in E.
  destruct (m s) as [[a s1]| | |] eqn:E1; try done.
  pose proof (Hm _ _ _ E1). pose proof (Hk _ _ _ _ E). simpl in *. lia.
Qed.

Lemma moves_ret_bind {A B} (a : A) (k : A → M S B) (d : B → Z) :
  moves f (k a) d → moves f (mret a ≫= k) d.
Proof. done. Qed.

(** A step that moves nothing. *)
Lemma moves_skip {A B} (m : M S A) (k : A → M S B) (d : B → Z) :
  moves f m (λ _, 0) → (∀ a, moves f (k a) d) → moves f (m ≫= k) d.
Proof.
  intros Hm Hk. eapply moves_bind; [exact Hm|]. intros a s b s' E.
  pose proof (Hk _ _ _ _ E). lia.
Qed.

Lemma moves_none {A} (m : M S A) d : (∀ s a s', m s ≠ Ret (a, s')) → moves f m d.
Proof. intros H s a s' E. by apply H in E. Qed.

Lemma moves_load {A} (l : list A) i : moves f (load l i) (λ _, 0).
Proof. unfold load. destruct (zget l i); [by apply moves_ret|by apply moves_none]. Qed.

Lemma moves_store {A} (l : list A) i x : moves f (store l i x) (λ _, 0).
Proof. unfold store. destruct (_ && _); [by apply moves_ret|by apply moves_none]. Qed.

Lemma moves_gets {A} (g : S → A) : moves f (gets g) (λ _, 0).
Proof. intros s a s' [= <- <-]. lia. Qed.

Lemma moves_loop {A} n (body : M S (option A)) :
  moves f body (λ _, 0) → moves f (loop n body) (λ _, 0).
Proof.
  intros Hb. induction n as [|n IH]; simpl; [by apply moves_none|].
  apply moves_skip; [done|]. intros [a|]; [by apply moves_ret|done].
Qed.

Lemma moves_for_each {X} (xs : list X) (body : X → M S unit) :
  (∀ x, moves f (body x) (λ _, 0)) → moves f (for_each xs body) (λ _, 0).
Proof.
  intros Hb. induction xs as [|x xs IH]; simpl; [by apply moves_ret|]. by apply moves_skip.
Qed.

End moves.

Lemma moves_on_snd {C W A} (f : W → Z) (m : M W A) d :
  moves f m d → moves (λ s : C * W, f s.2) (on_snd m) d.
Proof.
  intros Hm [c w] a s' E. unfold on_snd in E. simpl in E.
  destruct (m w) as [[b w']| | |] eqn:E1; try done. injection E as <- <-. exact (Hm _ _ _ E1).
Qed.

(** ** What the calls do to the heap *)

Class Heap (W : Type) {OO : SockoptOps W} {CO : ClusterOps W} {VO : ServerOps W} := {
  heap : W → Z;
  heap_malloc : moves heap sys_malloc (λ b, if b : bool then 1 else 0);
  heap_mmap len : moves heap (sys_mmap len) (λ b, if b : bool then 1 else 0);
  heap_free : moves heap sys_free (λ _, -1);
  heap_munmap : moves heap sys_munmap (λ _, -1);
  heap_thread fd : moves heap (client_thread_create fd) (λ t, if t is Some _ then -1 else 0);
  heap_realloc : moves heap sys_realloc (λ _, 0);
  heap_running : moves heap load_running (λ _, 0);
  heap_accept fd : moves heap (sys_accept fd) (λ _, 0);
  heap_listen fd n : moves heap (sys_listen fd n) (λ _, 0);
  heap_shutdown fd : moves heap (sys_shutdown fd) (λ _, 0);
  heap_tryjoin t : moves heap (thread_tryjoin t) (λ _, 0);
  heap_join t : moves heap (thread_join t) (λ _, 0);
  heap_socket k : moves heap (sys_socket k) (λ _, 0);
  heap_bind fd a : moves heap (sys_bind fd a) (λ _, 0);
  heap_close fd : moves heap (sys_close fd) (λ _, 0);
  heap_setsockopt fd o v : moves heap (sys_setsockopt fd o v) (λ _, 0);
}.

Create HintDb balance.

#[export] Hint Resolve heap_realloc heap_running heap_accept heap_listen heap_shutdown heap_tryjoin
  heap_join heap_socket heap_bind heap_close heap_setsockopt moves_load moves_store moves_gets : balance.

Ltac balance_step :=
  first [ apply moves_ret; simpl; lia
        | apply moves_skip; [solve [auto with balance]|intros ?] ].

Section heap.
Context {W : Type} {OO : SockoptOps W} {CO : ClusterOps W} {VO : ServerOps W} {HP : Heap W}.

(** The heap of a state with a slot table. *)
Definition theap (s : TS (W:=W)) : Z := heap s.2.

Lemma moves_tget {A} (g : slot_table → A) : moves theap (tget g) (λ _, 0).
Proof. intros s a s' [= <- <-]. lia. Qed.

Lemma moves_tmod g : moves theap (tmod g) (λ _, 0).
Proof. intros s a s' [= <- <-]. unfold theap. simpl. lia. Qed.

Lemma moves_call {A} (m : M W A) d : moves heap m d → moves theap (on_snd m) d.
Proof. apply (moves_on_snd heap). Qed.

Hint Resolve moves_tget moves_tmod moves_call : balance.

Lemma setup_socket_heap fd : moves heap (dsm_setup_socket_optimal fd) (λ _, 0).
Proof. unfold dsm_setup_socket_optimal. balance_step. case_match; repeat balance_step. Qed.

Lemma reap_slots_heap idx kept : moves theap (reap_slots idx kept) (λ _, 0).
Proof.
  revert kept. induction idx as [|i idx IH]; intros kept; simpl; [by apply moves_ret|].
  do 3 balance_step. case_match; balance_step; [done|]. balance_step. done.
Qed.

Lemma make_room_heap : moves theap make_room (λ _, 0).
Proof.
  unfold make_room. do 2 balance_step. case_match; [|balance_step].
  apply moves_skip; [apply reap_slots_heap|intros k]. balance_step. case_match; [|balance_step].
  balance_step. case_match; repeat balance_step.
Qed.

(** Close the descriptor, free the argument. *)
Lemma drop_client_heap fd :
  moves theap (on_snd (sys_close fd);; on_snd sys_free;; mret (@None unit)) (λ _, -1).
Proof.
  balance_step. eapply moves_bind; [apply moves_call, heap_free|]. intros []. by apply moves_ret.
Qed.

(** An iteration keeps no block: the argument has gone to the thread, or has
    been freed. *)
Lemma accept_iteration_heap listen_fd : moves theap (accept_iteration listen_fd) (λ _, 0).
Proof.
  unfold accept_iteration. balance_step. case_match; [|balance_step].
  apply moves_skip; [apply moves_call, setup_socket_heap|intros _].
  eapply moves_bind; [apply moves_call, heap_malloc|]. intros [].
  2: { repeat balance_step. }
  apply moves_skip; [apply make_room_heap|]. intros []; [|apply drop_client_heap].
  eapply moves_bind; [apply moves_call, heap_thread|]. intros [tid|]; [|apply drop_client_heap].
  repeat balance_step.
Qed.

Lemma accept_loop_heap n listen_fd : moves theap (accept_loop n listen_fd) (λ _, 0).
Proof.
  apply moves_loop. balance_step. case_match; [balance_step|apply accept_iteration_heap].
Qed.

Lemma shutdown_clients_heap listen_fd : moves theap (shutdown_clients listen_fd) (λ _, 0).
Proof.
  unfold shutdown_clients. do 2 balance_step.
  apply moves_skip; [|intros _]; apply moves_for_each; intros i; do 2 balance_step; auto with balance.
  balance_step. auto with balance.
Qed.

Lemma start_server_heap port addr : moves heap (start_server port addr) (λ _, 0).
Proof.
  unfold start_server. balance_step.
  repeat first [case_match | balance_step].
Qed.

End heap.
