(* ===== verification/ServerWorld.v ===== *)
(** * A small world for the server

    One client descriptor with a finite input and a script of events, a
    supply of fresh descriptors with the list of the open ones, a script of
    outcomes for the calls that may fail, the number of blocks to release,
    and the connections made.  It meets the laws the server's
    theorems assume, and their examples run in it. *)

From stdpp Require Import sets.
From S2P Require Import Prelude Machine Protocol PageService Connection Node Gossip Cluster ClusterRouting Server ServerSpec ServerTheorems ServerLoop ServerHeap.

Record bench := mk_bench {
  bench_fd : Z;
  bench_in : list byte;
  bench_out : list byte;
  bench_events : list io_event;
  bench_open : list Z;
  bench_threads : list Z;
  bench_coins : list bool;
  bench_heap : Z;
  bench_peers : list (Z * sockaddr);
}.

Definition bench_transfer (w : bench) (i o : list byte) (es : list io_event) : bench :=
  mk_bench (bench_fd w) i o es (bench_open w) (bench_threads w) (bench_coins w)
    (bench_heap w) (bench_peers w).

Definition bench_set_open (w : bench) (fds : list Z) : bench :=
  mk_bench (bench_fd w) (bench_in w) (bench_out w) (bench_events w) fds (bench_threads w)
    (bench_coins w) (bench_heap w) (bench_peers w).

Definition bench_set_threads (w : bench) (ts : list Z) : bench :=
  mk_bench (bench_fd w) (bench_in w) (bench_out w) (bench_events w) (bench_open w) ts
    (bench_coins w) (bench_heap w) (bench_peers w).

Definition bench_set_heap (w : bench) (h : Z) : bench :=
  mk_bench (bench_fd w) (bench_in w) (bench_out w) (bench_events w) (bench_open w) (bench_threads w)
    (bench_coins w) h (bench_peers w).

Definition bench_link (w : bench) (fd : Z) (a : sockaddr) : bench :=
  mk_bench (bench_fd w) (bench_in w) (bench_out w) (bench_events w) (bench_open w) (bench_threads w)
    (bench_coins w) (bench_heap w) ((fd, a) :: bench_peers w).

(** The next outcome; when the script is over, calls succeed. *)
Definition bench_coin : M bench bool := λ w,
  match bench_coins w with
  | [] => Ret (true, w)
  | b :: bs => Ret (b, mk_bench (bench_fd w) (bench_in w) (bench_out w) (bench_events w)
                         (bench_open w) (bench_threads w) bs (bench_heap w) (bench_peers w))
  end.

Definition bench_send (fd : Z) (buf : list byte) : M bench (sysres Z) := λ w,
  if negb (fd =? bench_fd w) then Ret (SysErr EBADF, w) else
  match bench_events w with
  | [] => Ret (SysOk (zlen buf), bench_transfer w (bench_in w) (bench_out w ++ buf) [])
  | IoPart n :: es =>
      let part := take (S n) buf in
      Ret (SysOk (zlen part), bench_transfer w (bench_in w) (bench_out w ++ part) es)
  | IoIntr :: es => Ret (SysErr EINTR, bench_transfer w (bench_in w) (bench_out w) es)
  | IoBreak :: es => Ret (SysErr ECONNRESET, bench_transfer w (bench_in w) (bench_out w) es)
  end.

(** After the input the stream ends. *)
Definition bench_recv (fd : Z) (n : nat) : M bench (sysres (list byte)) := λ w,
  if negb (fd =? bench_fd w) then Ret (SysErr EBADF, w) else
  let deliver k es :=
    Ret (SysOk (take k (bench_in w)), bench_transfer w (drop k (bench_in w)) (bench_out w) es) in
  match bench_events w with
  | [] => deliver n []
  | IoPart m :: es => deliver (S m `min` n)%nat es
  | IoIntr :: es => Ret (SysErr EINTR, bench_transfer w (bench_in w) (bench_out w) es)
  | IoBreak :: es => Ret (SysErr ECONNRESET, bench_transfer w (bench_in w) (bench_out w) es)
  end.

#[export] Instance bench_sockops : SocketOps bench := {
  sys_send fd buf _ := bench_send fd buf;
  sys_recv fd n _ := bench_recv fd n;
  sys_writev fd iov := bench_send fd (concat iov);
  sigpipe := mret tt;
}.

Lemma bench_send_law fd buf w :
  wp (bench_send fd buf) (λ r w',
    match r with
    | SysOk n => 0 <= n <= zlen buf ∧
        (if fd =? bench_fd w' then bench_out w' else []) =
        (if fd =? bench_fd w then bench_out w else []) ++ take (Z.to_nat n) buf ∧
        (if fd =? bench_fd w' then bench_in w' else []) =
        (if fd =? bench_fd w then bench_in w else []) ∧
        (length (bench_events w') ≤ length (bench_events w))%nat
    | SysErr e =>
        (if fd =? bench_fd w' then bench_out w' else []) =
        (if fd =? bench_fd w then bench_out w else []) ∧
        (e = EINTR →
           (if fd =? bench_fd w' then bench_in w' else []) =
           (if fd =? bench_fd w then bench_in w else []) ∧
           (length (bench_events w') < length (bench_events w))%nat)
    end) w.
Proof.
  apply wp_returns. unfold bench_send. destruct (Z.eqb_spec fd (bench_fd w)) as [->|Hfd]; simpl.
  2: { do 2 eexists. split; [done|]. by rewrite (proj2 (Z.eqb_neq _ _) Hfd). }
  destruct (bench_events w) as [|[n| |] es] eqn:Ee;
    do 2 eexists; (split; [done|]); simpl; rewrite ?Z.eqb_refl.
  - unfold zlen. rewrite Nat2Z.id, (take_ge buf) by done. split_and!; done || lia.
  - unfold zlen. rewrite Nat2Z.id, length_take. split_and!; try (done || lia). f_equal.
    destruct (decide (S n ≤ length buf)%nat).
    + by rewrite Nat.min_l by lia.
    + by rewrite Nat.min_r, !take_ge by lia.
  - split; [done|]. intros _. split; [done|lia].
  - by split.
Qed.

Lemma bench_recv_law fd n w :
  wp (bench_recv fd n) (λ r w',
    match r with
    | SysOk bs => (length bs ≤ n)%nat ∧
        (if fd =? bench_fd w then bench_in w else []) =
          bs ++ (if fd =? bench_fd w' then bench_in w' else []) ∧
        (if fd =? bench_fd w' then bench_out w' else []) =
        (if fd =? bench_fd w then bench_out w else []) ∧ true = true ∧
        (length (bench_events w') ≤ length (bench_events w))%nat
    | SysErr e =>
        (if fd =? bench_fd w' then bench_out w' else []) =
        (if fd =? bench_fd w then bench_out w else []) ∧
        (e = EINTR →
           (if fd =? bench_fd w' then bench_in w' else []) =
           (if fd =? bench_fd w then bench_in w else []) ∧ true = true ∧
           (length (bench_events w') < length (bench_events w))%nat)
    end) w.
Proof.
  apply wp_returns. unfold bench_recv. destruct (Z.eqb_spec fd (bench_fd w)) as [->|Hfd]; simpl.
  2: { do 2 eexists. split; [done|]. by rewrite (proj2 (Z.eqb_neq _ _) Hfd). }
  destruct (bench_events w) as [|[m| |] es] eqn:Ee;
    do 2 eexists; (split; [done|]); simpl; rewrite ?Z.eqb_refl.
  - rewrite length_take, take_drop. split_and!; done || lia.
  - rewrite length_take. change (match n with O => O | S n' => S (m `min` n') end)
      with (S m `min` n)%nat. rewrite take_drop. split_and!; done || lia.
  - split; [done|]. intros _. split_and!; [done..|lia].
  - by split.
Qed.

#[export] Program Instance bench_sockets : Sockets bench := {|
  sent w fd := if fd =? bench_fd w then bench_out w else [];
  pending w fd := if fd =? bench_fd w then bench_in w else [];
  hangup _ _ := true;
  interrupts w := length (bench_events w);
|}.
Next Obligation. done. Qed.
Next Obligation.
  intros fd buf flags w _. eapply wp_mono; [apply (bench_send_law fd buf)|].
  intros [n|e] w'; [intros (? & ? & E & ?)|intros (? & Hi)].
  - rewrite E. split; [done|]. by split_and!.
  - split; [done|]. intros He. destruct (Hi He) as [E ?]. rewrite E. by split_and!.
Qed.
Next Obligation.
  intros fd iov w _. eapply wp_mono; [apply (bench_send_law fd (concat iov))|].
  intros [n|e] w'; [intros (? & ? & E & ?)|intros (? & Hi)].
  - rewrite E. split; [done|]. by split_and!.
  - split; [done|]. intros He. destruct (Hi He) as [E ?]. rewrite E. by split_and!.
Qed.
Next Obligation. intros fd n flags w _ _. apply bench_recv_law. Qed.

#[export] Instance bench_datagrams : DatagramOps bench := {
  sys_sendto _ bs _ := mret (SysOk (zlen bs));
}.

#[export] Instance bench_sockopt : SockoptOps bench := {
  sys_setsockopt _ _ _ := mret (SysOk tt);
}.

(** A descriptor that is not open, and its bookkeeping. *)
Definition bench_fresh (w : bench) : Z := Z.max 0 (foldr Z.max (bench_fd w) (bench_open w)) + 1.

Definition bench_new_fd : M bench (sysres Z) := λ w,
  Ret (SysOk (bench_fresh w), bench_set_open w (bench_fresh w :: bench_open w)).

Fixpoint remove_one (x : Z) (l : list Z) : list Z :=
  match l with
  | [] => []
  | y :: l => if x =? y then l else y :: remove_one x l
  end.

Definition bench_close (fd : Z) : M bench unit := λ w,
  Ret (tt, bench_set_open w (remove_one fd (bench_open w))).

#[export] Instance bench_cluster : ClusterOps bench := {
  clock_monotonic := mret (1, 0);
  clock_realtime := mret (0, 0);
  sys_usleep _ := mret tt;
  sys_recvfrom _ _ := mret (SysErr 11);
  sys_socket _ := bench_new_fd;
  sys_bind _ _ := b ← bench_coin; mret (if b : bool then SysOk tt else SysErr 98);
  sys_connect fd a :=
    b ← bench_coin;
    if b : bool then modify (λ w, bench_link w fd a);; mret (SysOk tt) else mret (SysErr 111);
  sys_close := bench_close;
  read_urandom n := mret (Some (replicate n Byte.x07));
  sys_srand _ := mret tt;
  sys_rand := mret 0;
  pthread_create _ := mret true;
  pthread_join _ := mret tt;
  sys_getaddrinfo _ _ := mret None;
}.

(** An allocation that may fail, and a release. *)
Definition bench_alloc : M bench bool :=
  b ← bench_coin;
  if b : bool then modify (λ w, bench_set_heap w (bench_heap w + 1));; mret true else mret false.

Definition bench_release : M bench unit := modify (λ w, bench_set_heap w (bench_heap w - 1)).

(** A thread is named after the descriptor it serves, and takes over its
    argument. *)
#[export] Instance bench_server : ServerOps bench := {
  load_running := bench_coin;
  sys_getifaddrs := mret None;
  sys_listen _ _ := b ← bench_coin; mret (if b : bool then SysOk tt else SysErr 98);
  sys_accept _ := b ← bench_coin; if b : bool then bench_new_fd else mret (SysErr EINTR);
  sys_shutdown _ := mret tt;
  sys_malloc := bench_alloc;
  sys_realloc := bench_coin;
  sys_free := bench_release;
  sys_mmap _ := bench_alloc;
  sys_munmap := bench_release;
  client_thread_create fd :=
    b ← bench_coin;
    if b : bool then
      modify (λ w, bench_set_threads (bench_set_heap w (bench_heap w - 1)) (fd :: bench_threads w));;
      mret (Some fd)
    else mret None;
  thread_tryjoin tid :=
    b ← bench_coin;
    if b : bool then modify (λ w, bench_set_threads w (remove_one tid (bench_threads w)));; mret true
    else mret false;
  thread_join tid := modify (λ w, bench_set_threads w (remove_one tid (bench_threads w)));
}.

Lemma remove_one_perm x l l' : l ≡ₚ x :: l' → remove_one x l ≡ₚ l'.
Proof.
  intros Hp. assert (x ∈ l) as Hin by (rewrite Hp; by left).
  assert (l ≡ₚ x :: remove_one x l) as Hr.
  { clear Hp. induction l as [|y l IH]; [by apply not_elem_of_nil in Hin|]. simpl.
    destruct (Z.eqb_spec x y) as [->|Hne]; [done|].
    apply elem_of_cons in Hin as [|Hin]; [done|]. rewrite (IH Hin) at 1. apply perm_swap. }
  rewrite Hr in Hp. by apply (inj (cons x)) in Hp.
Qed.

(** What flipping a coin leaves alone. *)
Lemma bench_coin_law w :
  wp bench_coin (λ _ w', bench_fd w' = bench_fd w ∧ bench_in w' = bench_in w ∧
    bench_out w' = bench_out w ∧ bench_events w' = bench_events w ∧
    bench_open w' = bench_open w ∧ bench_threads w' = bench_threads w) w.
Proof.
  apply wp_returns. unfold bench_coin.
  destruct (bench_coins w); do 2 eexists; (split; [done|]); by split_and!.
Qed.

Ltac bench_toss :=
  apply wp_bind; eapply wp_mono; [apply bench_coin_law|];
  let b := fresh "b" in let w' := fresh "w'" in
  intros b w' (?E & ?E & ?E & ?E & ?E & ?E); destruct b.

Lemma bench_alloc_law w :
  wp bench_alloc (λ _ w', bench_open w' = bench_open w ∧ bench_threads w' = bench_threads w) w.
Proof. bench_toss; [|by apply wp_ret]. by apply wp_bind, wp_modify, wp_ret. Qed.

#[export] Program Instance bench_resources : Resources bench := {|
  open_fds := bench_open;
  joinable := bench_threads;
|}.
Next Obligation. intros. apply wp_returns. do 2 eexists. split; [done|]. simpl. unfold bench_fresh. split_and!; done || lia. Qed.
Next Obligation.
  intros fd w. simpl. bench_toss; [|by apply wp_ret]. apply wp_returns. do 2 eexists.
  split; [done|]. simpl. unfold bench_fresh. split_and!; [done|lia|congruence].
Qed.
Next Obligation.
  intros fd fds w Hp. apply wp_returns. do 2 eexists. split; [done|]. split; [done|]. simpl.
  by apply remove_one_perm.
Qed.
Next Obligation.
  intros fd w. simpl. bench_toss; [|by apply wp_ret].
  apply wp_bind, wp_modify, wp_ret. simpl. split; congruence.
Qed.
Next Obligation.
  intros tid ts w Hp. simpl. bench_toss; [|by apply wp_ret].
  apply wp_bind, wp_modify, wp_ret. simpl. split; [congruence|]. apply remove_one_perm. congruence.
Qed.
Next Obligation. intros tid ts w Hp. apply wp_modify. split; [done|]. by apply remove_one_perm. Qed.
Next Obligation. intros. by apply wp_ret. Qed.
Next Obligation. intros. simpl. bench_toss; by apply wp_ret. Qed.
Next Obligation.
  intros fd a w. simpl. bench_toss; [|by apply wp_ret]. by apply wp_bind, wp_modify, wp_ret.
Qed.
Next Obligation. intros. by apply wp_ret. Qed.
Next Obligation. intros. simpl. bench_toss; by apply wp_ret. Qed.
Next Obligation. intros. apply bench_alloc_law. Qed.
Next Obligation. intros. eapply wp_mono; [apply bench_coin_law|]. by intros b w' (_ & _ & _ & _ & ? & ?). Qed.
Next Obligation. intros. by apply wp_modify. Qed.
Next Obligation. intros. apply bench_alloc_law. Qed.
Next Obligation. intros. by apply wp_modify. Qed.
Next Obligation. intros. eapply wp_mono; [apply bench_coin_law|]. by intros b w' (_ & _ & _ & _ & ? & ?). Qed.
Next Obligation. intros. by apply wp_ret. Qed.

(** The blocks are counted, and connections remembered. *)
Lemma bench_coin_heap : moves bench_heap bench_coin (λ _, 0).
Proof.
  intros w b w'. unfold bench_coin. destruct (bench_coins w); intros [= <- <-]; simpl; lia.
Qed.

Lemma bench_modify_heap g d : (∀ w, bench_heap (g w) = bench_heap w + d) →
  moves bench_heap (modify g) (λ _, d).
Proof. intros Hg w [] w' [= <-]. apply Hg. Qed.

Lemma bench_alloc_heap : moves bench_heap bench_alloc (λ b, if b : bool then 1 else 0).
Proof.
  apply moves_skip; [apply bench_coin_heap|]. intros []; [|by apply moves_ret].
  eapply moves_bind; [by apply (bench_modify_heap _ 1)|]. intros []. by apply moves_ret.
Qed.

Lemma bench_release_heap : moves bench_heap bench_release (λ _, -1).
Proof. by apply bench_modify_heap. Qed.

(** A call that tosses a coin and then leaves the heap alone. *)
Ltac bench_flat :=
  first [ by apply moves_ret | apply bench_coin_heap
        | apply bench_modify_heap; intros; simpl; lia
        | apply moves_skip; [apply bench_coin_heap|intros []]; bench_flat
        | apply moves_skip; [apply bench_modify_heap; intros; simpl; lia|intros []]; bench_flat
        | intros w a w' [= <- <-]; simpl; lia ].

#[export] Program Instance bench_blocks : Heap bench := {| heap := bench_heap |}.
Next Obligation. apply bench_alloc_heap. Qed.
Next Obligation. intros. apply bench_alloc_heap. Qed.
Next Obligation. apply bench_release_heap. Qed.
Next Obligation. apply bench_release_heap. Qed.
Next Obligation.
  intros fd. apply moves_skip; [apply bench_coin_heap|]. intros []; [|by apply moves_ret].
  eapply moves_bind; [by apply (bench_modify_heap _ (-1))|]. intros []. by apply moves_ret.
Qed.
Solve All Obligations with intros; simpl; bench_flat.

#[export] Program Instance bench_dialling : Dialling bench := {|
  dialled w fd := snd <$> find (λ l, l.1 =? fd) (bench_peers w);
|}.
Next Obligation.
  intros fd a w. apply wp_bind. eapply wp_mono; [apply bench_coin_law|].
  intros [] w' _; [|by apply wp_ret]. apply wp_bind, wp_modify, wp_ret. simpl. by rewrite Z.eqb_refl.
Qed.
Next Obligation. intros. by apply wp_ret. Qed.

(** Without faults: no break to come, and every coin falls well. *)
Definition bench_faultless (w : bench) (fd : Z) : Prop :=
  fd = bench_fd w ∧ (IoBreak ∉ bench_events w) ∧ bench_coins w = [].

Lemma bench_send_faultless fd buf : buf ≠ [] →
  call_keeps (λ w, bench_faultless w fd) (λ _, False) (λ n, n ≠ 0) (bench_send fd buf).
Proof.
  intros Hne w r w' (-> & Hb & Hc). unfold bench_send. rewrite Z.eqb_refl. simpl.
  unfold bench_faultless, bench_transfer.
  destruct (bench_events w) as [|[n| |] es]; intros [= <- <-]; simpl;
    (split; [intros _; split_and!; [done| |done]; set_solver|]).
  - intros Hz%dec_stable. destruct buf; [done|]. unfold zlen in Hz. simpl in Hz. lia.
  - intros Hz%dec_stable. destruct buf; [done|]. unfold zlen in Hz. simpl in Hz. lia.
  - done.
  - set_solver.
Qed.

#[export] Program Instance bench_links : Links bench := {| faultless := bench_faultless |}.
Next Obligation. intros. by apply bench_send_faultless. Qed.
Next Obligation. intros. by apply bench_send_faultless. Qed.
Next Obligation.
  intros fd n flags w r w' Hn (-> & Hb & Hc). simpl. unfold bench_recv. rewrite Z.eqb_refl. simpl.
  unfold bench_faultless, bench_transfer.
  destruct (bench_events w) as [|[m| |] es]; intros [= <- <-]; simpl.
  - split; [by split_and!|]. destruct n; [lia|]. by destruct (bench_in w).
  - split; [split_and!; [done|set_solver|done]|]. destruct n; [lia|]. by destruct (bench_in w).
  - split; [split_and!; [done|set_solver|done]|done].
  - set_solver.
Qed.

#[export] Program Instance bench_env : ServerEnv bench.
Next Obligation.
  intros fd w b w' (-> & Hb & Hc). simpl. unfold bench_coin. rewrite Hc. intros [= <- <-].
  by split_and!.
Qed.
Next Obligation.
  intros w. eapply wp_mono; [apply bench_coin_law|].
  intros b w' (E1 & E2 & E3 & E4 & _) fd. simpl. rewrite E1, E2, E3, E4. by split_and!.
Qed.
Next Obligation. intros. by apply wp_modify. Qed.
