(* ===== verification/ServerClaims.v ===== *)
(** * What the server guarantees *)

From S2P Require Import Prelude Machine Protocol PageService Connection Node Gossip Cluster ClusterInv ClusterTheorems ClusterSteps ClusterClaims ClusterRouting Server ServerSpec ServerTheorems ServerLoop ServerHeap ServerWorld.

(** ** The thread that serves a client *)

Section thread_claims.
Context {W : Type} {SO : SocketOps W} {SK : Sockets W} {DO : DatagramOps W} {OO : SockoptOps W}
  {CO : ClusterOps W} {VO : ServerOps W} {LK : Links W} {VE : ServerEnv W}.

(** C8: Whatever a client sends, in whatever pieces, and whenever the
    connection or the server stops, the thread that serves it returns without
    undefined behaviour; the store is the result of the first requests of the
    stream, applied in order, and the client has been sent a prefix of their
    answers. *)
Theorem client_thread_serves_prefix fd pages n fuel sv (w : W) :
  store_ok pages sv → hangup w fd = true →
  (length (pending w fd) < n)%nat → (header_size + page_bytes + interrupts w ≤ fuel)%nat →
  wp (handle_client_thread n fuel fd) (λ _ s, store_ok pages s.1 ∧ ∃ m k out rest,
    serve_n m pages (g_storage sv) (pending w fd) = (out, g_storage s.1, rest) ∧
    sent s.2 fd = sent w fd ++ take k out) (sv, w).
Proof.
  intros Hok Hh Hn Hf. eapply wp_mono; [by apply (handle_client_thread_ok fd pages)|].
  intros _ s (Hok' & m & k & out & rest & Hs & Hsent & _). split; [done|]. by exists m, k, out, rest.
Qed.

(** C9: Without faults the thread serves every request: the client gets all
    the answers and the store has seen all the writes, up to the first write
    out of range or the end of the stream. *)
Theorem client_thread_serves_all fd pages n fuel sv (w : W) :
  store_ok pages sv → hangup w fd = true → faultless w fd →
  (length (pending w fd) < n)%nat → (header_size + page_bytes + interrupts w ≤ fuel)%nat →
  wp (handle_client_thread n fuel fd) (λ _ s,
    sent s.2 fd = sent w fd ++ serve_out pages (g_storage sv) (pending w fd) ∧
    g_storage s.1 = serve_store pages (g_storage sv) (pending w fd)) (sv, w).
Proof.
  intros Hok Hh Hfl Hn Hf. eapply wp_mono; [by apply (handle_client_thread_ok fd pages)|].
  intros _ s (_ & m & k & out & rest & Hs & Hsent & Hend). destruct (Hend Hfl) as [Ek Hso].
  unfold serve_out, serve_store. rewrite (serve_n_served_out _ _ _ _ _ _ _ Hs Hso).
  by rewrite Hsent, Ek.
Qed.

End thread_claims.

(** A server for two pages. *)
Definition two_pages : server := mk_server (zero_page ++ zero_page) 2 None.

Lemma two_pages_ok : store_ok 2 two_pages.
Proof.
  split_and!; [done|done|done|done|]. simpl. unfold zlen.
  rewrite length_app, length_zero_page. pose proof page_bytes_Z. unfold PAGE_SIZE in *. lia.
Qed.

(** A client that asks for page 1, in two pieces and with a signal. *)
Definition bench_get : bench :=
  mk_bench 5 (get_request 1) [] [IoPart 2; IoIntr; IoPart 1] [5] [] [] 0 [].

Lemma bench_get_len : (length (pending bench_get 5%Z) < 100)%nat.
Proof. change (length (get_request 1) < 100)%nat. rewrite length_get_request. unfold header_size. lia. Qed.

Lemma bench_get_fuel : (header_size + page_bytes + interrupts bench_get ≤ 9 + page_bytes + 3)%nat.
Proof. simpl. unfold header_size. lia. Qed.

Lemma client_thread_serves_prefix_witness :
  wp (handle_client_thread 100 (9 + page_bytes + 3) 5) (λ _ s, store_ok 2 s.1 ∧ ∃ m k out rest,
    serve_n m 2 (g_storage two_pages) (pending bench_get 5) = (out, g_storage s.1, rest) ∧
    sent s.2 5 = sent bench_get 5 ++ take k out) (two_pages, bench_get).
Proof.
  apply (client_thread_serves_prefix 5 2 100 (9 + page_bytes + 3) two_pages bench_get).
  - apply two_pages_ok.
  - reflexivity.
  - apply bench_get_len.
  - apply bench_get_fuel.
Defined.

Lemma client_thread_serves_all_witness :
  wp (handle_client_thread 100 (9 + page_bytes + 3) 5) (λ _ s,
    sent s.2 5 = sent bench_get 5 ++ serve_out 2 (g_storage two_pages) (pending bench_get 5) ∧
    g_storage s.1 = serve_store 2 (g_storage two_pages) (pending bench_get 5)) (two_pages, bench_get).
Proof.
  apply (client_thread_serves_all 5 2 100 (9 + page_bytes + 3) two_pages bench_get).
  - apply two_pages_ok.
  - reflexivity.
  - split; [reflexivity|]. split; [|reflexivity]. apply (bool_decide_eq_true_1 _). reflexivity.
  - apply bench_get_len.
  - apply bench_get_fuel.
Defined.

(** ** Requests in a cluster *)

Section routing.
Context {W : Type} {SO : SocketOps W} {DO : DatagramOps W} {OO : SockoptOps W}
  {CO : ClusterOps W} {CE : ClusterEnv W} {DL : Dialling W} {VO : ServerOps W}.
Implicit Types (sv : server) (c : cluster_ctx) (w : W).

(** The page is in the range of the node itself, and in its store. *)
Definition holds sv c (p : Z) : Prop :=
  n_range_start (ctx_self c) <= p < n_range_end (ctx_self c) ∧ p < g_storage_pages sv.

(** The test of the two request handlers. *)
Definition held_here sv c (p : Z) : bool :=
  (n_range_start (ctx_self c) <=? p) && (p <? n_range_end (ctx_self c)) && (p <? g_storage_pages sv).

Lemma held_here_spec sv c p : reflect (holds sv c p) (held_here sv c p).
Proof.
  apply iff_reflect. unfold holds, held_here.
  rewrite !andb_true_iff, Z.leb_le, !Z.ltb_lt. tauto.
Qed.

Lemma is_local_page_run sv c w p :
  g_cluster sv = Some c → is_local_page p (sv, w) =
    Ret ((n_range_start (ctx_self c) <=? p) && (p <? n_range_end (ctx_self c)), (sv, w)).
Proof.
  intros Hc. unfold is_local_page, vget, in_cluster, mbind, M_bind, gets. simpl. rewrite Hc. simpl.
  by destruct sv; simpl in *; subst.
Qed.

Lemma in_cluster_run {A} (m : M CS A) sv c w :
  g_cluster sv = Some c → in_cluster m (sv, w) =
    match m (c, w) with
    | Ret (a, (c', w')) => Ret (a, (set_g_cluster (Some c') sv, w'))
    | Undef => Undef
    | Diverge => Diverge
    | Killed => Killed
    end.
Proof. unfold in_cluster. simpl. by intros ->. Qed.

Lemma set_g_cluster_same sv c : g_cluster sv = Some c → set_g_cluster (Some c) sv = sv.
Proof. destruct sv. simpl. by intros ->. Qed.

(** The handlers of a server in a cluster, by where the page is. *)
Lemma clustered_get_run fuel fd p sv c w :
  g_cluster sv = Some c → 0 <= p → zlen (g_storage sv) = g_storage_pages sv * PAGE_SIZE →
  (is_local_page p ≫= serve_get fuel fd p) (sv, w) =
    if held_here sv c p then reply fuel fd (stored_page (g_storage sv) p) (sv, w)
    else ('(r, page) ← in_cluster (cluster_forward_get fuel p zero_page);
          reply fuel fd (if r =? 0 then page else zero_page)) (sv, w).
Proof.
  intros Hc Hp Hlen. unfold mbind at 1, M_bind at 1. rewrite (is_local_page_run _ _ _ _ Hc).
  unfold serve_get, has_cluster, vget, gets, held_here.
  unfold mbind, M_bind, mret, M_ret. cbn [fst snd]. rewrite Hc.
  destruct (_ && (p <? g_storage_pages sv)) eqn:E.
  - apply andb_true_iff in E as [_ Hlt%Z.ltb_lt].
    unfold load_region. cbn [fst]. rewrite page_bytes_Z, Hlen. unfold PAGE_SIZE.
    destruct (Z.leb_spec 0 (p * 4096)); [|lia].
    by destruct (Z.leb_spec (p * 4096 + 4096) (g_storage_pages sv * 4096)); [|lia].
  - destruct (in_cluster _ (sv, w)) as [[[r page] s]| | |]; [|done..].
    by destruct (r =? 0).
Qed.

Lemma clustered_put_run fuel fd p data sv c w w1 :
  g_cluster sv = Some c → 0 <= p → length data = page_bytes →
  zlen (g_storage sv) = g_storage_pages sv * PAGE_SIZE →
  dsm_recv_full fuel fd zero_page w = Ret ((0, data), w1) →
  (is_local_page p ≫= serve_put fuel fd p) (sv, w) =
    let ack := header_bytes (dsm_rpc_make_header OP_ACK p) in
    if held_here sv c p then
      reply fuel fd ack (set_g_storage (splice (g_storage sv) (Z.to_nat (p * PAGE_SIZE)) data) sv, w1)
    else (r ← in_cluster (cluster_forward_put fuel p data);
          if r <? 0 then mret (Some tt) else reply fuel fd ack) (sv, w1).
Proof.
  intros Hc Hp Hd Hlen Hrecv. unfold mbind at 1, M_bind at 1. rewrite (is_local_page_run _ _ _ _ Hc).
  unfold serve_put, has_cluster, vget, gets, vmod, modify, held_here.
  unfold mbind at 1, M_bind at 1. rewrite (on_snd_run _ _ _ _ _ Hrecv). cbv beta iota.
  change (0 <? 0) with false. cbv iota.
  unfold mbind, M_bind, mret, M_ret. cbn [fst snd]. rewrite Hc.
  destruct (_ && (p <? g_storage_pages sv)) eqn:E.
  - apply andb_true_iff in E as [_ Hlt%Z.ltb_lt].
    unfold store_region. cbn [fst].
    assert (zlen data = 4096) as -> by (pose proof page_bytes_Z; unfold PAGE_SIZE, zlen in *; lia).
    rewrite Hlen. unfold PAGE_SIZE. destruct (Z.leb_spec 0 (p * 4096)); [|lia].
    by destruct (Z.leb_spec (p * 4096 + 4096) (g_storage_pages sv * 4096)); [|lia].
  - done.
Qed.

(** C18: How a clustered server answers a read.  If the page is in its own
    range and its store, from the store.  Otherwise, if the page has an owner,
    with what the owner answers on a connection to the owner's client port,
    which is made if there is none; and with a page of zeros, as if that were
    the contents, if the owner's answer fails, if it cannot be reached, or if
    there is no owner. *)
Theorem clustered_get_routing fuel fd p sv c w :
  g_cluster sv = Some c → cluster_inv c → 0 <= p →
  zlen (g_storage sv) = g_storage_pages sv * PAGE_SIZE →
  let get := is_local_page p ≫= serve_get fuel fd p in
  (holds sv c p → get (sv, w) = reply fuel fd (stored_page (g_storage sv) p) (sv, w)) ∧
  (∀ idx n, ¬ holds sv c p → owner_at c p idx n → linked c w idx n →
     (∃ pfd c1 w1, at_hand c w idx n pfd c1 w1 ∧ ∀ r page w',
        dsm_rpc_get fuel pfd p zero_page w1 = Ret ((r, page), w') →
        get (sv, w) = reply fuel fd (if r =? 0 then page else zero_page)
          (set_g_cluster (Some c1) sv, w')) ∨
     (not_linked c idx ∧ unreachable w (client_addr n) ∧ ∃ w',
        get (sv, w) = reply fuel fd zero_page (sv, w'))) ∧
  (¬ holds sv c p → no_owner c p → get (sv, w) = reply fuel fd zero_page (sv, w)).
Proof.
  intros Hc I Hp Hlen get. subst get. rewrite (clustered_get_run _ _ _ _ _ _ Hc Hp Hlen).
  destruct (forward_run fuel p zero_page c w I) as [Hown Hnone].
  unfold mbind, M_bind. rewrite (in_cluster_run _ _ _ _ Hc).
  destruct (held_here_spec sv c p) as [Hh|Hh]; [by split_and!|]. split_and!; [done| |].
  - intros idx n _ Ho Hl. destruct (Hown idx n Ho Hl) as [(pfd & c1 & w1 & Ha & -> & _)|
      (Hn & Hu & w' & -> & _)]; [left|right].
    + exists pfd, c1, w1. split; [done|]. intros r page w' E. by rewrite (on_snd_run _ _ _ _ _ E).
    + split_and!; [done|done|]. exists w'. by rewrite (set_g_cluster_same _ _ Hc).
  - intros _ Ho. destruct (Hnone Ho) as [-> _]. by rewrite (set_g_cluster_same _ _ Hc).
Qed.

(** C19: A clustered server acknowledges a write only when it has been made:
    in its own store, or by the owner of the page, who has acknowledged it on
    a connection to the owner's client port.  If the owner has refused it or
    cannot be reached, or there is no owner, nothing is stored or sent and the
    thread ends; if the forwarded write ends the process by [SIGPIPE], nothing
    is sent either. *)
Theorem clustered_put_acknowledged fuel fd p data sv c w w1 :
  g_cluster sv = Some c → cluster_inv c → 0 <= p → length data = page_bytes →
  zlen (g_storage sv) = g_storage_pages sv * PAGE_SIZE →
  dsm_recv_full fuel fd zero_page w = Ret ((0, data), w1) →
  let put := is_local_page p ≫= serve_put fuel fd p in
  let ack := header_bytes (dsm_rpc_make_header OP_ACK p) in
  (holds sv c p →
     put (sv, w) = reply fuel fd ack
       (set_g_storage (splice (g_storage sv) (Z.to_nat (p * PAGE_SIZE)) data) sv, w1)) ∧
  (∀ idx n, ¬ holds sv c p → owner_at c p idx n → linked c w1 idx n →
     (∃ pfd c1 w2, at_hand c w1 idx n pfd c1 w2 ∧
        (∀ r w', dsm_rpc_put fuel pfd p data w2 = Ret (r, w') →
           put (sv, w) = (if r <? 0 then mret (Some tt) else reply fuel fd ack)
             (set_g_cluster (Some c1) sv, w')) ∧
        (dsm_rpc_put fuel pfd p data w2 = Killed → put (sv, w) = Killed)) ∨
     (not_linked c idx ∧ unreachable w1 (client_addr n) ∧ ∃ w',
        put (sv, w) = Ret (Some tt, (sv, w')))) ∧
  (¬ holds sv c p → no_owner c p → put (sv, w) = Ret (Some tt, (sv, w1))).
Proof.
  intros Hc I Hp Hd Hlen Hrecv put ack. subst put ack.
  rewrite (clustered_put_run _ _ _ _ _ _ _ _ Hc Hp Hd Hlen Hrecv). cbv zeta.
  destruct (forward_run fuel p data c w1 I) as [Hown Hnone].
  unfold mbind, M_bind. rewrite (in_cluster_run _ _ _ _ Hc).
  destruct (held_here_spec sv c p) as [Hh|Hh]; [by split_and!|]. split_and!; [done| |].
  - intros idx n _ Ho Hl. destruct (Hown idx n Ho Hl) as [(pfd & c1 & w2 & Ha & _ & ->)|
      (Hn & Hu & w' & _ & ->)]; [left|right].
    + exists pfd, c1, w2. split_and!; [done| |].
      * intros r w' E. by rewrite (on_snd_run _ _ _ _ _ E).
      * intros E. unfold on_snd. simpl. by rewrite E.
    + split_and!; [done|done|]. exists w'. by rewrite (set_g_cluster_same _ _ Hc).
  - intros _ Ho. destruct (Hnone Ho) as [_ ->]. by rewrite (set_g_cluster_same _ _ Hc).
Qed.

End routing.

(** ** The accept loop *)

Section loop_claims.
Context {W : Type} {SO : SocketOps W} {DO : DatagramOps W} {OO : SockoptOps W}
  {CO : ClusterOps W} {VO : ServerOps W} {RS : Resources W} {HP : Heap W}.

(** C23: An iteration of the accept loop, whatever call of it fails, returns,
    stays inside the slot array (which it reaps and grows when it is full),
    and loses nothing: every descriptor and thread it has acquired is in the
    table exactly once or has been given back, and the block it allocates for
    a client has gone to the client's thread or has been freed. *)
Theorem accept_iteration_conserves fds ts listen_fd t (w : W) :
  slots_ok fds ts (t, w) →
  wp (accept_iteration listen_fd) (λ _ s, slots_ok fds ts s ∧ heap s.2 = heap w) (t, w).
Proof.
  intros Hok. apply wp_strengthen; [by apply accept_iteration_ok|].
  intros r s E. pose proof (accept_iteration_heap _ _ _ _ E) as H. unfold theap in H. simpl in H. lia.
Qed.

End loop_claims.

(** A table with one client, and the world it belongs to: the coins let the
    loop run, accept and allocate, and then refuse the thread. *)
Definition one_client : slot_table :=
  mk_slots (mk_slot 7 7 :: replicate 255 (mk_slot 0 0)) 256 1.

Definition bench_accept : bench := mk_bench 5 [] [] [] [7; 3] [7] [true; true; false] 0 [].

Lemma one_client_ok : slots_ok [3] [] (one_client, bench_accept).
Proof. split; unfold MAX_CLIENTS; simpl; [done|lia|lia|done]. Qed.

Lemma accept_iteration_conserves_witness :
  wp (accept_iteration 3) (λ _ s, slots_ok [3] [] s ∧ heap s.2 = heap bench_accept)
    (one_client, bench_accept).
Proof. apply (accept_iteration_conserves [3] [] 3 one_client bench_accept). apply one_client_ok. Defined.

(** ** Examples of routing *)

(** The node of the cluster examples, with its eight pages, in the bench. *)
#[export] Program Instance bench_clock : ClusterEnv bench := {| uptime _ := 1000000000 |}.
Next Obligation. lia. Qed.
Solve All Obligations with
  intros; first
    [ apply wp_returns; do 2 eexists; (split; [reflexivity|]);
      unfold clock_reading, reading_ns, bench_fresh; simpl; split_and?; done || lia
    | apply wp_bind; eapply wp_mono; [apply bench_coin_law|]; intros [] ? _;
      first [by apply wp_ret|by apply wp_bind, wp_modify, wp_ret] ].

Definition lab_server : server := mk_server (concat (replicate 8 zero_page)) 8 (Some lab_ctx).

Lemma lab_storage : zlen (g_storage lab_server) = g_storage_pages lab_server * PAGE_SIZE.
Proof.
  unfold zlen. simpl. rewrite !length_app, length_zero_page. simpl.
  pose proof page_bytes_Z. unfold PAGE_SIZE in *. lia.
Qed.

(** The peer of the examples is on descriptor 7. *)
Definition bench_wired : bench :=
  mk_bench 5 (get_request 1) [] [] [5; 7] [] [] 0 [(7, client_addr lab_peer)].

Lemma page_nine_owner : owner_at lab_ctx 9 1 lab_peer.
Proof.
  split; [reflexivity|]. split; [split; [done|simpl; lia]|].
  intros j m Hj Hm. assert (j = 0) as -> by lia. injection Hm as <-.
  unfold responsible. simpl. lia.
Qed.

Lemma page_ninety_nine : no_owner lab_ctx 99.
Proof. by apply no_owner_find. Qed.

Lemma bench_linked w : dialled w 7 = Some (client_addr lab_peer) → linked lab_ctx w 1 lab_peer.
Proof. intros E fd [= <-] _. exact E. Qed.

(** Page 9 belongs to the peer, which does not answer; page 99 to nobody. *)
Lemma clustered_get_routing_witness :
  (is_local_page 3 ≫= serve_get 9 5 3) (lab_server, bench_wired) =
    reply 9 5 (stored_page (g_storage lab_server) 3) (lab_server, bench_wired) ∧
  (∃ pfd c1 w1, at_hand lab_ctx bench_wired 1 lab_peer pfd c1 w1 ∧ ∀ r page w',
     dsm_rpc_get 9 pfd 9 zero_page w1 = Ret ((r, page), w') →
     (is_local_page 9 ≫= serve_get 9 5 9) (lab_server, bench_wired) =
       reply 9 5 (if r =? 0 then page else zero_page) (set_g_cluster (Some c1) lab_server, w')) ∧
  (is_local_page 99 ≫= serve_get 9 5 99) (lab_server, bench_wired) =
    reply 9 5 zero_page (lab_server, bench_wired).
Proof.
  destruct (clustered_get_routing 9 5 3 lab_server lab_ctx bench_wired eq_refl lab_ctx_inv
    ltac:(lia) lab_storage) as (H1 & _ & _).
  destruct (clustered_get_routing 9 5 9 lab_server lab_ctx bench_wired eq_refl lab_ctx_inv
    ltac:(lia) lab_storage) as (_ & H2 & _).
  destruct (clustered_get_routing 9 5 99 lab_server lab_ctx bench_wired eq_refl lab_ctx_inv
    ltac:(lia) lab_storage) as (_ & _ & H3).
  split; [|split].
  - apply H1. unfold holds. simpl. lia.
  - destruct (H2 1 lab_peer ltac:(unfold holds; simpl; lia) page_nine_owner
      (bench_linked bench_wired eq_refl)) as [H|((fd & [= <-] & ?) & _)]; [exact H|lia].
  - apply H3; [unfold holds; simpl; lia|exact page_ninety_nine].
Defined.

(** A client that sends a page of zeros. *)
Definition bench_put : bench :=
  mk_bench 5 zero_page [] [] [5; 7] [] [] 0 [(7, client_addr lab_peer)].

Definition bench_put_done : bench :=
  mk_bench 5 [] [] [] [5; 7] [] [] 0 [(7, client_addr lab_peer)].

Lemma bench_put_received :
  dsm_recv_full 9 5 zero_page bench_put = Ret ((0, zero_page), bench_put_done).
Proof.
  unfold dsm_recv_full. cbn [dsm_recv_loop]. rewrite length_zero_page, Nat.sub_0_r.
  destruct (Nat.eqb_spec page_bytes 0) as [E|_]; [pose proof page_bytes_pos; lia|].
  unfold mbind, M_bind.
  assert (sys_recv 5 page_bytes MSG_WAITALL bench_put = Ret (SysOk zero_page, bench_put_done)) as ->.
  { cbn. unfold bench_recv, bench_transfer. cbn. rewrite <- length_zero_page.
    by rewrite firstn_all, drop_all. }
  rewrite length_zero_page.
  destruct (Nat.eqb_spec page_bytes 0) as [E|_]; [pose proof page_bytes_pos; lia|].
  rewrite splice_all by done. simpl. by rewrite length_zero_page, Nat.sub_diag.
Qed.

Lemma clustered_put_acknowledged_witness :
  (is_local_page 3 ≫= serve_put 9 5 3) (lab_server, bench_put) =
    reply 9 5 (header_bytes (dsm_rpc_make_header OP_ACK 3))
      (set_g_storage (splice (g_storage lab_server) (Z.to_nat (3 * PAGE_SIZE)) zero_page) lab_server,
       bench_put_done) ∧
  (∃ pfd c1 w2, at_hand lab_ctx bench_put_done 1 lab_peer pfd c1 w2 ∧ ∀ r w',
     dsm_rpc_put 9 pfd 9 zero_page w2 = Ret (r, w') →
     (is_local_page 9 ≫= serve_put 9 5 9) (lab_server, bench_put) =
       (if r <? 0 then mret (Some tt) else reply 9 5 (header_bytes (dsm_rpc_make_header OP_ACK 9)))
         (set_g_cluster (Some c1) lab_server, w')) ∧
  (is_local_page 99 ≫= serve_put 9 5 99) (lab_server, bench_put) =
    Ret (Some tt, (lab_server, bench_put_done)).
Proof.
  destruct (clustered_put_acknowledged 9 5 3 zero_page lab_server lab_ctx bench_put bench_put_done
    eq_refl lab_ctx_inv ltac:(lia) length_zero_page lab_storage bench_put_received) as (H1 & _ & _).
  destruct (clustered_put_acknowledged 9 5 9 zero_page lab_server lab_ctx bench_put bench_put_done
    eq_refl lab_ctx_inv ltac:(lia) length_zero_page lab_storage bench_put_received) as (_ & H2 & _).
  destruct (clustered_put_acknowledged 9 5 99 zero_page lab_server lab_ctx bench_put bench_put_done
    eq_refl lab_ctx_inv ltac:(lia) length_zero_page lab_storage bench_put_received) as (_ & _ & H3).
  split; [|split].
  - apply H1. unfold holds. simpl. lia.
  - destruct (H2 1 lab_peer ltac:(unfold holds; simpl; lia) page_nine_owner
      (bench_linked bench_put_done eq_refl)) as [(pfd & c1 & w2 & Ha & H & _)|((fd & [= <-] & ?) & _)]; [|lia].
    exists pfd, c1, w2. split; [exact Ha|exact H].
  - apply H3; [unfold holds; simpl; lia|exact page_ninety_nine].
Defined.
