(* ===== verification/System.v ===== *)
(** * Client and server together

    The client's RPCs, over a connection that may transfer in parts, be
    interrupted or break, against the stream function that the server thread
    implements, are a page service.  So everything proved of the pager over
    an abstract page service holds of the pager over the real protocol and
    the real server. *)

From S2P Require Import Prelude Machine Protocol PageService Paging PagingInv PagingOps PagingAccess PagingSpec PagingTheorems Connection Node Gossip Cluster Server ServerSpec ServerTheorems.

(** The store a server starts with. *)
Record disk := mk_disk {
  disk_pages : Z;
  disk_bytes : list byte;
  disk_ok : 0 <= disk_pages <= UINT32_MAX ∧ zlen disk_bytes = disk_pages * PAGE_SIZE;
}.

Definition server_peer (d : disk) : list byte → list byte :=
  serve_out (disk_pages d) (disk_bytes d).

#[export] Instance server_peer_stream d : StreamPeer (server_peer d).
Proof. intros a b. apply serve_out_mono. Qed.

(** ** Serving the client's messages *)

Section messages.
Context (pages : Z).

Lemma serve_nothing st input :
  next_request input = None → serve pages st input = ([], st, input).
Proof. intros E. unfold serve. destruct (length input); [done|]. simpl. by rewrite E. Qed.

Lemma serve_one st input r out st' :
  next_request input = Some (r, []) → answer pages st r = Some (out, st') →
  serve pages st input = (out, st', []).
Proof. intros E Ea. rewrite (serve_step _ _ _ _ _ _ _ E Ea). unfold serve_out. simpl. by rewrite app_nil_r. Qed.

Lemma next_request_short input : (length input < header_size)%nat → next_request input = None.
Proof. intros H. unfold next_request. by destruct (Nat.ltb_spec (length input) header_size); [|lia]. Qed.

Lemma next_get_request id :
  0 <= id < 2 ^ 32 → next_request (get_request id) = Some (RqGet id, []).
Proof.
  intros Hid. pose proof (length_get_request id) as Hl. unfold next_request. rewrite Hl.
  destruct (Nat.ltb_spec header_size header_size); [lia|].
  rewrite take_ge, drop_ge by lia. unfold get_request.
  rewrite header_roundtrip by apply make_header_wf. simpl. by rewrite u32_small.
Qed.

Lemma serve_get st id :
  0 <= id < 2 ^ 32 →
  serve pages st (get_request id) = (if id <? pages then stored_page st id else zero_page, st, []).
Proof. intros Hid. by eapply serve_one; [apply next_get_request|]. Qed.

Lemma serve_gets st ids :
  Forall (λ id, 0 <= id < 2 ^ 32) ids →
  serve pages st (concat (get_request <$> ids)) =
    (concat ((λ id, if id <? pages then stored_page st id else zero_page) <$> ids), st, []).
Proof.
  induction 1 as [|id ids Hid _ IH]; [done|]. simpl.
  destruct (serve_app pages st (get_request id) (concat (get_request <$> ids))) as (H1 & H2 & H3).
  { unfold serve_rest. by rewrite serve_get. }
  unfold serve_out, serve_store, serve_rest in *. rewrite serve_get in H1, H2, H3 by done.
  cbn [fst snd] in *. rewrite IH in H1, H2, H3.
  destruct (serve pages st (get_request id ++ _)) as [[? ?] ?]. cbn [fst snd] in *. by subst.
Qed.

(** A part of a run of gets leaves the store alone. *)
Lemma serve_part_gets st ids k :
  Forall (λ id, 0 <= id < 2 ^ 32) ids →
  serve_store pages st (take k (concat (get_request <$> ids))) = st.
Proof.
  intros Hids. revert k. induction Hids as [|id ids Hid _ IH]; intros k; [cbn; by rewrite take_nil|].
  cbn [fmap list_fmap concat]. destruct (decide (k < header_size)%nat).
  - unfold serve_store. rewrite serve_nothing; [done|]. apply next_request_short.
    rewrite length_take. lia.
  - rewrite take_app_ge by (rewrite length_get_request; lia).
    destruct (serve_app pages st (get_request id) (take (k - length (get_request id))
      (concat (get_request <$> ids)))) as (_ & H2 & _).
    { unfold serve_rest. by rewrite serve_get. }
    rewrite H2. unfold serve_store at 2. by rewrite serve_get.
Qed.

Definition put_request (id : Z) (buf : list byte) : list byte :=
  header_bytes (dsm_rpc_make_header OP_PUT_PAGE id) ++ buf.

Lemma length_put_header id :
  length (header_bytes (dsm_rpc_make_header OP_PUT_PAGE id)) = header_size.
Proof. apply length_header_bytes, make_header_wf. Qed.

Lemma next_put_request id buf :
  0 <= id < 2 ^ 32 → length buf = page_bytes →
  next_request (put_request id buf) = Some (RqPut id buf, []).
Proof.
  intros Hid Hb. unfold next_request, put_request. rewrite length_app, length_put_header.
  destruct (Nat.ltb_spec (header_size + length buf) header_size); [lia|].
  rewrite take_app_length', drop_app_length' by (by rewrite length_put_header).
  rewrite header_roundtrip by apply make_header_wf. simpl. rewrite Hb.
  destruct (Nat.ltb_spec page_bytes page_bytes); [lia|].
  rewrite take_ge, drop_ge by lia. by rewrite u32_small.
Qed.

Lemma serve_put st id buf :
  0 <= id < pages → pages <= UINT32_MAX → length buf = page_bytes →
  serve pages st (put_request id buf) =
    (header_bytes (dsm_rpc_make_header OP_ACK id),
     splice st (Z.to_nat (id * PAGE_SIZE)) buf, []).
Proof.
  unfold UINT32_MAX. intros Hid Hp Hb. eapply serve_one; [apply next_put_request; [lia|done]|].
  simpl. by destruct (Z.ltb_spec id pages); [|lia].
Qed.

(** A part of a put leaves the store alone, or is all of it. *)
Lemma serve_part_put st id buf k :
  0 <= id < 2 ^ 32 → length buf = page_bytes →
  serve_store pages st (take k (put_request id buf)) = st ∨
  take k (put_request id buf) = put_request id buf.
Proof.
  intros Hid Hb.
  assert (length (put_request id buf) = header_size + page_bytes)%nat as Hl.
  { unfold put_request. by rewrite length_app, length_put_header, Hb. }
  destruct (decide (header_size + page_bytes ≤ k)%nat) as [|Hk]; [right; apply take_ge; lia|left].
  unfold serve_store. rewrite serve_nothing; [done|]. unfold next_request.
  rewrite length_take, Hl. destruct (Nat.ltb_spec (k `min` (header_size + page_bytes)) header_size); [done|].
  rewrite take_take, Nat.min_l by lia. unfold put_request.
  rewrite take_app_length' by (by rewrite length_put_header).
  rewrite header_roundtrip by apply make_header_wf. simpl.
  rewrite length_drop, length_take, length_app, length_put_header, Hb.
  by destruct (Nat.ltb_spec ((k `min` (header_size + page_bytes)) - header_size) page_bytes); [|lia].
Qed.

Lemma zlen_serve_store st input :
  zlen st = pages * PAGE_SIZE → zlen (serve_store pages st input) = pages * PAGE_SIZE.
Proof.
  remember (length input) as n eqn:Hn. revert input st Hn.
  induction n as [n IH] using lt_wf_ind. intros input st -> Hst.
  destruct (next_request input) as [[r rest]|] eqn:E.
  2: { unfold serve_store. by rewrite serve_nothing. }
  destruct (answer pages st r) as [[out st']|] eqn:Ea.
  2: { unfold serve_store, serve. destruct (length input); [done|]. simpl. by rewrite E, Ea. }
  pose proof (next_request_bytes _ _ _ E) as (pre & Hin & Hpre).
  unfold serve_store. rewrite (serve_step _ _ _ _ _ _ _ E Ea). cbn [fst snd].
  apply (IH (length rest)); [|done|].
  { rewrite Hin, length_app. unfold header_size in *. lia. }
  eapply zlen_answer; [exact Hst| |exact Ea]. clear -E.
  unfold next_request in E. destruct (Nat.ltb_spec (length input) header_size) as [|Hl]; [done|].
  assert (length (take header_size input) = header_size) as Hh by (rewrite length_take; lia).
  pose proof (header_of_bytes_wf _ Hh) as (_ & _ & Hid).
  destruct (hdr_op _ =? OP_GET_PAGE); [simplify_eq; lia|].
  destruct (hdr_op _ =? OP_PUT_PAGE); [|by simplify_eq].
  destruct (Nat.ltb_spec (length (drop header_size input)) page_bytes); simplify_eq.
  split; [lia|]. rewrite length_take. lia.
Qed.

End messages.

(** ** The page service of a connection to the server *)

Section service.
Context (d : disk).
Abbreviation world := (conn (server_peer d)).
Implicit Types (w : world).

Definition conn_store w : list byte := serve_store (disk_pages d) (disk_bytes d) (conn_sent w).

(** The page the server holds, once it has read everything sent to it. *)
Definition conn_page w (fd p : Z) : list byte :=
  if (fd =? conn_fd w) && (0 <=? p) && (p <? disk_pages d)
  then stored_page (conn_store w) p else zero_page.

Definition conn_serves w (fd _ : Z) : Prop := conn_up _ fd true w.

(** Between calls: the connection is idle and every request complete, or it is
    gone (or was never there). *)
Definition conn_in_step w (fd n : Z) : Prop :=
  0 <= n <= disk_pages d ∧
  (conn_down _ fd w ∨
   (idle _ fd false w ∧ serve_rest (disk_pages d) (disk_bytes d) (conn_sent w) = [])).

Lemma length_conn_store w : zlen (conn_store w) = disk_pages d * PAGE_SIZE.
Proof. apply zlen_serve_store, (disk_ok d). Qed.

Lemma length_conn_page w fd p : length (conn_page w fd p) = page_bytes.
Proof.
  unfold conn_page. destruct (_ && _) eqn:E; [|apply length_zero_page].
  apply andb_true_iff in E as [[_ H1%Z.leb_le]%andb_true_iff H2%Z.ltb_lt].
  apply (length_stored_page (disk_pages d)); [apply length_conn_store|lia].
Qed.

(** An idle connection, with the knowledge whether it will break. *)
Lemma idle_safe fd w :
  idle _ fd false w → ∃ safe, idle _ fd safe w ∧ (conn_serves w fd 0 → safe = true).
Proof.
  intros [(Hfd & Hb & _) Hg]. destruct (decide (IoBreak ∈ conn_events w)).
  - exists false. split; [by split_and!|]. intros (_ & _ & Hc). by destruct (Hc eq_refl).
  - exists true. split; [by split_and!|done].
Qed.

(** What a completed or broken call means for the service. *)
Lemma call_post_service fd safe w msg r w' n :
  idle _ fd safe w → serve_rest (disk_pages d) (disk_bytes d) (conn_sent w) = [] →
  0 <= n <= disk_pages d →
  serve_rest (disk_pages d) (conn_store w) msg = [] →
  call_post _ fd safe w msg r w' →
  conn_in_step w' fd n ∧ conn_fd w' = conn_fd w ∧
  (conn_serves w' fd 0 ∨ safe = false) ∧ (safe = true → r = 0) ∧
  (r = 0 ∨ r = -1) ∧
  ∃ k, conn_store w' = serve_store (disk_pages d) (conn_store w) (take k msg) ∧
    (r = 0 → take k msg = msg).
Proof.
  intros [(Hfd & Hb & Hc) Hg] Hrest Hn Hmsg [(-> & Hi & Hs)|(-> & Hl & [k Hk])].
  - pose proof Hi as [Hup Hg']. pose proof Hup as (Hfd' & Hb' & Hc').
    destruct (serve_app _ _ _ msg Hrest) as (_ & E2 & E3).
    split_and!; [|congruence| |done|by left|].
    + split; [done|]. right. split; [by split|]. rewrite Hs, E3. done.
    + destruct safe; [left|by right]. by split_and!.
    + exists (length msg). rewrite firstn_all. split; [|done]. unfold conn_store. by rewrite Hs.
  - pose proof Hl as (Hfd' & Hb' & ->). destruct (serve_app _ _ _ (take k msg) Hrest) as (_ & E2 & _).
    split_and!; [|congruence|by right|done|by right|].
    + split; [done|]. left. by right.
    + exists k. split; [|done]. unfold conn_store. by rewrite Hk.
Qed.

Lemma answers_serve w msg :
  serve_rest (disk_pages d) (disk_bytes d) (conn_sent w) = [] →
  answers _ w msg (serve_out (disk_pages d) (conn_store w) msg).
Proof. intros H. by destruct (serve_app _ _ _ msg H) as (E & _). Qed.

Lemma conn_page_store w w' fd p :
  conn_fd w' = conn_fd w → stored_page (conn_store w') p = stored_page (conn_store w) p →
  conn_page w' fd p = conn_page w fd p.
Proof. intros E1 E2. unfold conn_page. by rewrite E1, E2. Qed.

Lemma conn_page_up fd w p :
  conn_fd w = fd → 0 <= p < disk_pages d → conn_page w fd p = stored_page (conn_store w) p.
Proof.
  intros <- Hp. unfold conn_page. rewrite Z.eqb_refl.
  destruct (Z.leb_spec 0 p), (Z.ltb_spec p (disk_pages d)); simpl; done || lia.
Qed.

(** Pages do not overlap in the store. *)
Lemma stored_page_splice st id buf p :
  zlen st = disk_pages d * PAGE_SIZE → 0 <= id < disk_pages d → 0 <= p → length buf = page_bytes →
  stored_page (splice st (Z.to_nat (id * PAGE_SIZE)) buf) p =
    if decide (p = id) then buf else stored_page st p.
Proof.
  intros Hl Hid Hp Hb. pose proof page_bytes_Z. pose proof page_bytes_pos.
  unfold stored_page, zlen, PAGE_SIZE in *. case_decide.
  - subst. rewrite <- Hb. apply slice_splice_same. nia.
  - apply slice_splice_disjoint; [nia|]. rewrite Hb. nia.
Qed.

Lemma conn_rpc_get_service fd n id buf w :
  conn_in_step w fd n → 0 <= id < n → length buf = page_bytes →
  wp (@rpc_get _ (@socket_rpc world _ _) fd id buf) (λ res w',
    conn_in_step w' fd n ∧ length res.2 = page_bytes ∧
    (∀ p, conn_page w' fd p = conn_page w fd p) ∧
    (0 <= res.1 → res.2 = conn_page w fd id) ∧
    (conn_serves w fd id → 0 <= res.1 ∧ ∀ p, conn_serves w fd p → conn_serves w' fd p)) w.
Proof.
  intros [Hn Hstep] Hid Hb. pose proof (disk_ok d) as [Hpages _]. unfold UINT32_MAX in *.
  apply wp_returns. simpl. destruct Hstep as [Hd|[Hi Hrest]].
  { exists (-1, buf), w. split; [by apply (rpc_get_down _ (header_size + page_bytes + _ - 1)%nat)|].
    cbn [fst snd]. split; [by split; [|left]|]. split_and!; [done|done|lia|].
    intros (Hfd & Hup & _).
    by destruct Hd as [|Hbr]; [|rewrite Hbr in Hup]. }
  destruct (idle_safe _ _ Hi) as (safe & Hsafe & Hss).
  assert (0 <= id < 2 ^ 32) as Hid32 by lia. pose proof Hi as [(Hfd & _) _].
  pose proof (answers_serve w (get_request id) Hrest) as Ha. unfold serve_out in Ha.
  rewrite serve_get in Ha by done. cbn [fst] in Ha.
  destruct (Z.ltb_spec id (disk_pages d)) as [Hlt|]; [|lia].
  pose proof (conn_rpc_get_ok _ (io_fuel w) fd safe id buf _ w Hsafe Hb
    (length_stored_page _ _ id (length_conn_store w) ltac:(lia)) Ha) as Hwp.
  apply wp_returns in Hwp as (res & w' & E & Hl & Hpost & Hpage); [|unfold io_fuel; simpl; lia].
  exists res, w'. split; [exact E|].
  apply (call_post_service _ _ _ _ _ _ n) in Hpost as (Hst & Efd & Hs & Hr & Hr' & k & Ek & _);
    [|done|done|done|exact (f_equal snd (serve_get _ _ _ Hid32))].
  split; [exact Hst|]. split_and!; [done| | |].
  - intros p. apply conn_page_store; [done|]. rewrite Ek.
    pose proof (serve_part_gets (disk_pages d) (conn_store w) [id] k) as Hk.
    simpl in Hk. rewrite app_nil_r in Hk. unfold get_request in Hk.
    by rewrite Hk by (by constructor).
  - intros H0. rewrite Hpage by lia. symmetry. apply conn_page_up; [done|lia].
  - intros Hserve. specialize (Hss Hserve). rewrite (Hr Hss). split; [done|]. intros p _.
    by destruct Hs as [Hs|Hs]; [|rewrite Hss in Hs].
Qed.

Lemma conn_rpc_get_batch_service fd m ids n bufs w :
  conn_in_step w fd m → Forall (λ id, 0 <= id < m) (take (Z.to_nat n) ids) → 0 < n <= zlen ids →
  n * PAGE_SIZE <= zlen bufs →
  wp (@rpc_get_batch _ (@socket_rpc world _ _) fd ids n bufs) (λ res w',
    conn_in_step w' fd m ∧ length res.2 = length bufs ∧
    (∀ p, conn_page w' fd p = conn_page w fd p) ∧
    (0 <= res.1 → ∀ i id, i < n → zget ids i = Some id →
       slice res.2 (Z.to_nat (i * PAGE_SIZE)) page_bytes = conn_page w fd id) ∧
    (Forall (conn_serves w fd) (take (Z.to_nat n) ids) →
       0 <= res.1 ∧ ∀ p, conn_serves w fd p → conn_serves w' fd p)) w.
Proof.
  intros [Hm Hstep] Hids Hn Hb. pose proof (disk_ok d) as [Hpages _]. unfold UINT32_MAX in *.
  apply wp_returns. simpl. destruct Hstep as [Hd|[Hi Hrest]].
  { exists (-1, bufs), w.
    split; [by apply (rpc_get_batch_down _ (header_size + page_bytes + _ - 1)%nat)|].
    cbn [fst snd]. split; [by split; [|left]|]. split_and!; [done|done|lia|]. intros Hall.
    destruct (take (Z.to_nat n) ids) as [|id l] eqn:El.
    { apply (f_equal length) in El. rewrite length_take in El. unfold zlen in *. simpl in El. lia. }
    inversion Hall as [|?? (Hfd & Hup & _) _]. by destruct Hd as [|Hbr]; [|rewrite Hbr in Hup]. }
  destruct (idle_safe _ _ Hi) as (safe & Hsafe & Hss). pose proof Hi as [(Hfd & _) _].
  set (l := take (Z.to_nat n) ids) in *.
  assert (Forall (λ id, 0 <= id < 2 ^ 32) l) as H32.
  { eapply Forall_impl; [exact Hids|]. intros x Hx. simpl in Hx. lia. }
  assert (length l = Z.to_nat n) as Hlen by (unfold l, zlen in *; rewrite length_take; lia).
  pose proof (answers_serve w (concat (get_request <$> l)) Hrest) as Ha. unfold serve_out in Ha.
  rewrite serve_gets in Ha by done. cbn [fst] in Ha. set (replies := (λ id, if id <? disk_pages d then _ else _) <$> l) in Ha.
  assert (∀ i id, l !! i = Some id → replies !! i = Some (stored_page (conn_store w) id)) as Hrep.
  { intros i id Hid. unfold replies. rewrite list_lookup_fmap, Hid. simpl. f_equal.
    eapply list.Forall_forall in Hids; [|by eapply list_elem_of_lookup_2].
    destruct (Z.ltb_spec id (disk_pages d)); [done|]. simpl in Hids. lia. }
  assert (Forall (λ p, length p = page_bytes) replies) as Hlr.
  { apply Forall_fmap. eapply Forall_impl; [exact Hids|]. intros id Hid. simpl in *.
    destruct (Z.ltb_spec id (disk_pages d)); [|lia].
    apply (length_stored_page (disk_pages d)); [apply length_conn_store|lia]. }
  assert (zlen replies = n) as Hzr by (unfold zlen, replies; rewrite length_fmap; lia).
  pose proof (conn_rpc_get_batch_ok _ (io_fuel w) fd safe ids n bufs replies w Hsafe Hn Hzr Hlr Hb Ha)
    as Hwp.
  apply wp_returns in Hwp as (res & w' & E & Hl & Hpost & Hpage); [|unfold io_fuel; simpl; lia].
  exists res, w'. split; [exact E|].
  apply (call_post_service _ _ _ _ _ _ m) in Hpost as (Hst & Efd & Hs & Hr & Hr' & k & Ek & _);
    [|done|done|done|exact (f_equal snd (serve_gets _ _ _ H32))].
  split; [exact Hst|]. split_and!; [done| | |].
  - intros p. apply conn_page_store; [done|]. rewrite Ek. by rewrite serve_part_gets.
  - intros H0 i id Hin Hget. pose proof (zget_Some_range _ _ _ Hget).
    rewrite zget_lookup in Hget by lia.
    assert (l !! Z.to_nat i = Some id) as Hli by (unfold l; rewrite lookup_take_lt; [done|lia]).
    rewrite <- (Z2Nat.id i) at 1 by lia. rewrite (Hpage ltac:(lia) _ _ (Hrep _ _ Hli)).
    symmetry. apply conn_page_up; [done|].
    eapply list.Forall_forall in Hids; [|by eapply list_elem_of_lookup_2]. simpl in Hids. lia.
  - intros Hall. assert (conn_serves w fd 0) as Hserve.
    { destruct l as [|id l']; [simpl in Hlen; lia|]. by inversion Hall. }
    specialize (Hss Hserve). rewrite (Hr Hss). split; [done|]. intros p _.
    by destruct Hs as [Hs|Hs]; [|rewrite Hss in Hs].
Qed.

Lemma conn_rpc_put_service fd n id buf w :
  conn_in_step w fd n → 0 <= id < n → length buf = page_bytes →
  wp (@rpc_put _ (@socket_rpc world _ _) fd id buf) (λ r w',
    conn_in_step w' fd n ∧
    (∀ p, p ≠ id → conn_page w' fd p = conn_page w fd p) ∧
    (0 <= r → conn_page w' fd id = buf) ∧
    (conn_serves w fd id → 0 <= r ∧ ∀ p, conn_serves w fd p → conn_serves w' fd p)) w.
Proof.
  intros [Hn Hstep] Hid Hb. pose proof (disk_ok d) as [Hpages _]. unfold UINT32_MAX in *.
  apply wp_returns. simpl. destruct Hstep as [Hd|[Hi Hrest]].
  { exists (-1), w. split; [by apply (rpc_put_down _ (header_size + page_bytes + _ - 1)%nat)|].
    split; [by split; [|left]|]. split_and!; [done|lia|].
    intros (Hfd & Hup & _). by destruct Hd as [|Hbr]; [|rewrite Hbr in Hup]. }
  destruct (idle_safe _ _ Hi) as (safe & Hsafe & Hss).
  assert (0 <= id < 2 ^ 32) as Hid32 by lia. pose proof Hi as [(Hfd & _) _].
  assert (serve (disk_pages d) (conn_store w) (put_request id buf) =
    (header_bytes (dsm_rpc_make_header OP_ACK id),
     splice (conn_store w) (Z.to_nat (id * PAGE_SIZE)) buf, [])) as Hserve
    by (apply serve_put; unfold UINT32_MAX; done || lia).
  pose proof (answers_serve w (put_request id buf) Hrest) as Ha. unfold serve_out in Ha.
  rewrite Hserve in Ha. cbn [fst] in Ha.
  pose proof (conn_rpc_put_ok _ (io_fuel w) fd safe id buf _ w Hsafe Hb
    (length_header_bytes _ (make_header_wf OP_ACK id))
    (f_equal hdr_op (header_roundtrip _ (make_header_wf OP_ACK id))) Ha) as Hwp.
  apply wp_returns in Hwp as (r & w' & E & Hpost); [|unfold io_fuel; simpl; lia].
  exists r, w'. split; [exact E|].
  apply (call_post_service _ _ _ _ _ _ n) in Hpost as (Hst & Efd & Hs & Hr & Hr' & k & Ek & Hfull);
    [|done|done|done|exact (f_equal snd Hserve)].
  change (header_bytes (dsm_rpc_make_header OP_PUT_PAGE id) ++ buf) with (put_request id buf) in *.
  assert (∀ p, 0 <= p → stored_page (splice (conn_store w) (Z.to_nat (id * PAGE_SIZE)) buf) p =
    if decide (p = id) then buf else stored_page (conn_store w) p) as Hsp.
  { intros p Hp. apply stored_page_splice; [apply length_conn_store|lia|done|done]. }
  split; [exact Hst|]. split_and!.
  - intros p Hp. destruct (decide (0 <= p)) as [Hp0|Hp0].
    + apply conn_page_store; [done|]. rewrite Ek.
      destruct (serve_part_put (disk_pages d) (conn_store w) id buf k Hid32 Hb) as [-> | ->]; [done|].
      unfold serve_store. rewrite Hserve. cbn [fst snd]. rewrite Hsp by done. by case_decide.
    + unfold conn_page. destruct (Z.leb_spec 0 p); [lia|]. by rewrite !andb_false_r.
  - intros H0. rewrite conn_page_up; [|congruence|lia]. rewrite Ek, Hfull by lia.
    unfold serve_store. rewrite Hserve. cbn [fst snd]. rewrite Hsp by lia. by rewrite decide_True.
  - intros Hsv. specialize (Hss Hsv). rewrite (Hr Hss). split; [done|]. intros p _.
    by destruct Hs as [Hs|Hs]; [|rewrite Hss in Hs].
Qed.

#[export] Instance conn_rpc : RpcOps world := socket_rpc.

#[export] Instance conn_service : PageService world := {|
  page_of := conn_page;
  serves := conn_serves;
  in_step := conn_in_step;
  length_page_of := length_conn_page;
  rpc_get_ok := conn_rpc_get_service;
  rpc_get_batch_ok := conn_rpc_get_batch_service;
  rpc_put_ok := conn_rpc_put_service;
|}.

End service.

(** ** The pager over the protocol and the server *)

(** The memory the server's store represents. *)
Definition disk_page (d : disk) (p : Z) : list byte :=
  if (0 <=? p) && (p <? disk_pages d) then stored_page (disk_bytes d) p else zero_page.

(** A connection that has just been accepted. *)
Definition fresh_conn (d : disk) (fd : Z) (es : list io_event) : conn (server_peer d) :=
  mk_conn fd [] 0 false es.

Lemma mem_upd_ext V U p bs bs' :
  (∀ q, V q = U q) → bs = bs' → ∀ q, mem_upd V p bs q = mem_upd U p bs' q.
Proof. intros E -> q. unfold mem_upd. by case_decide. Qed.

Lemma mem_steps_ext V os rs V' U :
  mem_steps V os rs V' → (∀ p, V p = U p) → ∃ U', mem_steps U os rs U' ∧ ∀ p, V' p = U' p.
Proof.
  intros H. revert U. induction H as [V|V o r V1 os rs V2 Hstep _ IH]; intros U E.
  { exists U. split; [constructor|done]. }
  assert (∃ U1, mem_step U o r U1 ∧ ∀ p, V1 p = U1 p) as (U1 & Hs & E1).
  { destruct Hstep as [V p|V p off bs|V start count|V o].
    - exists U. rewrite E. split; [constructor|done].
    - eexists. split; [constructor|]. apply mem_upd_ext; [done|by rewrite E].
    - exists U. split; [constructor|done].
    - exists U. split; [constructor|done]. }
  destruct (IH U1 E1) as (U2 & Hs2 & E2). exists U2. split; [by econstructor|done].
Qed.

Lemma fresh_conn_page d fd es p : page_of (fresh_conn d fd es) fd p = disk_page d p.
Proof. simpl. unfold conn_page, disk_page. simpl. by rewrite Z.eqb_refl. Qed.

Lemma fresh_conn_in_step d fd es n :
  0 <= n <= disk_pages d → in_step (fresh_conn d fd es) fd n.
Proof. intros Hn. split; [done|]. right. by split_and!. Qed.

Lemma fresh_conn_serves d fd es p : IoBreak ∉ es → serves (fresh_conn d fd es) fd p.
Proof. intros H. by split_and!. Qed.

(** Running the pager's calls from a fresh connection; [live] says that the
    connection does not break. *)
Lemma run_ops_fresh live d g np nvp blks c blks' fd es os :
  0 <= np <= UINT32_MAX → 0 <= nvp <= disk_pages d → 0 <= fd →
  dsm_create_context g np nvp blks = (Some c, blks') → Forall (op_ok nvp) os →
  (live = true → IoBreak ∉ es) →
  wp (run_ops os) (λ rs s, ∃ V, mem_steps (disk_page d) os rs V ∧
    (live = true → RFail ∉ rs) ∧
    ∀ p pe, zget (page_table s.1) p = Some pe → valid pe = 0 ∨ dirty pe = 0 →
      0 <= p < nvp ∧ conn_page d s.2 fd p = V p ∧ (live = true → conn_fd s.2 = fd)) (set_sock_fd fd c, fresh_conn d fd es).
Proof.
  intros Hnp Hnvp Hfd Hc Hos Hlive. pose proof (disk_ok d) as [Hpages _].
  assert (0 <= nvp <= UINT32_MAX) as Hnvp' by lia.
  assert (num_virtual_pages c = nvp) as Ec.
  { by destruct (create_context_inv _ _ _ _ _ _ Hnp Hnvp' Hc) as (_ & ? & _). }
  eapply wp_mono; [apply (run_ops_ok live (page_of (fresh_conn d fd es) fd))|].
  - apply (create_connect_ok live g np nvp blks c blks'); try done.
    + by apply fresh_conn_in_step.
    + intros Hl p _. apply fresh_conn_serves. by apply Hlive.
  - simpl. by rewrite Ec.
  - intros rs [c' w'] ((_ & Evp & Efd & _) & Hl & V & Hsteps & I & [[_ Hsv] [_ HV]]).
    simpl in Evp, Efd, I, Hsv, HV. rewrite Efd in *.
    destruct (mem_steps_ext _ _ _ _ (disk_page d) Hsteps (fresh_conn_page d fd es)) as (U & HU & EU).
    exists U. split_and!; [done|done|]. intros p pe Hpe Hclean. simpl in Hpe.
    pose proof (zget_Some_range _ _ _ Hpe) as Hr. rewrite (inv_page_table _ _ I), Evp, Ec in Hr.
    split_and!; [lia|lia| |].
    + rewrite <- EU. specialize (HV _ _ Hpe). unfold page_view in HV. rewrite Efd in HV.
      destruct (truthy (valid pe)) eqn:Et; [|done]. apply truthy_true in Et.
      apply HV. by destruct Hclean.
    + intros Hlv. by destruct (Hsv Hlv p ltac:(lia)).
Qed.

(** ** Claims *)

(** C1: Client and server together are a remote memory.  The pager, over the
    real protocol, over a connection that transfers in arbitrary parts, is
    interrupted by signals and may break, against the stream function of the
    real server: every sequence of API calls completes without undefined
    behaviour and gives the results of a memory that starts as the server's
    store; calls fail only if the connection breaks, and a call that fails
    changes nothing. *)
Theorem remote_memory d g np nvp blks c blks' fd es os :
  0 <= np <= UINT32_MAX → 0 <= nvp <= disk_pages d → 0 <= fd →
  dsm_create_context g np nvp blks = (Some c, blks') → Forall (op_ok nvp) os →
  wp (run_ops os) (λ rs _, (∃ V, mem_steps (disk_page d) os rs V) ∧
    (IoBreak ∉ es → rs = mem_exec (disk_page d) os)) (set_sock_fd fd c, fresh_conn d fd es).
Proof.
  intros Hnp Hnvp Hfd Hc Hos.
  eapply wp_mono; [apply (run_ops_fresh (bool_decide (IoBreak ∉ es)) d g np nvp blks c blks' fd es os);
    try done; apply bool_decide_eq_true_1|].
  intros rs s (V & HV & Hl & _). split; [by exists V|]. intros Hb. eapply mem_steps_exec; [done|].
  by apply Hl, bool_decide_eq_true_2.
Qed.

(** A server with three pages, the second of which starts with a 7. *)
Program Definition small_disk : disk :=
  mk_disk 3 (zero_page ++ splice zero_page 0 [Byte.x07] ++ zero_page) _.
Next Obligation.
  unfold UINT32_MAX. split; [lia|]. pose proof page_bytes_Z. pose proof page_bytes_pos.
  rewrite !zlen_app. unfold zlen. rewrite length_splice; rewrite length_zero_page; [lia|simpl; lia].
Qed.

(** A script with short transfers and a signal. *)
Definition rough_events : list io_event := [IoPart 2; IoIntr; IoPart 0; IoPart 100].

Lemma rough_events_calm : IoBreak ∉ rough_events.
Proof. apply (bool_decide_eq_true_1 _). reflexivity. Qed.

Lemma remote_memory_witness : ∃ c blks',
  dsm_create_context all_grants 1 3 [] = (Some c, blks') ∧
  wp (run_ops [MWrite 0 5 [Byte.x2a]; MRead 1; MRead 0]) (λ rs _,
    rs = [RDone; RData (disk_page small_disk 1);
          RData (splice (disk_page small_disk 0) 5 [Byte.x2a])])
    (set_sock_fd 3 c, fresh_conn small_disk 3 rough_events).
Proof.
  destruct (create_granted 1 3 [] ltac:(lia)) as (c & b & E). exists c, b. split; [exact E|].
  eapply wp_mono; [apply (remote_memory small_disk all_grants 1 3 [] c b 3)|].
  - unfold UINT32_MAX. lia.
  - simpl. lia.
  - lia.
  - exact E.
  - pose proof page_bytes_Z. unfold PAGE_SIZE in *. repeat constructor; simpl; lia.
  - intros rs s [_ Hrs]. apply Hrs, rough_events_calm.
Defined.

(** C4: What the server holds.  After any sequence of API calls over a
    connection that does not break, the server's store agrees with the memory
    on every page except those the client caches dirty: eviction has written
    back every page it threw out, and nothing else has touched the store. *)
Theorem server_holds_clean_pages d g np nvp blks c blks' fd es os :
  0 <= np <= UINT32_MAX → 0 <= nvp <= disk_pages d → 0 <= fd → IoBreak ∉ es →
  dsm_create_context g np nvp blks = (Some c, blks') → Forall (op_ok nvp) os →
  wp (run_ops os) (λ rs s, ∃ V, mem_steps (disk_page d) os rs V ∧
    ∀ p pe, zget (page_table s.1) p = Some pe → valid pe = 0 ∨ dirty pe = 0 →
      stored_page (conn_store d s.2) p = V p) (set_sock_fd fd c, fresh_conn d fd es).
Proof.
  intros Hnp Hnvp Hfd Hb Hc Hos.
  eapply wp_mono; [by apply (run_ops_fresh true d g np nvp blks c blks' fd es os)|].
  intros rs s (V & HV & _ & Hpages). exists V. split; [done|]. intros p pe Hpe Hclean.
  destruct (Hpages p pe Hpe Hclean) as (Hp & <- & Hconn). symmetry.
  apply conn_page_up; [by apply Hconn|lia].
Qed.

Lemma server_holds_clean_pages_witness : ∃ c blks',
  dsm_create_context all_grants 1 3 [] = (Some c, blks') ∧
  wp (run_ops [MWrite 0 5 [Byte.x2a]; MRead 1]) (λ rs s, ∃ V,
    mem_steps (disk_page small_disk) [MWrite 0 5 [Byte.x2a]; MRead 1] rs V ∧
    ∀ p pe, zget (page_table s.1) p = Some pe → valid pe = 0 ∨ dirty pe = 0 →
      stored_page (conn_store small_disk s.2) p = V p)
    (set_sock_fd 3 c, fresh_conn small_disk 3 rough_events).
Proof.
  destruct (create_granted 1 3 [] ltac:(lia)) as (c & b & E). exists c, b. split; [exact E|].
  apply (server_holds_clean_pages small_disk all_grants 1 3 [] c b 3).
  - unfold UINT32_MAX. lia.
  - simpl. lia.
  - lia.
  - apply rough_events_calm.
  - exact E.
  - pose proof page_bytes_Z. unfold PAGE_SIZE in *. repeat constructor; simpl; lia.
Defined.
