(* ===== verification/Config.v ===== *)
(** * Configuration: [include/dsm_config.h] and [src/dsm_config.c]

    Defaults, then the environment.  The environment is a function from
    names to values, strings are lists of characters, and [strtol] is the C
    library's, in base 10 and the C locale, with a 64-bit [long]. *)

From Stdlib Require Import Strings.String Strings.Ascii.
From S2P Require Import Prelude Protocol Node.

Definition LONG_MAX : Z := 2 ^ 63 - 1.
Definition LONG_MIN : Z := - 2 ^ 63.
Definition ERANGE : Z := 34.
Definition DEFAULT_HOST : string := "127.0.0.1"%string.

(** ** [strtol] *)

Definition chars := list_ascii_of_string.

Definition isspace (c : ascii) : bool :=
  let n := Z.of_nat (nat_of_ascii c) in (n =? 32) || ((9 <=? n) && (n <=? 13)).

Definition isdigit (c : ascii) : bool :=
  let n := Z.of_nat (nat_of_ascii c) in (48 <=? n) && (n <=? 57).

Definition digit_val (c : ascii) : Z := Z.of_nat (nat_of_ascii c) - 48.

Fixpoint skip_space (s : list ascii) : list ascii :=
  match s with
  | c :: s' => if isspace c then skip_space s' else s
  | [] => []
  end.

Definition take_sign (s : list ascii) : bool * list ascii :=
  match s with
  | c :: s' => if Ascii.eqb c "-" then (true, s') else if Ascii.eqb c "+" then (false, s') else (false, s)
  | [] => (false, [])
  end.

(** The longest run of digits. *)
Fixpoint span_digits (s : list ascii) : list ascii * list ascii :=
  match s with
  | c :: s' => if isdigit c then let '(ds, rest) := span_digits s' in (c :: ds, rest) else ([], s)
  | [] => ([], [])
  end.

Definition digits_val (ds : list ascii) : Z := foldl (λ acc c, acc * 10 + digit_val c) 0 ds.

(** The value, [errno], and the characters from [end] on. *)
Definition strtol (s : list ascii) : Z * Z * list ascii :=
  let '(neg, s1) := take_sign (skip_space s) in
  let '(ds, rest) := span_digits s1 in
  match ds with
  | [] => (0, 0, s)
  | _ =>
      let n := if neg : bool then - digits_val ds else digits_val ds in
      if LONG_MAX <? n then (LONG_MAX, ERANGE, rest)
      else if n <? LONG_MIN then (LONG_MIN, ERANGE, rest)
      else (n, 0, rest)
  end.

(** ** Checked parsing *)

(** The test that [dsm_env_long] and [dsm_parse_long] both make. *)
Definition bad_number (s : list ascii) (min max : Z) : bool :=
  let '(n, errno, rest) := strtol s in
  negb (errno =? 0) || (length rest =? length s)%nat || negb (length rest =? 0)%nat ||
  (n <? min) || (max <? n).

Definition env : Type := string → option string.

Definition dsm_env_long (e : env) (name : string) (dflt min max : Z) : Z :=
  match e name with
  | None => dflt
  | Some val => if bad_number (chars val) min max then dflt else (strtol (chars val)).1.1
  end.

Definition dsm_env_str (e : env) (name : string) (dflt : option string) : option string :=
  match e name with Some val => Some val | None => dflt end.

(** [None] is [exit(1)]. *)
Definition dsm_parse_long (arg : string) (min max : Z) : option Z :=
  if bad_number (chars arg) min max then None else Some (strtol (chars arg)).1.1.

Definition env_flag (e : env) (name : string) (old : bool) : bool :=
  match e name with
  | Some val => if String.eqb val "1" then true else old
  | None => old
  end.

(** ** The three configurations *)

Record dsm_client_config := mk_client_config {
  cc_host : option string;
  cc_port : Z;
  cc_num_pages : Z;
  cc_num_virtual_pages : Z;
  cc_num_iterations : Z;
  cc_locality_percent : Z;
  cc_write_percent : Z;
  cc_verbose : bool;
  cc_verify_mode : bool;
}.

Record dsm_server_config := mk_server_config {
  sc_port : Z;
  sc_num_virtual_pages : Z;
  sc_verbose : bool;
  sc_bind_addr : option string;
}.

Definition dsm_client_config_default : dsm_client_config :=
  mk_client_config (Some DEFAULT_HOST) DEFAULT_PORT 256 1024 100000 80 10 false false.

Definition dsm_server_config_default : dsm_server_config :=
  mk_server_config DEFAULT_PORT 1024 false (Some "0.0.0.0"%string).

Definition cluster_config_default : cluster_config :=
  mk_cluster_config None (DEFAULT_PORT + CLUSTER_PORT_OFFSET) None
    (DEFAULT_PORT + CLUSTER_PORT_OFFSET) HEARTBEAT_INTERVAL_MS GOSSIP_INTERVAL_MS
    HEARTBEAT_TIMEOUT_MS 0 0.

Definition dsm_client_config_from_env (e : env) (cfg : dsm_client_config) : dsm_client_config := {|
  cc_host := dsm_env_str e "DSM_HOST" (cc_host cfg);
  cc_port := u16 (dsm_env_long e "DSM_PORT" (cc_port cfg) 1 65535);
  cc_num_pages := u32 (dsm_env_long e "DSM_NUM_PAGES" (cc_num_pages cfg) 1 UINT32_MAX);
  cc_num_virtual_pages :=
    u32 (dsm_env_long e "DSM_NUM_VIRTUAL_PAGES" (cc_num_virtual_pages cfg) 1 UINT32_MAX);
  cc_num_iterations :=
    u32 (dsm_env_long e "DSM_NUM_ITERATIONS" (cc_num_iterations cfg) 0 UINT32_MAX);
  cc_locality_percent := u8 (dsm_env_long e "DSM_LOCALITY_PERCENT" (cc_locality_percent cfg) 0 100);
  cc_write_percent := u8 (dsm_env_long e "DSM_WRITE_PERCENT" (cc_write_percent cfg) 0 100);
  cc_verbose := env_flag e "DSM_VERBOSE" (cc_verbose cfg);
  cc_verify_mode := env_flag e "DSM_VERIFY" (cc_verify_mode cfg);
|}.

Definition dsm_server_config_from_env (e : env) (cfg : dsm_server_config) : dsm_server_config := {|
  sc_port := u16 (dsm_env_long e "DSM_PORT" (sc_port cfg) 1 65535);
  sc_num_virtual_pages :=
    u32 (dsm_env_long e "DSM_NUM_VIRTUAL_PAGES" (sc_num_virtual_pages cfg) 1 UINT32_MAX);
  sc_verbose := env_flag e "DSM_VERBOSE" (sc_verbose cfg);
  sc_bind_addr := dsm_env_str e "DSM_BIND_ADDR" (sc_bind_addr cfg);
|}.

Definition cluster_config_from_env (e : env) (cfg : cluster_config) : cluster_config := {|
  seed_addr := dsm_env_str e "DSM_SEED_ADDR" (seed_addr cfg);
  seed_port := u16 (dsm_env_long e "DSM_SEED_PORT" (seed_port cfg) 1 65535);
  cfg_node_id := dsm_env_str e "DSM_NODE_ID" (cfg_node_id cfg);
  cfg_cluster_port := u16 (dsm_env_long e "DSM_CLUSTER_PORT" (cfg_cluster_port cfg) 1 65535);
  heartbeat_ms := u32 (dsm_env_long e "DSM_HEARTBEAT_MS" (heartbeat_ms cfg) 1 UINT32_MAX);
  gossip_ms := u32 (dsm_env_long e "DSM_GOSSIP_MS" (gossip_ms cfg) 1 UINT32_MAX);
  timeout_ms := u32 (dsm_env_long e "DSM_TIMEOUT_MS" (timeout_ms cfg) 1 UINT32_MAX);
  page_range_start :=
    u32 (dsm_env_long e "DSM_PAGE_RANGE_START" (page_range_start cfg) 0 UINT32_MAX);
  page_range_end := u32 (dsm_env_long e "DSM_PAGE_RANGE_END" (page_range_end cfg) 0 UINT32_MAX);
|}.
