(* ===== verification/ConfigTheorems.v ===== *)
(** * What configuration guarantees

    The checked parsers accept exactly the decimal numerals in range, and a
    configuration that has read the environment is within its documented
    bounds, whatever the environment holds. *)

From Stdlib Require Import Strings.String Strings.Ascii.
From S2P Require Import Prelude Machine Protocol Node Gossip Cluster ClusterInv ClusterTheorems Config.

(** ** Numerals *)

(** The strings [strtol] reads to the end: space, a sign, digits. *)
Definition numeral (s : list ascii) (n : Z) : Prop :=
  ∃ ws sg ds, s = ws ++ sg ++ ds ∧ Forall (λ c, isspace c = true) ws ∧
    ds ≠ [] ∧ Forall (λ c, isdigit c = true) ds ∧
    (((sg = [] ∨ sg = ["+"%char]) ∧ n = digits_val ds) ∨
     (sg = ["-"%char] ∧ n = - digits_val ds)).

Lemma skip_space_spec s :
  ∃ ws, s = ws ++ skip_space s ∧ Forall (λ c, isspace c = true) ws.
Proof.
  induction s as [|c s (ws & E & Hws)]; simpl; [by exists []|].
  destruct (isspace c) eqn:Ec; [|by exists []].
  exists (c :: ws). split; [simpl; by f_equal|by constructor].
Qed.

Lemma skip_space_app ws c s :
  Forall (λ c, isspace c = true) ws → isspace c = false →
  skip_space (ws ++ c :: s) = c :: s.
Proof. intros Hws Hc. induction Hws as [|x ws Hx _ IH]; simpl; [by rewrite Hc|by rewrite Hx]. Qed.

Lemma span_digits_spec s ds rest :
  span_digits s = (ds, rest) → s = ds ++ rest ∧ Forall (λ c, isdigit c = true) ds.
Proof.
  revert ds. induction s as [|c s IH]; intros ds; simpl; [by intros [= <- <-]|].
  destruct (isdigit c) eqn:Ec; [|by intros [= <- <-]].
  destruct (span_digits s) as [ds' rest'] eqn:Es. intros [= <- <-].
  destruct (IH ds' eq_refl) as [-> H]. split; [done|by constructor].
Qed.

Lemma span_digits_all ds : Forall (λ c, isdigit c = true) ds → span_digits ds = (ds, []).
Proof. induction 1 as [|c ds Hc _ IH]; simpl; [done|]. by rewrite Hc, IH. Qed.

Lemma isdigit_not_space c : isdigit c = true → isspace c = false.
Proof. unfold isdigit, isspace. cbv zeta. lia. Qed.

Lemma isdigit_not_sign c : isdigit c = true → Ascii.eqb c "-" = false ∧ Ascii.eqb c "+" = false.
Proof.
  intros Hc. split; apply Ascii.eqb_neq; intros ->; vm_compute in Hc; discriminate.
Qed.

(** What [strtol] does with a numeral. *)
Lemma strtol_numeral s n :
  numeral s n → LONG_MIN <= n <= LONG_MAX → strtol s = (n, 0, []) ∧ s ≠ [].
Proof.
  intros (ws & sg & ds & -> & Hws & Hne & Hds & Hn) Hr.
  destruct ds as [|d ds]; [done|]. pose proof Hds as Hds'. inversion Hds as [|?? Hd _]; subst.
  assert (∃ neg, take_sign (skip_space (ws ++ sg ++ d :: ds)) = (neg, d :: ds) ∧
    n = if neg then - digits_val (d :: ds) else digits_val (d :: ds)) as (neg & Et & En).
  { destruct (isdigit_not_sign d Hd) as [E1 E2].
    destruct Hn as [[[-> | ->] ->]|[-> ->]]; simpl.
    - exists false. rewrite skip_space_app by auto using isdigit_not_space. simpl. by rewrite E1, E2.
    - exists false. by rewrite skip_space_app.
    - exists true. by rewrite skip_space_app. }
  split.
  - unfold strtol. rewrite Et, (span_digits_all _ Hds'). rewrite <- En. cbv zeta.
    destruct (Z.ltb_spec LONG_MAX n); [lia|]. by destruct (Z.ltb_spec n LONG_MIN); [lia|].
  - intros E. by apply app_nil in E as [_ [_ ?]%app_nil].
Qed.

(** What [strtol] reads to the end is a numeral. *)
Lemma strtol_reads s n :
  s ≠ [] → strtol s = (n, 0, []) → numeral s n ∧ LONG_MIN <= n <= LONG_MAX.
Proof.
  intros Hs. unfold strtol. destruct (skip_space_spec s) as (ws & E & Hws).
  destruct (take_sign (skip_space s)) as [neg s1] eqn:Et.
  destruct (span_digits s1) as [ds rest] eqn:Ed. apply span_digits_spec in Ed as [-> Hds].
  destruct ds as [|d ds]; [intros [= _ ->]; done|]. set (v := digits_val (d :: ds)).
  destruct (Z.ltb_spec LONG_MAX (if neg then - v else v)); [done|].
  destruct (Z.ltb_spec (if neg then - v else v) LONG_MIN); [done|].
  intros [= <- ->]. split; [|lia]. rewrite app_nil_r in Et.
  assert (∃ sg, skip_space s = sg ++ d :: ds ∧
    if neg then sg = ["-"%char] else (sg = [] ∨ sg = ["+"%char])) as (sg & Esg & Hsg).
  { destruct (skip_space s) as [|c s0]; [done|]. simpl in Et.
    destruct (Ascii.eqb_spec c "-") as [->|]; [injection Et as <- ->; by exists ["-"%char]|].
    destruct (Ascii.eqb_spec c "+") as [->|]; [injection Et as <- ->; exists ["+"%char]; auto|].
    injection Et as <- -> ->. exists []. auto. }
  exists ws, sg, (d :: ds). rewrite <- Esg. split_and!; [done|done|done|done|].
  destruct neg; [by right|by left].
Qed.

(** The test of the parsers. *)
Lemma bad_number_spec s min max :
  LONG_MIN <= min → max <= LONG_MAX →
  (bad_number s min max = false ↔ ∃ n, numeral s n ∧ min <= n <= max) ∧
  ∀ n, numeral s n → min <= n <= max → (strtol s).1.1 = n.
Proof.
  intros Hmin Hmax. split; [split|].
  - unfold bad_number. destruct (strtol s) as [[n er] rest] eqn:E.
    rewrite !orb_false_iff, !negb_false_iff, Z.eqb_eq, !Z.ltb_ge, Nat.eqb_neq, Nat.eqb_eq.
    intros ((((-> & Hl) & Hr) & Hn1) & Hn2). apply length_zero_iff_nil in Hr as ->.
    apply strtol_reads in E as [Hnum _]; [by exists n|by intros ->].
  - intros (n & Hnum & Hn). destruct (strtol_numeral s n Hnum ltac:(lia)) as [E Hs].
    unfold bad_number. rewrite E. simpl.
    destruct (Z.ltb_spec n min); [lia|]. destruct (Z.ltb_spec max n); [lia|]. by destruct s.
  - intros n Hnum Hn. by destruct (strtol_numeral s n Hnum ltac:(lia)) as [-> _].
Qed.

(** C30: The command-line parser accepts exactly the decimal numerals in
    range: optional space, an optional sign, at least one digit, nothing
    after; and it returns their value.  Everything else, numbers beyond a
    [long] included, is rejected. *)
Theorem parse_long_exact arg min max n :
  LONG_MIN <= min → max <= LONG_MAX →
  dsm_parse_long arg min max = Some n ↔ numeral (chars arg) n ∧ min <= n <= max.
Proof.
  intros Hmin Hmax. destruct (bad_number_spec (chars arg) min max Hmin Hmax) as [Hb Hv].
  unfold dsm_parse_long. destruct (bad_number (chars arg) min max).
  - split; [done|]. intros [Hnum Hn]. exfalso. enough (true = false) by done. apply Hb. by exists n.
  - destruct (proj1 Hb eq_refl) as (m & Hnum & Hm). rewrite (Hv m Hnum Hm). split.
    + by intros [= <-].
    + intros [Hnum' Hn]. rewrite <- (Hv m Hnum Hm). by rewrite (Hv n Hnum' Hn).
Qed.

Lemma parse_long_exact_witness :
  numeral (chars " +8080") 8080 ∧ dsm_parse_long "9223372036854775808" 1 65535 = None.
Proof.
  split; [|reflexivity].
  apply (parse_long_exact " +8080" 1 65535 8080); unfold LONG_MIN, LONG_MAX; [lia|lia|reflexivity].
Defined.

(** ** The environment *)

(** The field holds what the variable says if that is a numeral in range,
    and its default otherwise. *)
Definition reads (e : env) (name : string) (dflt min max v : Z) : Prop :=
  (∀ val n, e name = Some val → numeral (chars val) n → min <= n <= max → v = n) ∧
  ((∀ val n, e name = Some val → numeral (chars val) n → ¬ (min <= n <= max)) → v = dflt).

Lemma env_long_reads e name dflt min max :
  LONG_MIN <= min → max <= LONG_MAX → min <= dflt <= max →
  reads e name dflt min max (dsm_env_long e name dflt min max) ∧
  min <= dsm_env_long e name dflt min max <= max.
Proof.
  intros Hmin Hmax Hd. unfold dsm_env_long, reads. destruct (e name) as [val|].
  2: { split; [split; [done|done]|done]. }
  destruct (bad_number_spec (chars val) min max Hmin Hmax) as [Hb Hv].
  destruct (bad_number (chars val) min max).
  - split; [|done]. split; [|done]. intros val' n [= <-] Hnum Hn.
    exfalso. enough (true = false) by done. apply Hb. by exists n.
  - destruct (proj1 Hb eq_refl) as (m & Hnum & Hm). rewrite (Hv m Hnum Hm). split; [|done].
    split.
    + intros val' n [= <-] Hnum' Hn. rewrite <- (Hv m Hnum Hm). by apply Hv.
    + intros Hno. by destruct (Hno val m eq_refl Hnum).
Qed.

(** A field of [w] bits whose bounds fit in them. *)
Lemma env_field_reads (cast : Z → Z) e name dflt min max :
  (∀ z, min <= z <= max → cast z = z) →
  LONG_MIN <= min → max <= LONG_MAX → min <= dflt <= max →
  reads e name dflt min max (cast (dsm_env_long e name dflt min max)) ∧
  min <= cast (dsm_env_long e name dflt min max) <= max.
Proof.
  intros Hc Hmin Hmax Hd. destruct (env_long_reads e name dflt min max Hmin Hmax Hd) as [Hr Hb].
  by rewrite Hc.
Qed.

Ltac env_field :=
  apply env_field_reads;
  [ let z := fresh in intros z ?; unfold UINT32_MAX in *;
    first [apply u8_small; lia|apply u16_small; lia|apply u32_small; lia]
  | unfold LONG_MIN; lia
  | unfold LONG_MAX, UINT32_MAX; lia
  | vm_compute; split; discriminate ].

(** The bounds of a field alone. *)
Ltac env_bound :=
  match goal with
  | |- ?min <= ?v <= ?max =>
      let H := fresh in
      enough (∃ e name dflt, reads e name dflt min max v ∧ min <= v <= max) as (? & ? & ? & _ & H)
        by exact H;
      do 3 eexists; env_field
  end.

(** C31: Reading the environment.  Every numeric field of the three
    configurations is the value of its variable if that is a numeral within
    the documented bounds, and its default otherwise; the conversions to the
    fields' widths lose nothing.  So whatever the environment holds, the
    fields are within their bounds, and the cluster's configuration is one
    [cluster_create] accepts. *)
Theorem config_from_env_bounded e :
  let c := dsm_client_config_from_env e dsm_client_config_default in
  let s := dsm_server_config_from_env e dsm_server_config_default in
  let k := cluster_config_from_env e cluster_config_default in
  (reads e "DSM_PORT" 9999 1 65535 (cc_port c) ∧ 1 <= cc_port c <= 65535) ∧
  (reads e "DSM_NUM_PAGES" 256 1 UINT32_MAX (cc_num_pages c) ∧ 1 <= cc_num_pages c <= UINT32_MAX) ∧
  (reads e "DSM_NUM_VIRTUAL_PAGES" 1024 1 UINT32_MAX (cc_num_virtual_pages c) ∧
   1 <= cc_num_virtual_pages c <= UINT32_MAX) ∧
  (reads e "DSM_NUM_ITERATIONS" 100000 0 UINT32_MAX (cc_num_iterations c) ∧
   0 <= cc_num_iterations c <= UINT32_MAX) ∧
  (reads e "DSM_LOCALITY_PERCENT" 80 0 100 (cc_locality_percent c) ∧
   0 <= cc_locality_percent c <= 100) ∧
  (reads e "DSM_WRITE_PERCENT" 10 0 100 (cc_write_percent c) ∧ 0 <= cc_write_percent c <= 100) ∧
  (reads e "DSM_PORT" 9999 1 65535 (sc_port s) ∧ 1 <= sc_port s <= 65535) ∧
  (reads e "DSM_NUM_VIRTUAL_PAGES" 1024 1 UINT32_MAX (sc_num_virtual_pages s) ∧
   1 <= sc_num_virtual_pages s <= UINT32_MAX) ∧
  (reads e "DSM_SEED_PORT" 10999 1 65535 (seed_port k) ∧ 1 <= seed_port k <= 65535) ∧
  (reads e "DSM_CLUSTER_PORT" 10999 1 65535 (cfg_cluster_port k) ∧
   1 <= cfg_cluster_port k <= 65535) ∧
  (reads e "DSM_HEARTBEAT_MS" 1000 1 UINT32_MAX (heartbeat_ms k) ∧
   1 <= heartbeat_ms k <= UINT32_MAX) ∧
  (reads e "DSM_GOSSIP_MS" 500 1 UINT32_MAX (gossip_ms k) ∧ 1 <= gossip_ms k <= UINT32_MAX) ∧
  (reads e "DSM_TIMEOUT_MS" 3000 1 UINT32_MAX (timeout_ms k) ∧ 1 <= timeout_ms k <= UINT32_MAX) ∧
  (reads e "DSM_PAGE_RANGE_START" 0 0 UINT32_MAX (page_range_start k) ∧
   0 <= page_range_start k <= UINT32_MAX) ∧
  (reads e "DSM_PAGE_RANGE_END" 0 0 UINT32_MAX (page_range_end k) ∧
   0 <= page_range_end k <= UINT32_MAX) ∧
  config_wf k.
Proof.
  cbv zeta. do 15 (split; [env_field|]). unfold config_wf.
  split_and!; first [apply u16_range|apply u32_range].
Qed.
