(* ===== verification/ServerMain.v ===== *)
(** * The course of the server: [main] of [src/dsm_server.c]

    From the configuration that has been read to the exit code: the page
    store, the optional cluster, the listening socket, the accept loop and
    the shutdown. *)

From S2P Require Import Prelude Machine Protocol Node Gossip Cluster Server Config.

Section server_main.
Context {W : Type} {SO : SocketOps W} {DO : DatagramOps W} {OO : SockoptOps W}
  {CO : ClusterOps W} {VO : ServerOps W}.

(** A call that works on a cluster context. *)
Definition on_cluster {A} (c : cluster_ctx) (m : M CS A) : M W (A * cluster_ctx) := λ w,
  match m (c, w) with
  | Ret (a, (c', w')) => Ret ((a, c'), w')
  | Undef => Undef
  | Diverge => Diverge
  | Killed => Killed
  end.

(** The cluster of a node that owns a range; [None] is an exit with 1.  A
    failure to join is only logged.  [others] is what the cluster's threads do
    during the join. *)
Definition open_cluster (others : M CS unit) (alloc_ok lock_ok : bool) (ccfg : cluster_config)
    (port : Z) : M W (option (option cluster_ctx)) :=
  if 0 <? page_range_end ccfg then
    local_addr ← get_local_addr;
    g ← cluster_create alloc_ok lock_ok ccfg local_addr port;
    match g with
    | None => mret None
    | Some c0 =>
        '(r, c1) ← on_cluster c0 cluster_start;
        if r <? 0 then mret None else
        match seed_addr ccfg with
        | None => mret (Some (Some c1))
        | Some _ =>
            '(_, c2) ← on_cluster c1 (cluster_join others);
            mret (Some (Some c2))
        end
    end
  else mret (Some None).

(** The accept loop and the shutdown of the clients, on a new slot table. *)
Definition serve_clients (n : nat) (listen_fd : Z) : M W unit := λ w,
  let t := mk_slots (replicate (Z.to_nat MAX_CLIENTS) (mk_slot 0 0)) MAX_CLIENTS 0 in
  match (accept_loop n listen_fd;; shutdown_clients listen_fd) (t, w) with
  | Ret (_, (_, w')) => Ret (tt, w')
  | Undef => Undef
  | Diverge => Diverge
  | Killed => Killed
  end.

(** [bind_addr] is the parsed bind address; [alloc_ok] and [lock_ok] are the
    results of the calls of [cluster_create] that reserve memory and create
    the lock.  [n] bounds the iterations of the accept loop.  [madvise] is a
    hint. *)
Definition server_main (n : nat) (others : M CS unit) (alloc_ok lock_ok : bool)
    (bind_addr : option Z) (cfg : dsm_server_config) (ccfg : cluster_config) : M W Z :=
  storage ← sys_mmap (sc_num_virtual_pages cfg * PAGE_SIZE);
  if negb storage then mret 1 else
  g ← open_cluster others alloc_ok lock_ok ccfg (sc_port cfg);
  match g with
  | None => sys_munmap;; mret 1
  | Some cluster =>
      listen_fd ← start_server (sc_port cfg) bind_addr;
      if listen_fd <? 0 then sys_munmap;; mret 1 else
      slots ← sys_malloc;
      if negb slots then sys_close listen_fd;; sys_munmap;; mret 1 else
      serve_clients n listen_fd;;
      sys_free;;
      (match cluster with
       | None => mret tt
       | Some c => on_cluster c cluster_destroy;; mret tt
       end);;
      sys_munmap;;
      mret 0
  end.

End server_main.
