(* ===== verification/ServerMainTheorems.v ===== *)
(** * The server as a program

    A server without a cluster may serve for ever; when it ends, it has
    given back what it acquired. *)

From S2P Require Import Prelude Machine Protocol Node Gossip Cluster Server Config ServerLoop ServerHeap ServerWorld ServerMain.

Section server_run.
Context {W : Type} {SO : SocketOps W} {DO : DatagramOps W} {OO : SockoptOps W}
  {CO : ClusterOps W} {VO : ServerOps W} {RS : Resources W} {HP : Heap W}.
Implicit Types (w : W).

Lemma accept_loop_safe fds ts n listen_fd t w :
  slots_ok fds ts (t, w) → safe (accept_loop n listen_fd) (λ _ s, slots_ok fds ts s) (t, w).
Proof.
  intros Hok. apply (safe_loop _ (slots_ok fds ts)); [|done].
  intros [t1 w1] Hok1. apply safe_wp, wp_bind, wp_on_snd. eapply wp_mono; [apply running_resources|].
  intros b w2 Hw2. assert (slots_ok fds ts (t1, w2)) as Hok2 by (eapply slots_ok_same; [exact Hw2|exact Hok1]).
  destruct b; simpl; [|by apply wp_ret].
  eapply wp_mono; [by apply accept_iteration_ok|]. by intros [[]|] s.
Qed.

Lemma serve_clients_safe fds ts n listen_fd w :
  open_fds w ≡ₚ listen_fd :: fds → joinable w ≡ₚ ts →
  safe (serve_clients n listen_fd) (λ _ w', open_fds w' ≡ₚ fds ∧ joinable w' ≡ₚ ts) w.
Proof.
  intros Hf Ht. set (t := mk_slots (replicate (Z.to_nat MAX_CLIENTS) (mk_slot 0 0)) MAX_CLIENTS 0).
  assert (safe (accept_loop n listen_fd;; shutdown_clients listen_fd)
    (λ _ s, open_fds s.2 ≡ₚ fds ∧ joinable s.2 ≡ₚ ts) (t, w)) as H.
  { apply safe_bind. eapply safe_mono.
    - apply (accept_loop_safe (listen_fd :: fds) ts). unfold MAX_CLIENTS in t.
      split; unfold MAX_CLIENTS; simpl; [done|lia|lia|done].
    - intros [] [t' w'] Hok. by apply safe_wp, shutdown_clients_ok. }
  Transparent safe. unfold safe, serve_clients in *. fold t.
  destruct ((accept_loop n listen_fd;; shutdown_clients listen_fd) (t, w)) as [[[] [t' w']]| | |]; done.
  Opaque safe.
Qed.

Lemma serve_clients_heap n listen_fd : moves heap (serve_clients n listen_fd) (λ _, 0).
Proof.
  intros w [] w' E. unfold serve_clients in E. set (t := mk_slots _ _ _) in E.
  destruct ((accept_loop n listen_fd;; shutdown_clients listen_fd) (t, w))
    as [[[] [t' w1]]| | |] eqn:E1; try done. injection E as <-.
  assert (moves theap (accept_loop n listen_fd;; shutdown_clients listen_fd) (λ _, 0)) as H.
  { apply moves_skip; [apply accept_loop_heap|intros _; apply shutdown_clients_heap]. }
  exact (H _ _ _ E1).
Qed.

(** Every path gives back the store and the slots. *)
Lemma server_main_heap n others alloc_ok lock_ok bind_addr cfg ccfg :
  page_range_end ccfg = 0 →
  moves heap (server_main n others alloc_ok lock_ok bind_addr cfg ccfg) (λ _, 0).
Proof.
  intros Hr. unfold server_main, open_cluster. rewrite Hr. simpl.
  assert (∀ code, moves heap (sys_munmap;; mret code) (λ _ : Z, -1)) as Hexit.
  { intros code. eapply moves_bind; [apply heap_munmap|]. intros []. by apply moves_ret. }
  eapply moves_bind; [apply heap_mmap|]. intros []; [|by apply moves_ret].
  apply moves_ret_bind.
  apply moves_skip; [apply start_server_heap|]. intros fd. destruct (fd <? 0); [apply Hexit|].
  eapply moves_bind; [apply heap_malloc|]. intros []; simpl.
  2: { apply moves_skip; [apply heap_close|]. intros []. apply Hexit. }
  apply moves_skip; [apply serve_clients_heap|]. intros [].
  eapply moves_bind; [apply heap_free|]. intros []. apply moves_ret_bind.
  eapply moves_bind; [apply heap_munmap|]. intros []. by apply moves_ret.
Qed.

Lemma same_resources_perm fds ts w w' :
  same_resources w w' → open_fds w ≡ₚ fds ∧ joinable w ≡ₚ ts → open_fds w' ≡ₚ fds ∧ joinable w' ≡ₚ ts.
Proof. intros [E1 E2]. by rewrite E1, E2. Qed.

(** The exit: the store is unmapped, and nothing else happens. *)
Lemma server_exit fds ts (code : Z) w :
  code = 0 ∨ code = 1 → open_fds w ≡ₚ fds ∧ joinable w ≡ₚ ts →
  wp (sys_munmap;; mret code) (λ code w',
    (code = 0 ∨ code = 1) ∧ open_fds w' ≡ₚ fds ∧ joinable w' ≡ₚ ts) w.
Proof.
  intros Hc Hw. apply wp_bind. eapply wp_mono; [apply munmap_resources|]. intros [] w' Hs.
  apply wp_ret. split; [done|]. by eapply same_resources_perm.
Qed.

Lemma server_main_safe n others alloc_ok lock_ok bind_addr cfg ccfg w :
  page_range_end ccfg = 0 →
  safe (server_main n others alloc_ok lock_ok bind_addr cfg ccfg) (λ code w',
    (code = 0 ∨ code = 1) ∧ open_fds w' ≡ₚ open_fds w ∧ joinable w' ≡ₚ joinable w) w.
Proof.
  intros Hr. unfold server_main. apply safe_bind, safe_wp. eapply wp_mono; [apply mmap_resources|].
  intros [] w0 [E1 E2]; simpl; [|apply safe_wp, wp_ret; rewrite E1, E2; by auto].
  apply safe_bind. unfold open_cluster. rewrite Hr. simpl. apply safe_wp, wp_ret.
  apply safe_bind, safe_wp. eapply wp_mono; [apply start_server_ok|].
  intros fd w1 [Ej [[-> Ef]|(Hfd & _ & Ef)]]; rewrite E1 in Ef; rewrite E2 in Ej; simpl.
  { apply safe_wp, server_exit; [by right|]. by rewrite Ej. }
  destruct (Z.ltb_spec fd 0); [lia|]. apply safe_bind, safe_wp.
  eapply wp_mono; [apply malloc_resources|]. intros [] w2 [E3 E4]; simpl.
  2: { apply safe_wp, wp_bind. eapply wp_mono; [apply close_resources; by rewrite E3|].
       intros [] w3 [E5 Ef3]. apply server_exit; [by right|]. by rewrite E5, E4, Ej. }
  apply safe_bind. eapply safe_mono.
  { apply (serve_clients_safe (open_fds w) (joinable w)); [by rewrite E3|by rewrite E4, Ej]. }
  intros [] w3 Hw3. apply safe_bind, safe_wp. eapply wp_mono; [apply free_resources|].
  intros [] w4 Hw4. apply safe_bind, safe_wp, wp_ret, safe_wp, server_exit; [by left|].
  by eapply same_resources_perm.
Qed.

(** C24: A server without a cluster never misbehaves and leaks nothing: for
    any number of iterations of its accept loop and whatever calls fail on the
    way, either it is still serving, or it has ended with the exit code 0 or
    1, and then every descriptor it opened has been closed once, every thread
    it started has been joined once, and its page store, its slots and the
    arguments of the threads it could not start have been released. *)
Theorem server_main_gives_back n others alloc_ok lock_ok bind_addr cfg ccfg w :
  page_range_end ccfg = 0 →
  safe (server_main n others alloc_ok lock_ok bind_addr cfg ccfg) (λ code w',
    (code = 0 ∨ code = 1) ∧ open_fds w' ≡ₚ open_fds w ∧ joinable w' ≡ₚ joinable w ∧
    heap w' = heap w) w.
Proof.
  intros Hr. eapply safe_mono; [apply safe_strengthen; [by apply server_main_safe|]|].
  - intros code w' E. exact (server_main_heap _ _ _ _ _ _ _ Hr _ _ _ E).
  - intros code w' [(? & ? & ?) Hh]. split_and!; [done..|lia].
Qed.

End server_run.

(** A server that runs, accepts a client, gives it a thread, and is then told
    to stop: the coins are the outcomes of [mmap], [bind], [listen], the
    slots' [malloc], the flag, [accept], the argument's [malloc], the thread
    and the flag again. *)
Definition bench_day : bench :=
  mk_bench 5 [] [] [] [] [] [true; true; true; true; true; true; true; true; false] 0 [].

Lemma server_main_gives_back_witness :
  safe (server_main 5 (mret tt) true true (Some 0) dsm_server_config_default
    cluster_config_default) (λ code w', (code = 0 ∨ code = 1) ∧
      open_fds w' ≡ₚ open_fds bench_day ∧ joinable w' ≡ₚ joinable bench_day ∧
      heap w' = heap bench_day) bench_day ∧
  ∃ w', server_main 5 (mret tt) true true (Some 0) dsm_server_config_default
    cluster_config_default bench_day = Ret (0, w').
Proof.
  split.
  - apply (server_main_gives_back 5 (mret tt) true true (Some 0)
      dsm_server_config_default cluster_config_default bench_day). reflexivity.
  - eexists. vm_compute. reflexivity.
Defined.
