(* ===== verification/Options.v ===== *)
(** * The command lines of the two programs

    The loops of [dsm_client.c] and [dsm_server.c] over [getopt_long].  What
    [getopt_long] returns is a list of option characters with their
    arguments; the loop folds it into the configuration, or leaves the
    program with an exit code. *)

From Stdlib Require Import Strings.String Strings.Ascii.
From S2P Require Import Prelude Machine Protocol Node Config.

(** The next option: go on with a configuration, or exit with a code. *)
Inductive parsed (A : Type) : Type :=
| Go (a : A)
| Exit (code : Z).

Arguments Go {A} a.
Arguments Exit {A} code.

Definition option_list : Type := list (ascii * string).

(** [dsm_parse_long] exits with 1 on bad input. *)
Definition with_long {A} (optarg : string) (min max : Z) (k : Z → A) : parsed A :=
  match dsm_parse_long optarg min max with
  | Some n => Go (k n)
  | None => Exit 1
  end.

(** The loop: [step] is the [switch]. *)
Fixpoint parse_options {A} (step : ascii → string → A → outcome (parsed A)) (opts : option_list)
    (cfg : A) : outcome (parsed A) :=
  match opts with
  | [] => Ret (Go cfg)
  | (opt, optarg) :: opts =>
      match step opt optarg cfg with
      | Ret (Go cfg') => parse_options step opts cfg'
      | r => r
      end
  end.

(** ** The client *)

Definition client_option (opt : ascii) (optarg : string) (c : dsm_client_config) :
    outcome (parsed dsm_client_config) :=
  let '(mk_client_config host port np nvp iters loc wr verbose verify) := c in
  Ret (
    if Ascii.eqb opt "H" then Go (mk_client_config (Some optarg) port np nvp iters loc wr verbose verify)
    else if Ascii.eqb opt "p" then with_long optarg 1 65535 (λ n,
      mk_client_config host (u16 n) np nvp iters loc wr verbose verify)
    else if Ascii.eqb opt "n" then with_long optarg 1 UINT32_MAX (λ n,
      mk_client_config host port (u32 n) nvp iters loc wr verbose verify)
    else if Ascii.eqb opt "N" then with_long optarg 1 UINT32_MAX (λ n,
      mk_client_config host port np (u32 n) iters loc wr verbose verify)
    else if Ascii.eqb opt "i" then with_long optarg 0 UINT32_MAX (λ n,
      mk_client_config host port np nvp (u32 n) loc wr verbose verify)
    else if Ascii.eqb opt "l" then with_long optarg 0 100 (λ n,
      mk_client_config host port np nvp iters (u8 n) wr verbose verify)
    else if Ascii.eqb opt "w" then with_long optarg 0 100 (λ n,
      mk_client_config host port np nvp iters loc (u8 n) verbose verify)
    else if Ascii.eqb opt "v" then Go (mk_client_config host port np nvp iters loc wr true verify)
    else if Ascii.eqb opt "t" then Go (mk_client_config host port np nvp iters loc wr verbose true)
    else if Ascii.eqb opt "h" then Exit 0
    else Exit 1).

Definition client_options := parse_options client_option.

(** ** The server *)

(** [%u]: space, a sign, digits; [None] when there are no digits.  A value
    that is no [unsigned int] is undefined. *)
Definition scan_u (s : list ascii) : option (outcome Z * list ascii) :=
  let '(neg, s1) := take_sign (skip_space s) in
  let '(ds, rest) := span_digits s1 in
  match ds with
  | [] => None
  | _ =>
      let n := if neg : bool then - digits_val ds else digits_val ds in
      Some (if (0 <=? n) && (n <=? UINT32_MAX) then Ret n else Undef, rest)
  end.

(** [sscanf(optarg, "%u:%u", ...) == 2] and the two values. *)
Definition scan_range (s : list ascii) : outcome (option (Z * Z)) :=
  match scan_u s with
  | None => Ret None
  | Some (Ret a, c :: rest) =>
      if Ascii.eqb c ":" then
        match scan_u rest with
        | None => Ret None
        | Some (Ret b, _) => Ret (Some (a, b))
        | Some _ => Undef
        end
      else Ret None
  | Some (Ret _, []) => Ret None
  | Some (_, _) => Undef
  end.

Definition server_option (opt : ascii) (optarg : string) (c : dsm_server_config * cluster_config) :
    outcome (parsed (dsm_server_config * cluster_config)) :=
  let '(mk_server_config port nvp verbose bind, k) := c in
  let '(mk_cluster_config seed sport id cport hb go to rs re) := k in
  if Ascii.eqb opt "p" then
    Ret (with_long optarg 1 65535 (λ n, (mk_server_config (u16 n) nvp verbose bind, k)))
  else if Ascii.eqb opt "b" then Ret (Go (mk_server_config port nvp verbose (Some optarg), k))
  else if Ascii.eqb opt "n" then
    Ret (with_long optarg 1 UINT32_MAX (λ n, (mk_server_config port (u32 n) verbose bind, k)))
  else if Ascii.eqb opt "v" then Ret (Go (mk_server_config port nvp true bind, k))
  else if Ascii.eqb opt "s" then
    Ret (Go (c.1, mk_cluster_config (Some optarg) sport id cport hb go to rs re))
  else if Ascii.eqb opt "S" then
    Ret (with_long optarg 1 65535 (λ n, (c.1, mk_cluster_config seed (u16 n) id cport hb go to rs re)))
  else if Ascii.eqb opt "c" then
    Ret (with_long optarg 1 65535 (λ n, (c.1, mk_cluster_config seed sport id (u16 n) hb go to rs re)))
  else if Ascii.eqb opt "r" then
    match scan_range (chars optarg) with
    | Ret (Some (a, b)) => Ret (Go (c.1, mk_cluster_config seed sport id cport hb go to a b))
    | Ret None => Ret (Exit 1)
    | _ => Undef
    end
  else if Ascii.eqb opt "i" then
    Ret (Go (c.1, mk_cluster_config seed sport (Some optarg) cport hb go to rs re))
  else if Ascii.eqb opt "h" then Ret (Exit 0)
  else Ret (Exit 1).

Definition server_options := parse_options server_option.
