(* ===== verification/OptionsTheorems.v ===== *)
(** * What the command lines guarantee

    The numeric options keep the configuration within its bounds, whatever
    the environment and the arguments are. *)

From Stdlib Require Import Strings.String Strings.Ascii.
From S2P Require Import Prelude Machine Protocol Node Gossip Cluster ClusterInv ClusterTheorems Config ConfigTheorems Options.

Definition client_bounded (c : dsm_client_config) : Prop :=
  1 <= cc_port c <= 65535 ∧ 1 <= cc_num_pages c <= UINT32_MAX ∧
  1 <= cc_num_virtual_pages c <= UINT32_MAX ∧ 0 <= cc_num_iterations c <= UINT32_MAX ∧
  0 <= cc_locality_percent c <= 100 ∧ 0 <= cc_write_percent c <= 100 ∧ cc_host c ≠ None.

Definition server_bounded (c : dsm_server_config * cluster_config) : Prop :=
  1 <= sc_port c.1 <= 65535 ∧ 1 <= sc_num_virtual_pages c.1 <= UINT32_MAX ∧
  1 <= seed_port c.2 <= 65535 ∧ 1 <= cfg_cluster_port c.2 <= 65535 ∧ config_wf c.2.

Lemma parse_long_range arg min max n : dsm_parse_long arg min max = Some n → min <= n <= max.
Proof.
  unfold dsm_parse_long, bad_number. destruct (strtol (chars arg)) as [[m er] rest]. simpl.
  destruct (Z.ltb_spec m min), (Z.ltb_spec max m); rewrite ?orb_true_r; try done.
  rewrite !orb_false_r. case_match; [done|]. intros [= <-]. lia.
Qed.

Lemma with_long_go {A} arg min max (k : Z → A) c :
  with_long arg min max k = Go c → ∃ n, min <= n <= max ∧ c = k n.
Proof.
  unfold with_long. destruct (dsm_parse_long arg min max) as [n|] eqn:E; [|done].
  intros [= <-]. exists n. split; [by eapply parse_long_range|done].
Qed.

(** The rule of the loop. *)
Lemma parse_options_inv {A} (step : ascii → string → A → outcome (parsed A)) (P : A → Prop) opts c c' :
  (∀ opt arg c c', P c → step opt arg c = Ret (Go c') → P c') →
  P c → parse_options step opts c = Ret (Go c') → P c'.
Proof.
  intros Hstep. revert c. induction opts as [|[opt arg] opts IH]; intros c Hc; simpl.
  - by intros [= <-].
  - destruct (step opt arg c) as [[c1|]| | |] eqn:E; [|done..].
    apply IH. by eapply Hstep.
Qed.

Ltac option_case :=
  match goal with
  | |- context [if Ascii.eqb ?o ?c then _ else _] => destruct (Ascii.eqb o c)
  end.

Lemma client_option_bounded opt arg c c' :
  client_bounded c → client_option opt arg c = Ret (Go c') → client_bounded c'.
Proof.
  destruct c as [host port np nvp iters loc wr verbose verify].
  unfold client_bounded, client_option. cbn [cc_port cc_num_pages cc_num_virtual_pages
    cc_num_iterations cc_locality_percent cc_write_percent cc_host].
  intros Hc E. apply (f_equal (λ o, match o with Ret r => r | _ => Exit 0 end)) in E. revert E.
  repeat option_case; intros E; try discriminate E; try (injection E as <-; simpl; destruct_and! Hc; by split_and!).
  all: apply with_long_go in E as (n & Hn & ->); simpl; unfold UINT32_MAX in *.
  all: rewrite ?u8_small, ?u16_small, ?u32_small by lia; destruct_and! Hc; split_and!; done || lia.
Qed.

Lemma scan_u_range s n rest : scan_u s = Some (Ret n, rest) → 0 <= n <= UINT32_MAX.
Proof.
  unfold scan_u. destruct (take_sign _) as [neg s1]. destruct (span_digits s1) as [[|d ds] r]; [done|].
  set (v := if neg then _ else _). cbv zeta.
  destruct (Z.leb_spec 0 v), (Z.leb_spec v UINT32_MAX); simpl; intros [= <- _]; lia.
Qed.

Lemma scan_range_bounds s a b :
  scan_range s = Ret (Some (a, b)) → 0 <= a <= UINT32_MAX ∧ 0 <= b <= UINT32_MAX.
Proof.
  unfold scan_range. destruct (scan_u s) as [[[x| | |] [|c rest]]|] eqn:E1; try done.
  destruct (Ascii.eqb c ":"); [|done].
  destruct (scan_u rest) as [[[y| | |] rest']|] eqn:E2; try done. intros [= <- <-].
  split; by eapply scan_u_range.
Qed.

Lemma server_option_bounded opt arg c c' :
  server_bounded c → server_option opt arg c = Ret (Go c') → server_bounded c'.
Proof.
  destruct c as [[port nvp verbose bind] [seed sport id cport hb go to rs re]].
  unfold server_bounded, config_wf, server_option. cbn [fst snd sc_port sc_num_virtual_pages
    seed_port cfg_cluster_port page_range_start page_range_end timeout_ms].
  intros Hc. repeat option_case; intros E; try discriminate E; try (injection E as <-; exact Hc).
  all: try (apply (f_equal (λ o, match o with Ret r => r | _ => Exit 0 end)) in E;
    apply with_long_go in E as (n & Hn & ->); simpl; unfold UINT32_MAX in *;
    rewrite ?u16_small, ?u32_small by lia; destruct_and! Hc; split_and!; done || lia).
  destruct (scan_range (chars arg)) as [[[a b]|]| | |] eqn:Es; try done. injection E as <-.
  apply scan_range_bounds in Es. unfold UINT32_MAX in *. simpl. destruct_and! Hc. destruct_and! Es. split_and!; done || lia.
Qed.

Lemma from_env_bounded e :
  client_bounded (dsm_client_config_from_env e dsm_client_config_default) ∧
  server_bounded (dsm_server_config_from_env e dsm_server_config_default,
                  cluster_config_from_env e cluster_config_default).
Proof.
  assert (∀ name dflt, dsm_env_str e name (Some dflt) ≠ None) as Hs.
  { intros. unfold dsm_env_str. by destruct (e name). }
  split.
  - unfold client_bounded. do 6 (split; [env_bound|]). apply Hs.
  - unfold server_bounded. do 4 (split; [env_bound|]). unfold config_wf.
    split_and!; first [apply u16_range|apply u32_range].
Qed.

(** C32: Whatever the environment and the command line, a program that goes on
    after reading them has a configuration within the documented bounds: the
    options are range-checked before they are narrowed.  The one exception is
    the server's page range, which is read with [sscanf]: trailing characters
    and a range that ends before it starts are accepted. *)
Theorem command_lines_bounded e copts sopts :
  (∀ c, client_options copts (dsm_client_config_from_env e dsm_client_config_default) = Ret (Go c) →
     client_bounded c) ∧
  (∀ c, server_options sopts (dsm_server_config_from_env e dsm_server_config_default,
          cluster_config_from_env e cluster_config_default) = Ret (Go c) → server_bounded c) ∧
  (∀ s k, ∃ k', server_option "r" "7:3xyz" (s, k) = Ret (Go (s, k')) ∧
     page_range_start k' = 7 ∧ page_range_end k' = 3).
Proof.
  destruct (from_env_bounded e) as [Hc Hs]. split_and!.
  - intros c. apply (parse_options_inv _ client_bounded); [apply client_option_bounded|done].
  - intros c. apply (parse_options_inv _ server_bounded); [apply server_option_bounded|done].
  - intros [port nvp verbose bind] [seed sport id cport hb go to rs re]. by eexists.
Qed.
