(* ===== verification/Client.v ===== *)
(** * The client program: [src/dsm_client.c]

    Connecting with retries, the benchmark, the end-to-end verification and
    the course of [main] after the command line has been read.  What is
    printed, and the clock readings and rates that are only printed, are left
    out. *)

From Stdlib Require Import Strings.String.
From S2P Require Import Prelude Machine Protocol PageService Paging Node Gossip Cluster Server Config.

Definition LCG_MULT : Z := 1103515245.
Definition LCG_INC : Z := 12345.
Definition LCG_SEED : Z := 12345.

Definition now_ns (tv_sec tv_nsec : Z) : Z :=
  u64 (u64 (u64 tv_sec * 1000000000) + u64 tv_nsec).

(** ** [int] arithmetic *)

Definition INT_MAX : Z := 2 ^ 31 - 1.
Definition INT_MIN : Z := - 2 ^ 31.

(** The result of a signed operation; overflow is undefined. *)
Definition int_result {S} (z : Z) : M S Z :=
  if (INT_MIN <=? z) && (z <=? INT_MAX) then mret z else undefined.

(** [a % b] on [uint32_t]; division by zero is undefined. *)
Definition umod {S} (a b : Z) : M S Z :=
  if b =? 0 then undefined else mret (a mod b).

(** ** Connecting *)

Definition AF_UNSPEC : Z := 0.

(** The addresses [getaddrinfo] finds for a host, a port and a family; [None]
    is an error. *)
Class ResolveOps (W : Type) := {
  sys_resolve : string → Z → Z → M W (option (list sockaddr));
}.

Section connect.
Context {W : Type} {OO : SockoptOps W} {CO : ClusterOps W} {NO : ResolveOps W}.

(** The inner loop: the first address that accepts a connection. *)
Definition try_addresses (res : list sockaddr) : M W (option Z) :=
  for_ret res (λ rp,
    r ← sys_socket SOCK_STREAM;
    match r with
    | SysErr _ => mret None
    | SysOk fd =>
        c ← sys_connect fd rp;
        match c with
        | SysOk _ => dsm_setup_socket_optimal fd;; mret (Some fd)
        | SysErr _ => sys_close fd;; mret None
        end
    end).

(** The outer loop, with the delay it doubles. *)
Fixpoint connect_attempts (res : list sockaddr) (max_retries retry_delay_ms : Z) (attempts : list Z) :
    M W (option Z) :=
  match attempts with
  | [] => mret None
  | attempt :: attempts =>
      r ← try_addresses res;
      match r with
      | Some fd => mret (Some fd)
      | None =>
          if attempt <? max_retries - 1 then
            us ← int_result (retry_delay_ms * 1000);
            sys_usleep us;;
            delay ← int_result (retry_delay_ms * 2);
            connect_attempts res max_retries delay attempts
          else connect_attempts res max_retries retry_delay_ms attempts
      end
  end.

Definition connect_to_server (host : string) (port max_retries : Z) : M W Z :=
  let family := if String.eqb host "localhost" || String.eqb host "127.0.0.1"
                then AF_INET else AF_UNSPEC in
  r ← sys_resolve host family port;
  match r with
  | None => mret (-1)
  | Some res =>
      f ← connect_attempts res max_retries INITIAL_RETRY_DELAY_MS (seqZ 0 max_retries);
      match f with
      | Some fd => mret fd
      | None => mret (-1)
      end
  end.

End connect.

(** ** The benchmark *)

Definition lcg_next (lcg_state : Z) : Z := u32 (u32 (lcg_state * LCG_MULT) + LCG_INC).

Definition lcg_value (lcg_state : Z) : Z := Z.land (Z.shiftr lcg_state 16) 0x7FFF.

(** The byte stored for a [uint8_t]. *)
Definition byte_of (z : Z) : byte := byte.of_Z (u8 z).

Section programs.
Context {W : Type} {RO : RpcOps W}.

Definition choose_page (cfg : dsm_client_config) (rand_val : Z) : M (PS (W:=W)) Z :=
  if rand_val mod 100 <? cc_locality_percent cfg then umod rand_val (cc_num_pages cfg)
  else
    r ← umod rand_val (u32 (cc_num_virtual_pages cfg - cc_num_pages cfg));
    mret (u32 (cc_num_pages cfg + r)).

(** One iteration: whether it failed, and the new state of the generator. *)
Definition benchmark_iteration (cfg : dsm_client_config) (i lcg_state : Z) : M PS (bool * Z) :=
  let lcg1 := lcg_next lcg_state in
  page_id ← choose_page cfg (lcg_value lcg1);
  let lcg2 := lcg_next lcg1 in
  let is_write := if lcg_value lcg2 mod 100 <? cc_write_percent cfg then 1 else 0 in
  r ← dsm_access_page page_id is_write;
  match r with
  | None =>
      pe ← get_pte page_id;
      mret (location pe =? LOC_REMOTE, lcg2)
  | Some page_ptr =>
      if truthy is_write then
        write_mem page_ptr [byte_of i];;
        mret (false, lcg2)
      else
        read_mem page_ptr 1;;
        mret (false, lcg2)
  end.

Fixpoint benchmark_loop (cfg : dsm_client_config) (idx : list Z) (lcg_state : Z) : M PS Z :=
  match idx with
  | [] => mret 0
  | i :: idx =>
      '(failed, lcg') ← benchmark_iteration cfg i lcg_state;
      if failed : bool then mret 1 else benchmark_loop cfg idx lcg'
  end.

Definition run_benchmark (cfg : dsm_client_config) : M PS Z :=
  for_each (seqZ 0 (cc_num_virtual_pages cfg)) (λ i,
    upd_pte i (set_location (if i <? cc_num_pages cfg then LOC_LOCAL else LOC_REMOTE)));;
  benchmark_loop cfg (seqZ 0 (cc_num_iterations cfg)) LCG_SEED.

(** ** The end-to-end verification *)

(** Byte [i] of the pattern of page [p]. *)
Definition pattern_byte (p i : Z) : byte :=
  byte_of (Z.land (u32 (u32 (p * 2654435761) + i)) 0xFF).

Definition pattern (p : Z) : list byte := pattern_byte p <$> seqZ 0 PAGE_SIZE.

Definition fill_page (ptr p : Z) : M (PS (W:=W)) unit :=
  for_each (seqZ 0 PAGE_SIZE) (λ i, write_mem (ptr + i) [pattern_byte p i]).

Definition verify_write (p : Z) : M PS (option Z) :=
  r ← dsm_access_page p 1;
  match r with
  | None => mret (Some 1)
  | Some ptr => fill_page ptr p;; mret None
  end.

Definition verify_read (p : Z) : M PS (option Z) :=
  r ← dsm_access_page p 0;
  match r with
  | None => mret (Some 1)
  | Some ptr =>
      bs ← read_mem ptr page_bytes;
      mret (if bool_decide (bs = pattern p) then None else Some 1)
  end.

Definition run_verify (cfg : dsm_client_config) : M PS Z :=
  w ← for_ret (seqZ 0 (cc_num_virtual_pages cfg)) verify_write;
  match w with
  | Some r => mret r
  | None =>
      v ← for_ret (seqZ 0 (cc_num_virtual_pages cfg)) verify_read;
      match v with
      | Some r => mret r
      | None => mret 0
      end
  end.

End programs.

(** ** The course of [main] *)

(** The override of the verify mode. *)
Definition effective_config (cfg : dsm_client_config) : dsm_client_config :=
  if cc_verify_mode cfg then
    mk_client_config (cc_host cfg) (cc_port cfg) (cc_num_pages cfg) (u32 (4 * cc_num_pages cfg))
      (cc_num_iterations cfg) (cc_locality_percent cfg) (cc_write_percent cfg)
      (cc_verbose cfg) (cc_verify_mode cfg)
  else cfg.

Definition config_rejected (cfg : dsm_client_config) : bool :=
  (100 <? cc_locality_percent cfg) || (100 <? cc_write_percent cfg) ||
  ((cc_num_pages cfg =? 0) || (cc_num_virtual_pages cfg =? 0)) ||
  (cc_num_virtual_pages cfg <? cc_num_pages cfg).

Section main.
Context {W : Type} {OO : SockoptOps W} {CO : ClusterOps W} {NO : ResolveOps W} {RO : RpcOps W}.

(** A call that works on a context. *)
Definition in_context {A} (c : dsm_context) (m : M PS A) : M W (A * dsm_context) := λ w,
  match m (c, w) with
  | Ret (a, (c', w')) => Ret ((a, c'), w')
  | Undef => Undef
  | Diverge => Diverge
  | Killed => Killed
  end.

(** The exit code, for a configuration that has been read; [g] is what the
    allocator grants and [blks] the blocks in use. *)
Definition client_main (g : alloc_grants) (cfg0 : dsm_client_config) (blks : list block) :
    M W (Z * list block) :=
  let cfg := effective_config cfg0 in
  if config_rejected cfg then mret (1, blks) else
  match cc_host cfg with
  | None => undefined
  | Some host =>
      fd ← connect_to_server host (cc_port cfg) MAX_RETRY_ATTEMPTS;
      if fd <? 0 then mret (1, blks) else
      match dsm_create_context g (cc_num_pages cfg) (cc_num_virtual_pages cfg) blks with
      | (None, blks') => sys_close fd;; mret (1, blks')
      | (Some c, blks') =>
          '(code, c') ← in_context (set_sock_fd fd c)
            (if cc_verify_mode cfg then run_verify cfg else run_benchmark cfg);
          sys_close fd;;
          mret (code, dsm_destroy_context (Some c') blks')
      end
  end.

End main.
