(* ===== verification/Signal.v ===== *)
(** * A broken pipe

    [writev] cannot ask for [EPIPE] without the signal, and neither program
    of the repository ignores [SIGPIPE]: a put on a connection that has
    broken ends the process.  Two results make this exact.  On a connection
    the put is killed precisely when the connection has broken before it.
    And a pager, or a client, whose puts may be killed does what it does
    where the signal is ignored, or is killed; over a service that serves its
    pages it is never killed. *)

From S2P Require Import Prelude Machine Protocol PageService Paging Connection Node Gossip Cluster Server ServerSpec System Config Client.

(** ** The same, or killed *)

Definition or_killed {S A} (m' m : M S A) : Prop := ∀ s, m' s = m s ∨ m' s = Killed.

Create HintDb mortal.

Section or_killed.
Context {S : Type}.

Lemma or_killed_refl {A} (m : M S A) : or_killed m m.
Proof. by left. Qed.

Lemma or_killed_bind {A B} (m' m : M S A) (k' k : A → M S B) :
  or_killed m' m → (∀ a, or_killed (k' a) (k a)) → or_killed (m' ≫= k') (m ≫= k).
Proof.
  intros Hm Hk s. unfold mbind, M_bind. destruct (Hm s) as [->| ->]; [|by right].
  destruct (m s) as [[a s1]| | |]; [apply Hk|by left..].
Qed.

Lemma or_killed_for_each {X} (xs : list X) (f' f : X → M S unit) :
  (∀ x, or_killed (f' x) (f x)) → or_killed (for_each xs f') (for_each xs f).
Proof.
  intros Hf. induction xs as [|x xs IH]; [apply or_killed_refl|]. simpl.
  apply or_killed_bind; [apply Hf|done].
Qed.

Lemma or_killed_for_ret {X R} (xs : list X) (f' f : X → M S (option R)) :
  (∀ x, or_killed (f' x) (f x)) → or_killed (for_ret xs f') (for_ret xs f).
Proof.
  intros Hf. induction xs as [|x xs IH]; [apply or_killed_refl|]. simpl.
  apply or_killed_bind; [apply Hf|]. intros [r|]; [apply or_killed_refl|done].
Qed.

Lemma or_killed_loop {A} n (m' m : M S (option A)) :
  or_killed m' m → or_killed (loop n m') (loop n m).
Proof.
  intros Hm. induction n as [|n IH]; [apply or_killed_refl|]. simpl.
  apply or_killed_bind; [done|]. intros [a|]; [apply or_killed_refl|done].
Qed.

Lemma or_killed_on_snd {C A} (m' m : M S A) :
  or_killed m' m → or_killed (on_snd (C:=C) m') (on_snd m).
Proof. intros Hm [c s]. unfold on_snd. simpl. by destruct (Hm s) as [->| ->]; [left|right]. Qed.

(** What holds of the run that is not killed. *)
Lemma or_killed_wp {A} (m' m : M S A) (Q : A → S → Prop) s :
  or_killed m' m → wp m Q s → wp m' Q s ∨ m' s = Killed.
Proof.
  intros Hm H. destruct (Hm s) as [E|E]; [left|by right].
  apply wp_returns. rewrite E. by apply wp_returns.
Qed.

End or_killed.

#[export] Hint Resolve or_killed_refl or_killed_for_each or_killed_for_ret or_killed_loop
  or_killed_on_snd : mortal.

(** Follow the common structure of the two computations. *)
Ltac mortal :=
  repeat first
    [ progress intros
    | solve [eauto with mortal]
    | apply or_killed_bind
    | apply or_killed_loop
    | apply or_killed_for_each
    | apply or_killed_for_ret
    | match goal with
      | |- or_killed (match ?x with _ => _ end) (match ?x with _ => _ end) => destruct x
      end ].

(** ** A client whose puts may be killed *)

(** [RO'] are the calls of a process that [SIGPIPE] ends, [RO] the same calls
    where it is ignored.  A put to a server that serves the page is not
    killed. *)
Class Mortal {W : Type} (RO' RO : RpcOps W) {PSV : PageService W} : Prop := {
  mortal_get fd id buf : @rpc_get W RO' fd id buf = @rpc_get W RO fd id buf;
  mortal_get_batch fd ids n bufs :
    @rpc_get_batch W RO' fd ids n bufs = @rpc_get_batch W RO fd ids n bufs;
  mortal_put fd id buf : or_killed (@rpc_put W RO' fd id buf) (@rpc_put W RO fd id buf);
  mortal_put_served fd id buf w : serves w fd id →
    @rpc_put W RO' fd id buf w = @rpc_put W RO fd id buf w;
}.

Section mortal.
Context {W : Type} (RO' RO : RpcOps W) {PSV : PageService W} {MT : Mortal RO' RO}.

Lemma get_mortal fd id buf : or_killed (@rpc_get W RO' fd id buf) (@rpc_get W RO fd id buf).
Proof. rewrite mortal_get. apply or_killed_refl. Qed.

Lemma get_batch_mortal fd ids n bufs :
  or_killed (@rpc_get_batch W RO' fd ids n bufs) (@rpc_get_batch W RO fd ids n bufs).
Proof. rewrite mortal_get_batch. apply or_killed_refl. Qed.

#[local] Hint Resolve mortal_put get_mortal get_batch_mortal : mortal.

Lemma write_back_mortal v p e :
  or_killed (@write_back W RO' v p e) (@write_back W RO v p e).
Proof. unfold write_back. mortal. Qed.

#[local] Hint Resolve write_back_mortal : mortal.

Lemma evict_page_mortal : or_killed (@evict_page W RO') (@evict_page W RO).
Proof. unfold evict_page, evict_step. mortal. Qed.

Lemma prefetch_pages_mortal start count :
  or_killed (@dsm_prefetch_pages W RO' start count) (@dsm_prefetch_pages W RO start count).
Proof. unfold dsm_prefetch_pages. mortal. Qed.

Lemma fetch_into_mortal frame p b :
  or_killed (@fetch_into W RO' frame p b) (@fetch_into W RO frame p b).
Proof. unfold fetch_into. mortal. Qed.

#[local] Hint Resolve evict_page_mortal prefetch_pages_mortal fetch_into_mortal : mortal.

Lemma access_page_mortal p write :
  or_killed (@dsm_access_page W RO' p write) (@dsm_access_page W RO p write).
Proof. unfold dsm_access_page, dsm_access_page_slow, prefetch_if_sequential. mortal. Qed.

#[local] Hint Resolve access_page_mortal : mortal.

Lemma benchmark_loop_mortal cfg idx lcg :
  or_killed (@benchmark_loop W RO' cfg idx lcg) (@benchmark_loop W RO cfg idx lcg).
Proof.
  revert lcg. induction idx as [|i idx IH]; intros lcg; [mortal|]. simpl.
  unfold benchmark_iteration. mortal.
Qed.

#[local] Hint Resolve benchmark_loop_mortal : mortal.

Lemma run_benchmark_mortal cfg :
  or_killed (@run_benchmark W RO' cfg) (@run_benchmark W RO cfg).
Proof. unfold run_benchmark. mortal. Qed.

Lemma run_verify_mortal cfg : or_killed (@run_verify W RO' cfg) (@run_verify W RO cfg).
Proof. unfold run_verify, verify_write, verify_read. mortal. Qed.

#[local] Hint Resolve run_benchmark_mortal run_verify_mortal : mortal.

Lemma in_context_mortal {A} c (m' m : M PS A) :
  or_killed m' m → or_killed (in_context (W:=W) c m') (in_context c m).
Proof. intros Hm w. unfold in_context. by destruct (Hm (c, w)) as [->| ->]; [left|right]. Qed.

#[local] Hint Resolve in_context_mortal : mortal.

Context {OO : SockoptOps W} {CO : ClusterOps W} {NO : ResolveOps W}.

Lemma client_main_mortal g cfg blks :
  or_killed (client_main (RO:=RO') g cfg blks) (client_main (RO:=RO) g cfg blks).
Proof. unfold client_main. mortal. apply in_context_mortal. mortal. Qed.

(** While the server serves every page, the calls of the process are a page
    service themselves. *)
Program Definition reliable_service : @PageService W RO' := {|
  page_of := page_of;
  serves := serves;
  in_step w fd n := in_step w fd n ∧ ∀ p, serves w fd p;
  length_page_of := length_page_of;
|}.
Next Obligation.
  intros fd n id buf w [Hw Hs] Hid Hl. rewrite mortal_get.
  eapply wp_mono; [by apply (rpc_get_ok _ n)|]. intros res w' (? & ? & ? & ? & Hsv).
  destruct (Hsv (Hs id)). by split_and!; auto.
Qed.
Next Obligation.
  intros fd m ids n bufs w [Hw Hs] Hids Hn Hl. rewrite mortal_get_batch.
  eapply wp_mono; [by apply (rpc_get_batch_ok _ m)|]. intros res w' (? & ? & ? & ? & Hsv).
  destruct Hsv; [by apply list.Forall_forall|]. by split_and!; auto.
Qed.
Next Obligation.
  intros fd n id buf w [Hw Hs] Hid Hl.
  apply wp_returns. rewrite mortal_put_served by done. apply wp_returns.
  eapply wp_mono; [by apply (rpc_put_ok _ n)|]. intros r w' (? & ? & ? & Hsv).
  destruct (Hsv (Hs id)). by split_and!; auto.
Qed.

End mortal.

(** ** A connection in a process that [SIGPIPE] ends *)

Section connection.
Context (d : disk).
Implicit Types (w : conn (server_peer d)).

Definition conn_ops_fatal : SocketOps (conn (server_peer d)) := {|
  sys_send fd buf _ := conn_send _ fd buf;
  sys_recv fd n _ := conn_recv _ fd n;
  sys_writev fd iov := conn_send _ fd (concat iov);
  sigpipe := killed;
|}.

Definition broken_pipe w (fd : Z) : bool := (fd =? conn_fd w) && conn_broken w.

(** A write that does not find the connection broken raises no signal, and
    does not leave it broken unless it fails. *)
Lemma writev_fatal fd iov w :
  broken_pipe w fd = false →
  @writev _ conn_ops_fatal fd iov w = writev fd iov w ∧
  match writev fd iov w with
  | Ret (SysOk _, w') => broken_pipe w' fd = false
  | Ret (SysErr e, w') => e = EINTR → broken_pipe w' fd = false
  | _ => True
  end.
Proof.
  unfold broken_pipe, writev, mbind, M_bind. simpl. unfold conn_send. intros Hb.
  destruct (Z.eqb_spec fd (conn_fd w)) as [->|Hfd]; simpl in *; [|done].
  rewrite Hb. by destruct (conn_events w) as [|[n| |] es]; simpl; rewrite ?Hb, ?andb_false_r.
Qed.

Lemma sendv_fatal fuel fd iov w :
  broken_pipe w fd = false → @dsm_sendv _ conn_ops_fatal fuel fd iov w = dsm_sendv fuel fd iov w.
Proof.
  revert iov w. induction fuel as [|fuel IH]; intros iov w Hb; [done|].
  simpl. destruct (zlen iov =? 0); [done|]. unfold mbind, M_bind.
  destruct (writev_fatal fd iov w Hb) as [-> Hk].
  destruct (writev fd iov w) as [[[n|e] w']| | |]; [| |done..].
  - destruct (n =? 0); [done|by apply IH].
  - destruct (Z.eqb_spec e EINTR); [by apply IH, Hk|done].
Qed.

(** The calls of such a process; sending and receiving never raise the
    signal. *)
Definition conn_rpc_fatal : RpcOps (conn (server_peer d)) := {|
  rpc_get fd id buf := λ w, @dsm_rpc_get _ conn_ops_fatal (io_fuel w) fd id buf w;
  rpc_get_batch fd ids n bufs := λ w,
    @dsm_rpc_get_batch _ conn_ops_fatal (io_fuel w) fd ids n bufs w;
  rpc_put fd id buf := λ w, @dsm_rpc_put _ conn_ops_fatal (io_fuel w) fd id buf w;
|}.

Lemma send_full_fatal : @dsm_send_full _ conn_ops_fatal = dsm_send_full.
Proof. reflexivity. Qed.

Lemma recv_full_fatal : @dsm_recv_full _ conn_ops_fatal = dsm_recv_full.
Proof. reflexivity. Qed.

Lemma rpc_get_batch_fatal : @dsm_rpc_get_batch _ conn_ops_fatal = dsm_rpc_get_batch.
Proof. reflexivity. Qed.

Lemma get_fatal fd id buf : @rpc_get _ conn_rpc_fatal fd id buf = rpc_get fd id buf.
Proof. simpl. unfold dsm_rpc_get. by rewrite send_full_fatal, recv_full_fatal. Qed.

Lemma get_batch_fatal fd ids n bufs :
  @rpc_get_batch _ conn_rpc_fatal fd ids n bufs = rpc_get_batch fd ids n bufs.
Proof. simpl. by rewrite rpc_get_batch_fatal. Qed.

(** A put is killed exactly when it finds the connection broken; otherwise
    the signal makes no difference. *)
Lemma rpc_put_fatal fd id buf w :
  @rpc_put _ conn_rpc_fatal fd id buf w =
    if broken_pipe w fd then Killed else rpc_put fd id buf w.
Proof.
  simpl. unfold dsm_rpc_put, mbind, M_bind. destruct (broken_pipe w fd) eqn:Hb.
  - apply andb_true_iff in Hb as [Hfd%Z.eqb_eq Hb]. unfold io_fuel, header_size. simpl.
    unfold mbind, M_bind, writev, mbind, M_bind. simpl. unfold conn_send.
    by rewrite Hfd, Z.eqb_refl, Hb.
  - by rewrite sendv_fatal.
Qed.

#[export] Instance conn_mortal : Mortal conn_rpc_fatal (conn_rpc d).
Proof.
  split; [exact get_fatal|exact get_batch_fatal| |].
  - intros fd id buf w. rewrite rpc_put_fatal. by destruct (broken_pipe w fd); [right|left].
  - intros fd id buf w (Hfd & Hb & _). rewrite rpc_put_fatal. unfold broken_pipe.
    by rewrite Hb, andb_false_r.
Qed.

End connection.
