(* ===== verification/ClientTheorems.v ===== *)
(** * The client program: what it does with the pager

    The verification passes over a service that fails no call; the benchmark
    stays inside the page range it was configured with; connecting leaks no
    descriptor. *)

From stdpp Require Import gmap.
From Stdlib Require Import Strings.String.
From S2P Require Import Prelude Machine Protocol PageService Paging PagingInv PagingOps PagingAccess PagingSpec PagingTheorems TableService Node Gossip Cluster ClusterRouting Server Config ServerLoop ServerWorld Client.

(** ** Writing through the pointer of an access *)

Section client.
Context {W : Type} {RO : RpcOps W} {PSV : PageService W}.
Context (live : bool).
Implicit Types (c : dsm_context) (w : W) (s : PS (W:=W)).

Lemma accessed_table c c' p write ptr :
  page_table c' = page_table c → accessed c p write ptr → accessed c' p write ptr.
Proof. unfold accessed. by intros ->. Qed.

Lemma length_accessed V c w p write ptr :
  pager_ok live [] (Some V) (c, w) → accessed c p write ptr → length (V p) = page_bytes.
Proof.
  intros Hok Ha. destruct (accessed_data _ _ _ _ _ _ _ Hok Ha) as (f & Hf & _ & <-).
  by eapply length_frame_data; [apply Hok|].
Qed.

Lemma length_pattern p : length (pattern p) = page_bytes.
Proof. unfold pattern. rewrite length_fmap, length_seqZ. reflexivity. Qed.

Lemma pattern_lookup p i : 0 <= i < PAGE_SIZE → pattern p !! Z.to_nat i = Some (pattern_byte p i).
Proof.
  intros Hi. unfold pattern. rewrite list_lookup_fmap, lookup_seqZ_lt by lia. simpl. do 2 f_equal. lia.
Qed.

(** The first [i] bytes have been written. *)
Definition filled V c p i s : Prop :=
  same_geometry c s.1 ∧ page_table s.1 = page_table c ∧
  ∃ V', pager_ok live [] (Some V') s ∧ (∀ q, q ≠ p → V' q = V q) ∧
    length (V' p) = page_bytes ∧
    ∀ j, (j < Z.to_nat i)%nat → V' p !! j = pattern p !! j.

Lemma fill_page_ok V c w p ptr :
  pager_ok live [] (Some V) (c, w) → accessed c p 1 ptr →
  wp (fill_page ptr p) (λ _ s, same_geometry c s.1 ∧ ∃ V', pager_ok live [] (Some V') s ∧
    (∀ q, q ≠ p → V' q = V q) ∧ V' p = pattern p) (c, w).
Proof.
  intros Hok Ha. pose proof page_bytes_Z as Hpb. eapply wp_mono.
  - apply (wp_for_range _ (filled V c p)); [done| |].
    + split; [done|]. split; [done|]. exists V. split_and!; [done|done|by apply (length_accessed V c w p 1 ptr)|].
      intros j Hj. simpl in Hj. lia.
    + intros i [c1 w1] Hi (Hg & Ht & V1 & Hok1 & Hother & Hlen & Hpre). simpl in Hg, Ht.
      pose proof (accessed_table _ _ _ _ _ Ht Ha) as Ha1. unfold PAGE_SIZE in *.
      rewrite <- (Z2Nat.id i) by lia.
      eapply wp_mono; [apply (user_write_ok live V1 c1 w1 p 1 ptr (Z.to_nat i)); [done|done|done|simpl; lia]|].
      rewrite Z2Nat.id by lia.
      intros [] s (Hok2 & Hg2 & Ht2). split; [by etrans|]. split; [congruence|].
      eexists. split_and!; [exact Hok2| | |].
      * intros q Hq. unfold mem_upd. rewrite decide_False by done. by apply Hother.
      * unfold mem_upd. rewrite decide_True by done. rewrite length_splice; [done|simpl; lia].
      * intros j Hj. unfold mem_upd. rewrite decide_True by done.
        destruct (decide (j = Z.to_nat i)) as [->|].
        -- rewrite lookup_splice_in by (simpl; lia). rewrite Nat.sub_diag.
           rewrite pattern_lookup by (unfold PAGE_SIZE; lia). done.
        -- rewrite lookup_splice_out by (simpl; lia). apply Hpre. lia.
  - intros [] s (Hg & _ & V' & Hok' & Hother & Hlen & Hpre). split; [done|].
    exists V'. split_and!; [done|done|]. apply list_eq. intros j.
    destruct (decide (j < page_bytes)%nat); [apply Hpre; unfold PAGE_SIZE in *; lia|].
    rewrite !lookup_ge_None_2; [done|rewrite length_pattern; lia|lia].
Qed.

End client.

(** ** The verification *)

Section verify.
Context {W : Type} {RO : RpcOps W} {PSV : PageService W}.
Context (live : bool).
Implicit Types (c : dsm_context) (w : W) (s : PS (W:=W)).

Definition written c i s : Prop :=
  same_geometry c s.1 ∧ ∃ V, pager_ok live [] (Some V) s ∧ ∀ q, 0 <= q < i → V q = pattern q.

(** The last thing that happened is an access that returned [NULL]. *)
Definition access_failed c s : Prop :=
  ∃ p write s0, 0 <= p < num_virtual_pages c ∧ dsm_access_page p write s0 = Ret (None, s).

(** An early return, right after an access that failed. *)
Definition gave_up c (r : Z) s : Prop :=
  r = 1 ∧ live ≠ true ∧ same_geometry c s.1 ∧ access_failed c s ∧
  ∃ V, pager_ok live [] (Some V) s.

Lemma verify_write_ok c i s :
  0 <= i < num_virtual_pages c → written c i s →
  wp (verify_write i) (λ r s',
    match r with Some r => gave_up c r s' | None => written c (i + 1) s' end) s.
Proof.
  destruct s as [c1 w1]. intros Hi (Hg & V & Hok & HV). simpl in Hg.
  pose proof Hg as (_ & Env & _). apply wp_bind.
  eapply wp_mono; [apply wp_traced, dsm_access_page_ok; [exact Hok|by rewrite Env]|].
  intros [ptr|] [c2 w2] ((Hok2 & Hg2 & Hr) & E); simpl in Hg2, Hr.
  2: { apply wp_ret. split_and!; [done|done|by etrans|by do 3 eexists|by exists V]. }
  apply wp_bind. eapply wp_mono; [by apply (fill_page_ok live V)|].
  intros [] s3 (Hg3 & V3 & Hok3 & Hother & Hp). apply wp_ret.
  split; [by do 2 (etrans; [done|])|]. exists V3. split; [done|]. intros q Hq.
  destruct (decide (q = i)) as [->|]; [done|]. rewrite Hother by done. apply HV. lia.
Qed.

Lemma verify_read_ok V c i s :
  0 <= i < num_virtual_pages c → V i = pattern i →
  same_geometry c s.1 ∧ pager_ok live [] (Some V) s →
  wp (verify_read i) (λ r s',
    match r with
    | Some r => gave_up c r s'
    | None => same_geometry c s'.1 ∧ pager_ok live [] (Some V) s'
    end) s.
Proof.
  destruct s as [c1 w1]. intros Hi HV [Hg Hok]. simpl in Hg. pose proof Hg as (_ & Env & _).
  apply wp_bind. eapply wp_mono; [apply wp_traced, dsm_access_page_ok; [exact Hok|by rewrite Env]|].
  intros [ptr|] [c2 w2] ((Hok2 & Hg2 & Hr) & E); simpl in Hg2, Hr.
  2: { apply wp_ret. split_and!; [done|done|by etrans|by do 3 eexists|by exists V]. }
  destruct (accessed_data _ _ _ _ _ _ _ Hok2 Hr) as (f & Hf & -> & Hdata).
  apply wp_bind. eapply wp_read_frame; [apply Hok2|done|]. apply wp_ret.
  rewrite bool_decide_eq_true_2 by congruence. split; [by etrans|done].
Qed.

Lemma run_verify_ok V c w cfg :
  pager_ok live [] (Some V) (c, w) → cc_num_virtual_pages cfg = num_virtual_pages c →
  wp (run_verify cfg) (λ r s, (r = 0 ∧ written c (num_virtual_pages c) s) ∨ gave_up c r s) (c, w).
Proof.
  intros Hok Ecfg. pose proof (inv_num_virtual _ _ (proj1 Hok)) as Hn. simpl in Hn.
  unfold run_verify. rewrite Ecfg. apply wp_bind. eapply wp_mono.
  { apply (wp_for_ret_range _ (written c) (gave_up c)); [lia| |].
    - split; [done|]. exists V. split; [done|]. intros q Hq. lia.
    - intros i s Hi Hs. by apply verify_write_ok. }
  intros [r|] s; [intros; apply wp_ret; by right|].
  intros (Hg & V' & Hok' & HV'). apply wp_bind. eapply wp_mono.
  { apply (wp_for_ret_range _ (λ _ s, same_geometry c s.1 ∧ pager_ok live [] (Some V') s)
      (gave_up c)); [lia|done|].
    intros i s' Hi Hs. apply (verify_read_ok V'); [done|by apply HV'|done]. }
  intros [r|] s'; [intros; apply wp_ret; by right|]. intros [Hg2 Hok2]. apply wp_ret. left.
  split; [done|]. split; [done|]. by exists V'.
Qed.

End verify.

(** ** The benchmark *)

(** What [main] has checked, and that there are pages beyond the local ones
    if they can be drawn. *)
Definition bench_config_ok (cfg : dsm_client_config) : Prop :=
  0 < cc_num_pages cfg <= cc_num_virtual_pages cfg ∧ cc_num_virtual_pages cfg <= UINT32_MAX ∧
  (cc_num_pages cfg < cc_num_virtual_pages cfg ∨ 100 <= cc_locality_percent cfg).

Lemma lcg_value_nonneg x : 0 <= lcg_value x.
Proof. unfold lcg_value. apply Z.land_nonneg. right. lia. Qed.

Lemma wp_umod {S} a b (Q : Z → S → Prop) s :
  0 < b → (∀ r, 0 <= r < b → Q r s) → wp (umod a b) Q s.
Proof.
  intros Hb HQ. unfold umod. destruct (Z.eqb_spec b 0); [lia|]. apply wp_ret, HQ.
  by apply Z.mod_pos_bound.
Qed.

Section benchmark.
Context {W : Type} {RO : RpcOps W} {PSV : PageService W}.
Context (live : bool).
Implicit Types (c : dsm_context) (w : W) (s : PS (W:=W)).

Lemma choose_page_ok cfg rand s :
  bench_config_ok cfg →
  wp (choose_page cfg rand) (λ p s', s' = s ∧ 0 <= p < cc_num_virtual_pages cfg) s.
Proof.
  intros (Hnp & Hnvp & Hl). unfold choose_page, UINT32_MAX in *.
  destruct (Z.ltb_spec (rand mod 100) (cc_locality_percent cfg)) as [|Hge].
  - apply wp_umod; [lia|]. intros r Hr. split; [done|lia].
  - pose proof (Z.mod_pos_bound rand 100). rewrite u32_small by lia.
    apply wp_bind, wp_umod; [lia|]. intros r Hr. apply wp_ret. rewrite u32_small by lia.
    split; [done|lia].
Qed.

(** Between iterations. *)
Definition running c s : Prop :=
  same_geometry c s.1 ∧ ∃ V, pager_ok live [] (Some V) s.

Lemma benchmark_iteration_ok cfg i lcg c s :
  bench_config_ok cfg → cc_num_virtual_pages cfg = num_virtual_pages c → running c s →
  wp (benchmark_iteration cfg i lcg) (λ r s', (live = true → r.1 = false) ∧ running c s') s.
Proof.
  destruct s as [c1 w1]. intros Hcfg Ecfg (Hg & V & Hok). simpl in Hg.
  pose proof Hg as (_ & Env & _). apply wp_bind. eapply wp_mono; [by apply choose_page_ok|].
  intros p s [-> Hp]. rewrite Ecfg in Hp. cbv zeta. set (wr := if lcg_value (lcg_next (lcg_next lcg)) mod 100 <? cc_write_percent cfg then 1 else 0).
  apply wp_bind. eapply wp_mono; [apply dsm_access_page_ok; [exact Hok|by rewrite Env]|].
  intros [ptr|] [c2 w2] (Hok2 & Hg2 & Hr); simpl in Hg2, Hr.
  - destruct (accessed_data _ _ _ _ _ _ _ Hok2 Hr) as (f & Hf & Eptr & Hdata).
    destruct (inv_frame_mem _ _ (proj1 Hok2) _ Hf) as [Hm0 Hm1]. simpl in Hm1.
    pose proof page_bytes_pos. destruct (truthy wr) eqn:Ew.
    + assert (wr = 1) as Ewr by (unfold wr in *; by destruct (_ <? _)). rewrite Ewr in Hr.
      apply wp_bind. rewrite <- (Z.add_0_r ptr).
      eapply wp_mono; [apply (user_write_ok live V c2 w2 p 1 ptr 0); [done|done|done|simpl; lia]|].
      intros [] s3 (Hok3 & Hg3 & _). apply wp_ret. split; [done|].
      split; [by do 2 (etrans; [done|])|]. by eexists.
    + apply wp_bind, wp_bind, wp_cget, wp_load_region; [subst ptr; lia|subst ptr; simpl; lia|].
      apply wp_ret. split; [done|]. split; [by etrans|]. by exists V.
  - pose proof Hg2 as (_ & Env2 & _).
    destruct (inv_page_get _ _ (proj1 Hok2) p) as [pe Hpe]; [simpl; congruence|].
    apply wp_bind. eapply wp_get_pte; [done|]. apply wp_ret.
    split; [by intros ?|]. split; [by etrans|]. by exists V.
Qed.

Lemma benchmark_loop_ok cfg idx lcg c s :
  bench_config_ok cfg → cc_num_virtual_pages cfg = num_virtual_pages c → running c s →
  wp (benchmark_loop cfg idx lcg) (λ r s', (r = 0 ∨ r = 1) ∧ (live = true → r = 0) ∧ running c s') s.
Proof.
  intros Hcfg Ecfg. revert lcg s. induction idx as [|i idx IH]; intros lcg s Hs; simpl.
  - apply wp_ret. split; [by left|done].
  - apply wp_bind. eapply wp_mono; [by apply benchmark_iteration_ok|].
    intros [failed lcg'] s' [Hf Hs']. cbn [fst] in Hf. destruct failed; [|by apply IH].
    apply wp_ret. split; [by right|]. split; [|done]. intros Hl. by specialize (Hf Hl).
Qed.

Definition all_invalid c : Prop := ∀ p pe, zget (page_table c) p = Some pe → valid pe = 0.

Lemma set_location_ok c p l s :
  running c s → all_invalid s.1 → 0 <= p < num_virtual_pages c →
  wp (upd_pte p (set_location l)) (λ _ s', running c s' ∧ all_invalid s'.1) s.
Proof.
  destruct s as [c1 w1]. intros (Hg & V & [I R]) Hinv Hp. simpl in Hg, Hinv, I, R.
  pose proof Hg as (_ & Env & _). destruct (inv_page_get _ _ I p) as [pe Hpe]; [by rewrite Env|].
  pose proof (zget_Some_range _ _ _ Hpe). eapply wp_upd_pte; [done|]. split.
  - split; [done|]. exists V. split; simpl.
    + by eapply pager_inv_bits.
    + eapply represents_unmap; [done|done|exact (Hinv p pe Hpe)|]. intros V' [= <-].
      destruct R as [_ [_ HV]]. specialize (HV _ _ Hpe). unfold page_view in HV.
      by rewrite (Hinv _ _ Hpe) in HV.
  - intros q qe. simpl. rewrite zget_zupd by done. case_decide; intros E; simplify_eq.
    + exact (Hinv _ _ Hpe).
    + by apply (Hinv q).
Qed.

Lemma run_benchmark_ok V cfg c w :
  bench_config_ok cfg → cc_num_virtual_pages cfg = num_virtual_pages c →
  pager_ok live [] (Some V) (c, w) → all_invalid c →
  wp (run_benchmark cfg) (λ r s, (r = 0 ∨ r = 1) ∧ (live = true → r = 0) ∧ running c s) (c, w).
Proof.
  intros Hcfg Ecfg Hok Hinv. pose proof (inv_num_virtual _ _ (proj1 Hok)) as Hn. simpl in Hn.
  apply wp_bind. eapply wp_mono.
  - apply (wp_for_range _ (λ _ s, running c s ∧ all_invalid s.1)); [lia| |].
    + split; [|done]. split; [done|]. by exists V.
    + intros i s Hi [Hr Ha]. apply set_location_ok; [done|done|by rewrite <- Ecfg].
  - intros [] s [Hr _]. by apply benchmark_loop_ok.
Qed.

End benchmark.

Lemma create_all_invalid g np nvp blks c blks' fd :
  0 <= np <= UINT32_MAX → 0 <= nvp <= UINT32_MAX →
  dsm_create_context g np nvp blks = (Some c, blks') → all_invalid (set_sock_fd fd c).
Proof.
  intros Hnp Hnvp Hc p pe Hp. destruct (create_context_inv _ _ _ _ _ _ Hnp Hnvp Hc) as (_ & _ & _ & Hpt).
  by rewrite (Hpt p pe Hp).
Qed.

(** ** Connecting *)

(** Resolving a name opens nothing. *)
Class Resolver (W : Type) `{Resources W} `{ResolveOps W} : Prop :=
  resolve_resources host family port w :
    wp (sys_resolve host family port) (λ _, same_resources w) w.

Lemma wp_int_result {S} z (Q : Z → S → Prop) s :
  INT_MIN <= z <= INT_MAX → Q z s → wp (int_result z) Q s.
Proof.
  intros Hz HQ. unfold int_result.
  by rewrite (proj2 (Z.leb_le _ _)), (proj2 (Z.leb_le _ _)) by lia.
Qed.

Section connecting.
Context {W : Type} {OO : SockoptOps W} {CO : ClusterOps W} {VO : ServerOps W} {RS : Resources W}
  {NO : ResolveOps W} {NL : Resolver W}.
Implicit Types (w : W).

(** What is known of a new connection to [a]: the socket options do not
    change it. *)
Context (ready : sockaddr → Z → W → Prop).
Hypothesis connect_ready : ∀ fd a w,
  wp (sys_connect fd a) (λ r w', match r with SysOk _ => ready a fd w' | SysErr _ => True end) w.
Hypothesis setsockopt_ready : ∀ a fd o v w,
  ready a fd w → wp (sys_setsockopt fd o v) (λ _, ready a fd) w.

(** What a connection attempt leaves open. *)
Definition connected (res : list sockaddr) w (r : option Z) w' : Prop :=
  joinable w' = joinable w ∧
  match r with
  | Some fd => 0 <= fd ∧ open_fds w' ≡ₚ fd :: open_fds w ∧ ∃ a, a ∈ res ∧ ready a fd w'
  | None => open_fds w' ≡ₚ open_fds w
  end.

Lemma connected_none res w w' r w'' :
  connected res w None w' → connected res w' r w'' → connected res w r w''.
Proof.
  unfold connected. intros [E1 P1] [E2 P2]. split; [congruence|].
  destruct r as [fd|]; rewrite <- P1; done.
Qed.

Lemma connected_same res w w' : same_resources w w' → connected res w None w'.
Proof. intros [E1 E2]. split; [done|by rewrite E1]. Qed.

(** The visit of one address. *)
Lemma try_address_ok res a w : a ∈ res →
  wp (r ← sys_socket SOCK_STREAM;
      match r with
      | SysErr _ => mret None
      | SysOk fd =>
          c ← sys_connect fd a;
          match c with
          | SysOk _ => dsm_setup_socket_optimal fd;; mret (Some fd)
          | SysErr _ => sys_close fd;; mret None
          end
      end) (connected res w) w.
Proof.
  intros Ha. apply wp_bind. eapply wp_mono; [apply socket_resources|]. intros [fd|e] w2 [Ej Ef].
  2: { by apply wp_ret, connected_same. }
  destruct Ef as [Hfd Ef]. apply wp_bind.
  eapply wp_mono; [apply wp_conj; [apply connect_resources|apply connect_ready]|].
  intros [[]|e] w3 [[E1 E2] Hrdy].
  - apply wp_bind. eapply wp_mono.
    { apply wp_conj; [apply setup_socket_resources|].
      apply (setup_socket_keeps (ready a fd)); [|done]. intros. by apply setsockopt_ready. }
    intros ? w4 [[E3 E4] Hr4]. apply wp_ret. split; [congruence|].
    split_and!; [done|by rewrite E3, E1, Ef|by exists a].
  - apply wp_bind. eapply wp_mono; [apply close_resources; by rewrite E1, Ef|].
    intros ? w4 [E3 E4]. apply wp_ret. split; [congruence|done].
Qed.

Lemma try_addresses_ok res w : wp (try_addresses res) (connected res w) w.
Proof.
  eapply wp_mono; [apply (wp_for_ret _ (λ rest w', rest ⊆ res ∧ connected res w None w')
    (λ fd w', connected res w (Some fd) w'))|].
  - split; [done|]. by split.
  - intros a rest w1 [Hsub H1]. eapply wp_mono; [apply (try_address_ok res); set_solver|].
    intros [fd|] w2 H2; [by eapply connected_none|]. split; [set_solver|by eapply connected_none].
  - intros [fd|] w'; [done|]. by intros [_ ?].
Qed.

(** The delay before attempt [a + 1] is [100 * 2 ^ a] milliseconds. *)
Lemma connect_attempts_ok res a w :
  0 <= a <= MAX_RETRY_ATTEMPTS →
  wp (connect_attempts res MAX_RETRY_ATTEMPTS (100 * 2 ^ a) (seqZ a (MAX_RETRY_ATTEMPTS - a)))
    (connected res w) w.
Proof.
  intros Ha. remember (Z.to_nat (MAX_RETRY_ATTEMPTS - a)) as n eqn:Hn. revert a w Ha Hn.
  unfold MAX_RETRY_ATTEMPTS. induction n as [|n IH]; intros a w Ha Hn.
  { rewrite seqZ_nil by lia. by apply wp_ret. }
  rewrite seqZ_cons by lia. replace (Z.succ a) with (a + 1) by lia.
  replace (Z.pred (10 - a)) with (10 - (a + 1)) by lia. simpl.
  apply wp_bind. eapply wp_mono; [apply try_addresses_ok|].
  intros [fd|] w1 H1; [by apply wp_ret|].
  assert (1 <= 2 ^ a) by (apply (Z.pow_le_mono_r 2 0 a); lia).
  change (10 - 1) with 9. destruct (Z.ltb_spec a 9).
  - assert (2 ^ a <= 256) by (apply (Z.pow_le_mono_r 2 a 8); lia).
    apply wp_bind, wp_int_result; [unfold INT_MIN, INT_MAX; lia|].
    apply wp_bind. eapply wp_mono; [apply usleep_resources|]. intros ? w2 [E1 E2].
    apply wp_bind, wp_int_result; [unfold INT_MIN, INT_MAX; lia|].
    replace (100 * 2 ^ a * 2) with (100 * 2 ^ (a + 1)) by (rewrite Z.pow_add_r by lia; lia).
    eapply wp_mono; [apply IH; lia|]. intros r w3 H3. eapply connected_none; [done|].
    eapply connected_none; [by apply connected_same|done].
  - replace a with 9 by lia. rewrite seqZ_nil by lia. by apply wp_ret.
Qed.

(** The address family the code asks for. *)
Definition host_family (host : string) : Z :=
  if decide (host = "localhost"%string ∨ host = "127.0.0.1"%string) then AF_INET else AF_UNSPEC.

Lemma host_family_run host :
  (if String.eqb host "localhost" || String.eqb host "127.0.0.1" then AF_INET else AF_UNSPEC) =
  host_family host.
Proof.
  unfold host_family. destruct (String.eqb_spec host "localhost"), (String.eqb_spec host "127.0.0.1");
    simpl; case_decide; tauto.
Qed.

(** The addresses of a host. *)
Definition resolves w host port (res : option (list sockaddr)) : Prop :=
  ∃ w1, sys_resolve host (host_family host) port w = Ret (res, w1).

Lemma connect_to_server_ok host port w :
  wp (connect_to_server host port MAX_RETRY_ATTEMPTS) (λ r w', joinable w' = joinable w ∧
    ((r = -1 ∧ open_fds w' ≡ₚ open_fds w) ∨
     (0 <= r ∧ open_fds w' ≡ₚ r :: open_fds w ∧
      ∃ res a, resolves w host port (Some res) ∧ a ∈ res ∧ ready a r w'))) w.
Proof.
  unfold connect_to_server. rewrite host_family_run. apply wp_bind.
  eapply wp_mono; [apply wp_traced, resolve_resources|]. intros [res|] w1 [Hw1 E].
  2: { apply wp_ret. destruct Hw1 as [E1 E2]. split; [done|]. left. by rewrite E1. }
  apply wp_bind. pose proof (connect_attempts_ok res 0 w1) as Hc. rewrite Z.sub_0_r in Hc.
  eapply wp_mono; [apply Hc; unfold MAX_RETRY_ATTEMPTS; lia|].
  intros r w2 H2. apply (connected_none res w) in H2; [|by apply connected_same].
  destruct r as [fd|], H2 as [Ej H2]; apply wp_ret; (split; [done|]); [right|by left].
  destruct H2 as (? & ? & a & Ha & Hr). split_and!; [done|done|].
  exists res, a. split_and!; [by exists w1|done|done].
Qed.

(** An address that accepts at once is taken. *)
Lemma connect_at_once host port w a rest w1 fd w2 w3 r w' :
  sys_resolve host (host_family host) port w = Ret (Some (a :: rest), w1) →
  sys_socket SOCK_STREAM w1 = Ret (SysOk fd, w2) → sys_connect fd a w2 = Ret (SysOk tt, w3) →
  connect_to_server host port MAX_RETRY_ATTEMPTS w = Ret (r, w') → r = fd.
Proof.
  intros E1 E2 E3. unfold connect_to_server. rewrite host_family_run. unfold mbind, M_bind.
  rewrite E1. change (seqZ 0 MAX_RETRY_ATTEMPTS) with (0 :: seqZ 1 9).
  cbn [connect_attempts]. unfold mbind, M_bind, try_addresses. cbn [for_ret].
  unfold mbind, M_bind. rewrite E2, E3.
  destruct (dsm_setup_socket_optimal fd w3) as [[? w4]| | |]; [|done..]. by intros [= <- _].
Qed.

End connecting.
