(* ===== verification/ClientClaims.v ===== *)
(** * What the client program and the protocol guarantee *)

From stdpp Require Import gmap.
From Stdlib Require Import Strings.String.
From S2P Require Import Prelude Machine Protocol PageService Paging PagingInv PagingOps PagingAccess PagingSpec PagingTheorems TableService Connection Node Gossip Cluster ClusterRouting Server ServerSpec Config ServerLoop ServerWorld System Client ClientTheorems.

(** ** The wire *)

(** C29: The wire format of a header is the documented one: the operation in
    the first byte, three bytes of zeros, and the page id in the last four,
    least significant byte first.  A receiver of any 8 bytes reads the
    operation and the page id from these positions, so it gets back what the
    sender put in. *)
Theorem header_wire_format o p :
  0 <= o < 2 ^ 8 → 0 <= p < 2 ^ 32 →
  header_bytes (dsm_rpc_make_header o p) =
    byte.of_Z <$> [o; 0; 0; 0; p mod 256; p / 2 ^ 8 mod 256; p / 2 ^ 16 mod 256; p / 2 ^ 24] ∧
  (∀ b0 b1 b2 b3 b4 b5 b6 b7,
     let h := header_of_bytes [b0; b1; b2; b3; b4; b5; b6; b7] in
     hdr_op h = byte.unsigned b0 ∧
     hdr_page_id h = byte.unsigned b4 + 2 ^ 8 * byte.unsigned b5 + 2 ^ 16 * byte.unsigned b6 +
                     2 ^ 24 * byte.unsigned b7) ∧
  hdr_op (header_of_bytes (header_bytes (dsm_rpc_make_header o p))) = o ∧
  hdr_page_id (header_of_bytes (header_bytes (dsm_rpc_make_header o p))) = p.
Proof.
  intros Ho Hp. rewrite header_roundtrip by apply make_header_wf. split_and!.
  - unfold header_bytes, dsm_rpc_make_header. simpl. rewrite u8_small, u32_small by lia.
    by rewrite le_bytes_1, le_bytes_4 by lia.
  - intros. by rewrite <- le_val_1, <- le_val_4.
  - by apply u8_small.
  - by apply u32_small.
Qed.

Lemma header_wire_format_witness :
  header_bytes (dsm_rpc_make_header OP_PUT_PAGE 70000) =
    byte.of_Z <$> [2; 0; 0; 0; 112; 17; 1; 0] ∧
  hdr_page_id (header_of_bytes (header_bytes (dsm_rpc_make_header OP_PUT_PAGE 70000))) = 70000.
Proof.
  destruct (header_wire_format OP_PUT_PAGE 70000) as (H1 & _ & _ & H4);
    [unfold OP_PUT_PAGE; lia|lia|]. split; [exact H1|exact H4].
Defined.

(** C20: The transfer loops move whole buffers over calls that transfer
    arbitrary parts and are interrupted.  Each returns 0 or -1; on 0 the
    whole buffer has gone through, in order and once, on -1 a prefix has; and
    as long as no call fails, however short or interrupted the calls are, the
    result is 0.  A receive fills the buffer with the next bytes of the
    stream, and without a failing call it returns -1 only when the stream
    ends before the buffer is full. *)
Theorem transfers_are_whole {W} {SO : SocketOps W} {SK : Sockets W} {LK : Links W}
    fuel fd buf iov flags (w : W) :
  (length buf + interrupts w ≤ fuel)%nat → (length (concat iov) + interrupts w ≤ fuel)%nat →
  Forall (λ v, v ≠ []) iov →
  wp (dsm_send_full fuel fd buf flags) (λ r w', (r = 0 ∨ r = -1) ∧
    (∃ k, sent w' fd = sent w fd ++ take k buf) ∧
    (r = 0 → sent w' fd = sent w fd ++ buf) ∧ (faultless w fd → r = 0)) w ∧
  wp (dsm_sendv fuel fd iov) (λ r w', (r = 0 ∨ r = -1) ∧
    (∃ k, sent w' fd = sent w fd ++ take k (concat iov)) ∧
    (r = 0 → sent w' fd = sent w fd ++ concat iov) ∧ (faultless w fd → r = 0)) w ∧
  ((length buf ≤ length (pending w fd))%nat ∨ hangup w fd = true →
   wp (dsm_recv_full fuel fd buf) (λ res w', (res.1 = 0 ∨ res.1 = -1) ∧
     length res.2 = length buf ∧ sent w' fd = sent w fd ∧
     (res.1 = 0 → pending w fd = res.2 ++ pending w' fd) ∧
     (faultless w fd → (length buf ≤ length (pending w fd))%nat → res.1 = 0)) w).
Proof.
  intros Hf Hf' Hiov. split_and!.
  - eapply wp_mono; [apply wp_strengthen; [by apply dsm_send_full_ok|
      intros r w' E; exact (send_full_faultless _ _ _ _ _ _ _ E)]|].
    intros r w' ((? & ? & H0) & Hfl). split_and!; [done|done| |by intros []%Hfl].
    intros Hr. by destruct (H0 Hr).
  - eapply wp_mono; [apply wp_strengthen; [by apply dsm_sendv_ok|
      intros r w' E; exact (sendv_faultless _ _ _ _ _ _ Hiov E)]|].
    intros r w' ((? & ? & H0) & Hfl). split_and!; [done|done| |by intros []%Hfl].
    intros Hr. by destruct (H0 Hr).
  - intros Hav. eapply wp_mono; [apply (wp_strengthen _ (received_post w fd buf 0) (λ res w', faultless w fd →
      (res.1 = 0 ∧ faultless w' fd) ∨ (res.1 = -1 ∧ (length (pending w fd) < length buf - 0)%nat)));
      [by apply dsm_recv_full_ok|]|].
    { intros [r buf'] w' E. assert (Hav' := Hav). rewrite <- (Nat.sub_0_r (length buf)) in Hav'.
      exact (recv_faultless _ _ _ _ _ _ _ _ E Hav'). }
    intros [r buf'] w' ((Hl & _ & Hr & Hs & H0) & Hfl). split_and!; [done|done|done| |].
    + intros Hz. by destruct (H0 Hz).
    + intros Hw Hlen. destruct (Hfl Hw) as [[-> _]|[_ ?]]; [done|lia].
Qed.

Lemma transfers_are_whole_witness :
  wp (dsm_send_full 7 3 [Byte.x01; Byte.x02; Byte.x03] 0) (λ r w', (r = 0 ∨ r = -1) ∧
    (∃ k, sent w' 3 = sent (fresh_conn small_disk 3 rough_events) 3 ++
            take k [Byte.x01; Byte.x02; Byte.x03]) ∧
    (r = 0 → sent w' 3 = sent (fresh_conn small_disk 3 rough_events) 3 ++
               [Byte.x01; Byte.x02; Byte.x03]) ∧
    (faultless (fresh_conn small_disk 3 rough_events) 3 → r = 0))
    (fresh_conn small_disk 3 rough_events) ∧
  faultless (fresh_conn small_disk 3 rough_events) 3.
Proof.
  split.
  - apply (transfers_are_whole 7 3 [Byte.x01; Byte.x02; Byte.x03] [[Byte.x01]] 0
      (fresh_conn small_disk 3 rough_events)).
    + simpl. lia.
    + simpl. lia.
    + repeat constructor. discriminate.
  - split; [reflexivity|]. split; [reflexivity|]. intros _. exact rough_events_calm.
Defined.

(** ** Connecting *)


(** In the bench a name has two addresses; the coins refuse the first
    connection. *)
#[export] Instance bench_resolve : ResolveOps bench := {
  sys_resolve _ _ port := mret (Some [mk_sockaddr 1 port; mk_sockaddr 2 port]);
}.

#[export] Instance bench_resolver : Resolver bench.
Proof. intros host family port w. by apply wp_ret. Qed.

Definition bench_refused : bench := mk_bench 5 [] [] [] [5] [] [false] 0 [].


(** ** The verification *)

(** C21: The end-to-end verification.  On a new context [run_verify] writes a
    pattern to every page and reads every page back through eviction,
    writeback and refetch.  It returns 0, with the patterns in the memory, or
    1; it returns 0 if the service fails no call, and when it returns 1 the
    last thing it did was an access that returned [NULL], never a comparison
    that found a difference. *)
Theorem run_verify_passes {W} {RO : RpcOps W} {PSV : PageService W} live g np nvp blks c blks' fd cfg (w : W) :
  0 <= np <= UINT32_MAX → 0 <= nvp <= UINT32_MAX → 0 <= fd → in_step w fd nvp →
  dsm_create_context g np nvp blks = (Some c, blks') →
  (live = true → ∀ p, 0 <= p < nvp → serves w fd p) → cc_num_virtual_pages cfg = nvp →
  wp (run_verify cfg) (λ r s, (r = 0 ∨ r = 1) ∧ (live = true → r = 0) ∧
    (r = 1 → ∃ p write s0, 0 <= p < nvp ∧ dsm_access_page p write s0 = Ret (None, s)) ∧
    ∃ V, pager_ok live [] (Some V) s ∧ (r = 0 → ∀ p, 0 <= p < nvp → V p = pattern p))
    (set_sock_fd fd c, w).
Proof.
  intros Hnp Hnvp Hfd Hw Hc Hs Hcfg.
  assert (num_virtual_pages c = nvp) as Ec.
  { by destruct (create_context_inv _ _ _ _ _ _ Hnp Hnvp Hc) as (_ & ? & _). }
  eapply wp_mono; [apply (run_verify_ok live (page_of w fd))|].
  - apply (create_connect_ok live g np nvp blks c blks'); auto.
  - simpl. congruence.
  - intros r s [(-> & _ & V & Hok & HV)|(-> & Hl & _ & Hfail & V & Hok)].
    + split_and!; [by left|done|done|]. exists V. simpl in HV. rewrite Ec in HV. by split.
    + unfold access_failed in Hfail. simpl in Hfail. rewrite Ec in Hfail.
      split_and!; [by right|done|done|]. by exists V.
Qed.

(** Over the protocol and the server, on a rough connection. *)
Lemma run_verify_passes_witness : ∃ c blks',
  dsm_create_context all_grants 1 3 [] = (Some c, blks') ∧
  wp (run_verify (mk_client_config None 9999 1 3 0 0 0 false true)) (λ r s, (r = 0 ∨ r = 1) ∧
    (true = true → r = 0) ∧
    (r = 1 → ∃ p write s0, 0 <= p < 3 ∧ dsm_access_page p write s0 = Ret (None, s)) ∧
    ∃ V, pager_ok true [] (Some V) s ∧
    (r = 0 → ∀ p, 0 <= p < 3 → V p = pattern p))
    (set_sock_fd 3 c, fresh_conn small_disk 3 rough_events).
Proof.
  destruct (create_granted 1 3 [] ltac:(lia)) as (c & b & E). exists c, b. split; [exact E|].
  apply (run_verify_passes true all_grants 1 3 [] c b 3); try (unfold UINT32_MAX; lia).
  - apply fresh_conn_in_step. simpl. lia.
  - exact E.
  - intros _ p _. apply fresh_conn_serves, rough_events_calm.
  - reflexivity.
Defined.

(** ** The benchmark *)

(** C22: The benchmark is memory-safe and stays in its page range: when the
    virtual pages outnumber the local ones (or all accesses are local), every
    page it draws is one of the context's, no access is out of bounds, it
    ends with 0 or 1, and with 0 if the service fails no call. *)
Theorem run_benchmark_safe {W} {RO : RpcOps W} {PSV : PageService W} live g blks c blks' fd cfg (w : W) :
  bench_config_ok cfg → 0 <= fd → in_step w fd (cc_num_virtual_pages cfg) →
  dsm_create_context g (cc_num_pages cfg) (cc_num_virtual_pages cfg) blks = (Some c, blks') →
  (live = true → ∀ p, 0 <= p < cc_num_virtual_pages cfg → serves w fd p) →
  wp (run_benchmark cfg) (λ r s, (r = 0 ∨ r = 1) ∧ (live = true → r = 0) ∧ pager_inv [] s.1)
    (set_sock_fd fd c, w).
Proof.
  intros Hcfg Hfd Hw Hc Hs. pose proof Hcfg as (Hnp & Hnvp & _).
  assert (0 <= cc_num_pages cfg <= UINT32_MAX ∧ 0 <= cc_num_virtual_pages cfg <= UINT32_MAX)
    as [Hn1 Hn2] by lia.
  eapply wp_mono; [apply (run_benchmark_ok live (page_of w fd)); [done| | |]|].
  - simpl. by destruct (create_context_inv _ _ _ _ _ _ Hn1 Hn2 Hc) as (_ & -> & _).
  - by apply (create_connect_ok live g (cc_num_pages cfg) (cc_num_virtual_pages cfg) blks c blks').
  - by apply (create_all_invalid g (cc_num_pages cfg) (cc_num_virtual_pages cfg) blks c blks').
  - intros r s (? & ? & _ & V & Hok). split_and!; [done|done|apply Hok].
Qed.

Definition small_bench : dsm_client_config := mk_client_config None 9999 1 3 5 80 10 false false.

Lemma run_benchmark_safe_witness : ∃ c blks',
  dsm_create_context all_grants 1 3 [] = (Some c, blks') ∧
  wp (run_benchmark small_bench) (λ r s, (r = 0 ∨ r = 1) ∧ (true = true → r = 0) ∧ pager_inv [] s.1)
    (set_sock_fd 3 c, fresh_conn small_disk 3 rough_events).
Proof.
  destruct (create_granted 1 3 [] ltac:(lia)) as (c & b & E). exists c, b. split; [exact E|].
  apply (run_benchmark_safe true all_grants [] c b 3 small_bench).
  - unfold bench_config_ok, UINT32_MAX. simpl. lia.
  - lia.
  - apply fresh_conn_in_step. simpl. lia.
  - exact E.
  - intros _ p _. apply fresh_conn_serves, rough_events_calm.
Defined.

(** C38: The checks of [main] do not suffice for the benchmark: a
    configuration they accept, with as many virtual pages as local ones and a
    locality of at most 68 percent, divides by zero in the first iteration,
    because its first draw falls outside the local pages and there are no
    others. *)
Theorem benchmark_divides_by_zero {W} {RO : RpcOps W} {PSV : PageService W} live V cfg c (w : W) :
  config_rejected cfg = false → cc_num_virtual_pages cfg = cc_num_pages cfg →
  0 <= cc_locality_percent cfg <= 68 → 0 < cc_num_iterations cfg →
  cc_num_virtual_pages cfg = num_virtual_pages c →
  pager_ok live [] (Some V) (c, w) → all_invalid c →
  run_benchmark cfg (c, w) = Undef.
Proof.
  intros _ Enp Hl Hi Ecfg Hok Hinv. pose proof (inv_num_virtual _ _ (proj1 Hok)) as Hn. simpl in Hn.
  unfold run_benchmark. unfold mbind at 1, M_bind at 1.
  assert (wp (for_each (seqZ 0 (cc_num_virtual_pages cfg)) (λ i,
    upd_pte i (set_location (if i <? cc_num_pages cfg then LOC_LOCAL else LOC_REMOTE))))
    (λ _ _, True) (c, w)) as Hset.
  { eapply wp_mono; [apply (wp_for_range _ (λ _ s, running live c s ∧ all_invalid s.1))|done].
    - lia.
    - split; [|done]. split; [done|]. by exists V.
    - intros i s Hr [Hrun Ha]. apply set_location_ok; [done|done|by rewrite <- Ecfg]. }
  apply wp_returns in Hset as ([] & s & -> & _). rewrite seqZ_cons by lia. cbn [benchmark_loop].
  unfold mbind, M_bind, benchmark_iteration, choose_page. unfold mbind at 1, M_bind at 1.
  change (lcg_value (lcg_next LCG_SEED) mod 100) with 68.
  destruct (Z.ltb_spec 68 (cc_locality_percent cfg)); [lia|].
  rewrite Enp, Z.sub_diag. reflexivity.
Qed.

Lemma benchmark_divides_by_zero_witness : ∃ c blks',
  dsm_create_context all_grants 2 2 [] = (Some c, blks') ∧
  run_benchmark (mk_client_config None 9999 2 2 1 50 10 false false)
    (set_sock_fd 3 c, mk_table ∅ []) = Undef.
Proof.
  destruct (create_granted 2 2 [] ltac:(lia)) as (c & b & E). exists c, b. split; [exact E|].
  destruct (create_context_inv all_grants 2 2 [] c b ltac:(unfold UINT32_MAX; lia)
    ltac:(unfold UINT32_MAX; lia) E) as (_ & En & _).
  apply (benchmark_divides_by_zero false (page_of (mk_table ∅ []) 3)).
  - reflexivity.
  - reflexivity.
  - simpl. lia.
  - simpl. lia.
  - simpl. symmetry. exact En.
  - apply (create_connect_ok false all_grants 2 2 [] c b); try (unfold UINT32_MAX; lia);
      first [exact E|exact I|discriminate].
  - apply (create_all_invalid all_grants 2 2 [] c b); try (unfold UINT32_MAX; lia). exact E.
Defined.
