(* ===== verification/ClientMainTheorems.v ===== *)
(** * The client as a program

    The course of [main] over a world in which connecting yields a page
    service: the resources it acquires are given back on every path that
    [SIGPIPE] does not end.  The pager is proved over an abstract page
    service, so a service that also owns the client's resources carries them
    through. *)

From Stdlib Require Import Strings.String.
From S2P Require Import Prelude Machine Protocol PageService Paging PagingInv PagingOps PagingAccess PagingSpec PagingTheorems TableService Connection Node Gossip Cluster Server ServerSpec Config ServerLoop ServerWorld System Client Signal ClientTheorems ClientClaims.

(** What [main] relies on besides the page service and the resources: a
    connection that has been made leads to a server that exports [exported]
    pages, socket options do not disturb it, and the RPCs open and close
    nothing. *)
Class ClientWorld (W : Type) {CO : ClusterOps W} {OO : SockoptOps W} {VO : ServerOps W}
    {RS : Resources W} {RO : RpcOps W} {PSV : PageService W} := {
  exported : Z;
  connect_in_step fd a n w : 0 <= n <= exported →
    wp (sys_connect fd a) (λ r w',
      match r with SysOk _ => in_step w' fd n | SysErr _ => True end) w;
  setsockopt_in_step fd o v n w : in_step w fd n →
    wp (sys_setsockopt fd o v) (λ _ w', in_step w' fd n) w;
  rpc_get_resources fd id buf w r w' : rpc_get fd id buf w = Ret (r, w') → same_resources w w';
  rpc_get_batch_resources fd ids n bufs w r w' :
    rpc_get_batch fd ids n bufs w = Ret (r, w') → same_resources w w';
  rpc_put_resources fd id buf w r w' : rpc_put fd id buf w = Ret (r, w') → same_resources w w';
}.

(** ** Resources ride along with the service *)

Section framed.
Context {W : Type} {CO : ClusterOps W} {OO : SockoptOps W} {VO : ServerOps W}
  {RS : Resources W} {RO : RpcOps W} {PSV : PageService W} {CW : ClientWorld W}.
Context (fds ts : list Z).

Definition holding (w : W) : Prop := open_fds w ≡ₚ fds ∧ joinable w = ts.

Lemma holding_same w w' : same_resources w w' → holding w → holding w'.
Proof. intros [E1 E2] [H1 H2]. split; congruence. Qed.

(** The same service, whose client holds [fds] and [ts]. *)
Program Definition framed_service : PageService W := {|
  page_of := page_of;
  serves := serves;
  in_step w fd n := in_step w fd n ∧ holding w;
  length_page_of := length_page_of;
|}.
Next Obligation.
  intros fd n id buf w [Hw Hh] Hid Hl.
  eapply wp_mono; [apply wp_strengthen; [by apply rpc_get_ok|by apply rpc_get_resources]|].
  intros res w' [(? & ? & ? & ? & ?) Hs]. split_and!; try done. by eapply holding_same.
Qed.
Next Obligation.
  intros fd m ids n bufs w [Hw Hh] Hids Hn Hl.
  eapply wp_mono; [apply wp_strengthen; [by apply rpc_get_batch_ok|by apply rpc_get_batch_resources]|].
  intros res w' [(? & ? & ? & ? & ?) Hs]. split_and!; try done. by eapply holding_same.
Qed.
Next Obligation.
  intros fd n id buf w [Hw Hh] Hid Hl.
  eapply wp_mono; [apply wp_strengthen; [by apply rpc_put_ok|by apply rpc_put_resources]|].
  intros res w' [(? & ? & ? & ?) Hs]. split_and!; try done. by eapply holding_same.
Qed.

(** A pager over the framed service has kept the resources. *)
Lemma framed_holding live m c (w : W) :
  @pager_ok W RO framed_service live [] m (c, w) → holding w.
Proof. by intros [_ [[[_ ?] _] _]]. Qed.

End framed.

(** ** The course of [main] *)

(** A configuration [main] can run with; the last condition is the one it
    does not check. *)
Definition client_config_ok (exported : Z) (cfg : dsm_client_config) : Prop :=
  cc_host cfg ≠ None ∧
  0 <= cc_num_pages cfg <= UINT32_MAX ∧ 0 <= cc_num_virtual_pages cfg <= UINT32_MAX ∧
  cc_num_virtual_pages cfg <= exported ∧
  (cc_num_pages cfg = cc_num_virtual_pages cfg → cc_verify_mode cfg = false →
   100 <= cc_locality_percent cfg).

(** What a creation takes from an allocator at rest, a destruction gives
    back; a creation that fails has taken nothing. *)
Lemma create_destroy_nil g np nvp r live :
  dsm_create_context g np nvp [] = (r, live) →
  (∀ c, dsm_destroy_context (Some c) live = []) ∧ (r = None → live = []).
Proof.
  unfold dsm_create_context, mmap_grants.
  destruct g as [[] [] [] [] []]; simpl; try destruct (0 <? np * PAGE_SIZE); simpl;
    by intros [= <- <-].
Qed.

Lemma config_accepted cfg :
  config_rejected cfg = false → 0 <= cc_num_pages cfg → 0 <= cc_num_virtual_pages cfg →
  0 < cc_num_pages cfg <= cc_num_virtual_pages cfg.
Proof.
  unfold config_rejected. rewrite !orb_false_iff, !Z.ltb_ge, !Z.eqb_neq. lia.
Qed.

Section client_main.
Context {W : Type} {CO : ClusterOps W} {OO : SockoptOps W} {VO : ServerOps W}
  {RS : Resources W} {NO : ResolveOps W} {NL : Resolver W} {RO : RpcOps W} {PSV : PageService W}
  {CW : ClientWorld W}.
Implicit Types (w : W) (c : dsm_context).

(** The program proper, on a new context with a new connection. *)
Lemma programs_hold fds ts g np nvp blks c blks' fd cfg w :
  cc_num_pages cfg = np → cc_num_virtual_pages cfg = nvp → 0 < np <= nvp → nvp <= UINT32_MAX →
  (np = nvp → cc_verify_mode cfg = false → 100 <= cc_locality_percent cfg) →
  0 <= fd → in_step w fd nvp → holding fds ts w →
  dsm_create_context g np nvp blks = (Some c, blks') →
  wp (if cc_verify_mode cfg then run_verify cfg else run_benchmark cfg)
    (λ r s, (r = 0 ∨ r = 1) ∧ holding fds ts s.2) (set_sock_fd fd c, w).
Proof.
  intros Enp Envp Hnp Hnvp Hloc Hfd Hw Hh Hc.
  assert (0 <= np <= UINT32_MAX ∧ 0 <= nvp <= UINT32_MAX) as [H1 H2] by lia.
  assert (num_virtual_pages c = nvp) as Ec.
  { by destruct (create_context_inv _ _ _ _ _ _ H1 H2 Hc) as (_ & ? & _). }
  pose proof (@create_connect_ok W RO (framed_service fds ts) false g np nvp blks c blks' fd w
    H1 H2 Hfd Hc (conj Hw Hh) ltac:(done)) as Hok.
  destruct (cc_verify_mode cfg).
  - eapply wp_mono; [eapply (@run_verify_ok W RO (framed_service fds ts) false); [exact Hok|]|].
    { simpl. congruence. }
    intros r [c' w'] [(-> & _ & V & Hok' & _)|(-> & _ & _ & _ & V & Hok')];
      (split; [by auto|]); by eapply framed_holding.
  - eapply wp_mono; [eapply (@run_benchmark_ok W RO (framed_service fds ts) false); [| |exact Hok|]|].
    + unfold bench_config_ok. rewrite Enp, Envp. split_and!; [lia|lia|lia|].
      destruct (decide (np = nvp)) as [E|]; [right; by apply Hloc|left; lia].
    + simpl. congruence.
    + by eapply create_all_invalid; [| |exact Hc].
    + intros r [c' w'] (? & _ & _ & V & Hok'). split; [done|]. by eapply framed_holding.
Qed.

Lemma wp_in_context {A} c (m : M PS A) (Q : A * dsm_context → W → Prop) w :
  wp m (λ a s, Q (a, s.1) s.2) (c, w) → wp (in_context c m) Q w.
Proof.
  rewrite !wp_returns. intros (a & [c' w'] & E & HQ). exists (a, c'), w'. split; [|done].
  unfold in_context. by rewrite E.
Qed.

Lemma client_main_ok g cfg w :
  client_config_ok exported (effective_config cfg) →
  wp (client_main g cfg []) (λ r w', (r.1 = 0 ∨ r.1 = 1) ∧ r.2 = [] ∧
    open_fds w' ≡ₚ open_fds w ∧ joinable w' = joinable w) w.
Proof.
  unfold client_main. set (e := effective_config cfg). intros (Hhost & Hnp & Hnvp & Hexp & Hloc).
  destruct (config_rejected e) eqn:Hrej; [apply wp_ret; by auto|].
  apply config_accepted in Hrej; [|lia..]. destruct (cc_host e) as [host|]; [|done].
  apply wp_bind. eapply wp_mono.
  { apply (connect_to_server_ok (λ _ fd w, in_step w fd (cc_num_virtual_pages e))).
    - intros. apply connect_in_step. lia.
    - intros. by apply setsockopt_in_step. }
  intros fd w1 (Ej & [(-> & Ef)|(Hfd & Ef & _ & _ & _ & _ & Hw1)]); [apply wp_ret; by auto|].
  destruct (Z.ltb_spec fd 0); [lia|].
  destruct (dsm_create_context g _ _ []) as [[c|] blks'] eqn:Hc;
    destruct (create_destroy_nil _ _ _ _ _ Hc) as [Hd Hn].
  2: { apply wp_bind. eapply wp_mono; [by apply close_resources|]. intros _ w2 [Ej2 Ef2].
       apply wp_ret. split_and!; [by right|by apply Hn|done|congruence]. }
  apply wp_bind, wp_in_context. eapply wp_mono.
  { eapply (programs_hold (fd :: open_fds w) (joinable w) g (cc_num_pages e)
      (cc_num_virtual_pages e) [] c blks'); try done. lia. }
  intros r [c' w2] (Hr & Ef2 & Ej2). simpl in Ef2, Ej2. apply wp_bind.
  eapply wp_mono; [by apply close_resources|]. intros _ w3 [Ej3 Ef3]. apply wp_ret.
  split_and!; [done|apply Hd|done|by etrans].
Qed.

End client_main.

(** ** A process that [SIGPIPE] ends *)

Section mortal_main.
Context {W : Type} {CO : ClusterOps W} {OO : SockoptOps W} {VO : ServerOps W}
  {RS : Resources W} {NO : ResolveOps W} {NL : Resolver W} {RO : RpcOps W} {PSV : PageService W}
  {CW : ClientWorld W} (RO' : RpcOps W) {MT : Mortal RO' RO}.
Implicit Types (w : W).

(** A connection, once made, serves every page from then on. *)
Definition reliable : Prop :=
  (∀ fd a w, wp (sys_connect fd a) (λ r w',
     match r with SysOk _ => ∀ p, serves w' fd p | SysErr _ => True end) w) ∧
  (∀ fd o v w, (∀ p, serves w fd p) → wp (sys_setsockopt fd o v) (λ _ w', ∀ p, serves w' fd p) w).

Program Definition reliable_client (R : reliable) :
    @ClientWorld W CO OO VO RS RO' (reliable_service RO' RO) := {| exported := exported |}.
Next Obligation.
  intros [Rc Rs] fd a n w Hn.
  eapply wp_mono; [apply wp_conj; [by apply (connect_in_step fd a n)|apply (Rc fd a)]|].
  by intros [[]|e] w' H.
Qed.
Next Obligation.
  intros [Rc Rs] fd o v n w [Hw Hs].
  apply wp_conj; [by apply setsockopt_in_step|by apply Rs].
Qed.
Next Obligation. intros R fd id buf w r w'. rewrite mortal_get. apply rpc_get_resources. Qed.
Next Obligation.
  intros R fd ids n bufs w r w'. rewrite mortal_get_batch. apply rpc_get_batch_resources.
Qed.
Next Obligation.
  intros R fd id buf w r w'. destruct (mortal_put (RO':=RO') (RO:=RO) fd id buf w) as [->| ->]; [|done].
  apply rpc_put_resources.
Qed.

(** C25: The client program ends, and ends clean.  The configuration names a
    host, its page counts fit their type, it addresses no page the server does
    not export (a put to one would wait for ever), and it is not the one whose
    benchmark divides by zero.  Then, whatever the name resolves to and
    whichever connection attempt, allocation or RPC fails, [main] returns the
    exit code 0 or 1 without undefined behaviour, the descriptors it opened
    are closed and its memory is released; or the process, which does not
    ignore [SIGPIPE], is killed by a put, which happens only where connections
    can break. *)
Theorem client_main_gives_back g cfg w :
  client_config_ok exported (effective_config cfg) →
  match client_main (RO:=RO') g cfg [] w with
  | Ret ((code, blks), w') => (code = 0 ∨ code = 1) ∧ blks = [] ∧
      open_fds w' ≡ₚ open_fds w ∧ joinable w' = joinable w
  | Killed => ¬ reliable
  | Undef | Diverge => False
  end.
Proof.
  intros Hcfg. destruct (or_killed_wp _ _ _ w (client_main_mortal RO' RO g cfg [])
    (client_main_ok g cfg w Hcfg)) as [H|H].
  - apply wp_returns in H as ([code blks] & w' & -> & H). exact H.
  - rewrite H. intros R.
    pose proof (@client_main_ok W CO OO VO RS NO NL RO' _ (reliable_client R) g cfg w Hcfg) as Hok.
    apply wp_returns in Hok as (? & ? & E & _). congruence.
Qed.

End mortal_main.

(** ** A client and its server

    The bench opens the descriptors; a connection that succeeds leads to the
    server of [System] with the store [d], over which the next transfers go
    as a script says. *)

Section desk.
Context (d : disk) (es : list io_event).

Definition desk : Type := bench * conn (server_peer d).

Definition on_bench {A} (m : M bench A) : M desk A := λ w,
  match m w.1 with
  | Ret (a, b) => Ret (a, (b, w.2))
  | Undef => Undef
  | Diverge => Diverge
  | Killed => Killed
  end.

Lemma wp_on_bench {A} (m : M bench A) (Q : A → desk → Prop) (w : desk) :
  wp m (λ a b, Q a (b, w.2)) w.1 → wp (on_bench m) Q w.
Proof.
  rewrite !wp_returns. intros (a & b & E & HQ). exists a, (b, w.2). split; [|done].
  unfold on_bench. by rewrite E.
Qed.

#[local] Instance desk_cluster : ClusterOps desk := {
  clock_monotonic := on_bench clock_monotonic;
  clock_realtime := on_bench clock_realtime;
  sys_usleep us := on_bench (sys_usleep us);
  sys_recvfrom fd n := on_bench (sys_recvfrom fd n);
  sys_socket k := on_bench (sys_socket k);
  sys_bind fd a := on_bench (sys_bind fd a);
  sys_connect fd a :=
    r ← on_bench (sys_connect fd a);
    match r with
    | SysOk _ => modify (λ w : desk, (w.1, fresh_conn d fd es));; mret (SysOk tt)
    | SysErr e => mret (SysErr e)
    end;
  sys_close fd := on_bench (sys_close fd);
  read_urandom n := on_bench (read_urandom n);
  sys_srand x := on_bench (sys_srand x);
  sys_rand := on_bench sys_rand;
  pthread_create t := on_bench (pthread_create t);
  pthread_join t := on_bench (pthread_join t);
  sys_getaddrinfo h p := on_bench (sys_getaddrinfo h p);
}.

#[local] Instance desk_sockopt : SockoptOps desk := {
  sys_setsockopt fd o v := on_bench (sys_setsockopt fd o v);
}.

#[local] Instance desk_server : ServerOps desk := {
  load_running := on_bench load_running;
  sys_getifaddrs := on_bench sys_getifaddrs;
  sys_listen fd n := on_bench (sys_listen fd n);
  sys_accept fd := on_bench (sys_accept fd);
  sys_shutdown fd := on_bench (sys_shutdown fd);
  sys_malloc := on_bench sys_malloc;
  sys_realloc := on_bench sys_realloc;
  sys_free := on_bench sys_free;
  sys_mmap len := on_bench (sys_mmap len);
  sys_munmap := on_bench sys_munmap;
  client_thread_create fd := on_bench (client_thread_create fd);
  thread_tryjoin t := on_bench (thread_tryjoin t);
  thread_join t := on_bench (thread_join t);
}.

#[local] Instance desk_resolve : ResolveOps desk := {
  sys_resolve h f p := on_bench (sys_resolve h f p);
}.

#[local] Instance desk_rpc : RpcOps desk := {
  rpc_get fd id buf := on_snd (rpc_get fd id buf);
  rpc_get_batch fd ids n bufs := on_snd (rpc_get_batch fd ids n bufs);
  rpc_put fd id buf := on_snd (rpc_put fd id buf);
}.

(** The calls of the client, in a process that [SIGPIPE] ends. *)
Definition desk_rpc_fatal : RpcOps desk := {|
  rpc_get fd id buf := on_snd (@rpc_get _ (conn_rpc_fatal d) fd id buf);
  rpc_get_batch fd ids n bufs := on_snd (@rpc_get_batch _ (conn_rpc_fatal d) fd ids n bufs);
  rpc_put fd id buf := on_snd (@rpc_put _ (conn_rpc_fatal d) fd id buf);
|}.

#[local] Program Instance desk_resources : Resources desk := {|
  open_fds w := open_fds w.1;
  joinable w := joinable w.1;
|}.
Next Obligation. intros. apply wp_on_bench, (socket_resources k). Qed.
Next Obligation. intros. apply wp_on_bench, (accept_resources fd). Qed.
Next Obligation. intros. by apply wp_on_bench, (close_resources fd). Qed.
Next Obligation. intros. apply wp_on_bench, (create_resources fd). Qed.
Next Obligation. intros. by apply wp_on_bench, (tryjoin_resources tid). Qed.
Next Obligation. intros. by apply wp_on_bench, (join_resources tid). Qed.
Next Obligation. intros. apply wp_on_bench, (setsockopt_resources fd o v). Qed.
Next Obligation. intros. apply wp_on_bench, (bind_resources fd a). Qed.
Next Obligation.
  intros fd a w. apply wp_bind, wp_on_bench. eapply wp_mono; [apply (connect_resources fd a)|].
  intros [[]|e] b Hb; [apply wp_bind, wp_modify, wp_ret|apply wp_ret]; exact Hb.
Qed.
Next Obligation. intros. apply wp_on_bench, (usleep_resources us). Qed.
Next Obligation. intros. apply wp_on_bench, (listen_resources fd n). Qed.
Next Obligation. intros. apply wp_on_bench, malloc_resources. Qed.
Next Obligation. intros. apply wp_on_bench, realloc_resources. Qed.
Next Obligation. intros. apply wp_on_bench, free_resources. Qed.
Next Obligation. intros. apply wp_on_bench, (mmap_resources len). Qed.
Next Obligation. intros. apply wp_on_bench, munmap_resources. Qed.
Next Obligation. intros. apply wp_on_bench, running_resources. Qed.
Next Obligation. intros. apply wp_on_bench, (shutdown_resources fd). Qed.

#[local] Instance desk_resolver : Resolver desk.
Proof.
  intros h f p w. apply wp_on_bench. eapply wp_mono; [apply (resolve_resources h f p)|]. by intros _ b [].
Qed.

#[local] Program Instance desk_service : PageService desk := {|
  page_of w fd p := page_of w.2 fd p;
  serves w fd p := serves w.2 fd p;
  in_step w fd n := in_step w.2 fd n;
|}.
Next Obligation. intros. apply length_page_of. Qed.
Next Obligation. intros fd n id buf [b k] **. by apply wp_on_snd, rpc_get_ok. Qed.
Next Obligation. intros fd m ids n bufs [b k] **. by apply wp_on_snd, rpc_get_batch_ok. Qed.
Next Obligation. intros fd n id buf [b k] **. by apply wp_on_snd, rpc_put_ok. Qed.

#[local] Instance desk_mortal : Mortal desk_rpc_fatal desk_rpc.
Proof.
  split; intros; unfold rpc_get, rpc_get_batch, rpc_put, desk_rpc, desk_rpc_fatal.
  - by rewrite (mortal_get (RO':=conn_rpc_fatal d)).
  - by rewrite (mortal_get_batch (RO':=conn_rpc_fatal d)).
  - by apply or_killed_on_snd, mortal_put.
  - unfold on_snd. by rewrite (mortal_put_served (RO':=conn_rpc_fatal d)).
Qed.

Lemma on_snd_bench {A} (m : M (conn (server_peer d)) A) (w : desk) a w' :
  on_snd m w = Ret (a, w') → w'.1 = w.1.
Proof. unfold on_snd. destruct (m w.2) as [[? ?]| | |]; by intros [= _ <-]. Qed.

#[local] Program Instance desk_client : ClientWorld desk := {| exported := disk_pages d |}.
Next Obligation.
  intros fd a n w Hn. apply wp_bind, wp_on_bench. eapply wp_mono; [apply (connect_resources fd a)|].
  intros [[]|e] b _; [|by apply wp_ret]. apply wp_bind, wp_modify, wp_ret. by apply fresh_conn_in_step.
Qed.
Next Obligation.
  intros fd o v n w Hw. apply wp_on_bench. eapply wp_mono; [apply (setsockopt_resources fd o v)|done].
Qed.
Next Obligation. intros * H. unfold same_resources. simpl. by rewrite (on_snd_bench _ _ _ _ H). Qed.
Next Obligation. intros * H. unfold same_resources. simpl. by rewrite (on_snd_bench _ _ _ _ H). Qed.
Next Obligation. intros * H. unfold same_resources. simpl. by rewrite (on_snd_bench _ _ _ _ H). Qed.

Lemma desk_reliable : IoBreak ∉ es → reliable.
Proof.
  intros Hes. split.
  - intros fd a w. apply wp_bind, wp_on_bench. eapply wp_mono; [apply (connect_resources fd a)|].
    intros [[]|e] b _; [|by apply wp_ret]. apply wp_bind, wp_modify, wp_ret.
    intros p. by apply fresh_conn_serves.
  - intros fd o v w Hw. apply wp_on_bench. eapply wp_mono; [apply (setsockopt_resources fd o v)|done].
Qed.

End desk.

(** A verification run with one local page, hence four virtual ones, against
    a server with four pages; the first connection is refused, and the
    transfers are rough. *)
Program Definition four_pages : disk := mk_disk 4 (replicate (4 * page_bytes) Byte.x00) _.
Next Obligation.
  unfold UINT32_MAX. split; [lia|]. pose proof page_bytes_Z. unfold zlen, PAGE_SIZE in *.
  rewrite length_replicate. lia.
Qed.

Definition verify_once : dsm_client_config :=
  mk_client_config (Some "localhost"%string) 9999 1 1024 100000 80 10 false true.

(** Its process does not ignore [SIGPIPE]; the connection does not break, so
    it is not killed. *)
Lemma client_main_gives_back_witness :
  let w : desk four_pages := (bench_refused, fresh_conn four_pages 0 []) in
  wp (@client_main _ (desk_sockopt four_pages) (desk_cluster four_pages rough_events)
        (desk_resolve four_pages) (desk_rpc_fatal four_pages) all_grants verify_once [])
    (λ r w', (r.1 = 0 ∨ r.1 = 1) ∧ r.2 = [] ∧
      bench_open w'.1 ≡ₚ bench_open w.1 ∧ bench_threads w'.1 = bench_threads w.1) w.
Proof.
  pose proof (@client_main_gives_back _ (desk_cluster four_pages rough_events) (desk_sockopt four_pages)
    (desk_server four_pages) (desk_resources four_pages rough_events) (desk_resolve four_pages)
    (desk_resolver four_pages rough_events) (desk_rpc four_pages) (desk_service four_pages)
    (desk_client four_pages rough_events) (desk_rpc_fatal four_pages) (desk_mortal four_pages)
    all_grants verify_once (bench_refused, fresh_conn four_pages 0 [])) as H.
  intros w. apply wp_returns. fold w in H.
  destruct (client_main all_grants verify_once [] w) as [[[code blks] w']| | |].
  - exists (code, blks), w'. split; [reflexivity|]. apply H.
    unfold client_config_ok, UINT32_MAX. simpl. split_and!; solve [done | lia].
  - destruct H. unfold client_config_ok, UINT32_MAX. simpl. split_and!; solve [done | lia].
  - destruct H. unfold client_config_ok, UINT32_MAX. simpl. split_and!; solve [done | lia].
  - destruct H.
    + unfold client_config_ok, UINT32_MAX. simpl. split_and!; solve [done | lia].
    + apply desk_reliable, rough_events_calm.
Defined.
